(* ===== verification/_CoqProject ===== *)
-Q . S2P
Prelude.v
GoBase.v
Utf8.v
StreamFilter.v
QueryStripper.v
PrimaryFilter.v
Recorder.v
FrameDecoder.v
Recording.v
Wire.v
State.v
Terminal.v
Replay.v
Channel.v
Pty.v
PtySafety.v
PtyKeeps.v
Delivery.v
PtyLive.v
SessionLog.v
PtyRoutes.v
Dispatcher.v
Linear.v
PtyAtomic.v
GoStrings.v
Paths.v
Ssh.v
Cli.v
Service.v
Main.v
Flags.v
Tunnel.v
Bootstrap.v
Installer.v
Remotes.v
ChordFsm.v
Restorer.v
AttachSet.v
ShortId.v
Store.v
Hud.v
Events.v
Registry.v
AttachHandler.v
AttachClient.v
EndToEnd.v
Sizes.v
Heartbeat.v
ClientSession.v
Typing.v
Room.v
RoomClients.v
RoomSizes.v
RoomPanics.v
RoomViews.v
RoomRest.v
LeftBehind.v
Http.v
Spawn.v
Serve.v
Picker.v
Verbs.v
Control.v
Launch.v
Tail.v
Socket.v
Words.v
Bridge.v
WebView.v
Usage.v
Snapshot.v
Harness.v
Stdin.v
StateViews.v
