(* ===== verification/Prelude.v ===== *)
(** * hootty: a verification library

    [hoot] keeps a terminal session alive in a background process.  A session
    process ([session.go], [cmd/hoot/service.go]) runs a command on a PTY
    ([pty_libghostty.go]), feeds its output to a terminal emulator, records it in
    [hootty.log] ([recorder.go]) and serves HTTP on a unix socket.  [hoot attach]
    ([cmd/hoot/attach.go]) upgrades one such connection to a framed protocol
    ([internal/attachwire]) served by [attach_handler.go]; it gets the screen,
    then the live output, and sends keys and sizes.  State is mirrored in
    [state.json] ([store.go], [attach_registry.go]); [hoot log] replays the
    recording; remote sessions are reached through ssh ([cmd/hoot/remote.go],
    [internal/sshtransport], [internal/bootstrap]).

    ** Conventions

    A byte is a [Z] in [0,256), a Go string or byte slice a [list Z], a [uintN]
    a [Z] with its wrap-around written out ([GoBase]).  A Go function with an
    error result returns [res E A]; a run-time panic is [None] where the model
    can panic; a method returns the new receiver.  The clock, random bytes, the
    operating system and the peer are arguments or scripts of answers.  Code
    outside the repository is a Section variable: the emulator ([TermOps] with
    the laws [TermLaws], a [Class] with the instance [tape]), [encoding/json]
    ([marshal]/[unmarshal]), [strings.ToLower]/[ToUpper], [url.Parse],
    [sha256.Sum256].

    ** Files

    - [Prelude], [GoBase], [Utf8], [GoStrings], [Paths], [Channel]: tactics,
      hints and the parts of Go the program uses, written out: widths, endian
      codings, readers and writers that can fail, UTF-8, [strings], [path],
      channels.
    - [StreamFilter]: the interface of the two byte filters; [QueryStripper]
      ([vtquery_stripper.go]) and [PrimaryFilter] ([vtprimary_filter.go])
      implement it.  [stripper_sound], [stripper_drops_query]: what passes is
      the input less whole queries; [primary_tokens]: what the mirror shows.
    - [Recorder], [FrameDecoder], [Recording], [Replay] ([recorder.go],
      [replay.go], [cmd/hoot/log.go]): writer and reader of [hootty.log], with
      [arec] as the abstract recording.  [recorder_refines],
      [recording_faithful] (round trip), [recording_truncated] (a crash loses a
      suffix), [decode_exact], [decode_terminates], [asciicast_complete].
    - [Terminal], [Pty], [PtySafety], [Delivery], [SessionLog], [PtyRoutes],
      [Dispatcher] ([pty_libghostty.go] and its routes): the operations of the
      PTY as actions ([Pty]), their safety under any interleaving
      ([pty_never_panics]), the stream a subscriber gets ([snapshot_then_live],
      [Delivery.delivers]), the recording against the live screen
      ([hoot_log_shows_session]), the HTTP handlers ([handleInput_cases]) and the
      goroutine protocol behind [do] and [Close] ([do_protocol]).  [PtyKeeps],
      [PtyLive]: what an operation leaves alone, and the subscription that lives
      through it.  [Linear], [PtyAtomic]: concurrent callers of [do] over the
      [Dispatcher], with the history of their calls and returns
      ([do_linearizes]); the PTY's public operations as such calls are those of
      one caller in an order that respects time ([pty_linearizable]), closing
      included.  [late_subscriber_waits] and [resize_race] show where a caller is
      not protected: a stream handed out by a closed PTY, and the two calls of
      one resize.
    - [Wire] ([internal/attachwire]): frames over a byte stream
      ([wire_roundtrip], [ReadFrame_exact]).
    - [AttachSet] ([attach.go]), [AttachHandler] ([attach_handler.go]): size
      negotiation ([attach_set_min_wins]) and the three goroutines of an
      attachment as a step relation ([attach_frame_order];
      [attach_teardown_panics] and [attach_can_hang] show two defects).
      [received] is what the connection carries to the client: the frames of the
      writer goroutine, the notice of [hoot detach] that another goroutine puts
      between two of them, and the message [ServeHTTP] ends with.
    - [AttachClient], [ChordFsm], [Restorer], [Hud] ([cmd/hoot/attach.go],
      [attach_fsm.go], [attach_restorer.go], [title.go], and
      [internal/sessionpick]): the client: its read loop, its reconnect loop
      ([connect_loop_persists]), its end ([attach_loop_terminal]), the prefix
      key ([chord_transparent]; [chord_detaches], in every form of a key report
      that the matcher reads), the terminal given back
      ([restorer_balances]), the title ([hud_title_safe]).
    - [Room] (many [serveOne]s over one PTY, attach set and registry): the
      attachments of a session as one step relation, with the [sendSize] calls
      they owe each other.  [room_refines]: to each client it is a run of
      [AttachHandler], whose theorems so hold of it, and no run panics: a call on
      a closed queue is recovered by [net/http] and unwinds its own [serveOne];
      [dead_client_stops_others]
      ([RoomClients]): a client that no longer reads stops the others;
      [sizes_agree] and [sizes_race] ([RoomSizes]): when all are told the size
      the session has, and when not; [panic_leaves_ghost] ([RoomPanics]): the
      unwound client whose size stays; [room_end_to_end] ([RoomViews]): what every
      client shows; [room_rests] ([RoomRest]): while the connections work, no
      goroutine of the session waits for ever.  [LeftBehind]: those that do
      ([refused_writer_waits], [close_full_strands]), and a client whose snapshot
      is longer than a frame ([oversize_snapshot_blank]).
    - [ClientSession], [Heartbeat] ([runSession]): the client's goroutines.
      [session_ends]: once asked to end it does; [session_heart],
      [heartbeat_bounds]: pings and the watchdog; [watchdog_starves] and
      [hello_overtaken] are two defects.  [Stdin]: the goroutine that reads the
      keyboard and the channel to the chord machine ([stdin_in_order],
      [stdin_all_read]; [keys_held]: the keys it swallows at the end).
    - [EndToEnd]: server, wire and client composed ([attach_end_to_end]);
      [Typing]: the way back, from the keyboard through [ClientSession] to the
      PTY ([typing_end_to_end]); [Sizes]: the sizes and frames that go through
      are well typed ([sizes_well_typed]).
    - [State], [Store], [ShortId], [Events], [Registry] ([state.go], [store.go],
      [atomic.go], [flock.go], [internal/shortid], [eventbus.go],
      [attach_registry.go], the routes of [session.go]): the session's directory
      ([AtomicWriteJSON_safe], [writer_exclusive_and_visible]), ids
      ([Generate_spec], [Resolve_spec]), the mirror ([registry_mirrors]).
      [StateViews]: what reads the state ([readers_agree], [log_header_atomic];
      [failed_update_seen]: the update that was refused and is served).
    - [Service] ([cmd/hoot/service.go], [Runner.Run]): the published life of the
      child ([run_life_cycle]), signals ([handleSignal_answered]) and its
      environment.
    - [Main], [Flags], [Cli] ([main.go], Go's [flag] package, the argument
      parsers): [write_escapes_any_bytes], [env_overrides_read].
    - [Spawn] ([spawn.go], [cmd/hoot/session.go]): a session process started, and
      what it makes of its command line ([spawn_starts_session]), its
      environment ([session_env]), the wait for its socket
      ([waitForSocket_exact]).
    - [Picker] ([picker.go]): which session a verb means
      ([resolveSessionKey_spec]).  [Verbs], [Launch] ([kill.go], [write.go],
      [detach.go], [list.go]; [run.go], [shell.go], [clone.go], [cmdAttach],
      [log.go], [install_remote.go]): the subcommands, from the command line to
      the requests, processes and attach calls they make ([run_starts]).
      [Control] follows a request to the session it reaches, over a connection
      that may lose the answer ([kill_delivers], [write_delivers]).
    - [Ssh], [Bootstrap] (ssh tunnels and remote installs): socket paths
      ([tunnel_plan_fits]), what the remote shell reads ([remote_scripts_read],
      by a lexer of the POSIX shell), the download cache and what an installation
      runs ([Installer], [install_ships]) and the tunnel's life
      ([remote_protocol]; its process is in [Tunnel], HTTP remotes in
      [Remotes]).  [Socket]: listening and dialing, with the change
      of directory for long paths ([chdir_dance]).
    - [Http], [Serve], [Words], [Bridge], [WebView] ([serve.go],
      [serve_spawn.go], [serve_bridge.go]): the gateway's routes and the URLs
      clients build ([remote_urls_route]), its handlers ([createSession_spec],
      [cloneSession_spec]), its tokenizer against the shell's
      ([splitCmd_posix]), the browser's bridge ([bridge_up]) and what a browser
      shows ([browser_end_to_end]).
    - [Tail] ([tailfile.go], [poll.go]): [TailFile_exact].
    - [Usage]: the usage texts of the subcommands byte for byte, and the flags
      they document against the flag sets of the parsers ([usage_flags_exact],
      [main_usage_exact]; [log_examples_refused]: two printed examples that the
      parser refuses).
    - [Snapshot], [Harness] ([internal/attachetest]): the text of a terminal, from
      which what it shows can be read back ([snapshot_shows]), and the fixtures of
      the attach tests: the waits ([wait_for_ok]), the golden files
      ([golden_roundtrip]) and the remote ([remote_closes]).

    ** Fuel

    Loops without a structural measure take a fuel computed from their input:
    the decoders and readers use the bytes left plus one ([decode_terminates]
    shows it is never reached), [Fields], [TrimSpace], [Unquote] and the UTF-8
    loops the length of the string (each step removes a byte), the stripper
    none.  The reconnect loop is structural on the script of attempts; its
    back-off tier is an [int32] ([waitBackoff_wraps]), so that
    [connect_loop_persists] bounds the length of the script.

    ** Not modelled

    The system calls behind processes, sockets and the terminal
    (fork, exec, listen, ssh, curl, termios), whose answers are arguments; the
    HTTP server and client, JSON and WebSocket libraries; the emulator itself;
    the web interface and the install scripts.  Go's memory model is not:
    goroutines interleave at channel operations and lock boundaries, and a frame
    is written whole even where the code does not hold [writeMu] ([ServeHTTP]'s
    last one).  The
    races of the registry and of [state.json] are shown on those components, and
    not again in [Room], where their operations are atomic.

    ** Bounds

    Frames are bounded by [MaxPayload] (16 MiB), [outCh] by 256 frames, a
    subscriber by 256 chunks, as in the code; a clock
    reading is an integer, in the unit of the durations it is compared with. *)
From stdpp Require Export base tactics list gmap strings numbers fin_maps.
From Stdlib Require Export ZArith Lia.

(** [lia] sees through [/] and [mod] by constants, the operations the fixed
    width integers of the program are written with. *)
Ltac Zify.zify_post_hook ::= Z.to_euclidean_division_equations.

Declare Scope hoot_scope.
Delimit Scope hoot_scope with hoot.

(** ** Results and errors

    A Go function that returns [(v, err)] returns a [res]: [Ok v] when [err] is
    nil, [Err e] otherwise. *)
Inductive res (E A : Type) : Type :=
| Ok (a : A)
| Err (e : E).
Arguments Ok {E A} a.
Arguments Err {E A} e.

#[export] Instance res_ret E : MRet (res E) := λ A a, Ok a.
#[export] Instance res_bind E : MBind (res E) := λ A B f m,
  match m with Ok a => f a | Err e => Err e end.
#[export] Instance res_fmap E : FMap (res E) := λ A B f m,
  match m with Ok a => Ok (f a) | Err e => Err e end.

#[export] Instance res_eq_dec E A `{EqDecision E, EqDecision A} :
  EqDecision (res E A).
Proof. solve_decision. Defined.

Definition is_ok {E A} (r : res E A) : bool :=
  match r with Ok _ => true | Err _ => false end.

(** ** Stateful, fallible code

    [st S E A] is code that threads a state [S] and may stop with an error [E];
    the state reached at the error is kept, as it is in Go. *)
Definition st (S E A : Type) : Type := S → res E A * S.

#[export] Instance st_ret S E : MRet (st S E) := λ A a s, (Ok a, s).
#[export] Instance st_bind S E : MBind (st S E) := λ A B f m s,
  match m s with
  | (Ok a, s') => f a s'
  | (Err e, s') => (Err e, s')
  end.

Definition st_get {S E} : st S E S := λ s, (Ok s, s).
Definition st_put {S E} (s' : S) : st S E unit := λ _, (Ok tt, s').
Definition st_modify {S E} (f : S → S) : st S E unit := λ s, (Ok tt, f s).
Definition st_fail {S E A} (e : E) : st S E A := λ s, (Err e, s).

Lemma st_bind_ok {S E A B} (m : st S E A) (f : A → st S E B) s a s' :
  m s = (Ok a, s') → (m ≫= f) s = f a s'.
Proof. intros H. unfold mbind, st_bind. by rewrite H. Qed.

Lemma st_bind_err {S E A B} (m : st S E A) (f : A → st S E B) s e s' :
  m s = (Err e, s') → (m ≫= f) s = (Err e, s').
Proof. intros H. unfold mbind, st_bind. by rewrite H. Qed.

(** ** Tactics *)

(** Case split on every boolean test or match scrutinee of the goal. *)
Ltac split_ifs :=
  repeat match goal with
  | |- context [if ?b then _ else _] => destruct b eqn:?
  end.

(** Case split on the matches of the goal, simplifying as it goes. *)
Ltac split_matches := repeat (case_match; simplify_eq/=).

(** Turn boolean facts into propositions. *)
Ltac bools :=
  repeat match goal with
  | H : _ && _ = true |- _ => apply andb_prop in H; destruct H
  | H : _ || _ = false |- _ => apply orb_false_elim in H; destruct H
  | H : _ || _ = true |- _ => apply orb_prop in H
  | H : negb _ = true |- _ => apply negb_true_iff in H
  | H : negb _ = false |- _ => apply negb_false_iff in H
  | H : bool_decide _ = true |- _ => apply bool_decide_eq_true in H
  | H : bool_decide _ = false |- _ => apply bool_decide_eq_false in H
  end.

(** ** Shared list lemmas *)

Section lists.
Context {A : Type}.
Implicit Types l k : list A.

Lemma last_snoc_inv l x : last l = Some x → l = removelast l ++ [x].
Proof.
  intros H. rewrite last_Some in H. destruct H as [l' ->].
  by rewrite removelast_last.
Qed.

Lemma list_snoc_case l : l = [] ∨ ∃ k x, l = k ++ [x].
Proof. destruct l as [|x k _] using rev_ind; eauto. Qed.

Lemma take_app_le n l k : n ≤ length l → take n (l ++ k) = take n l.
Proof. intros H. rewrite take_app. replace (n - length l) with 0 by lia.
  by rewrite take_0, app_nil_r. Qed.

Lemma drop_app_le' n l k : n ≤ length l → drop n (l ++ k) = drop n l ++ k.
Proof. intros H. rewrite drop_app. replace (n - length l) with 0 by lia.
  by rewrite drop_0. Qed.

Lemma Forall_removelast (P : A → Prop) l : Forall P l → Forall P (removelast l).
Proof.
  induction 1 as [|x l Hx Hl IH]; [done|]. simpl. destruct l; [done|].
  by constructor.
Qed.

Lemma prefix_one l k : l `prefix_of` k → length k ≤ 1 → l = [] ∨ l = k.
Proof.
  intros [r ->] Hl. destruct l as [|x l]; [by left|right]. rewrite length_app in Hl. cbn in Hl.
  destruct r; [by rewrite app_nil_r|cbn in Hl; lia].
Qed.

Lemma prefix_app_cases l k r : l `prefix_of` k ++ r → l `prefix_of` k ∨ ∃ m, l = k ++ m ∧ m `prefix_of` r.
Proof.
  intros [s E]. destruct (app_eq_inv _ _ _ _ E) as [(m & -> & ->)|(m & -> & ->)]; [left; by eexists|right].
  exists m. split; [done|by eexists].
Qed.
End lists.

Create Rewrite HintDb hoot.
#[export] Hint Rewrite @length_app @length_take @length_drop @app_nil_r : hoot.
Create HintDb hoot.
#[export] Hint Resolve Forall_removelast : hoot.
