(* ===== verification/GoBase.v ===== *)
(** * The Go runtime the program is written against

    Fixed-width integers, bytes, little-endian encoding ([encoding/binary]),
    readers and writers ([io.Reader], [io.ReadFull], [io.Writer]) and the
    [strings]/[strconv] functions the components share.  A byte is a [Z] in
    [0,256); a Go [string] or [[]byte] is a [list Z]. *)
From S2P Require Import Prelude.
Open Scope Z_scope.

Abbreviation byte := Z.

(** ** Fixed-width unsigned integers *)

Definition u8 (z : Z) : Z := z mod 2 ^ 8.
Definition u16 (z : Z) : Z := z mod 2 ^ 16.
Definition u32 (z : Z) : Z := z mod 2 ^ 32.
Definition u64 (z : Z) : Z := z mod 2 ^ 64.

(** Two's complement reading of the low [w] bits. *)
Definition signed (w : Z) (z : Z) : Z :=
  let m := z mod 2 ^ w in if m <? 2 ^ (w - 1) then m else m - 2 ^ w.
Definition i32 (z : Z) : Z := signed 32 z.
Definition i64 (z : Z) : Z := signed 64 z.

Lemma u16_small z : 0 <= z < 65536 → u16 z = z.
Proof. unfold u16. intros. apply Z.mod_small. lia. Qed.
Lemma u32_small z : 0 <= z < 2 ^ 32 → u32 z = z.
Proof. unfold u32. intros. apply Z.mod_small. lia. Qed.
Lemma u64_small z : 0 <= z < 2 ^ 64 → u64 z = z.
Proof. unfold u64. intros. apply Z.mod_small. lia. Qed.
Lemma u64_range z : 0 <= u64 z < 2 ^ 64.
Proof. unfold u64. apply Z.mod_pos_bound. lia. Qed.
Lemma u16_range z : 0 <= u16 z < 65536.
Proof. unfold u16. apply Z.mod_pos_bound. lia. Qed.
Lemma i32_small z : - 2 ^ 31 <= z < 2 ^ 31 → i32 z = z.
Proof.
  unfold i32, signed. intros. destruct (Z.ltb_spec (z mod 2 ^ 32) (2 ^ (32 - 1)));
    change (2 ^ (32 - 1)) with (2 ^ 31) in *; lia.
Qed.
Lemma i64_small z : - 2 ^ 63 <= z < 2 ^ 63 → i64 z = z.
Proof.
  unfold i64, signed. intros. destruct (Z.ltb_spec (z mod 2 ^ 64) (2 ^ (64 - 1)));
    change (2 ^ (64 - 1)) with (2 ^ 63) in *; lia.
Qed.

(** ** Bytes and string literals *)

Definition is_byte (b : byte) : Prop := 0 <= b < 256.
Abbreviation bytes_ok bs := (Forall is_byte bs).

#[export] Instance is_byte_dec b : Decision (is_byte b).
Proof. unfold is_byte. apply _. Defined.

(** The bytes of an ASCII literal. *)
Fixpoint bytes_of_string (s : string) : list byte :=
  match s with
  | EmptyString => []
  | String a s' => Z.of_N (Ascii.N_of_ascii a) :: bytes_of_string s'
  end.
Notation "'B' s" := (bytes_of_string s%string) (at level 9, s at level 8).

(** The code of an ASCII character, as Go's rune literals. *)
Definition chr (s : string) : byte :=
  match s with String a _ => Z.of_N (Ascii.N_of_ascii a) | EmptyString => 0 end.

Definition ESC : byte := 27.

Lemma bytes_of_string_ok s : bytes_ok (bytes_of_string s).
Proof.
  induction s as [|a s IH]; constructor; [|done].
  pose proof (Ascii.N_ascii_bounded a). unfold is_byte. lia.
Qed.

(** ** Little-endian encoding: [binary.LittleEndian] *)

Fixpoint le_put (n : nat) (v : Z) : list byte :=
  match n with
  | O => []
  | S n' => Z.land v 255 :: le_put n' (Z.shiftr v 8)
  end.

Fixpoint le_get (bs : list byte) : Z :=
  match bs with
  | [] => 0
  | b :: bs' => Z.lor b (Z.shiftl (le_get bs') 8)
  end.

Definition PutUint16 (v : Z) : list byte := le_put 2 v.
Definition PutUint32 (v : Z) : list byte := le_put 4 v.

Lemma land_shiftl_low a b n :
  0 <= n → 0 <= a < 2 ^ n → Z.land (Z.shiftl b n) a = 0.
Proof.
  intros Hn Ha. apply Z.bits_inj'. intros i Hi. rewrite Z.land_spec, Z.bits_0.
  destruct (Z.ltb_spec i n); [by rewrite Z.shiftl_spec_low|].
  rewrite (Z.testbit_eqb a), Z.div_small, Zmod_0_l
    by (try lia; assert (2 ^ n <= 2 ^ i) by (apply Z.pow_le_mono_r; lia); lia).
  simpl. by rewrite andb_false_r.
Qed.

Lemma lor_shiftl_add a b n :
  0 <= n → 0 <= a < 2 ^ n → Z.lor a (Z.shiftl b n) = a + b * 2 ^ n.
Proof.
  intros Hn Ha. rewrite Z.lor_comm, <- Z.lxor_lor, <- Z.add_nocarry_lxor
    by (by apply land_shiftl_low).
  rewrite Z.shiftl_mul_pow2 by done. lia.
Qed.

Lemma le_put_length n v : length (le_put n v) = n.
Proof. revert v. induction n as [|n IH]; intros v; simpl; [done|by rewrite IH]. Qed.

Lemma land_255 v : Z.land v 255 = v mod 256.
Proof. exact (Z.land_ones v 8 ltac:(lia)). Qed.

Lemma le_put_ok n v : bytes_ok (le_put n v).
Proof.
  revert v. induction n as [|n IH]; intros v; constructor; [|done].
  rewrite land_255. unfold is_byte. lia.
Qed.

(** [LittleEndian.UintN] reads back what [LittleEndian.PutUintN] wrote. *)
Lemma le_get_put n v : le_get (le_put n v) = v mod 2 ^ (8 * Z.of_nat n).
Proof.
  revert v. induction n as [|n IH]; intros v; cbn [le_put le_get].
  - by rewrite Z.mod_1_r.
  - rewrite IH, land_255, lor_shiftl_add by lia.
    rewrite Z.shiftr_div_pow2 by lia. change (2 ^ 8) with 256.
    replace (8 * Z.of_nat (S n)) with (8 + 8 * Z.of_nat n) by lia.
    rewrite Z.pow_add_r by lia. change (2 ^ 8) with 256.
    rewrite (Z.rem_mul_r v 256) by (pose proof (Z.pow_pos_nonneg 2 (8 * Z.of_nat n)); lia).
    lia.
Qed.

Lemma le_get_put_small n v : 0 <= v < 2 ^ (8 * Z.of_nat n) → le_get (le_put n v) = v.
Proof. intros. rewrite le_get_put. by apply Z.mod_small. Qed.

Lemma le_get_range bs : bytes_ok bs → 0 <= le_get bs < 2 ^ (8 * Z.of_nat (length bs)).
Proof.
  induction 1 as [|b bs Hb Hbs IH]; simpl; [lia|].
  unfold is_byte in Hb. rewrite lor_shiftl_add by lia.
  replace (8 * Z.of_nat (S (length bs))) with (8 + 8 * Z.of_nat (length bs)) by lia.
  rewrite Z.pow_add_r by lia. change (2 ^ 8) with 256. lia.
Qed.

(** ... and what it reads is what [PutUintN] would have written. *)
Lemma le_put_get bs : bytes_ok bs → le_put (length bs) (le_get bs) = bs.
Proof.
  induction 1 as [|b bs Hb Hbs IH]; [done|]. cbn [length le_put le_get].
  unfold is_byte in Hb. rewrite land_255, Z.shiftr_div_pow2, lor_shiftl_add by lia.
  change (2 ^ 8) with 256. f_equal; [lia|].
  replace ((b + le_get bs * 256) / 256) with (le_get bs) by lia. done.
Qed.

(** ** Errors of readers and writers *)

(** [NilDeref] is a nil pointer dereference, a panic in Go. *)
Inductive io_error := EOF | ErrUnexpectedEOF | ErrIO (code : nat) | NilDeref.

#[export] Instance io_error_eq_dec : EqDecision io_error.
Proof. solve_decision. Defined.

(** ** [io.Reader]

    What is still to be read, and what [Read] returns once it has run out:
    [EOF] for a file or a connection the peer closed, another error for a
    broken one. *)
Record reader := Reader { rd_data : list byte; rd_fin : io_error }.

(** [io.ReadFull(r, buf)] with [len(buf) = n]: [EOF] only at a clean boundary,
    [ErrUnexpectedEOF] inside the buffer. *)
Definition ReadFull (n : nat) (r : reader) : res io_error (list byte) * reader :=
  if decide (n ≤ length (rd_data r))%nat
  then (Ok (take n (rd_data r)), Reader (drop n (rd_data r)) (rd_fin r))
  else (Err match rd_fin r with
            | EOF => match rd_data r with [] => EOF | _ => ErrUnexpectedEOF end
            | e => e
            end, Reader [] (rd_fin r)).

Lemma ReadFull_app n a b fin :
  length a = n → ReadFull n (Reader (a ++ b) fin) = (Ok a, Reader b fin).
Proof.
  intros <-. unfold ReadFull. simpl. rewrite decide_True by (rewrite length_app; lia).
  by rewrite take_app_length, drop_app_length.
Qed.

Lemma ReadFull_short n bs fin :
  (length bs < n)%nat →
  ReadFull n (Reader bs fin) =
    (Err match fin with
         | EOF => match bs with [] => EOF | _ => ErrUnexpectedEOF end
         | e => e end, Reader [] fin).
Proof. intros H. unfold ReadFull. simpl. rewrite decide_False by lia. by destruct fin. Qed.

(** ** [io.Writer]

    What has been written, and what the next [Write] calls will do: [None]
    writes everything, [Some (k, e)] writes [k] bytes and fails with [e] (an
    [io.Writer] that writes less than it was given returns an error).  A writer
    whose list has run out never fails. *)
Record writer := Writer { w_out : list byte; w_plan : list (option (nat * io_error)) }.

Definition Write (bs : list byte) : st writer io_error unit := λ w,
  match w_plan w with
  | [] => (Ok tt, Writer (w_out w ++ bs) [])
  | None :: p => (Ok tt, Writer (w_out w ++ bs) p)
  | Some (k, e) :: p => (Err e, Writer (w_out w ++ take k bs) p)
  end.

(** A writer over a medium that does not fail. *)
Definition sink (bs : list byte) : writer := Writer bs [].

Lemma Write_sink bs out : Write bs (sink out) = (Ok tt, sink (out ++ bs)).
Proof. done. Qed.

(** ** [strconv.Itoa] on naturals

    The fuel is a bound on the number of digits ([Itoa_value]). *)
Fixpoint itoa_loop (fuel : nat) (n : Z) (acc : list byte) : list byte :=
  match fuel with
  | O => acc
  | S fuel' =>
      let acc := (48 + n mod 10) :: acc in
      if n <? 10 then acc else itoa_loop fuel' (n / 10) acc
  end.

Definition Itoa (n : Z) : list byte := itoa_loop (S (Z.to_nat (Z.log2 n))) n [].

Definition dec_value (bs : list byte) : Z := foldl (λ v c, v * 10 + (c - 48)) 0 bs.

Lemma itoa_loop_value fuel n acc :
  0 <= n → n < 2 ^ Z.of_nat fuel → ∃ ds,
    itoa_loop fuel n acc = ds ++ acc ∧ dec_value ds = n ∧ Forall (λ c, 48 <= c <= 57) ds.
Proof.
  revert n acc. induction fuel as [|fuel IH]; intros n acc H0 Hn; cbn [itoa_loop].
  - exists []. change (2 ^ Z.of_nat 0) with 1 in Hn. split; [done|]. split; [cbn; lia|done].
  - destruct (Z.ltb_spec n 10) as [H|H].
    + exists [48 + n mod 10]. split; [done|]. split; [cbn; rewrite Z.mod_small; lia|].
      constructor; [lia|done].
    + replace (2 ^ Z.of_nat (S fuel)) with (2 * 2 ^ Z.of_nat fuel) in Hn
        by (rewrite Nat2Z.inj_succ, Z.pow_succ_r; lia).
      destruct (IH (n / 10) ((48 + n mod 10) :: acc)) as (ds & -> & Hv & Hd); [lia|lia|].
      exists (ds ++ [48 + n mod 10]). split; [by rewrite <- app_assoc|]. split.
      * unfold dec_value in *. rewrite foldl_app, Hv. cbn. lia.
      * apply Forall_app. split; [done|]. constructor; [lia|done].
Qed.

Lemma Itoa_value n : 0 <= n → dec_value (Itoa n) = n ∧ Forall (λ c, 48 <= c <= 57) (Itoa n).
Proof.
  intros H. destruct (itoa_loop_value (S (Z.to_nat (Z.log2 n))) n []) as (ds & E & Hv & Hd); [done| |].
  - pose proof (Z.log2_nonneg n). rewrite Nat2Z.inj_succ, Z2Nat.id by done.
    destruct (Z.eq_dec n 0) as [->|]; [done|]. apply Z.log2_spec. lia.
  - unfold Itoa. by rewrite E, app_nil_r.
Qed.
