(* ===== verification/Utf8.v ===== *)
(** * Go strings as runes: [range s], [[]rune(s)], [string(runes)]

    The UTF-8 decoder and encoder of the Go runtime: an invalid byte decodes to
    U+FFFD and one byte; the encoder writes U+FFFD for anything that is not a
    Unicode scalar value. *)
From S2P Require Import Prelude GoBase.
Open Scope Z_scope.

Abbreviation rune := Z.

Definition RuneError : rune := 65533.

Definition in_range (lo hi b : Z) : bool := (lo <=? b) && (b <=? hi).

(** A continuation byte. *)
Definition cont (b : byte) : bool := in_range 128 191 b.

(** What the second byte may be, after a first byte of three or four. *)
Definition second3 (b0 b1 : byte) : bool :=
  if b0 =? 224 then in_range 160 191 b1
  else if b0 =? 237 then in_range 128 159 b1
  else cont b1.
Definition second4 (b0 b1 : byte) : bool :=
  if b0 =? 240 then in_range 144 191 b1
  else if b0 =? 244 then in_range 128 143 b1
  else cont b1.

(** [utf8.DecodeRuneInString]: the rune and its width. *)
Definition DecodeRune (s : list byte) : option (rune * nat) :=
  match s with
  | [] => None
  | b0 :: s1 =>
      Some (if b0 <? 128 then (b0, 1%nat)
      else if in_range 194 223 b0 then
        match s1 with
        | b1 :: _ => if cont b1 then ((b0 mod 32) * 64 + b1 mod 64, 2%nat) else (RuneError, 1%nat)
        | _ => (RuneError, 1%nat)
        end
      else if in_range 224 239 b0 then
        match s1 with
        | b1 :: b2 :: _ =>
            if second3 b0 b1 && cont b2
            then ((b0 mod 16) * 4096 + (b1 mod 64) * 64 + b2 mod 64, 3%nat) else (RuneError, 1%nat)
        | _ => (RuneError, 1%nat)
        end
      else if in_range 240 244 b0 then
        match s1 with
        | b1 :: b2 :: b3 :: _ =>
            if second4 b0 b1 && cont b2 && cont b3
            then ((b0 mod 8) * 262144 + (b1 mod 64) * 4096 + (b2 mod 64) * 64 + b3 mod 64, 4%nat)
            else (RuneError, 1%nat)
        | _ => (RuneError, 1%nat)
        end
      else (RuneError, 1%nat))
  end.

(** Unicode scalar values. *)
Definition scalar (r : rune) : bool := in_range 0 55295 r || in_range 57344 1114111 r.

(** [utf8.AppendRune] on an empty slice. *)
Definition EncodeRune (r : rune) : list byte :=
  let r := if scalar r then r else RuneError in
  if r <? 128 then [r]
  else if r <? 2048 then [192 + r / 64; 128 + r mod 64]
  else if r <? 65536 then [224 + r / 4096; 128 + (r / 64) mod 64; 128 + r mod 64]
  else [240 + r / 262144; 128 + (r / 4096) mod 64; 128 + (r / 64) mod 64; 128 + r mod 64].

(** [for i, r := range s]: the offset of each rune, and the rune.  The fuel is
    the length. *)
Fixpoint range_loop (fuel : nat) (i : nat) (s : list byte) : list (nat * rune) :=
  match fuel with
  | O => []
  | S fuel' =>
      match DecodeRune s with
      | None => []
      | Some (r, w) => (i, r) :: range_loop fuel' (i + w) (drop w s)
      end
  end.

Definition range_string (s : list byte) : list (nat * rune) := range_loop (length s) 0 s.
Definition runes (s : list byte) : list rune := (range_string s).*2.
Definition of_runes (rs : list rune) : list byte := rs ≫= EncodeRune.

(** ** Lemmas *)

Ltac rng := repeat match goal with
  | H : in_range _ _ _ = true |- _ => apply andb_prop in H as [H%Z.leb_le ?%Z.leb_le]
  | H : in_range _ _ _ = false |- _ => apply andb_false_iff in H as [H%Z.leb_gt|H%Z.leb_gt]
  | H : (_ <? _) = true |- _ => apply Z.ltb_lt in H
  | H : (_ <? _) = false |- _ => apply Z.ltb_ge in H
  | H : (_ =? _) = true |- _ => apply Z.eqb_eq in H
  | H : (_ =? _) = false |- _ => apply Z.eqb_neq in H
  end.

Lemma in_range_true lo hi b : lo <= b <= hi → in_range lo hi b = true.
Proof. intros []. unfold in_range. by rewrite !(proj2 (Z.leb_le _ _)). Qed.
Lemma in_range_false lo hi b : b < lo ∨ hi < b → in_range lo hi b = false.
Proof.
  unfold in_range. intros [H|H].
  - by rewrite (proj2 (Z.leb_gt lo b) H).
  - by rewrite (proj2 (Z.leb_gt b hi) H), andb_false_r.
Qed.

Lemma cont_enc x : cont (128 + x mod 64) = true.
Proof. apply in_range_true. lia. Qed.
Lemma mod_enc x : (128 + x mod 64) mod 64 = x mod 64.
Proof. rewrite Z.add_mod, Z.mod_mod by lia. change (128 mod 64) with 0. by rewrite Z.add_0_l, Z.mod_mod. Qed.

Lemma DecodeRune_ascii b s : 0 <= b < 128 → DecodeRune (b :: s) = Some (b, 1%nat).
Proof. intros H. unfold DecodeRune. by rewrite (proj2 (Z.ltb_lt b 128)) by lia. Qed.

Lemma second3_enc r :
  2048 <= r < 65536 → scalar r = true →
  second3 (224 + r / 4096) (128 + (r / 64) mod 64) = true.
Proof.
  intros Hr Hs. unfold second3, scalar in *. apply orb_prop in Hs.
  destruct (224 + r / 4096 =? 224) eqn:E0; rng; [apply in_range_true; lia|].
  destruct (224 + r / 4096 =? 237) eqn:E1; rng; [|apply cont_enc].
  apply in_range_true. destruct Hs as [Hs|Hs]; rng; lia.
Qed.

Lemma second4_enc r :
  65536 <= r <= 1114111 → second4 (240 + r / 262144) (128 + (r / 4096) mod 64) = true.
Proof.
  intros Hr. unfold second4.
  destruct (240 + r / 262144 =? 240) eqn:E0; rng; [apply in_range_true; lia|].
  destruct (240 + r / 262144 =? 244) eqn:E1; rng; [|apply cont_enc].
  apply in_range_true. lia.
Qed.

(** The decoder reads back what the encoder wrote. *)
Lemma Decode_Encode r s :
  scalar r = true → DecodeRune (EncodeRune r ++ s) = Some (r, length (EncodeRune r)).
Proof.
  intros Hs. assert (0 <= r <= 1114111) as Hr
    by (unfold scalar in Hs; apply orb_prop in Hs as [Hs|Hs]; rng; lia).
  unfold EncodeRune. rewrite Hs.
  destruct (r <? 128) eqn:E1; rng; [cbn [app length]; apply DecodeRune_ascii; lia|].
  destruct (r <? 2048) eqn:E2; rng; [|destruct (r <? 65536) eqn:E3; rng]; unfold DecodeRune; cbn [app length].
  - rewrite (proj2 (Z.ltb_ge _ 128)), in_range_true, cont_enc, mod_enc by lia. do 2 f_equal. lia.
  - rewrite (proj2 (Z.ltb_ge _ 128)), in_range_false, in_range_true, second3_enc, cont_enc, !mod_enc by (done || lia).
    cbn [andb]. do 2 f_equal. lia.
  - rewrite (proj2 (Z.ltb_ge _ 128)), !in_range_false, in_range_true, second4_enc, !cont_enc, !mod_enc by (done || lia).
    cbn [andb]. do 2 f_equal. lia.
Qed.

Lemma EncodeRune_ascii r : 0 <= r < 128 → EncodeRune r = [r].
Proof.
  intros H. unfold EncodeRune, scalar. rewrite in_range_true by lia. cbn [orb].
  by rewrite (proj2 (Z.ltb_lt r 128)) by lia.
Qed.

Lemma EncodeRune_length r : (0 < length (EncodeRune r))%nat.
Proof. unfold EncodeRune. destruct (scalar r); split_ifs; cbn; lia. Qed.

(** No ASCII byte appears inside the encoding of another character. *)
Lemma EncodeRune_high r b : 128 <= r ∨ r < 0 → b ∈ EncodeRune r → 128 <= b.
Proof.
  intros Hr. unfold EncodeRune. set (r' := if scalar r then r else RuneError).
  assert (128 <= r') as Hr'.
  { subst r'. unfold scalar, RuneError. destruct (in_range 0 55295 r || in_range 57344 1114111 r) eqn:E; [|lia].
    apply orb_prop in E as [E|E]; rng; lia. }
  clearbody r'. destruct (r' <? 128) eqn:E1; rng; [lia|].
  destruct (r' <? 2048); [|destruct (r' <? 65536)]; rewrite ?elem_of_cons, elem_of_nil;
    intros; destruct_or?; try done; subst; pose proof (Z.mod_pos_bound r' 64);
    pose proof (Z.mod_pos_bound (r' / 64) 64); pose proof (Z.mod_pos_bound (r' / 4096) 64);
    assert (0 <= r' / 64 ∧ 0 <= r' / 4096 ∧ 0 <= r' / 262144) by (repeat split; apply Z.div_pos; lia); lia.
Qed.

Lemma DecodeRune_width s r w : DecodeRune s = Some (r, w) → (0 < w <= length s)%nat.
Proof.
  unfold DecodeRune. destruct s as [|b0 s]; [done|]. intros [= H]. revert H.
  repeat case_match; intros [= <- <-]; cbn [length]; lia.
Qed.

Lemma range_loop_shift fuel i s :
  (range_loop fuel i s).*2 = (range_loop fuel 0 s).*2.
Proof.
  revert i s. induction fuel as [|fuel IH]; intros i s; cbn [range_loop]; [done|].
  destruct (DecodeRune s) as [[r w]|]; [|done]. cbn [fmap list_fmap snd].
  by rewrite (IH (i + w)%nat), (IH (0 + w)%nat).
Qed.

Lemma range_loop_fuel f1 f2 i s :
  (length s <= f1)%nat → (length s <= f2)%nat → range_loop f1 i s = range_loop f2 i s.
Proof.
  revert f2 i s. induction f1 as [|f1 IH]; intros f2 i s H1 H2.
  - destruct s; [|cbn in H1; lia]. by destruct f2.
  - destruct f2 as [|f2]; [by destruct s; [|cbn in H2; lia]|]. cbn [range_loop].
    destruct (DecodeRune s) as [[r w]|] eqn:E; [|done]. apply DecodeRune_width in E.
    f_equal. apply IH; rewrite length_drop; lia.
Qed.

Lemma runes_nil : runes [] = [].
Proof. done. Qed.

Lemma runes_step s r w : DecodeRune s = Some (r, w) → runes s = r :: runes (drop w s).
Proof.
  intros E. pose proof (DecodeRune_width _ _ _ E) as Hw. unfold runes, range_string.
  destruct s as [|b s]; [done|]. cbn [length range_loop]. rewrite E. cbn [fmap list_fmap snd].
  f_equal. rewrite range_loop_shift. f_equal. apply range_loop_fuel; rewrite length_drop; cbn [length] in *; lia.
Qed.

Lemma runes_Encode r s : scalar r = true → runes (EncodeRune r ++ s) = r :: runes s.
Proof. intros H. rewrite (runes_step _ _ _ (Decode_Encode r s H)). by rewrite drop_app_length. Qed.

(** [[]rune(string(rs))] is [rs]. *)
Lemma runes_of_runes rs : Forall (λ r, scalar r = true) rs → runes (of_runes rs) = rs.
Proof.
  induction 1 as [|r rs Hr Hrs IH]; [done|]. unfold of_runes in *. cbn [mbind list_bind].
  by rewrite runes_Encode, IH.
Qed.

(** Induction over the decoding of a string. *)
Lemma decode_ind (P : list byte → Prop) :
  P [] → (∀ s r w, DecodeRune s = Some (r, w) → P (drop w s) → P s) → ∀ s, P s.
Proof.
  intros H0 Hs s. remember (length s) as n eqn:En. revert s En.
  induction (lt_wf n) as [n _ IH]. intros s En. destruct s as [|b s]; [done|].
  destruct (DecodeRune (b :: s)) as [[r w]|] eqn:E; [|done]. apply (Hs _ r w E).
  pose proof (DecodeRune_width _ _ _ E). apply (IH (length (drop w (b :: s)))); [|done].
  rewrite length_drop. lia.
Qed.

Lemma DecodeRune_scalar s r w : bytes_ok s → DecodeRune s = Some (r, w) → scalar r = true.
Proof.
  unfold DecodeRune. destruct s as [|b0 s]; [done|]. intros Hb [= H].
  apply Forall_cons in Hb as [Hb0 Hb]. unfold is_byte in Hb0. revert H.
  unfold scalar. repeat case_match; intros [= <- <-]; try reflexivity; bools; unfold second3, second4, cont in *;
    apply orb_true_iff; repeat case_match; rng; unfold in_range; rewrite !andb_true_iff, !Z.leb_le; lia.
Qed.

(** Only an ASCII byte decodes to an ASCII rune. *)
Lemma DecodeRune_low b0 s r w : DecodeRune (b0 :: s) = Some (r, w) → r < 128 → r = b0 ∧ w = 1%nat.
Proof.
  unfold DecodeRune, RuneError. intros [= H]. revert H.
  repeat case_match; intros [= <- <-]; try done; intros Hr; exfalso; bools; unfold second3, second4, cont in *;
    repeat case_match; rng; try discriminate; lia.
Qed.
