(* ===== verification/StreamFilter.v ===== *)
(** * Streaming byte filters

    The interface the byte-at-a-time filters of the program share
    ([vtQueryStripper], [vtPrimaryScreenFilter]): a state, and a [feed] that
    takes one byte and appends what survives to an output slice.  [Filter] is
    the loop both Go types spell out.  The PTY's fan-out is proved against this
    interface, and each filter discharges its law. *)
From S2P Require Import Prelude GoBase.
Open Scope Z_scope.

Class StreamFilter (S : Type) := {
  feed : byte → list byte → S → list byte * S;
  (** [feed] only appends to the slice it is given. *)
  feed_app : ∀ b out s, feed b out s = (out ++ (feed b [] s).1, (feed b [] s).2)
}.

Section filter.
Context {S : Type} `{StreamFilter S}.
Implicit Types s : S.

(** The loop [for _, b := range in { out = s.feed(b, out) }]. *)
Definition feed_all (inp : list byte) (out : list byte) (s : S) : list byte * S :=
  foldl (λ '(out, s) b, feed b out s) (out, s) inp.

Definition Filter (inp : list byte) (s : S) : list byte * S := feed_all inp [] s.

Lemma feed_all_cons b inp out s :
  feed_all (b :: inp) out s = feed_all inp (feed b out s).1 (feed b out s).2.
Proof. unfold feed_all. simpl. by destruct (feed b out s). Qed.

Lemma feed_all_out inp out s :
  feed_all inp out s = (out ++ (Filter inp s).1, (Filter inp s).2).
Proof.
  unfold Filter. revert out s. induction inp as [|b inp IH]; intros out s.
  - simpl. by rewrite app_nil_r.
  - rewrite !feed_all_cons, feed_app. simpl. rewrite IH, (IH (feed b [] s).1).
    simpl. by rewrite app_assoc.
Qed.

Lemma Filter_nil s : Filter [] s = ([], s).
Proof. done. Qed.

Lemma Filter_cons b inp s :
  Filter (b :: inp) s =
    ((feed b [] s).1 ++ (Filter inp (feed b [] s).2).1,
     (Filter inp (feed b [] s).2).2).
Proof. unfold Filter at 1. by rewrite feed_all_cons, feed_all_out. Qed.

(** The output of a stream does not depend on how it was cut into chunks. *)
Lemma Filter_app a b s :
  Filter (a ++ b) s =
    ((Filter a s).1 ++ (Filter b (Filter a s).2).1, (Filter b (Filter a s).2).2).
Proof.
  revert s. induction a as [|x a IH]; intros s.
  - simpl. by destruct (Filter b s).
  - rewrite <- app_comm_cons, !Filter_cons, IH. simpl. by rewrite app_assoc.
Qed.

(** The states a stream of calls leaves behind, one chunk after the other. *)
Fixpoint Filter_chunks (chunks : list (list byte)) (s : S) : list (list byte) * S :=
  match chunks with
  | [] => ([], s)
  | c :: cs =>
      let '(o, s1) := Filter c s in
      let '(os, s2) := Filter_chunks cs s1 in (o :: os, s2)
  end.

Lemma Filter_chunks_concat chunks s :
  Filter (concat chunks) s =
    (concat (Filter_chunks chunks s).1, (Filter_chunks chunks s).2).
Proof.
  revert s. induction chunks as [|c cs IH]; intros s; [done|].
  simpl. rewrite Filter_app, IH.
  destruct (Filter c s) as [o s1]. simpl.
  by destruct (Filter_chunks cs s1).
Qed.

(** An invariant of [feed] is an invariant of the stream. *)
Lemma Filter_inv (P : S → Prop) :
  (∀ b s, P s → P (feed b [] s).2) → ∀ inp s, P s → P (Filter inp s).2.
Proof.
  intros Hstep inp. induction inp as [|b inp IH]; intros s Hs; [done|].
  rewrite Filter_cons. simpl. by apply IH, Hstep.
Qed.
End filter.

#[global] Opaque Filter.
