(* ===== verification/QueryStripper.v ===== *)
(** * [vtquery_stripper.go]: dropping terminal queries from the fan-out

    The streaming filter between the child's PTY and an attached client's real
    terminal: byte patterns that ask the terminal for a reply are dropped, all
    else passes.  State, [feed], and the query recognizers follow the file
    function by function. *)
From S2P Require Import Prelude GoBase StreamFilter.
Open Scope Z_scope.

Inductive stripState := stNormal | stEsc | stCSI | stOSC | stOSCEscSeen.

Record vtQueryStripper := mkStripper {
  state : stripState;
  pending : list byte
}.

#[export] Instance stripState_eq_dec : EqDecision stripState.
Proof. solve_decision. Defined.

(** [var s vtQueryStripper]: the zero value. *)
Definition newStripper : vtQueryStripper := mkStripper stNormal [].

(** ** Recognizers *)

Definition is_digit (b : byte) : bool := (48 <=? b) && (b <=? 57).

Definition stripCSIIntroducer (buf : list byte) : list byte :=
  match buf with
  | 27 :: 91 :: rest => rest
  | 155 :: rest => rest
  | _ => buf
  end.

Definition paramsAreDA (params : list byte) : bool :=
  bool_decide (params ∈ [B""; B"0"; B"?"; B">"; B"="]).

Definition paramsAreDSR (params : list byte) : bool :=
  if bool_decide (params ∈ [B"5"; B"6"; B"?5"; B"?6"]) then true
  else if bool_decide (length params < 2)%nat then false
  else match params with
       | 63 :: ds => forallb is_digit ds
       | _ => false
       end.

Definition paramsAreSizeQuery (params : list byte) : bool :=
  bool_decide (params ∈ [B"14"; B"16"; B"18"; B"19"]).

Definition paramsAreDECRQM (params : list byte) : bool :=
  if bool_decide (length params < 3)%nat then false
  else if negb (bool_decide (head params = Some (chr "?")))
          || negb (bool_decide (last params = Some (chr "$"))) then false
  else forallb is_digit (removelast (tail params)).

Definition isCSIQuery (buf : list byte) : bool :=
  let body := stripCSIIntroducer buf in
  match last body with
  | None => false
  | Some final =>
      let params := removelast body in
      if final =? chr "c" then paramsAreDA params
      else if final =? chr "n" then paramsAreDSR params
      else if final =? chr "q" then bool_decide (params = B">")
      else if final =? chr "t" then paramsAreSizeQuery params
      else if final =? chr "p" then paramsAreDECRQM params
      else if final =? chr "u" then bool_decide (params = B"?")
      else false
  end.

Definition stripOSCIntroducer (buf : list byte) : list byte :=
  match buf with
  | 27 :: 93 :: rest => rest
  | 157 :: rest => rest
  | _ => buf
  end.

Definition stripOSCTerminator (buf : list byte) : list byte :=
  let n := length buf in
  match buf !! (n - 1)%nat with
  | None => buf
  | Some z =>
      if (z =? 7) || (z =? 156) then take (n - 1) buf
      else if bool_decide (2 ≤ n)%nat && bool_decide (buf !! (n - 2)%nat = Some 27)
              && (z =? 92)
      then take (n - 2) buf
      else buf
  end.

(** The segments of [payload] between the [';'] bytes. *)
Fixpoint split_on (sep : byte) (bs : list byte) : list (list byte) :=
  match bs with
  | [] => [[]]
  | c :: bs' =>
      if c =? sep then [] :: split_on sep bs'
      else match split_on sep bs' with
           | [] => [[c]]
           | seg :: segs => (c :: seg) :: segs
           end
  end.

Definition oscPayloadIsQuery (payload : list byte) : bool :=
  match payload with
  | [] => false
  | _ => existsb (λ seg, bool_decide (seg = B"?")) (split_on (chr ";") payload)
  end.

(** The first [';'] of [body], as the pair of what is before and after it. *)
Fixpoint cut_at (sep : byte) (bs : list byte) : option (list byte * list byte) :=
  match bs with
  | [] => None
  | c :: bs' =>
      if c =? sep then Some ([], bs')
      else match cut_at sep bs' with
           | None => None
           | Some (a, b) => Some (c :: a, b)
           end
  end.

Definition isOSCQuery (buf : list byte) : bool :=
  let body := stripOSCTerminator (stripOSCIntroducer buf) in
  match cut_at (chr ";") body with
  | None => false
  | Some (ps, payload) =>
      if bool_decide (ps ∈ [B"10"; B"11"; B"12"]) then oscPayloadIsQuery payload
      else if bool_decide (ps = B"4") then oscPayloadIsQuery payload
      else false
  end.

(** ** [feed] *)

(** The block every completed sequence runs: reset, and forward the buffered
    bytes unless they are a query. *)
Definition finish (drop : bool) (pend out : list byte) : list byte * vtQueryStripper :=
  (if drop then out else out ++ pend, newStripper).

(** [feed] in the states that do not call [feed] again. *)
Definition feed1 (b : byte) (out : list byte) (s : vtQueryStripper)
  : list byte * vtQueryStripper :=
  match state s with
  | stNormal =>
      if b =? 5 then (out, s)
      else if b =? 27 then (out, mkStripper stEsc [b])
      else if b =? 155 then (out, mkStripper stCSI [b])
      else if b =? 157 then (out, mkStripper stOSC [b])
      else (out ++ [b], s)
  | stEsc =>
      let p := pending s ++ [b] in
      if b =? chr "[" then (out, mkStripper stCSI p)
      else if b =? chr "]" then (out, mkStripper stOSC p)
      else if b =? 5 then (out ++ [27], newStripper)
      else (out ++ p, newStripper)
  | stCSI =>
      let p := pending s ++ [b] in
      if (64 <=? b) && (b <=? 126) then finish (isCSIQuery p) p out
      else if bool_decide (256 < length p)%nat then (out ++ p, newStripper)
      else (out, mkStripper stCSI p)
  | stOSC =>
      if b =? 7 then finish (isOSCQuery (pending s ++ [b])) (pending s ++ [b]) out
      else if b =? 27 then (out, mkStripper stOSCEscSeen (pending s))
      else if b =? 156 then finish (isOSCQuery (pending s ++ [b])) (pending s ++ [b]) out
      else
        let p := pending s ++ [b] in
        if bool_decide (1024 < length p)%nat then (out ++ p, newStripper)
        else (out, mkStripper stOSC p)
  | stOSCEscSeen => (out, s)
  end.

(** [feed]; in [stOSCEscSeen] the stray ESC and the byte after it are fed again
    from [stNormal], where [feed] is [feed1]: the recursion is two deep. *)
Definition stripper_feed (b : byte) (out : list byte) (s : vtQueryStripper)
  : list byte * vtQueryStripper :=
  match state s with
  | stOSCEscSeen =>
      if b =? 92
      then let p := pending s ++ [27; 92] in finish (isOSCQuery p) p out
      else
        let '(out1, s1) := feed1 27 (out ++ pending s) newStripper in
        feed1 b out1 s1
  | _ => feed1 b out s
  end.

Lemma split_on_none sep b : Forall (λ c, c ≠ sep) b → split_on sep b = [b].
Proof.
  induction 1 as [|c b Hc _ IH]; [done|]. cbn [split_on].
  rewrite (proj2 (Z.eqb_neq c sep)) by done. by rewrite IH.
Qed.

Lemma split_on_one sep a b :
  Forall (λ c, c ≠ sep) a → split_on sep (a ++ sep :: b) = a :: split_on sep b.
Proof.
  induction 1 as [|c a Hc _ IH]; simpl; [by rewrite Z.eqb_refl|].
  rewrite (proj2 (Z.eqb_neq c sep)) by done. by rewrite IH.
Qed.

Lemma feed1_app b out s : feed1 b out s = (out ++ (feed1 b [] s).1, (feed1 b [] s).2).
Proof.
  unfold feed1, finish. destruct (state s); split_ifs; simpl;
    rewrite ?app_nil_r; done.
Qed.

Lemma stripper_feed_app b out s :
  stripper_feed b out s = (out ++ (stripper_feed b [] s).1, (stripper_feed b [] s).2).
Proof.
  unfold stripper_feed. destruct (state s); try apply feed1_app.
  split_ifs; [unfold finish; split_ifs; simpl; by rewrite ?app_nil_r|].
  cbn [feed1 state newStripper Z.eqb]. simpl. rewrite feed1_app.
  rewrite (feed1_app b (pending s)). simpl. by rewrite app_assoc.
Qed.

#[export] Instance stripper_filter : StreamFilter vtQueryStripper := {
  feed := stripper_feed;
  feed_app := stripper_feed_app
}.

(** ** Well-formed states *)

(** The introducers that can open a buffered sequence. *)
Definition csi_intro (i : list byte) : Prop := i = [27; 91] ∨ i = [155].
Definition osc_intro (i : list byte) : Prop := i = [27; 93] ∨ i = [157].

(** A byte that ends a CSI sequence. *)
Definition csi_final (b : byte) : Prop := 64 <= b <= 126.
(** A byte that ends or interrupts the buffering of an OSC string. *)
Definition osc_stop (b : byte) : Prop := b = 7 ∨ b = 27 ∨ b = 156.

Definition csi_open (p : list byte) : Prop :=
  ∃ i body, csi_intro i ∧ p = i ++ body ∧ Forall (λ b, ¬ csi_final b) body.
Definition osc_open (p : list byte) : Prop :=
  ∃ i body, osc_intro i ∧ p = i ++ body ∧ Forall (λ b, ¬ osc_stop b) body.

Definition wf (s : vtQueryStripper) : Prop :=
  match state s with
  | stNormal => pending s = []
  | stEsc => pending s = [27]
  | stCSI => csi_open (pending s) ∧ (length (pending s) ≤ 256)%nat
  | stOSC | stOSCEscSeen => osc_open (pending s) ∧ (length (pending s) ≤ 1024)%nat
  end.

(** The bytes the filter holds back: the buffer, and the ESC that
    [stOSCEscSeen] stands for without storing it. *)
Definition held (s : vtQueryStripper) : list byte :=
  pending s ++ (if decide (state s = stOSCEscSeen) then [27] else []).

Lemma csi_open_snoc p b : csi_open p → ¬ csi_final b → csi_open (p ++ [b]).
Proof.
  intros (i & body & Hi & -> & Hb) Hn. exists i, (body ++ [b]).
  rewrite app_assoc. split_and!; [done..|]. by apply Forall_app; split; [|constructor].
Qed.
Lemma osc_open_snoc p b : osc_open p → ¬ osc_stop b → osc_open (p ++ [b]).
Proof.
  intros (i & body & Hi & -> & Hb) Hn. exists i, (body ++ [b]).
  rewrite app_assoc. split_and!; [done..|]. by apply Forall_app; split; [|constructor].
Qed.
Lemma csi_open_intro i : csi_intro i → csi_open i.
Proof. intros Hi. exists i, []. by rewrite app_nil_r. Qed.
Lemma forallb_not_stop l :
  forallb (λ b, negb ((b =? 7) || (b =? 27) || (b =? 156))) l = true →
  Forall (λ b, ¬ osc_stop b) l.
Proof.
  rewrite forallb_forall, Forall_forall. unfold osc_stop.
  intros H x Hx. specialize (H x ltac:(by apply list_elem_of_In)). lia.
Qed.
Lemma osc_open_intro i : osc_intro i → osc_open i.
Proof. intros Hi. exists i, []. by rewrite app_nil_r. Qed.
Lemma wf_new : wf newStripper.
Proof. done. Qed.
#[export] Hint Resolve csi_open_snoc osc_open_snoc csi_open_intro osc_open_intro wf_new : hoot.

(** ** Abstract specification

    Which byte strings are terminal queries, written as the shapes the file's
    header lists, without reference to the recognizers. *)
Definition digits (ds : list byte) : Prop := ds ≠ [] ∧ Forall (λ b, 48 <= b <= 57) ds.

Inductive csi_query : list byte → Prop :=
| q_DA p : p ∈ [B""; B"0"; B"?"; B">"; B"="] → csi_query (p ++ B"c")
| q_DSR p : p ∈ [B"5"; B"6"] → csi_query (p ++ B"n")
| q_DSR_private ds : digits ds → csi_query (B"?" ++ ds ++ B"n")
| q_XTVERSION : csi_query (B">q")
| q_size p : p ∈ [B"14"; B"16"; B"18"; B"19"] → csi_query (p ++ B"t")
| q_DECRQM ds : digits ds → csi_query (B"?" ++ ds ++ B"$p")
| q_kitty : csi_query (B"?u").

Inductive osc_term : list byte → Prop :=
| t_BEL : osc_term [7]
| t_ST8 : osc_term [156]
| t_ST : osc_term [27; 92].

Definition osc_color (ps : list byte) : Prop := ps ∈ [B"10"; B"11"; B"12"; B"4"].

Inductive Query : list byte → Prop :=
| Q_ENQ : Query [5]
| Q_CSI i body : csi_intro i → csi_query body → Query (i ++ body)
| Q_OSC i ps payload t :
    osc_intro i → osc_color ps → osc_term t →
    B"?" ∈ split_on (chr ";") payload → Forall (λ b, ¬ osc_stop b) payload →
    Query (i ++ ps ++ B";" ++ payload ++ t).

(** [strips inp out]: [out] is [inp] with some queries cut out of it, and
    nothing else. *)
Inductive strips : list byte → list byte → Prop :=
| strips_nil : strips [] []
| strips_keep i o seg : strips i o → strips (i ++ seg) (o ++ seg)
| strips_drop i o q : strips i o → Query q → strips (i ++ q) o.

Lemma strips_refl l : strips l l.
Proof. exact (strips_keep [] [] l strips_nil). Qed.
Lemma strips_query q : Query q → strips q [].
Proof. exact (strips_drop [] [] q strips_nil). Qed.
Lemma strips_app i o i' o' : strips i o → strips i' o' → strips (i ++ i') (o ++ o').
Proof.
  intros H. induction 1; [by rewrite !app_nil_r|..]; rewrite !app_assoc;
    by constructor.
Qed.
#[export] Hint Resolve strips_refl strips_query strips_nil : hoot.
#[export] Hint Constructors Query osc_term csi_query : hoot.

(** *** The recognizers decide the specification *)

Lemma forallb_digit ds : forallb is_digit ds = true ↔ Forall (λ b, 48 <= b <= 57) ds.
Proof.
  rewrite forallb_forall, Forall_forall. unfold is_digit.
  split; intros H x Hx; specialize (H x ltac:(by apply list_elem_of_In)); [bools|]; lia.
Qed.

Lemma stripCSIIntroducer_intro i body : csi_intro i → stripCSIIntroducer (i ++ body) = body.
Proof. by intros [-> | ->]. Qed.
Lemma stripOSCIntroducer_intro i body : osc_intro i → stripOSCIntroducer (i ++ body) = body.
Proof. by intros [-> | ->]. Qed.

Lemma isCSIQuery_snoc i params final :
  csi_intro i →
  isCSIQuery (i ++ params ++ [final]) =
    if final =? chr "c" then paramsAreDA params
    else if final =? chr "n" then paramsAreDSR params
    else if final =? chr "q" then bool_decide (params = B">")
    else if final =? chr "t" then paramsAreSizeQuery params
    else if final =? chr "p" then paramsAreDECRQM params
    else if final =? chr "u" then bool_decide (params = B"?")
    else false.
Proof.
  intros Hi. unfold isCSIQuery.
  by rewrite (stripCSIIntroducer_intro i (params ++ [final])), last_snoc, removelast_last.
Qed.

Lemma paramsAreDSR_spec params :
  paramsAreDSR params = true ↔
  params ∈ [B"5"; B"6"] ∨ ∃ ds, digits ds ∧ params = B"?" ++ ds.
Proof.
  unfold paramsAreDSR. case_bool_decide as Hin.
  - split; [intros _|done]. repeat (apply elem_of_cons in Hin; destruct Hin as [-> | Hin]);
      [left; set_solver|left; set_solver| | |by apply not_elem_of_nil in Hin];
      right; [exists (B"5")|exists (B"6")];
      (split; [split; [done|by apply forallb_digit]|done]).
  - case_bool_decide as Hlen.
    + split; [done|]. intros [H|(ds & (Hne & _) & ->)]; [set_solver|].
      destruct ds; simpl in Hlen; [done|lia].
    + destruct params as [|c ds]; [simpl in Hlen; lia|].
      split.
      * intros H. right. exists ds. destruct (decide (c = 63)) as [->|Hc].
        -- split; [|done]. split; [destruct ds; simpl in *; [lia|done]|].
           by apply forallb_digit.
        -- destruct c as [|c|c]; try done.
           repeat (destruct c as [c|c|]; try done).
      * intros [H|(ds' & (_ & Hds) & [= -> ->])]; [set_solver|].
        by apply forallb_digit.
Qed.

Lemma paramsAreDECRQM_spec params :
  paramsAreDECRQM params = true ↔ ∃ ds, digits ds ∧ params = B"?" ++ ds ++ B"$".
Proof.
  unfold paramsAreDECRQM. split.
  - case_bool_decide as Hlen; [done|].
    destruct params as [|c params]; [simpl in Hlen; lia|].
    destruct (list_snoc_case params) as [-> | (ds & d & ->)]; [simpl in Hlen; lia|].
    rewrite app_comm_cons, last_snoc, <- app_comm_cons. cbn [head tail].
    rewrite removelast_last. case_bool_decide; [|done]. case_bool_decide; [|done].
    simplify_eq. intros Hds. exists ds. split; [|done].
    split; [|by apply forallb_digit].
    simpl in Hlen. rewrite length_app in Hlen. destruct ds; simpl in *; [lia|done].
  - intros (ds & [Hne Hds] & ->).
    rewrite bool_decide_eq_false_2 by
      (destruct ds; [done|]; simpl; rewrite length_app; simpl; lia).
    change (B"?" ++ ds ++ B"$") with (63 :: ds ++ [36]).
    rewrite app_comm_cons, last_snoc, <- app_comm_cons. cbn [head tail].
    rewrite removelast_last. by apply forallb_digit.
Qed.

Lemma isCSIQuery_spec i body :
  csi_intro i → isCSIQuery (i ++ body) = true ↔ csi_query body.
Proof.
  intros Hi. split.
  - intros H. destruct (list_snoc_case body) as [-> | (params & final & ->)].
    { by destruct Hi as [-> | ->]. }
    revert H. rewrite (isCSIQuery_snoc i params final Hi).
    repeat match goal with
      |- (if final =? ?c then _ else _) = true → _ => destruct (Z.eqb_spec final c) as [->|]
    end; intros H; bools; simplify_eq.
    + by apply (q_DA params), (bool_decide_eq_true_1 _ H).
    + apply paramsAreDSR_spec in H as [H|(ds & Hds & ->)]; [by apply (q_DSR params)|].
      rewrite <- app_assoc. by apply (q_DSR_private ds).
    + apply q_XTVERSION.
    + by apply (q_size params), (bool_decide_eq_true_1 _ H).
    + apply paramsAreDECRQM_spec in H as (ds & Hds & ->).
      rewrite <- !app_assoc. by apply (q_DECRQM ds).
    + apply q_kitty.
  - intros Hb. assert (∃ p f, i ++ body = i ++ p ++ [f] ∧ isCSIQuery (i ++ p ++ [f]) = true)
      as (p & f & -> & H); [|done].
    destruct Hb as [p Hp|p Hp|ds Hds| |p Hp|ds Hds| ].
    + exists p, 99. rewrite isCSIQuery_snoc by done. split; [done|]. by apply bool_decide_eq_true_2.
    + exists p, 110. rewrite isCSIQuery_snoc by done. split; [done|].
      apply paramsAreDSR_spec. by left.
    + exists (B"?" ++ ds), 110. rewrite isCSIQuery_snoc by done. split; [done|].
      apply paramsAreDSR_spec. eauto.
    + exists (B">"), 113. by rewrite isCSIQuery_snoc.
    + exists p, 116. rewrite isCSIQuery_snoc by done. split; [done|]. by apply bool_decide_eq_true_2.
    + exists (B"?" ++ ds ++ B"$"), 112. rewrite isCSIQuery_snoc, <- !app_assoc by done.
      split; [done|]. apply paramsAreDECRQM_spec. eauto.
    + exists (B"?"), 117. by rewrite isCSIQuery_snoc.
Qed.

Lemma stripOSCTerminator_term body t :
  osc_term t → stripOSCTerminator (body ++ t) = body.
Proof.
  unfold stripOSCTerminator. destruct 1; rewrite length_app; simpl;
    (rewrite lookup_app_r by lia).
  1,2: replace (_ - _ - _)%nat with 0%nat by lia; simpl; apply take_app_length'; lia.
  replace (length body + 2 - 1 - length body)%nat with 1%nat by lia.
  simpl. rewrite lookup_app_r by lia.
  replace (length body + 2 - 2 - length body)%nat with 0%nat by lia.
  rewrite bool_decide_eq_true_2 by lia. simpl. apply take_app_length'. lia.
Qed.

Lemma cut_at_Some sep bs a b :
  cut_at sep bs = Some (a, b) ↔ bs = a ++ sep :: b ∧ sep ∉ a.
Proof.
  revert a b. induction bs as [|c bs IH]; intros a b; simpl.
  - split; [done|]. intros [H _]. by destruct a.
  - destruct (Z.eqb_spec c sep) as [->|Hne].
    + split; [intros [= <- <-]; split; [done|apply not_elem_of_nil]|].
      intros [H Hn]. destruct a as [|x a]; simplify_eq/=; [done|set_solver].
    + destruct (cut_at sep bs) as [[a' b']|] eqn:E.
      * split.
        -- intros [= <- <-]. destruct (IH a' b') as [[-> Hn] _]; [done|]. split; [done|].
           by apply not_elem_of_cons.
        -- intros [H Hn]. destruct a as [|x a]; simplify_eq/=.
           apply not_elem_of_cons in Hn as [_ Hn].
           destruct (IH a b) as [_ IH']. specialize (IH' (conj eq_refl Hn)). congruence.
      * split; [done|]. intros [H Hn]. destruct a as [|x a]; simplify_eq/=.
        apply not_elem_of_cons in Hn as [_ Hn].
        destruct (IH a b) as [_ IH']. specialize (IH' (conj eq_refl Hn)). congruence.
Qed.

Lemma oscPayloadIsQuery_spec payload :
  oscPayloadIsQuery payload = true ↔ B"?" ∈ split_on (chr ";") payload.
Proof.
  assert (oscPayloadIsQuery payload
          = existsb (λ seg, bool_decide (seg = B"?")) (split_on (chr ";") payload)) as ->
    by (destruct payload; reflexivity).
  rewrite existsb_exists. split.
  - intros (seg & Hin & Hseg). bools. subst. by apply list_elem_of_In.
  - intros H. exists (B"?"). split; [by apply list_elem_of_In|done].
Qed.

Lemma isOSCQuery_spec i body t :
  osc_intro i → osc_term t → Forall (λ b, ¬ osc_stop b) body →
  isOSCQuery (i ++ body ++ t) = true ↔
  ∃ ps payload, osc_color ps ∧ body = ps ++ B";" ++ payload ∧
    B"?" ∈ split_on (chr ";") payload ∧ Forall (λ b, ¬ osc_stop b) payload.
Proof.
  intros Hi Ht Hb. unfold isOSCQuery.
  rewrite stripOSCIntroducer_intro, stripOSCTerminator_term by done.
  assert (∀ ps payload,
    (if bool_decide (ps ∈ [B"10"; B"11"; B"12"]) then oscPayloadIsQuery payload
     else if bool_decide (ps = B"4") then oscPayloadIsQuery payload else false) = true
    ↔ osc_color ps ∧ B"?" ∈ split_on (chr ";") payload) as Hcol.
  { intros ps payload. rewrite <- oscPayloadIsQuery_spec. unfold osc_color.
    case_bool_decide; [set_solver|]. case_bool_decide; set_solver. }
  split.
  - destruct (cut_at _ _) as [[ps payload]|] eqn:E; [|done].
    rewrite Hcol. intros [Hps Hq]. apply cut_at_Some in E as [-> _].
    exists ps, payload. split_and!; [done..|].
    apply Forall_app in Hb as [_ Hb]. by apply Forall_cons in Hb as [_ Hb].
  - intros (ps & payload & Hps & -> & Hq & _).
    assert (cut_at (chr ";") (ps ++ B";" ++ payload) = Some (ps, payload)) as ->; [|by apply Hcol].
    apply cut_at_Some. split; [done|]. unfold osc_color in Hps. clear -Hps.
    repeat (apply elem_of_cons in Hps; destruct Hps as [-> | Hps];
      [by apply (bool_decide_eq_true_1 (chr ";" ∉ _))|]).
    by apply not_elem_of_nil in Hps.
Qed.

(** *** One byte *)

(** What one step does: the bytes held back before it, and the new byte, are
    the consumed ones followed by the bytes held back after it. *)
Definition step_ok (s : vtQueryStripper) (b : byte) (r : list byte * vtQueryStripper) : Prop :=
  ∃ c, held s ++ [b] = c ++ held r.2 ∧ strips c r.1 ∧ wf r.2.

Lemma csi_query_done p b :
  csi_open p → isCSIQuery (p ++ [b]) = true → Query (p ++ [b]).
Proof.
  intros (i & body & Hi & -> & _) H. rewrite <- app_assoc in *.
  apply Q_CSI; [done|]. by apply (isCSIQuery_spec i).
Qed.

Lemma osc_query_done p t :
  osc_open p → osc_term t → isOSCQuery (p ++ t) = true → Query (p ++ t).
Proof.
  intros (i & body & Hi & -> & Hb) Ht H. rewrite <- app_assoc in *.
  apply (isOSCQuery_spec i body t) in H as (ps & payload & Hps & -> & Hq & Hp); [|done..].
  rewrite <- !app_assoc. by apply Q_OSC.
Qed.

(** Resetting after a completed sequence [held s ++ [b]]. *)
Lemma step_finish s b (drop : bool) p :
  held s ++ [b] = p → (drop = true → Query p) → step_ok s b (finish drop p []).
Proof.
  intros Hp Hd. exists p. unfold finish. simpl. rewrite app_nil_r.
  split_and!; [done| |done]. destruct drop; simpl; auto with hoot.
Qed.

Lemma step_forward s b p : held s ++ [b] = p → step_ok s b (p, newStripper).
Proof. intros Hp. by apply (step_finish s b false p). Qed.

Lemma step_buffer s b s' : held s ++ [b] = held s' → wf s' → step_ok s b ([], s').
Proof. intros Hh Hw. exists []. by split_and!; [|apply strips_nil|]. Qed.

Lemma feed1_step b s : wf s → state s ≠ stOSCEscSeen → step_ok s b (feed1 b [] s).
Proof.
  destruct s as [[] p]; unfold wf, feed1; cbn [state pending]; intros Hwf Hst.
  - subst p. destruct (Z.eqb_spec b 5) as [->|]; [|destruct (Z.eqb_spec b 27) as [->|];
      [|destruct (Z.eqb_spec b 155) as [->|]; [|destruct (Z.eqb_spec b 157) as [->|]]]].
    + exists [5]. split_and!; [done|simpl; auto with hoot|done].
    + by apply step_buffer.
    + apply step_buffer; [done|]. split; [|simpl; lia]. apply csi_open_intro. by right.
    + apply step_buffer; [done|]. split; [|simpl; lia]. apply osc_open_intro. by right.
    + by apply step_forward.
  - subst p. destruct (Z.eqb_spec b (chr "[")) as [->|]; [|destruct (Z.eqb_spec b (chr "]")) as [->|];
      [|destruct (Z.eqb_spec b 5) as [->|]]].
    + apply step_buffer; [done|]. split; [|simpl; lia]. apply csi_open_intro. by left.
    + apply step_buffer; [done|]. split; [|simpl; lia]. apply osc_open_intro. by left.
    + exists [27; 5]. split_and!; [done| |done]. apply (strips_app [27] [27] [5] []); auto with hoot.
    + by apply step_forward.
  - destruct Hwf as [Hopen Hlen].
    destruct ((64 <=? b) && (b <=? 126)) eqn:Hf; bools.
    + apply step_finish; [unfold held; simpl; by rewrite app_nil_r|]. by apply csi_query_done.
    + case_bool_decide.
      * apply step_forward. unfold held; simpl; by rewrite app_nil_r.
      * apply step_buffer; [unfold held; simpl; by rewrite !app_nil_r|]. split; [|simpl; lia].
        apply csi_open_snoc; [done|]. unfold csi_final. lia.
  - destruct Hwf as [Hopen Hlen].
    assert (held (mkStripper stOSC p) ++ [b] = p ++ [b]) as Hh
      by (unfold held; simpl; by rewrite app_nil_r).
    destruct (Z.eqb_spec b 7) as [->|]; [|destruct (Z.eqb_spec b 27) as [->|];
      [|destruct (Z.eqb_spec b 156) as [->|]; [|case_bool_decide]]].
    + apply step_finish; [done|]. intros. apply osc_query_done; auto with hoot.
    + by apply step_buffer.
    + apply step_finish; [done|]. intros. apply osc_query_done; auto with hoot.
    + by apply step_forward.
    + apply step_buffer; [rewrite Hh; unfold held; simpl; by rewrite app_nil_r|].
      split; [|simpl; lia]. apply osc_open_snoc; [done|]. unfold osc_stop. lia.
  - done.
Qed.

Lemma feed_step b s : wf s → step_ok s b (stripper_feed b [] s).
Proof.
  intros Hwf. destruct (decide (state s = stOSCEscSeen)) as [Hs|Hs].
  2:{ replace (stripper_feed b [] s) with (feed1 b [] s)
        by (unfold stripper_feed; by destruct (state s)). by apply feed1_step. }
  unfold stripper_feed. destruct s as [s p]. simpl in Hs. subst s. simpl.
  destruct Hwf as [Hopen Hlen]. simpl in *.
  destruct (Z.eqb_spec b 92) as [->|Hb].
  - apply step_finish; [unfold held; simpl; by rewrite <- app_assoc|].
    intros. apply osc_query_done; auto with hoot.
  - rewrite feed1_app.
    destruct (feed1_step b (mkStripper stEsc [27])) as (c & Hc & Hst & Hw); [done..|].
    exists (p ++ c). simpl. split_and!; [|by apply strips_app; auto with hoot|done].
    unfold held in *. simpl in *. rewrite <- !app_assoc. by f_equal.
Qed.

(** *** Runs of bytes *)

Lemma Filter_csi_body body p :
  Forall (λ b, ¬ csi_final b) body → (length p + length body ≤ 256)%nat →
  Filter body (mkStripper stCSI p) = ([], mkStripper stCSI (p ++ body)).
Proof.
  intros H. revert p. induction H as [|b body Hb Hbody IH]; intros p Hlen.
  - by rewrite app_nil_r.
  - rewrite Filter_cons. cbn [feed stripper_filter]. unfold stripper_feed, feed1, csi_final in *.
    cbn [state pending]. simpl in Hlen.
    destruct ((64 <=? b) && (b <=? 126)) eqn:E; [bools; lia|].
    rewrite bool_decide_eq_false_2 by (rewrite length_app; simpl; lia). simpl.
    rewrite IH by (rewrite length_app; simpl; lia). simpl. by rewrite <- app_assoc.
Qed.

Lemma Filter_osc_body body p :
  Forall (λ b, ¬ osc_stop b) body → (length p + length body ≤ 1024)%nat →
  Filter body (mkStripper stOSC p) = ([], mkStripper stOSC (p ++ body)).
Proof.
  intros H. revert p. induction H as [|b body Hb Hbody IH]; intros p Hlen.
  - by rewrite app_nil_r.
  - rewrite Filter_cons. cbn [feed stripper_filter]. unfold stripper_feed, feed1, osc_stop in *.
    cbn [state pending]. simpl in Hlen.
    rewrite (proj2 (Z.eqb_neq b 7)), (proj2 (Z.eqb_neq b 27)), (proj2 (Z.eqb_neq b 156)) by lia.
    rewrite bool_decide_eq_false_2 by (rewrite length_app; simpl; lia). simpl.
    rewrite IH by (rewrite length_app; simpl; lia). simpl. by rewrite <- app_assoc.
Qed.

Lemma Filter_csi_intro i : csi_intro i → Filter i newStripper = ([], mkStripper stCSI i).
Proof. by intros [-> | ->]. Qed.
Lemma Filter_osc_intro i : osc_intro i → Filter i newStripper = ([], mkStripper stOSC i).
Proof. by intros [-> | ->]. Qed.

Lemma csi_query_shape body :
  csi_query body →
  ∃ params f, body = params ++ [f] ∧ csi_final f ∧ Forall (λ b, ¬ csi_final b) params.
Proof.
  assert (∀ p : list byte, forallb (λ b, b <? 64) p = true → Forall (λ b, ¬ csi_final b) p) as Hp.
  { intros p. rewrite forallb_forall, Forall_forall. unfold csi_final.
    intros H x Hx. specialize (H x ltac:(by apply list_elem_of_In)). lia. }
  assert (∀ ds, digits ds → Forall (λ b, ¬ csi_final b) ds) as Hd.
  { intros ds [_ H]. eapply Forall_impl; [done|]. unfold csi_final. simpl. lia. }
  unfold csi_final at 1.
  destruct 1 as [p H|p H|ds H| |p H|ds H|].
  1,2,5: exists p; eexists; (split; [reflexivity|]); split; [by vm_compute|]; apply Hp;
    repeat (apply elem_of_cons in H; destruct H as [-> | H]; [done|]);
    by apply not_elem_of_nil in H.
  - exists (B"?" ++ ds), 110. rewrite <- app_assoc. split_and!; [done|lia..|].
    apply Forall_app; auto.
  - exists (B">"), 113. split_and!; [done|lia..|]. by apply Hp.
  - exists (B"?" ++ ds ++ B"$"), 112. rewrite <- !app_assoc. split_and!; [done|lia..|].
    rewrite !Forall_app. auto.
  - exists (B"?"), 117. split_and!; [done|lia..|]. by apply Hp.
Qed.

(** The step that ends an OSC string. *)
Lemma Filter_osc_end p t :
  osc_term t →
  Filter t (mkStripper stOSC p) = finish (isOSCQuery (p ++ t)) (p ++ t) [].
Proof.
  destruct 1; rewrite ?Filter_cons, Filter_nil; cbn [feed stripper_filter];
    unfold stripper_feed, finish; cbn; rewrite ?app_nil_r; done.
Qed.

Lemma Filter_csi_end p f :
  csi_final f →
  Filter [f] (mkStripper stCSI p) = finish (isCSIQuery (p ++ [f])) (p ++ [f]) [].
Proof.
  intros Hf. rewrite Filter_cons, Filter_nil. cbn [feed stripper_filter].
  unfold stripper_feed, feed1, csi_final in *. cbn [state pending].
  destruct ((64 <=? f) && (f <=? 126)) eqn:E; [|lia].
  unfold finish. simpl. by rewrite app_nil_r.
Qed.

(** ** Properties *)

(** C20: whatever the child writes and however it is cut into chunks, what the
    filter forwards is the input with nothing removed but complete terminal
    queries (as the file's header lists them); what it has not yet forwarded is
    exactly the tail it still holds back. *)
Theorem stripper_sound inp :
  ∃ consumed,
    inp = consumed ++ held (Filter inp newStripper).2 ∧
    strips consumed (Filter inp newStripper).1.
Proof.
  assert (∀ inp s, wf s → ∃ c, held s ++ inp = c ++ held (Filter inp s).2 ∧
                               strips c (Filter inp s).1) as H.
  { clear inp. intros inp. induction inp as [|b inp IH]; intros s Hs.
    - exists []. rewrite app_nil_r. auto with hoot.
    - rewrite Filter_cons. destruct (feed_step b s Hs) as (c & Hc & Hst & Hw).
      destruct (IH _ Hw) as (c' & Hc' & Hst'). exists (c ++ c').
      split; [|by apply strips_app].
      change (b :: inp) with ([b] ++ inp). rewrite app_assoc, Hc, <- !app_assoc.
      f_equal. exact Hc'. }
  apply (H inp newStripper wf_new).
Qed.

(** a query that starts outside any sequence is removed whole and leaves no
    trace in the filter's state, as long as it fits the buffer: a query of the
    file's list is never forwarded to the client's terminal. *)
Theorem stripper_drops_query q rest :
  Query q → (length q ≤ 256)%nat →
  Filter (q ++ rest) newStripper = Filter rest newStripper.
Proof.
  intros Hq Hlen. rewrite Filter_app.
  enough (Filter q newStripper = ([], newStripper)) as ->
    by (simpl; by destruct (Filter rest newStripper)).
  destruct Hq as [|i body Hi Hb|i ps payload t Hi Hps Ht Hp Hstop]; [done|..].
  - pose proof Hb as Hq. apply (isCSIQuery_spec i) in Hq; [|done].
    apply csi_query_shape in Hb as (params & f & -> & Hf & Hparams).
    rewrite Filter_app, (Filter_csi_intro i Hi), Filter_app. rewrite !length_app in Hlen. simpl in *.
    rewrite Filter_csi_body by (done || lia). simpl.
    rewrite Filter_csi_end, <- app_assoc by done. by rewrite Hq.
  - assert (Forall (λ b, ¬ osc_stop b) (ps ++ B";" ++ payload)) as Hbody.
    { rewrite !Forall_app. split_and!; [|by apply forallb_not_stop|done].
      unfold osc_color in Hps. clear -Hps.
      repeat (apply elem_of_cons in Hps; destruct Hps as [-> | Hps];
        [by apply forallb_not_stop|]). by apply not_elem_of_nil in Hps. }
    replace (i ++ ps ++ B";" ++ payload ++ t) with (i ++ (ps ++ B";" ++ payload) ++ t) in *
      by by rewrite <- !app_assoc.
    assert (isOSCQuery (i ++ (ps ++ B";" ++ payload) ++ t) = true) as Hisq.
    { apply isOSCQuery_spec; [done..|]. eauto 10. }
    set (body := ps ++ B";" ++ payload) in *. clearbody body. rewrite !length_app in Hlen.
    rewrite Filter_app, (Filter_osc_intro i Hi), Filter_app. cbn [fst snd].
    rewrite Filter_osc_body by (done || lia). simpl. rewrite Filter_osc_end, <- app_assoc by done. by rewrite Hisq.
Qed.

(** [stripper_drops_query] on DECRQM followed by text. *)
Lemma stripper_drops_query_witness :
  Filter (ESC :: B"[?2026$p" ++ B"ok") newStripper = Filter (B"ok") newStripper.
Proof.
  apply (stripper_drops_query (ESC :: B"[?2026$p") (B"ok")).
  - apply (Q_CSI [27; 91] (B"?2026$p")); [by left|]. apply (q_DECRQM (B"2026")).
    split; [done|]. by apply forallb_digit.
  - simpl. lia.
Defined.

(** the filter never holds back more than 1025 bytes, whatever the stream. *)
Theorem stripper_bounded inp :
  (length (held (Filter inp newStripper).2) ≤ 1025)%nat.
Proof.
  assert (wf (Filter inp newStripper).2) as H.
  { apply Filter_inv; [|done]. intros b s Hs. by destruct (feed_step b s Hs) as (c & _ & _ & ?). }
  unfold held. rewrite length_app. destruct (Filter inp newStripper).2 as [[] p];
    unfold wf in H; simpl in *; subst; simpl; lia.
Qed.

(** text without ESC, ENQ, 0x9b and 0x9d bytes reaches the client byte for
    byte, in every chunking, and leaves no state behind. *)
Theorem stripper_plain_text chunks :
  Forall (λ b, b ∉ [5; 27; 155; 157]) (concat chunks) →
  Filter_chunks chunks newStripper = (chunks, newStripper).
Proof.
  intros H. induction chunks as [|c cs IH]; [done|].
  simpl in *. apply Forall_app in H as [Hc Hcs].
  enough (Filter c newStripper = (c, newStripper)) as -> by by rewrite IH.
  clear -Hc. induction Hc as [|b c Hb Hc IH]; [done|].
  rewrite Filter_cons. cbn [feed stripper_filter]. unfold stripper_feed, feed1.
  cbn [state newStripper].
  rewrite (proj2 (Z.eqb_neq b 5)), (proj2 (Z.eqb_neq b 27)), (proj2 (Z.eqb_neq b 155)),
    (proj2 (Z.eqb_neq b 157)) by set_solver. cbn [fst snd app]. by rewrite IH.
Qed.
Lemma stripper_plain_text_witness :
  Filter_chunks [B"he"; B"llo"] newStripper = ([B"he"; B"llo"], newStripper).
Proof.
  apply stripper_plain_text. repeat (constructor; [by apply (bool_decide_eq_true_1 (_ ∉ _))|]).
  constructor.
Defined.

(** UTF-8 text is not safe.  A character whose last byte is 0x9b opens a
    CSI, so a following [c] or [n] query tail is cut out of the text: after any
    plain bytes, the pair 0x9b, [c] disappears (the word [věc] loses two bytes);
    and after a right double quotation mark (E2 80 9D) up to 1023 plain bytes
    are withheld from the client. *)
Theorem stripper_utf8_hazard pre text :
  Forall (λ b, b ∉ [5; 27; 155; 157]) pre →
  Forall (λ b, ¬ osc_stop b) text → (length text ≤ 1023)%nat →
  Filter (pre ++ [155; 99]) newStripper = (pre, newStripper) ∧
  Filter (pre ++ [157] ++ text) newStripper = (pre, mkStripper stOSC (157 :: text)).
Proof.
  intros Hpre Htext Hlen.
  assert (Filter pre newStripper = (pre, newStripper)) as Hf.
  { pose proof (stripper_plain_text [pre]) as H. simpl in H. rewrite app_nil_r in H.
    destruct (Filter pre newStripper). by injection (H Hpre) as -> ->. }
  rewrite !Filter_app, Hf. simpl. split.
  - change (Filter [155; 99] newStripper) with (([] : list byte, newStripper)).
    simpl. by rewrite app_nil_r.
  - rewrite (Filter_osc_intro [157]) by by right. simpl.
    rewrite Filter_osc_body by (done || (simpl; lia)). simpl. by rewrite app_nil_r.
Qed.
Lemma stripper_utf8_hazard_witness :
  Filter ([118; 196] ++ [155; 99]) newStripper = ([118; 196], newStripper) ∧
  Filter ([118; 196] ++ [157] ++ B" ok") newStripper =
    ([118; 196], mkStripper stOSC (157 :: B" ok")).
Proof.
  apply stripper_utf8_hazard.
  - repeat (constructor; [by apply (bool_decide_eq_true_1 (_ ∉ _))|]). constructor.
  - by apply forallb_not_stop.
  - simpl. lia.
Defined.

(** a query is forwarded when its introducer is split: after a lone ESC a
    second ESC (which restarts the sequence in a terminal) or an ENQ (which a
    terminal executes in the middle of the sequence) flushes the first ESC, and
    the rest of the CSI query then passes as text. *)
Theorem stripper_split_query_leaks body :
  Forall (λ b, b ∉ [5; 27; 155; 157]) body →
  Filter ([27; 27; 91] ++ body) newStripper = ([27; 27; 91] ++ body, newStripper) ∧
  Filter ([27; 5; 91] ++ body) newStripper = ([27; 91] ++ body, newStripper).
Proof.
  intros Hb.
  assert (Filter body newStripper = (body, newStripper)) as Hf.
  { pose proof (stripper_plain_text [body]) as H. simpl in H. rewrite app_nil_r in H.
    destruct (Filter body newStripper). by injection (H Hb) as -> ->. }
  rewrite !Filter_app.
  change (Filter [27; 27; 91] newStripper) with ([27; 27; 91], newStripper).
  change (Filter [27; 5; 91] newStripper) with ([27; 91], newStripper).
  cbn [fst snd]. by rewrite Hf.
Qed.
Lemma stripper_split_query_leaks_witness :
  Filter ([27; 27; 91] ++ B"c") newStripper = ([27; 27; 91] ++ B"c", newStripper) ∧
  Filter ([27; 5; 91] ++ B"c") newStripper = ([27; 91] ++ B"c", newStripper).
Proof.
  apply stripper_split_query_leaks.
  repeat (constructor; [by apply (bool_decide_eq_true_1 (_ ∉ _))|]). constructor.
Defined.
