(* ===== verification/PrimaryFilter.v ===== *)
(** * [vtprimary_filter.go]: the primary-screen mirror filter

    [vtPrimaryScreenFilter] removes from the child's output the alternate-screen
    mode switches and everything written while the child is on the alternate
    screen.  [primary_tokens] states it on the terminal's own grammar: text,
    two-byte escapes and CSI sequences. *)
From S2P Require Import Prelude GoBase StreamFilter QueryStripper.
Open Scope Z_scope.

Inductive primaryFilterState := primaryFilterNormal | primaryFilterEsc | primaryFilterCSI.

Record vtPrimaryScreenFilter := mkPrimary {
  inAlt : bool;
  pf_state : primaryFilterState;
  pf_pending : list byte
}.

(** The mode numbers of the three alternate-screen switches. *)
Definition is_alt_mode (seg : list byte) : bool :=
  bool_decide (seg ∈ [B"47"; B"1047"; B"1049"]).

(** The segment loop of [csiAltScreenMode]; one turn per segment. *)
Fixpoint alt_params (fuel : nat) (params : list byte) : bool :=
  match params, fuel with
  | [], _ => false
  | _, O => false
  | _, S fuel' =>
      match cut_at (chr ";") params with
      | None => is_alt_mode params
      | Some (seg, rest) => if is_alt_mode seg then true else alt_params fuel' rest
      end
  end.

(** [(altMode, enter)] *)
Definition csiAltScreenMode (buf : list byte) : bool * bool :=
  let body := stripCSIIntroducer buf in
  if (length body <? 3)%nat then (false, false)
  else match last body with
       | None => (false, false)
       | Some final =>
           if negb (final =? chr "h") && negb (final =? chr "l") then (false, false)
           else if negb (hd 0 body =? chr "?") then (false, false)
           else
             let params := removelast (tl body) in
             if alt_params (length params) params then (true, final =? chr "h")
             else (false, false)
       end.

Definition is_final (b : byte) : bool := (64 <=? b) && (b <=? 126).

Definition primary_feed (b : byte) (out : list byte) (f : vtPrimaryScreenFilter)
  : list byte * vtPrimaryScreenFilter :=
  match pf_state f with
  | primaryFilterNormal =>
      if b =? ESC then (out, mkPrimary (inAlt f) primaryFilterEsc [b])
      else if b =? 155 then (out, mkPrimary (inAlt f) primaryFilterCSI [b])
      else if inAlt f then (out, f)
      else (out ++ [b], f)
  | primaryFilterEsc =>
      let pending := pf_pending f ++ [b] in
      if b =? chr "[" then (out, mkPrimary (inAlt f) primaryFilterCSI pending)
      else if inAlt f then (out, mkPrimary true primaryFilterNormal [])
      else (out ++ pending, mkPrimary false primaryFilterNormal [])
  | primaryFilterCSI =>
      let pending := pf_pending f ++ [b] in
      if is_final b then
        let '(altMode, enter) := csiAltScreenMode pending in
        if altMode then (out, mkPrimary enter primaryFilterNormal [])
        else if inAlt f then (out, mkPrimary true primaryFilterNormal [])
        else (out ++ pending, mkPrimary false primaryFilterNormal [])
      else if (256 <? length pending)%nat then
        (if inAlt f then out else out ++ pending, mkPrimary (inAlt f) primaryFilterNormal [])
      else (out, mkPrimary (inAlt f) primaryFilterCSI pending)
  end.

Lemma primary_feed_app b out f :
  primary_feed b out f = (out ++ (primary_feed b [] f).1, (primary_feed b [] f).2).
Proof.
  unfold primary_feed. destruct f as [alt [] pending]; cbn [pf_state inAlt pf_pending];
    split_ifs; repeat (destruct (csiAltScreenMode _) as [[] ?]); cbn [fst snd app];
    by rewrite ?app_nil_r.
Qed.

#[export] Instance primary_filter : StreamFilter vtPrimaryScreenFilter := {
  feed := primary_feed;
  feed_app := primary_feed_app
}.

(** ** The terminal's grammar *)

Inductive vt_tok :=
| TkText (b : byte)                                       (** a byte of text *)
| TkEsc (b : byte)                                        (** [ESC b] *)
| TkCSI (c1 : bool) (params : list byte) (final : byte).  (** [CSI params final] *)

Definition csi_bytes (c1 : bool) : list byte := if c1 then [155] else [ESC; chr "["].

Definition tok_bytes (t : vt_tok) : list byte :=
  match t with
  | TkText b => [b]
  | TkEsc b => [ESC; b]
  | TkCSI c1 params final => csi_bytes c1 ++ params ++ [final]
  end.

Definition tok_ok (t : vt_tok) : Prop :=
  match t with
  | TkText b => b ≠ ESC ∧ b ≠ 155
  | TkEsc b => b ≠ chr "["
  | TkCSI c1 params final =>
      Forall (λ b, is_final b = false) params ∧ is_final final = true ∧
      (length params <= 254)%nat
  end.

(** A private mode set or reset that names an alternate-screen mode: the screen
    it selects. *)
Definition alt_switch (t : vt_tok) : option bool :=
  match t with
  | TkCSI _ (p :: params) final =>
      if (p =? chr "?") && ((final =? chr "h") || (final =? chr "l")) &&
         existsb is_alt_mode (split_on (chr ";") params)
      then Some (final =? chr "h") else None
  | _ => None
  end.

(** What a terminal without an alternate screen should see. *)
Fixpoint primary_view (alt : bool) (toks : list vt_tok) : list byte * bool :=
  match toks with
  | [] => ([], alt)
  | t :: toks' =>
      match alt_switch t with
      | Some alt' => primary_view alt' toks'
      | None =>
          let '(out, alt') := primary_view alt toks' in
          ((if alt then [] else tok_bytes t) ++ out, alt')
      end
  end.

Definition ground (alt : bool) : vtPrimaryScreenFilter := mkPrimary alt primaryFilterNormal [].

(** ** The segment loop *)

Lemma split_on_cut sep bs :
  split_on sep bs = match cut_at sep bs with
                    | None => [bs]
                    | Some (seg, rest) => seg :: split_on sep rest
                    end.
Proof.
  induction bs as [|c bs IH]; [done|]. cbn [split_on cut_at]. destruct (c =? sep); [done|].
  rewrite IH. by destruct (cut_at sep bs) as [[a b]|].
Qed.

Lemma cut_at_shorter sep bs seg rest :
  cut_at sep bs = Some (seg, rest) → (length rest < length bs)%nat.
Proof.
  revert seg. induction bs as [|c bs IH]; intros seg; [done|]. cbn [cut_at].
  destruct (c =? sep); [intros [= _ <-]; simpl; lia|].
  destruct (cut_at sep bs) as [[a b]|] eqn:E; [|done].
  intros [= _ <-]. specialize (IH _ eq_refl). simpl. lia.
Qed.

Lemma alt_params_split fuel params :
  (length params <= fuel)%nat →
  alt_params fuel params = existsb is_alt_mode (split_on (chr ";") params).
Proof.
  revert params. induction fuel as [|fuel IH]; intros params Hl.
  { destruct params; [done|simpl in Hl; lia]. }
  destruct params as [|c ps] eqn:Ep; [done|]. rewrite <- Ep in *.
  rewrite split_on_cut. replace (alt_params (S fuel) params) with
    (match cut_at (chr ";") params with
     | None => is_alt_mode params
     | Some (seg, rest) => if is_alt_mode seg then true else alt_params fuel rest
     end) by (by subst).
  destruct (cut_at _ _) as [[seg rest]|] eqn:E; cbn [existsb]; [|by rewrite orb_false_r].
  apply cut_at_shorter in E. rewrite IH by lia. by destruct (is_alt_mode seg).
Qed.

(** ** One token at a time *)

Lemma csiAltScreenMode_tok c1 params final :
  csiAltScreenMode (csi_bytes c1 ++ params ++ [final]) =
    match alt_switch (TkCSI c1 params final) with
    | Some enter => (true, enter)
    | None => (false, false)
    end.
Proof.
  assert (stripCSIIntroducer (csi_bytes c1 ++ params ++ [final]) = params ++ [final]) as E
    by (destruct c1; done).
  unfold csiAltScreenMode. rewrite E, last_snoc. unfold alt_switch.
  destruct params as [|p params]; [done|].
  cbn [app hd tl length]. rewrite removelast_last, length_app. cbn [length].
  rewrite alt_params_split by lia.
  destruct params as [|q params].
  { simpl. by rewrite !andb_false_r. }
  cbn [length]. replace (S (S (length params) + 1) <? 3)%nat with false
    by (symmetry; apply Nat.ltb_ge; lia).
  destruct (final =? chr "h"), (final =? chr "l"), (p =? chr "?"); cbn [negb andb orb];
    try done; by destruct (existsb is_alt_mode _).
Qed.

Lemma csi_params_feed alt pending params :
  Forall (λ b, is_final b = false) params →
  (length pending + length params <= 256)%nat →
  Filter params (mkPrimary alt primaryFilterCSI pending) =
    ([], mkPrimary alt primaryFilterCSI (pending ++ params)).
Proof.
  intros H. revert pending. induction H as [|b params Hb Hps IH]; intros pending Hl.
  { by rewrite app_nil_r. }
  cbn [length] in Hl. rewrite Filter_cons. cbn [feed primary_filter].
  unfold primary_feed. cbn [pf_state pf_pending inAlt]. rewrite Hb.
  assert ((256 <? length (pending ++ [b]))%nat = false) as ->
    by (apply Nat.ltb_ge; rewrite length_app; simpl; lia).
  cbn [fst snd]. rewrite IH by (rewrite length_app; simpl; lia).
  by rewrite <- app_assoc.
Qed.

Lemma csi_intro_feed alt c1 :
  Filter (csi_bytes c1) (ground alt) = ([], mkPrimary alt primaryFilterCSI (csi_bytes c1)).
Proof. destruct c1; cbn [csi_bytes]; rewrite !Filter_cons, Filter_nil; done. Qed.

Lemma filter_tok alt t :
  tok_ok t →
  Filter (tok_bytes t) (ground alt) =
    match alt_switch t with
    | Some alt' => ([], ground alt')
    | None => (if alt then [] else tok_bytes t, ground alt)
    end.
Proof.
  destruct t as [b|b|c1 params final]; cbn [tok_ok tok_bytes].
  - intros [H1 H2]. rewrite Filter_cons, Filter_nil. cbn [feed primary_filter].
    unfold primary_feed. cbn [pf_state ground inAlt].
    rewrite (proj2 (Z.eqb_neq b ESC)), (proj2 (Z.eqb_neq b 155)) by done.
    by destruct alt.
  - intros H. rewrite !Filter_cons, Filter_nil. cbn [feed primary_filter].
    unfold primary_feed at 1 3. cbn [pf_state ground inAlt pf_pending fst snd].
    rewrite Z.eqb_refl. cbn [fst snd]. unfold primary_feed. cbn [pf_state inAlt pf_pending].
    rewrite (proj2 (Z.eqb_neq b _)) by done. by destruct alt.
  - intros (Hp & Hf & Hl). rewrite Filter_app, csi_intro_feed. cbn [fst snd].
    rewrite Filter_app, csi_params_feed by (try done; destruct c1; simpl; lia).
    cbn [fst snd app]. rewrite Filter_cons, Filter_nil. cbn [feed primary_filter].
    unfold primary_feed. cbn [pf_state inAlt pf_pending]. rewrite Hf.
    rewrite <- app_assoc, csiAltScreenMode_tok.
    destruct (alt_switch _) as [alt'|]; [done|]. by destruct alt; rewrite ?app_nil_r.
Qed.

(** Whatever text, escapes and CSI sequences the child writes, in whatever
    chunks they arrive, the mirror terminal receives exactly the tokens written
    while the primary screen was selected, whole and unchanged, without the
    alternate-screen switches. *)
Theorem primary_tokens alt toks chunks :
  Forall tok_ok toks → concat chunks = concat (tok_bytes <$> toks) →
  concat (Filter_chunks chunks (ground alt)).1 = (primary_view alt toks).1 ∧
  (Filter_chunks chunks (ground alt)).2 = ground (primary_view alt toks).2.
Proof.
  intros Hok Hc.
  assert (Filter (concat (tok_bytes <$> toks)) (ground alt) =
    ((primary_view alt toks).1, ground (primary_view alt toks).2)) as E.
  { clear Hc. revert alt. induction Hok as [|t toks Ht Htoks IH]; intros alt; [done|].
    rewrite fmap_cons. cbn [concat primary_view]. rewrite Filter_app, filter_tok by done.
    destruct (alt_switch t) as [alt'|]; cbn [fst snd app]; [by rewrite IH|].
    rewrite IH. by destruct (primary_view alt toks). }
  rewrite <- Hc, Filter_chunks_concat in E. by injection E as -> ->.
Qed.

Lemma primary_tokens_witness :
  let toks := [TkText 65; TkCSI false B"?1049;25" (chr "h"); TkText 66; TkEsc 55;
               TkCSI true B"?47" (chr "l"); TkText 67] in
  let chunks := [[65; 27]; B"[?10"; B"49;25hB"; [27; 55; 155]; B"?47lC"] in
  concat (Filter_chunks chunks (ground false)).1 = (primary_view false toks).1 ∧
  (Filter_chunks chunks (ground false)).2 = ground (primary_view false toks).2.
Proof.
  apply primary_tokens; [|reflexivity].
  repeat constructor; try (intros H; discriminate H); simpl; lia.
Defined.

(** The pending sequence is bounded: a missing final byte cannot grow it. *)
Definition pending_ok (f : vtPrimaryScreenFilter) : Prop :=
  match pf_state f with
  | primaryFilterEsc => (length (pf_pending f) <= 1)%nat
  | _ => (length (pf_pending f) <= 256)%nat
  end.

Lemma primary_bounded inp f : pending_ok f → pending_ok (Filter inp f).2.
Proof.
  apply Filter_inv. intros b [alt st pending]. unfold pending_ok. cbn [feed primary_filter].
  unfold primary_feed. cbn [pf_state pf_pending inAlt]. intros H. destruct st; split_ifs;
    try destruct (csiAltScreenMode _) as [[] ?]; cbn [fst snd pf_state pf_pending];
    try destruct alt; cbn [fst snd pf_state pf_pending]; rewrite ?length_app; simpl; try lia.
  all: try (apply Nat.ltb_ge; rewrite length_app in *; assumption).
  all: match goal with E : (256 <? _)%nat = false |- _ =>
         apply Nat.ltb_ge in E; rewrite length_app in E; simpl in E; lia end.
Qed.
