(* ===== verification/Recorder.v ===== *)
(** * [recorder.go], write side: the hootty.log v1 recorder

    The recorder's fields, its clock (milliseconds since the recording started,
    read once per operation, an argument here), and every method, with the
    [uint64] subtractions written with their wrap-around and every [w.Write] a
    step of the writer that may fail. *)
From S2P Require Import Prelude GoBase.
Open Scope Z_scope.

Definition defaultRecorderCols : Z := 80.
Definition defaultRecorderRows : Z := 24.
Definition FrameMaxPayload : Z := 65536.
Definition frameBucketMs : Z := 33.

Definition FrameTypeOutput : Z := 1.
Definition FrameTypeResize : Z := 2.
Definition FrameTypeSpacer : Z := 3.

Definition FrameMagic : list byte := B"# hootty.log v1".
Definition recorderPreamble : list byte := FrameMagic ++ [10; 10].

Definition uint32_max : Z := 2 ^ 32 - 1.

Record Recorder := mkRecorder {
  rec_file : writer;           (** the file [w] writes to; it stays on disk after [Close] *)
  w_open : bool;               (** [w != nil] *)
  lastEmittedMs : Z;
  pendingBucketMs : Z;
  pendingHasBucket : bool;
  pendingBuf : list byte
}.

Abbreviation rec_st := (st Recorder io_error).

(** [r.w.Write(bs)]. *)
Definition rec_write (bs : list byte) : rec_st unit := λ r,
  if w_open r then
    let '(e, w') := Write bs (rec_file r) in
    (e, mkRecorder w' true (lastEmittedMs r) (pendingBucketMs r)
          (pendingHasBucket r) (pendingBuf r))
  else (Err NilDeref, r).

Definition set_last (ms : Z) (r : Recorder) : Recorder :=
  mkRecorder (rec_file r) (w_open r) ms (pendingBucketMs r) (pendingHasBucket r) (pendingBuf r).

Definition set_pending (ms : Z) (has : bool) (buf : list byte) (r : Recorder) : Recorder :=
  mkRecorder (rec_file r) (w_open r) (lastEmittedMs r) ms has buf.

(** The five header bytes of a frame. *)
Definition frame_hdr (typ delta len : Z) : list byte :=
  typ :: PutUint16 delta ++ PutUint16 len.

Definition writeResizeFrameLocked (deltaMs cols rows : Z) : rec_st unit :=
  _ ← rec_write (frame_hdr FrameTypeResize deltaMs 4);
  rec_write (PutUint16 cols ++ PutUint16 rows).

(** [advance]: the gap, capped at the largest [uint32]. *)
Definition spacer_advance (gap : Z) : Z :=
  if uint32_max <? gap then uint32_max else u32 gap.

(** The loop of [bridgeIdleLocked]; [fuel] bounds its iterations, and
    [bridge_loop_exit] shows that [bridge_fuel] is enough to reach its exit. *)
Fixpoint bridge_loop (fuel : nat) (nowMs : Z) : rec_st unit := λ r,
  let gap := u64 (nowMs - lastEmittedMs r) in
  if negb (65535 <? gap) then (Ok tt, r)
  else match fuel with
       | O => (Ok tt, r)
       | S fuel' =>
           (_ ← rec_write (frame_hdr FrameTypeSpacer 0 4);
            _ ← rec_write (PutUint32 (spacer_advance gap));
            _ ← st_modify (λ r, set_last (u64 (lastEmittedMs r + spacer_advance gap)) r);
            bridge_loop fuel' nowMs) r
       end.

Definition bridge_fuel (gap : Z) : nat := S (Z.to_nat (gap / uint32_max)).

Definition bridgeIdleLocked (nowMs : Z) : rec_st unit := λ r,
  if nowMs <=? lastEmittedMs r then (Ok tt, r)
  else bridge_loop (bridge_fuel (u64 (nowMs - lastEmittedMs r))) nowMs r.

(** The chunk loop of [flushPendingLocked]: at least one frame, and one more
    per further 65535 bytes. *)
Fixpoint flush_loop (fuel : nat) (delta : Z) (first : bool) (buf : list byte) : rec_st unit :=
  let chunkLen := Z.min (Z.of_nat (length buf)) (FrameMaxPayload - 1) in
  let thisDelta := if first then delta else 0 in
  _ ← rec_write (frame_hdr FrameTypeOutput thisDelta (u16 chunkLen));
  _ ← (if 0 <? chunkLen then rec_write (take (Z.to_nat chunkLen) buf) else mret tt);
  match drop (Z.to_nat chunkLen) buf, fuel with
  | [], _ => mret tt
  | _, O => mret tt
  | buf', S fuel' => flush_loop fuel' delta false buf'
  end.

Definition flushPendingLocked : rec_st unit := λ r,
  if negb (pendingHasBucket r) then (Ok tt, r)
  else
    let bucket := pendingBucketMs r in
    let buf := pendingBuf r in
    (_ ← st_modify (set_pending 0 false []);
     _ ← bridgeIdleLocked bucket;
     r' ← st_get;
     _ ← flush_loop (length buf) (u16 (u64 (bucket - lastEmittedMs r'))) true buf;
     st_modify (set_last bucket)) r.

(** [NewRecorder]: [open_] is the result of [os.OpenFile]. *)
Definition NewRecorder (open_ : res io_error writer) (cols rows : Z) : res io_error Recorder :=
  let cols := if cols =? 0 then defaultRecorderCols else cols in
  let rows := if rows =? 0 then defaultRecorderRows else rows in
  match open_ with
  | Err e => Err e
  | Ok f =>
      let r := mkRecorder f true 0 0 false [] in
      match rec_write recorderPreamble r with
      | (Err e, _) => Err e
      | (Ok _, r1) =>
          match writeResizeFrameLocked 0 cols rows r1 with
          | (Err e, _) => Err e
          | (Ok _, r2) => Ok r2
          end
      end
  end.

(** The bucket an output at [now] belongs to. *)
Definition bucket_of (now last : Z) : Z :=
  let bucket := now / frameBucketMs * frameBucketMs in
  if bucket <? last then last else bucket.

(** [Write], after its nil and length guards, at clock reading [now]. *)
Definition write_locked (now : Z) (data : list byte) : rec_st nat :=
  r ← st_get;
  let bucket := bucket_of now (lastEmittedMs r) in
  _ ← (if pendingHasBucket r && negb (bucket =? pendingBucketMs r)
       then flushPendingLocked else mret tt);
  _ ← st_modify (λ r, if pendingHasBucket r then r
                      else set_pending bucket true (pendingBuf r) r);
  _ ← st_modify (λ r, set_pending (pendingBucketMs r) (pendingHasBucket r)
                        (pendingBuf r ++ data) r);
  mret (length data).

(** The receiver of the exported methods: [None] is the nil [*Recorder]. *)
Definition Recorder_Write (now : Z) (data : list byte) : st (option Recorder) io_error nat := λ o,
  match o with
  | None => (Ok (length data), None)
  | Some r =>
      if negb (w_open r) then (Ok (length data), Some r)
      else match data with
           | [] => (Ok 0%nat, Some r)
           | _ => let '(x, r') := write_locked now data r in (x, Some r')
           end
  end.

Definition resize_locked (now cols rows : Z) : rec_st unit :=
  _ ← flushPendingLocked;
  _ ← bridgeIdleLocked now;
  r ← st_get;
  _ ← writeResizeFrameLocked (u16 (u64 (now - lastEmittedMs r))) cols rows;
  st_modify (set_last now).

Definition RecordResize (now cols rows : Z) : st (option Recorder) io_error unit := λ o,
  match o with
  | None => (Ok tt, None)
  | Some r =>
      if negb (w_open r) then (Ok tt, Some r)
      else let '(x, r') := resize_locked now cols rows r in (x, Some r')
  end.

(** [Close]: [close_] is what closing the file returns. *)
Definition Recorder_Close (close_ : option io_error) : st (option Recorder) io_error unit := λ o,
  match o with
  | None => (Ok tt, None)
  | Some r =>
      if negb (w_open r) then (Ok tt, Some r)
      else
        let '(flushErr, r1) := flushPendingLocked r in
        let r2 := mkRecorder (rec_file r1) false (lastEmittedMs r1) (pendingBucketMs r1)
                    (pendingHasBucket r1) (pendingBuf r1) in
        match flushErr, close_ with
        | Err e, _ => (Err e, Some r2)
        | Ok _, Some e => (Err e, Some r2)
        | Ok _, None => (Ok tt, Some r2)
        end
  end.
