(* ===== verification/FrameDecoder.v ===== *)
(** * [recorder.go], read side: the hootty.log v1 decoder

    [FrameDecoder.Next] with its lazy preamble ([Replay] has its consumers).
    [item] is the record the format is made of (every record on disk, spacers
    included); [decode_all_items] says that decoding is the left inverse of
    encoding, with a truncated last record ignored. *)
From S2P Require Import Prelude GoBase Recorder.
Open Scope Z_scope.

Inductive dec_error :=
| ErrBadMagic
| ErrSpacerLength (n : Z)   (** [fmt.Errorf("hootty.log: spacer length=%d, want 4")] *)
| DecIO (e : io_error)      (** an error of the reader; [DecIO EOF] is [io.EOF] *)
| OutOfFuel.                (** not an error of the code: see [Next_fuel] *)

Record Frame := mkFrame { fr_Type : Z; fr_At : Z; fr_Payload : list byte }.

#[export] Instance Frame_eq_dec : EqDecision Frame.
Proof. solve_decision. Defined.

Record FrameDecoder := mkDecoder {
  dec_r : reader;
  preambleParsed : bool;
  cumMs : Z
}.

Abbreviation dec_st := (st FrameDecoder dec_error).

Definition NewFrameDecoder (r : reader) : FrameDecoder := mkDecoder r false 0.

(** [errors.Is(err, io.EOF) || errors.Is(err, io.ErrUnexpectedEOF)] *)
Definition is_eof (e : io_error) : bool :=
  match e with EOF | ErrUnexpectedEOF => true | _ => false end.

(** [io.ReadFull(d.r, buf)] of a frame: short reads are the end of the file. *)
Definition read_frame_bytes (n : nat) : dec_st (list byte) := λ d,
  let '(x, r') := ReadFull n (dec_r d) in
  let d' := mkDecoder r' (preambleParsed d) (cumMs d) in
  match x with
  | Ok bs => (Ok bs, d')
  | Err e => (Err (DecIO (if is_eof e then EOF else e)), d')
  end.

(** The byte-at-a-time loop of [parsePreamble]. *)
Fixpoint preamble_loop (data : list byte) (fin : io_error) (buf : list byte)
  : res dec_error (list byte) * reader :=
  if (4096 <? Z.of_nat (length buf)) then (Err ErrBadMagic, Reader data fin)
  else match data with
       | [] => (Err match fin with EOF => ErrBadMagic | e => DecIO e end, Reader [] fin)
       | b :: data' =>
           let buf' := buf ++ [b] in
           if (2 <=? Z.of_nat (length buf')) && (b =? 10) &&
              bool_decide (buf' !! (length buf' - 2)%nat = Some 10)
           then (Ok buf', Reader data' fin)
           else preamble_loop data' fin buf'
       end.

(** The magic check: every byte of [FrameMagic], then a newline. *)
Definition check_magic (buf : list byte) : bool :=
  bool_decide (take (length FrameMagic) buf = FrameMagic) &&
  bool_decide (buf !! length FrameMagic = Some 10).

Definition parsePreamble : dec_st unit := λ d,
  let '(x, r') := preamble_loop (rd_data (dec_r d)) (rd_fin (dec_r d)) [] in
  let d' := mkDecoder r' (preambleParsed d) (cumMs d) in
  match x with
  | Err e => (Err e, d')
  | Ok buf => if check_magic buf then (Ok tt, d') else (Err ErrBadMagic, d')
  end.

(** [time.Duration(d.cumMs) * time.Millisecond] *)
Definition duration_ms (ms : Z) : Z := i64 (i64 ms * 1000000).

Definition set_cum (ms : Z) (d : FrameDecoder) : FrameDecoder :=
  mkDecoder (dec_r d) (preambleParsed d) ms.
Definition set_parsed (d : FrameDecoder) : FrameDecoder :=
  mkDecoder (dec_r d) true (cumMs d).

(** [Next] after the preamble; the recursion is on the spacers it skips. *)
Fixpoint next_frame (fuel : nat) : dec_st Frame :=
  match fuel with
  | O => st_fail OutOfFuel
  | S fuel' =>
      hdr ← read_frame_bytes 5;
      let t := nth 0 hdr 0 in
      let delta := le_get (take 2 (drop 1 hdr)) in
      let length_ := le_get (take 2 (drop 3 hdr)) in
      scratch ← (if 0 <? length_ then read_frame_bytes (Z.to_nat length_) else mret []);
      if t =? FrameTypeSpacer then
        if negb (length_ =? 4) then st_fail (ErrSpacerLength length_)
        else
          _ ← st_modify (λ d, set_cum (u64 (cumMs d + le_get (take 4 scratch))) d);
          next_frame fuel'
      else
        _ ← st_modify (λ d, set_cum (u64 (cumMs d + delta)) d);
        d ← st_get;
        mret (mkFrame t (duration_ms (cumMs d)) scratch)
  end.

Definition Next : dec_st Frame := λ d,
  let parsed := if preambleParsed d then (Ok tt, d)
                else match parsePreamble d with
                     | (Ok _, d') => (Ok tt, set_parsed d')
                     | e => e
                     end in
  match parsed with
  | (Err e, d') => (Err e, d')
  | (Ok _, d') => next_frame (S (length (rd_data (dec_r d')))) d'
  end.

(** The loop every consumer runs, [for { fr, err := dec.Next(); ... }]: the
    frames up to the first error, and that error. *)
Fixpoint decode_loop (fuel : nat) (d : FrameDecoder) : list Frame * dec_error :=
  match fuel with
  | O => ([], OutOfFuel)
  | S fuel' =>
      match Next d with
      | (Err e, _) => ([], e)
      | (Ok f, d') => let '(fs, e) := decode_loop fuel' d' in (f :: fs, e)
      end
  end.

Definition decode_all (d : FrameDecoder) : list Frame * dec_error :=
  decode_loop (S (length (rd_data (dec_r d)))) d.

(** ** The format *)

(** One record of the file: a frame or a spacer. *)
Record item := mkItem { it_typ : Z; it_delta : Z; it_payload : list byte }.

Definition enc_item (it : item) : list byte :=
  frame_hdr (it_typ it) (it_delta it) (Z.of_nat (length (it_payload it))) ++ it_payload it.

Definition enc_items (its : list item) : list byte := concat (enc_item <$> its).

(** The fields fit their width; a spacer moreover holds one [uint32]. *)
Definition item_fits (it : item) : Prop :=
  is_byte (it_typ it) ∧ 0 <= it_delta it < 65536 ∧
  Z.of_nat (length (it_payload it)) < 65536.

Definition spacer_ok (it : item) : Prop :=
  it_typ it = FrameTypeSpacer → length (it_payload it) = 4%nat.

Definition item_ok (it : item) : Prop := item_fits it ∧ spacer_ok it.

(** What a record means at time [cum]: the new time, and the frame it shows. *)
Definition item_cum (cum : Z) (it : item) : Z :=
  u64 (cum + (if it_typ it =? FrameTypeSpacer then le_get (it_payload it) else it_delta it)).

Definition item_frame (cum : Z) (it : item) : list Frame :=
  if it_typ it =? FrameTypeSpacer then []
  else [mkFrame (it_typ it) (duration_ms (item_cum cum it)) (it_payload it)].

Fixpoint items_frames (cum : Z) (its : list item) : list Frame :=
  match its with
  | [] => []
  | it :: its' => item_frame cum it ++ items_frames (item_cum cum it) its'
  end.

Definition items_cum (cum : Z) (its : list item) : Z := foldl item_cum cum its.

(** An incomplete last record: what a recorder killed while writing leaves. *)
Definition truncated (tail : list byte) : Prop :=
  tail = [] ∨ ∃ it, item_fits it ∧ tail `prefix_of` enc_item it ∧ tail ≠ enc_item it.

(** ** The decoder terminates *)

Lemma ReadFull_ok n r bs r' :
  ReadFull n r = (Ok bs, r') →
  length bs = n ∧ rd_data r = bs ++ rd_data r' ∧ rd_fin r' = rd_fin r.
Proof.
  unfold ReadFull. case_decide; intros [= <- <-]. simpl.
  rewrite length_take, take_drop. auto with lia.
Qed.

Lemma read_frame_bytes_ok n d bs d' :
  read_frame_bytes n d = (Ok bs, d') →
  length bs = n ∧ rd_data (dec_r d) = bs ++ rd_data (dec_r d') ∧
  rd_fin (dec_r d') = rd_fin (dec_r d) ∧
  preambleParsed d' = preambleParsed d ∧ cumMs d' = cumMs d.
Proof.
  unfold read_frame_bytes. destruct (ReadFull n (dec_r d)) as [[a|e] r'] eqn:E;
    intros [= <- <-]. simpl. apply ReadFull_ok in E. naive_solver.
Qed.

Lemma read_frame_bytes_shrinks n d bs d' :
  read_frame_bytes n d = (Ok bs, d') →
  length (rd_data (dec_r d)) = (n + length (rd_data (dec_r d')))%nat.
Proof.
  intros H. apply read_frame_bytes_ok in H as (<- & -> & _). by rewrite length_app.
Qed.

(** What is read once the header is known; [ReadFull] of zero bytes reads none. *)
Lemma read_payload_eq n d :
  (if 0 <? n then read_frame_bytes (Z.to_nat n) else mret []) d =
  if 0 <? n then read_frame_bytes (Z.to_nat n) d else (Ok [], d).
Proof. by destruct (0 <? n). Qed.

(** The records [next_frame] reads shrink the input by five bytes at least, so
    more fuel than there are bytes changes nothing. *)
Lemma next_frame_fuel f1 f2 d :
  (length (rd_data (dec_r d)) < f1)%nat → (length (rd_data (dec_r d)) < f2)%nat →
  next_frame f1 d = next_frame f2 d.
Proof.
  revert f2 d. induction f1 as [|f1 IH]; intros f2 d H1 H2; [lia|].
  destruct f2 as [|f2]; [lia|]. cbn [next_frame].
  unfold mbind, st_bind. destruct (read_frame_bytes 5 d) as [[hdr|e] d1] eqn:E1; [|done].
  apply read_frame_bytes_shrinks in E1. rewrite !read_payload_eq.
  destruct (if 0 <? _ then _ else _) as [[scr|e] d2] eqn:E2; [|done].
  assert (length (rd_data (dec_r d2)) <= length (rd_data (dec_r d1)))%nat.
  { destruct (0 <? _); [apply read_frame_bytes_shrinks in E2; lia|].
    by injection E2 as [= _ <-]. }
  destruct (_ =? FrameTypeSpacer); [|done].
  destruct (negb _); [done|]. cbn. apply IH; simpl; lia.
Qed.

Lemma next_frame_total fuel d :
  (length (rd_data (dec_r d)) < fuel)%nat → (next_frame fuel d).1 ≠ Err OutOfFuel.
Proof.
  revert d. induction fuel as [|fuel IH]; intros d Hd; [lia|]. cbn [next_frame].
  unfold mbind, st_bind. destruct (read_frame_bytes 5 d) as [[hdr|e] d1] eqn:E1.
  2:{ unfold read_frame_bytes in E1. destruct (ReadFull 5 _) as [[|]?]; naive_solver. }
  apply read_frame_bytes_shrinks in E1. rewrite read_payload_eq.
  destruct (if 0 <? _ then _ else _) as [[scr|e] d2] eqn:E2.
  2:{ destruct (0 <? _); [|done].
      unfold read_frame_bytes in E2. destruct (ReadFull _ _) as [[|]?]; naive_solver. }
  assert (length (rd_data (dec_r d2)) <= length (rd_data (dec_r d1)))%nat.
  { destruct (0 <? _); [apply read_frame_bytes_shrinks in E2; lia|].
    by injection E2 as [= _ <-]. }
  destruct (_ =? FrameTypeSpacer); [|done].
  destruct (negb _); [done|]. cbn. apply IH; simpl; lia.
Qed.

Lemma next_frame_shrinks fuel d f d' :
  next_frame fuel d = (Ok f, d') →
  (length (rd_data (dec_r d')) < length (rd_data (dec_r d)))%nat ∧
  preambleParsed d' = preambleParsed d.
Proof.
  revert d. induction fuel as [|fuel IH]; intros d; [done|]. cbn [next_frame].
  unfold mbind, st_bind. destruct (read_frame_bytes 5 d) as [[hdr|e] d1] eqn:E1; [|done].
  pose proof (read_frame_bytes_ok _ _ _ _ E1) as (_ & _ & _ & P1 & _).
  apply read_frame_bytes_shrinks in E1. rewrite read_payload_eq.
  destruct (if 0 <? _ then _ else _) as [[scr|e] d2] eqn:E2; [|done].
  assert (length (rd_data (dec_r d2)) <= length (rd_data (dec_r d1)) ∧
    preambleParsed d2 = preambleParsed d1)%nat as [E3 P2].
  { destruct (0 <? _); [|by injection E2 as [= _ <-]].
    pose proof (read_frame_bytes_ok _ _ _ _ E2) as (_ & _ & _ & P2 & _).
    apply read_frame_bytes_shrinks in E2. split; [lia|done]. }
  destruct (_ =? FrameTypeSpacer).
  - destruct (negb _); [done|]. cbn. intros H%IH. simpl in H. split; [lia|]. naive_solver congruence.
  - intros [= <- <-]. simpl. split; [lia|congruence].
Qed.

Lemma preamble_loop_shrinks data fin buf x r :
  preamble_loop data fin buf = (x, r) → (length (rd_data r) <= length data)%nat.
Proof.
  revert buf. induction data as [|b data IH]; intros buf; cbn [preamble_loop].
  - destruct (4096 <? _); by intros [= _ <-].
  - destruct (4096 <? _); [by intros [= _ <-]|].
    destruct (_ && _); [intros [= _ <-]; simpl; lia|]. intros H%IH. simpl. lia.
Qed.

(** What the first [Next] does before it reads a frame. *)
Definition ready (d : FrameDecoder) : res dec_error unit * FrameDecoder :=
  if preambleParsed d then (Ok tt, d)
  else match parsePreamble d with
       | (Ok _, d') => (Ok tt, set_parsed d')
       | e => e
       end.

Lemma Next_ready d :
  Next d = match ready d with
           | (Err e, d') => (Err e, d')
           | (Ok _, d') => next_frame (S (length (rd_data (dec_r d')))) d'
           end.
Proof. done. Qed.

Lemma ready_shrinks d x d' :
  ready d = (x, d') →
  (length (rd_data (dec_r d')) <= length (rd_data (dec_r d)))%nat ∧
  x ≠ Err OutOfFuel ∧ (is_ok x → preambleParsed d' = true).
Proof.
  unfold ready. destruct (preambleParsed d) eqn:Hp.
  { intros [= <- <-]. done. }
  unfold parsePreamble. destruct (preamble_loop _ _ _) as [y r] eqn:E.
  assert (y ≠ Err OutOfFuel) as Hy.
  { clear -E. revert E. generalize (@nil byte). generalize (rd_data (dec_r d)).
    induction l as [|b data IH]; intros buf; cbn [preamble_loop].
    - destruct (4096 <? _); intros [= <- _]; [done|]. by destruct (rd_fin _).
    - destruct (4096 <? _); [by intros [= <- _]|].
      destruct (_ && _); [by intros [= <- _]|]. apply IH. }
  apply preamble_loop_shrinks in E. destruct y as [buf|e].
  - destruct (check_magic buf); intros [= <- <-]; simpl; auto.
  - intros [= <- <-]. simpl. split; [done|]. split; [congruence|done].
Qed.

Lemma Next_shrinks d f d' :
  Next d = (Ok f, d') →
  (length (rd_data (dec_r d')) < length (rd_data (dec_r d)))%nat ∧ preambleParsed d' = true.
Proof.
  rewrite Next_ready. destruct (ready d) as [[[]|e] d1] eqn:E; [|done].
  apply ready_shrinks in E as (E & _ & Hp).
  intros [H H']%next_frame_shrinks. split; [lia|]. rewrite H'. by apply Hp.
Qed.

Lemma Next_total d : (Next d).1 ≠ Err OutOfFuel.
Proof.
  rewrite Next_ready. destruct (ready d) as [[[]|e] d1] eqn:E.
  - apply next_frame_total. lia.
  - apply ready_shrinks in E as (_ & E & _). simpl. congruence.
Qed.

Lemma decode_loop_fuel f1 f2 d :
  (length (rd_data (dec_r d)) < f1)%nat → (length (rd_data (dec_r d)) < f2)%nat →
  decode_loop f1 d = decode_loop f2 d.
Proof.
  revert f2 d. induction f1 as [|f1 IH]; intros f2 d H1 H2; [lia|].
  destruct f2 as [|f2]; [lia|]. cbn [decode_loop].
  destruct (Next d) as [[f|e] d'] eqn:E; [|done].
  apply Next_shrinks in E as [E _]. rewrite (IH f2); [done|lia|lia].
Qed.

Lemma decode_loop_total fuel d :
  (length (rd_data (dec_r d)) < fuel)%nat → (decode_loop fuel d).2 ≠ OutOfFuel.
Proof.
  revert d. induction fuel as [|fuel IH]; intros d Hd; [lia|]. cbn [decode_loop].
  destruct (Next d) as [[f|e] d'] eqn:E.
  - apply Next_shrinks in E as [E _]. specialize (IH d' ltac:(lia)).
    by destruct (decode_loop fuel d').
  - pose proof (Next_total d) as H. rewrite E in H. simpl in *. congruence.
Qed.

(** The decoder is read one frame at a time. *)
Lemma decode_all_cons d f fs e :
  decode_all d = (f :: fs, e) → ∃ d', Next d = (Ok f, d') ∧ decode_all d' = (fs, e).
Proof.
  unfold decode_all. cbn [decode_loop]. destruct (Next d) as [[g|x] d'] eqn:E; [|done].
  apply Next_shrinks in E as [E _].
  rewrite (decode_loop_fuel _ (S (length (rd_data (dec_r d'))))) by lia.
  destruct (decode_loop (S _) d') as [gs x] eqn:E'. intros [= <- <- <-].
  exists d'. split; [done|]. by rewrite <- E'.
Qed.

(** The decoder reaches the end of any file, corrupt or not: every consumer
    loop [for { fr, err := dec.Next() ... }] stops with an error of the code
    ([io.EOF], a bad magic, a bad spacer or the reader's own) after at most one
    [Next] per byte of input. *)
Theorem decode_terminates d : (decode_all d).2 ≠ OutOfFuel.
Proof. apply decode_loop_total. lia. Qed.

(** ** Decoding is the left inverse of encoding *)

Lemma enc_item_length it : length (enc_item it) = (5 + length (it_payload it))%nat.
Proof. unfold enc_item, frame_hdr, PutUint16. by rewrite length_app. Qed.

Lemma enc_items_cons it its : enc_items (it :: its) = enc_item it ++ enc_items its.
Proof. done. Qed.

Lemma enc_items_app a b : enc_items (a ++ b) = enc_items a ++ enc_items b.
Proof. unfold enc_items. by rewrite fmap_app, concat_app. Qed.

Lemma enc_items_length its : (5 * length its <= length (enc_items its))%nat.
Proof.
  induction its as [|it its IH]; [simpl; lia|].
  rewrite enc_items_cons, length_app, enc_item_length. simpl. lia.
Qed.

(** Reading the five header bytes of an encoded item. *)
Lemma read_hdr it rest fin p cum :
  read_frame_bytes 5 (mkDecoder (Reader (enc_item it ++ rest) fin) p cum) =
    (Ok (frame_hdr (it_typ it) (it_delta it) (Z.of_nat (length (it_payload it)))),
     mkDecoder (Reader (it_payload it ++ rest) fin) p cum).
Proof.
  unfold read_frame_bytes, enc_item. simpl rd_data.
  rewrite <- app_assoc. unfold dec_r at 1. by rewrite ReadFull_app.
Qed.

Lemma hdr_typ t d l : nth 0 (frame_hdr t d l) 0 = t.
Proof. done. Qed.
Lemma hdr_delta t d l : 0 <= d < 65536 → le_get (take 2 (drop 1 (frame_hdr t d l))) = d.
Proof. intros. by apply (le_get_put_small 2). Qed.
Lemma hdr_len t d l : 0 <= l < 65536 → le_get (take 2 (drop 3 (frame_hdr t d l))) = l.
Proof. intros. by apply (le_get_put_small 2). Qed.

Lemma read_payload_item (pl : list byte) rest fin p cum :
  (if 0 <? Z.of_nat (length pl)
   then read_frame_bytes (Z.to_nat (Z.of_nat (length pl)))
          (mkDecoder (Reader (pl ++ rest) fin) p cum)
   else (Ok [], mkDecoder (Reader (pl ++ rest) fin) p cum)) =
  (Ok pl, mkDecoder (Reader rest fin) p cum).
Proof.
  destruct pl as [|b pl]; [done|]. cbn [length]. rewrite Nat2Z.id.
  rewrite (proj2 (Z.ltb_lt 0 _)) by lia.
  unfold read_frame_bytes, dec_r at 1. by rewrite ReadFull_app.
Qed.

Lemma next_frame_item fuel it rest fin p cum :
  item_ok it →
  next_frame (S fuel) (mkDecoder (Reader (enc_item it ++ rest) fin) p cum) =
    let d' := mkDecoder (Reader rest fin) p (item_cum cum it) in
    if it_typ it =? FrameTypeSpacer then next_frame fuel d'
    else (Ok (mkFrame (it_typ it) (duration_ms (item_cum cum it)) (it_payload it)), d').
Proof.
  intros [(Ht & Hd & Hl) Hs]. cbn [next_frame]. unfold mbind, st_bind.
  rewrite read_hdr, hdr_typ, hdr_delta, hdr_len, read_payload_eq, read_payload_item by lia.
  unfold item_cum. destruct (Z.eqb_spec (it_typ it) FrameTypeSpacer) as [E|E]; [|done].
  specialize (Hs E). rewrite Hs. simpl. by rewrite take_ge by lia.
Qed.

Definition stream_end (fin : io_error) : dec_error := DecIO (if is_eof fin then EOF else fin).

Lemma read_frame_bytes_short n bs fin p cum :
  (length bs < n)%nat →
  read_frame_bytes n (mkDecoder (Reader bs fin) p cum) =
    (Err (stream_end fin), mkDecoder (Reader [] fin) p cum).
Proof.
  intros H. unfold read_frame_bytes, stream_end. simpl.
  rewrite ReadFull_short by done. by destruct fin, bs.
Qed.

Lemma next_frame_truncated fuel tail fin p cum :
  truncated tail →
  (next_frame (S fuel) (mkDecoder (Reader tail fin) p cum)).1 = Err (stream_end fin).
Proof.
  intros Ht. cbn [next_frame]. unfold mbind, st_bind.
  destruct (decide (length tail < 5)%nat) as [H5|H5].
  { by rewrite read_frame_bytes_short. }
  destruct Ht as [->|(it & (Ht & Hd & Hl) & [k Hk] & Hne)]; [simpl in H5; lia|].
  unfold enc_item in Hk. set (h := frame_hdr _ _ _) in *.
  assert (length h = 5%nat) as Hh by done.
  assert (∃ t', tail = h ++ t') as [t' ->].
  { exists (drop 5 tail). rewrite <- (take_drop 5 tail) at 1. f_equal.
    apply (f_equal (take 5)) in Hk. rewrite take_app_le in Hk by lia.
    rewrite take_app_le in Hk by lia. by rewrite <- Hk. }
  unfold read_frame_bytes at 1. unfold dec_r at 1. rewrite ReadFull_app by done.
  cbn [dec_r preambleParsed cumMs]. subst h.
  rewrite hdr_typ, hdr_delta, hdr_len, read_payload_eq by lia.
  rewrite <- app_assoc in Hk. apply app_inv_head in Hk.
  assert (length t' < length (it_payload it))%nat.
  { rewrite Hk, length_app. destruct k; [|simpl; lia].
    exfalso. apply Hne. unfold enc_item. by rewrite Hk, app_nil_r. }
  rewrite (proj2 (Z.ltb_lt 0 _)), Nat2Z.id, read_frame_bytes_short by lia. done.
Qed.

Lemma Next_parsed r cum :
  Next (mkDecoder r true cum) = next_frame (S (length (rd_data r))) (mkDecoder r true cum).
Proof. done. Qed.

Lemma decode_loop_step fuel it rest fin cum :
  item_ok it → (length (enc_item it ++ rest) < fuel)%nat →
  decode_loop fuel (mkDecoder (Reader (enc_item it ++ rest) fin) true cum) =
    let '(fs, e) := decode_loop fuel (mkDecoder (Reader rest fin) true (item_cum cum it)) in
    (item_frame cum it ++ fs, e).
Proof.
  intros Hit Hf. rewrite length_app, enc_item_length in Hf.
  rewrite (decode_loop_fuel fuel (S fuel) (mkDecoder (Reader (enc_item it ++ rest) fin) _ _))
    by (simpl; rewrite ?length_app, ?enc_item_length; lia).
  cbn [decode_loop].
  rewrite Next_parsed, next_frame_item by done. cbn zeta. unfold item_frame.
  destruct (it_typ it =? FrameTypeSpacer); [|done]. cbn [rd_data app].
  rewrite (next_frame_fuel _ (S (length rest)))
    by (simpl; rewrite ?length_app, ?enc_item_length; simpl; lia).
  rewrite (decode_loop_fuel fuel (S fuel)) by (simpl; lia).
  cbn [decode_loop]. rewrite Next_parsed. cbn [rd_data].
  destruct (next_frame _ _) as [[f|e] d]; [|done]. by destruct (decode_loop fuel d).
Qed.

Lemma decode_loop_truncated fuel tail fin cum :
  truncated tail → (0 < fuel)%nat →
  decode_loop fuel (mkDecoder (Reader tail fin) true cum) = ([], stream_end fin).
Proof.
  intros Htail Hf. destruct fuel as [|fuel]; [lia|]. cbn [decode_loop]. rewrite Next_parsed.
  pose proof (next_frame_truncated (length tail) tail fin true cum Htail) as H.
  cbn [rd_data]. destruct (next_frame _ _) as [[|] ?]; by simplify_eq/=.
Qed.

Lemma decode_loop_bad_spacer fuel it rest fin cum :
  item_fits it → ¬ spacer_ok it → (0 < fuel)%nat →
  decode_loop fuel (mkDecoder (Reader (enc_item it ++ rest) fin) true cum) =
    ([], ErrSpacerLength (Z.of_nat (length (it_payload it)))).
Proof.
  intros (Ht & Hd & Hl) Hs Hf. destruct fuel as [|fuel]; [lia|]. cbn [decode_loop].
  rewrite Next_parsed. cbn [next_frame]. unfold mbind, st_bind.
  rewrite read_hdr, hdr_typ, hdr_delta, hdr_len, read_payload_eq, read_payload_item by lia.
  unfold spacer_ok in Hs. destruct (Z.eqb_spec (it_typ it) FrameTypeSpacer); [|tauto].
  destruct (Z.eqb_spec (Z.of_nat (length (it_payload it))) 4); [lia|done].
Qed.

(** A decoder past the preamble reads the frames the records stand for. *)
Lemma decode_loop_items fuel its tail fin cum :
  Forall item_ok its → truncated tail →
  (length (enc_items its ++ tail) < fuel)%nat →
  decode_loop fuel (mkDecoder (Reader (enc_items its ++ tail) fin) true cum) =
    (items_frames cum its, stream_end fin).
Proof.
  intros Hits Htail. revert fuel cum.
  induction Hits as [|it its Hit Hits IH]; intros fuel cum Hf.
  - change (enc_items [] ++ tail) with tail in *. apply decode_loop_truncated; [done|lia].
  - rewrite enc_items_cons, <- app_assoc in *. rewrite decode_loop_step by done.
    rewrite length_app, enc_item_length in Hf. by rewrite IH by lia.
Qed.

(** A recording, complete or cut inside its last record, decodes to the frames
    of its complete records, and then to [io.EOF]. *)
Lemma decode_all_items its tail fin :
  Forall item_ok its → truncated tail →
  decode_all (NewFrameDecoder (Reader (recorderPreamble ++ enc_items its ++ tail) fin)) =
    (items_frames 0 its, stream_end fin).
Proof.
  intros Hi Ht. unfold decode_all. simpl rd_data.
  rewrite <- (decode_loop_items (S (length (recorderPreamble ++ enc_items its ++ tail)))
                _ tail)
    by (done || (rewrite !length_app; lia)).
  reflexivity.
Qed.

(** ** Reading arbitrary bytes *)

Lemma bytes_hdr (bs : list byte) :
  bytes_ok bs → (5 <= length bs)%nat →
  ∃ t d l rest, bs = frame_hdr t d l ++ rest ∧
    is_byte t ∧ 0 <= d < 65536 ∧ 0 <= l < 65536 ∧ bytes_ok rest.
Proof.
  intros Hb Hl. destruct bs as [|t [|d0 [|d1 [|l0 [|l1 rest]]]]]; simpl in Hl; try lia.
  apply Forall_cons in Hb as [Ht Hb].
  assert (bytes_ok [d0; d1] ∧ bytes_ok [l0; l1] ∧ bytes_ok rest) as (Hd & Hl' & Hr).
  { rewrite !Forall_cons in Hb. rewrite !Forall_cons. naive_solver. }
  exists t, (le_get [d0; d1]), (le_get [l0; l1]), rest.
  pose proof (le_get_range _ Hd). pose proof (le_get_range _ Hl').
  split; [|done]. unfold frame_hdr, PutUint16.
  pose proof (le_put_get _ Hd) as E1. pose proof (le_put_get _ Hl') as E2.
  change (length _) with 2%nat in E1, E2. by rewrite E1, E2.
Qed.

Lemma truncated_short (bs : list byte) : bytes_ok bs → (length bs < 5)%nat → truncated bs.
Proof.
  intros Hb Hl. destruct bs as [|b0 bs0] eqn:E; [by left|rewrite <- E in *; clear b0 bs0 E].
  right. pose (pad := bs ++ replicate (5 - length bs) 0).
  assert (length pad = 5%nat) as Hp by (unfold pad; rewrite length_app, length_replicate; lia).
  destruct (bytes_hdr pad) as (t & d & l & rest & E & Ht & Hd & Hl' & _).
  { unfold pad. apply Forall_app; split; [done|]. by apply Forall_replicate. }
  { lia. }
  assert (rest = []) as ->.
  { apply (f_equal length) in E. rewrite Hp, length_app in E.
    change (length (frame_hdr t d l)) with 5%nat in E. destruct rest; simpl in E; [done|lia]. }
  rewrite app_nil_r in E. exists (mkItem t d (replicate (Z.to_nat l) 0)).
  split; [|split].
  - unfold item_fits, is_byte in *. simpl. rewrite length_replicate. lia.
  - unfold enc_item. simpl it_payload. rewrite length_replicate, Z2Nat.id by lia.
    cbn [it_typ it_delta]. rewrite <- E. unfold pad. rewrite <- app_assoc. by eexists.
  - intros E'. apply (f_equal length) in E'. rewrite enc_item_length in E'. lia.
Qed.

(** Any bytes start with a record, or are an incomplete one. *)
Lemma bytes_item (bs : list byte) :
  bytes_ok bs →
  truncated bs ∨ ∃ it rest, item_fits it ∧ bytes_ok rest ∧ bs = enc_item it ++ rest.
Proof.
  intros Hb. destruct (decide (length bs < 5)%nat) as [H5|H5].
  { left. by apply truncated_short. }
  destruct (bytes_hdr bs Hb) as (t & d & l & rest & -> & Ht & Hd & Hl & Hr); [lia|].
  destruct (decide (Z.to_nat l <= length rest)%nat) as [H|H].
  - right. exists (mkItem t d (take (Z.to_nat l) rest)), (drop (Z.to_nat l) rest).
    assert (length (take (Z.to_nat l) rest) = Z.to_nat l) as E by (rewrite length_take; lia).
    split; [|split].
    + unfold item_fits, is_byte in *. simpl. rewrite E. lia.
    + by apply Forall_drop.
    + unfold enc_item. simpl it_payload. rewrite E, Z2Nat.id, <- app_assoc, take_drop by lia.
      done.
  - left. right.
    exists (mkItem t d (rest ++ replicate (Z.to_nat l - length rest) 0)).
    assert (length (rest ++ replicate (Z.to_nat l - length rest) 0) = Z.to_nat l) as E
      by (rewrite length_app, length_replicate; lia).
    split; [|split].
    + unfold item_fits, is_byte in *. simpl. rewrite E. lia.
    + unfold enc_item. simpl it_payload. rewrite E, Z2Nat.id by lia. cbn [it_typ it_delta].
      rewrite app_assoc. by eexists.
    + intros E'. apply (f_equal length) in E'. rewrite enc_item_length in E'.
      simpl it_payload in E'. rewrite E, length_app in E'.
      change (length (frame_hdr t d l)) with 5%nat in E'. lia.
Qed.

(** Once the magic line has been accepted, what any bytes decode to. *)
Lemma decode_loop_bytes bs fin cum fuel :
  bytes_ok bs → (length bs < fuel)%nat →
  ∃ its rest, Forall item_ok its ∧ bs = enc_items its ++ rest ∧
    let r := decode_loop fuel (mkDecoder (Reader bs fin) true cum) in
    r.1 = items_frames cum its ∧
    ((truncated rest ∧ r.2 = stream_end fin) ∨
     (∃ it rest', item_fits it ∧ ¬ spacer_ok it ∧ rest = enc_item it ++ rest' ∧
        r.2 = ErrSpacerLength (Z.of_nat (length (it_payload it))))).
Proof.
  remember (length bs) as n eqn:Hn. revert bs Hn cum.
  induction n as [n IH] using lt_wf_ind. intros bs -> cum Hb Hf.
  destruct (bytes_item bs Hb) as [Ht|(it & rest & Hit & Hr & ->)].
  { exists [], bs. cbn zeta. rewrite decode_loop_truncated by (done || lia).
    split; [done|]. split; [done|]. split; [done|]. by left. }
  destruct (decide (it_typ it = FrameTypeSpacer ∧ length (it_payload it) ≠ 4%nat)) as [Hs|Hs].
  { exists [], (enc_item it ++ rest). cbn zeta.
    assert (¬ spacer_ok it) by (unfold spacer_ok; tauto).
    rewrite decode_loop_bad_spacer by (done || lia). split; [done|].
    split; [done|]. split; [done|]. right. by exists it, rest. }
  assert (item_ok it) as Hok.
  { split; [done|]. unfold spacer_ok. intros E. destruct (decide (length (it_payload it) = 4%nat)); tauto. }
  cbn zeta. rewrite decode_loop_step by done.
  rewrite length_app, enc_item_length in Hf, IH.
  destruct (IH (length rest) ltac:(lia) rest eq_refl (item_cum cum it) Hr ltac:(lia))
    as (its & rest' & Hits & E & H).
  destruct (decode_loop _ _) as [fs e]. simpl in H. destruct H as [-> H].
  exists (it :: its), rest'. split; [by constructor|].
  split; [|done]. by rewrite enc_items_cons, <- app_assoc, <- E.
Qed.

(** C25: The decoder is exact on arbitrary bytes after the preamble.  They split
    into complete records and a rest; the frames returned are those
    of the records, each at the sum of the deltas and spacers before it, and the
    rest is either an incomplete record, reported as the end of the stream, or a
    spacer whose length is not 4, reported as an error. *)
Theorem decode_exact bs fin :
  bytes_ok bs →
  ∃ its rest, Forall item_ok its ∧ bs = enc_items its ++ rest ∧
    let r := decode_all (NewFrameDecoder (Reader (recorderPreamble ++ bs) fin)) in
    r.1 = items_frames 0 its ∧
    ((truncated rest ∧ r.2 = stream_end fin) ∨
     (∃ it rest', item_fits it ∧ ¬ spacer_ok it ∧ rest = enc_item it ++ rest' ∧
        r.2 = ErrSpacerLength (Z.of_nat (length (it_payload it))))).
Proof.
  intros Hb. unfold decode_all. cbn [rd_data dec_r NewFrameDecoder].
  apply (decode_loop_bytes bs fin 0 (S (length (recorderPreamble ++ bs))) Hb).
  rewrite length_app. lia.
Qed.

Lemma decode_exact_witness :
  ∃ its rest, Forall item_ok its ∧ [1; 2; 0; 1; 0; 65; 3; 0; 0; 1; 0; 9] = enc_items its ++ rest ∧
    let r := decode_all (NewFrameDecoder
      (Reader (recorderPreamble ++ [1; 2; 0; 1; 0; 65; 3; 0; 0; 1; 0; 9]) EOF)) in
    r.1 = items_frames 0 its ∧
    ((truncated rest ∧ r.2 = stream_end EOF) ∨
     (∃ it rest', item_fits it ∧ ¬ spacer_ok it ∧ rest = enc_item it ++ rest' ∧
        r.2 = ErrSpacerLength (Z.of_nat (length (it_payload it))))).
Proof. apply (decode_exact _ EOF). repeat constructor; unfold is_byte; lia. Defined.

(** A prefix of a run of records is a shorter run and an incomplete record. *)
Lemma prefix_items its (bs : list byte) :
  Forall item_ok its → bs `prefix_of` enc_items its →
  ∃ k tail, bs = enc_items (take k its) ++ tail ∧ truncated tail.
Proof.
  intros Hits. revert bs. induction Hits as [|it its Hit Hits IH]; intros bs [k Hk].
  { exists 0%nat, []. symmetry in Hk. apply app_nil in Hk as [-> _]. split; [done|by left]. }
  rewrite enc_items_cons in Hk.
  destruct (decide (length (enc_item it) <= length bs)%nat) as [H|H].
  - assert (∃ bs', bs = enc_item it ++ bs') as [bs' ->].
    { exists (drop (length (enc_item it)) bs).
      rewrite <- (take_drop (length (enc_item it)) bs) at 1. f_equal.
      apply (f_equal (take (length (enc_item it)))) in Hk.
      by rewrite take_app_length, take_app_le in Hk by lia. }
    rewrite <- app_assoc in Hk. apply app_inv_head in Hk.
    destruct (IH bs') as (n & tail & -> & Ht); [by exists k|].
    exists (S n), tail. split; [|done]. cbn [take]. by rewrite enc_items_cons, <- app_assoc.
  - exists 0%nat, bs. split; [done|]. right. exists it. split; [by destruct Hit|].
    split; [|intros ->; lia]. exists (drop (length bs) (enc_item it)).
    apply (f_equal (take (length bs))) in Hk.
    rewrite take_app_length, take_app_le in Hk by lia. rewrite <- Hk at 1. by rewrite take_drop.
Qed.
