(* ===== verification/Recording.v ===== *)
(** * Recordings end to end: the recorder against its specification

    [arec] is what a recording means: output and resize events at absolute
    times, and the output of the current 33 ms bucket, not yet on disk.  There
    are no deltas, no spacers and no 16-bit lengths in it.  [recorder_refines]
    shows that the file a [Recorder] writes decodes, with [FrameDecoder], to
    exactly the events of the specification, whatever the idle gaps and the
    sizes of the outputs. *)
From S2P Require Import Prelude GoBase Recorder FrameDecoder.
Open Scope Z_scope.

(** ** The specification *)

Record event := mkEvent { ev_typ : Z; ev_ms : Z; ev_payload : list byte }.

Record arec := mkArec {
  a_events : list event;
  a_last : Z;
  a_pending : option (Z * list byte)
}.

Definition max_chunk : nat := Z.to_nat (FrameMaxPayload - 1).

Lemma max_chunk_def : max_chunk = Z.to_nat (FrameMaxPayload - 1).
Proof. done. Qed.

#[global] Opaque max_chunk.

(** An output larger than a frame is cut in pieces of 65535 bytes. *)
Fixpoint chunks (fuel : nat) (buf : list byte) : list (list byte) :=
  take max_chunk buf ::
  match drop max_chunk buf, fuel with
  | [], _ => []
  | _, O => []
  | buf', S fuel' => chunks fuel' buf'
  end.

Definition abs_new (cols rows : Z) : arec :=
  mkArec [mkEvent FrameTypeResize 0
            (PutUint16 (if cols =? 0 then 80 else cols) ++
             PutUint16 (if rows =? 0 then 24 else rows))] 0 None.

Definition abs_flush (a : arec) : arec :=
  match a_pending a with
  | None => a
  | Some (b, buf) =>
      mkArec (a_events a ++ (mkEvent FrameTypeOutput b <$> chunks (length buf) buf)) b None
  end.

Definition abs_write (now : Z) (data : list byte) (a : arec) : arec :=
  match data with
  | [] => a
  | _ =>
      let bucket := bucket_of now (a_last a) in
      match a_pending a with
      | Some (b, buf) =>
          if b =? bucket then mkArec (a_events a) (a_last a) (Some (b, buf ++ data))
          else mkArec (a_events (abs_flush a)) (a_last (abs_flush a)) (Some (bucket, data))
      | None => mkArec (a_events a) (a_last a) (Some (bucket, data))
      end
  end.

Definition abs_resize (now cols rows : Z) (a : arec) : arec :=
  mkArec (a_events (abs_flush a) ++
            [mkEvent FrameTypeResize now (PutUint16 cols ++ PutUint16 rows)]) now None.

(** ** Runs of the recorder *)

Inductive rec_op :=
| OpWrite (now : Z) (data : list byte)
| OpResize (now cols rows : Z).

Definition op_time (op : rec_op) : Z :=
  match op with OpWrite t _ | OpResize t _ _ => t end.

Definition rec_step (op : rec_op) : st (option Recorder) io_error unit :=
  match op with
  | OpWrite now data => _ ← Recorder_Write now data; mret tt
  | OpResize now cols rows => RecordResize now cols rows
  end.

Fixpoint rec_run (ops : list rec_op) : st (option Recorder) io_error unit :=
  match ops with
  | [] => mret tt
  | op :: ops' => _ ← rec_step op; rec_run ops'
  end.

Definition abs_step (op : rec_op) (a : arec) : arec :=
  match op with
  | OpWrite now data => abs_write now data a
  | OpResize now cols rows => abs_resize now cols rows a
  end.

Definition abs_run (ops : list rec_op) (a : arec) : arec :=
  foldl (λ a op, abs_step op a) a ops.

(** The clock is monotone ([time.Since] reads a monotonic clock). *)
Fixpoint clock_ok (t : Z) (ops : list rec_op) : Prop :=
  match ops with
  | [] => True
  | op :: ops' => t <= op_time op < 2 ^ 64 ∧ clock_ok (op_time op) ops'
  end.

Definition event_frame (e : event) : Frame :=
  mkFrame (ev_typ e) (duration_ms (ev_ms e)) (ev_payload e).

(** ** Items and the time they reach *)

Lemma items_frames_app cum a b :
  items_frames cum (a ++ b) = items_frames cum a ++ items_frames (items_cum cum a) b.
Proof.
  revert cum. induction a as [|it a IH]; intros cum; [done|].
  cbn [items_frames app]. rewrite IH. unfold items_cum. cbn [foldl]. by rewrite app_assoc.
Qed.

Lemma items_cum_app cum a b : items_cum cum (a ++ b) = items_cum (items_cum cum a) b.
Proof. unfold items_cum. by rewrite foldl_app. Qed.

Lemma enc_item_snoc out it : out ++ enc_item it = out ++ enc_items [it].
Proof. unfold enc_items. simpl. by rewrite app_nil_r. Qed.

(** ** Idle gaps *)

Definition spacer (adv : Z) : item := mkItem FrameTypeSpacer 0 (PutUint32 adv).

Lemma spacer_item_ok adv : item_ok (spacer adv).
Proof. split; [|done]. unfold item_fits, is_byte. cbn [it_typ it_delta it_payload spacer].
  unfold PutUint32, FrameTypeSpacer. rewrite le_put_length. lia.
Qed.

Lemma spacer_cum cum adv : 0 <= adv < 2 ^ 32 → item_cum cum (spacer adv) = u64 (cum + adv).
Proof. intros H. unfold item_cum, spacer, PutUint32. cbn [it_typ it_payload].
  by rewrite Z.eqb_refl, (le_get_put_small 4).
Qed.

(** The recorder over a file that does not fail. *)
Abbreviation mk out last pb ph buf := (mkRecorder (sink out) true last pb ph buf).

Lemma rec_write_sink bs out last pb ph buf :
  rec_write bs (mk out last pb ph buf) = (Ok tt, mk (out ++ bs) last pb ph buf).
Proof. done. Qed.

Lemma bridge_loop_spec fuel now out last pb ph buf :
  0 <= last <= now → now < 2 ^ 64 → now - last <= 65535 + uint32_max * Z.of_nat fuel →
  ∃ sps last',
    bridge_loop fuel now (mk out last pb ph buf) =
      (Ok tt, mk (out ++ enc_items sps) last' pb ph buf) ∧
    Forall item_ok sps ∧ items_cum last sps = last' ∧ items_frames last sps = [] ∧
    last <= last' <= now ∧ now - last' <= 65535 ∧
    (Z.of_nat (length sps) <= (now - last + uint32_max - 1) / uint32_max ∧
     length (enc_items sps) = (9 * length sps)%nat).
Proof.
  revert out last. induction fuel as [|fuel IH]; intros out last H1 H2 H3;
    cbn [bridge_loop lastEmittedMs]; rewrite u64_small by lia.
  { rewrite (proj2 (Z.ltb_ge _ _)) by lia. exists [], last. rewrite app_nil_r.
    repeat split; try done; unfold uint32_max in *; simpl; lia. }
  destruct (Z.ltb_spec 65535 (now - last)) as [Hgap|Hgap]; cbn [negb].
  2:{ exists [], last. rewrite app_nil_r. repeat split; try done; unfold uint32_max in *; simpl; lia. }
  unfold mbind, st_bind. rewrite !rec_write_sink. cbn [st_modify set_last rec_file w_open
    lastEmittedMs pendingBucketMs pendingHasBucket pendingBuf].
  set (adv := spacer_advance (now - last)).
  assert (adv = Z.min (now - last) uint32_max) as Hadv.
  { unfold adv, spacer_advance. destruct (Z.ltb_spec uint32_max (now - last)); [lia|].
    rewrite u32_small; unfold uint32_max in *; lia. }
  assert (0 < adv <= now - last ∧ adv < 2 ^ 32) as Hb by (unfold uint32_max in *; lia).
  rewrite (u64_small (last + adv)) by lia.
  destruct (IH ((out ++ frame_hdr FrameTypeSpacer 0 4) ++ PutUint32 adv) (last + adv))
    as (sps & last' & E & Hok & Hc & Hf & Hl & Hg & Hn); [lia|lia| |].
  { unfold uint32_max in *. lia. }
  unfold set_last. cbn [rec_file w_open pendingBucketMs pendingHasBucket pendingBuf].
  rewrite E. exists (spacer adv :: sps), last'.
  split; [|split; [|split; [|split; [|split; [|split]]]]]; try done; try lia.
  - by rewrite enc_items_cons, <- !app_assoc.
  - constructor; [apply spacer_item_ok|done].
  - unfold items_cum in *. cbn [foldl]. rewrite spacer_cum, u64_small by lia. done.
  - cbn [items_frames]. unfold item_frame at 1. cbn [spacer it_typ app].
    rewrite Z.eqb_refl, spacer_cum, u64_small by lia. done.
  - destruct Hn as [Hn Hn']. rewrite enc_items_cons, length_app, enc_item_length, Hn'.
    cbn [length spacer it_payload]. unfold PutUint32. rewrite le_put_length.
    unfold uint32_max in *. lia.
Qed.

Lemma bridgeIdle_spec now out last pb ph buf :
  0 <= last <= now → now < 2 ^ 64 →
  ∃ sps last',
    bridgeIdleLocked now (mk out last pb ph buf) =
      (Ok tt, mk (out ++ enc_items sps) last' pb ph buf) ∧
    Forall item_ok sps ∧ items_cum last sps = last' ∧ items_frames last sps = [] ∧
    last <= last' <= now ∧ now - last' <= 65535 ∧
    (Z.of_nat (length sps) <= (now - last + uint32_max - 1) / uint32_max ∧
     length (enc_items sps) = (9 * length sps)%nat).
Proof.
  intros H1 H2. unfold bridgeIdleLocked. cbn [lastEmittedMs].
  destruct (Z.leb_spec now last).
  - assert (now = last) as -> by lia. exists [], last. rewrite app_nil_r.
    repeat split; try done; unfold uint32_max; simpl; lia.
  - apply bridge_loop_spec; [lia|lia|]. unfold bridge_fuel, uint32_max.
    rewrite u64_small by lia. lia.
Qed.

(** ** Flushing *)

Definition out_item (delta : Z) (c : list byte) : item := mkItem FrameTypeOutput delta c.

Definition chunk_items (delta : Z) (cs : list (list byte)) : list item :=
  match cs with
  | [] => []
  | c :: cs' => out_item delta c :: (out_item 0 <$> cs')
  end.

Lemma chunk_items_0 cs : chunk_items 0 cs = out_item 0 <$> cs.
Proof. by destruct cs. Qed.

Lemma chunk_len_take (buf : list byte) :
  let n := Z.min (Z.of_nat (length buf)) (FrameMaxPayload - 1) in
  take (Z.to_nat n) buf = take max_chunk buf ∧ drop (Z.to_nat n) buf = drop max_chunk buf ∧
  n = Z.of_nat (length (take max_chunk buf)).
Proof.
  cbn zeta. rewrite length_take, max_chunk_def.
  destruct (Z.min_spec (Z.of_nat (length buf)) (FrameMaxPayload - 1)) as [[H ->]|[H ->]].
  - rewrite Nat2Z.id, !take_ge, !drop_ge by lia. split; [done|]. split; [done|]. lia.
  - split; [done|]. split; [done|]. unfold FrameMaxPayload in *. lia.
Qed.

Lemma out_item_hdr delta c :
  Z.of_nat (length c) < 65536 →
  frame_hdr FrameTypeOutput delta (u16 (Z.of_nat (length c))) ++ c = enc_item (out_item delta c).
Proof. intros. unfold enc_item. simpl. by rewrite u16_small by lia. Qed.

Lemma write_chunk n c out last pb ph pbuf :
  n = Z.of_nat (length c) →
  (if 0 <? n then rec_write c else mret tt) (mk out last pb ph pbuf) =
    (Ok tt, mk (out ++ c) last pb ph pbuf).
Proof. intros ->. destruct c; [by rewrite app_nil_r|done]. Qed.

Lemma flush_loop_spec fuel delta (first : bool) buf out last pb ph pbuf :
  flush_loop fuel delta first buf (mk out last pb ph pbuf) =
    (Ok tt, mk (out ++ enc_items (chunk_items (if first then delta else 0) (chunks fuel buf)))
              last pb ph pbuf).
Proof.
  revert out first buf. induction fuel as [|fuel IH]; intros out first buf;
    destruct (chunk_len_take buf) as (E1 & E2 & E3);
    cbn [flush_loop chunks]; unfold mbind, st_bind; rewrite rec_write_sink, E1, E2;
    rewrite write_chunk by done; rewrite E3, <- app_assoc, out_item_hdr
      by (rewrite length_take; rewrite max_chunk_def; unfold FrameMaxPayload; lia).
  - destruct (drop max_chunk buf) eqn:Ed; cbn [chunk_items fmap list_fmap];
      by rewrite enc_item_snoc.
  - destruct (drop max_chunk buf) as [|b buf'] eqn:Ed.
    + cbn [chunk_items fmap list_fmap]. by rewrite enc_item_snoc.
    + rewrite IH. cbn [chunk_items]. rewrite enc_items_cons, app_assoc.
      by rewrite chunk_items_0.
Qed.

Lemma chunks_spec fuel buf :
  (length buf <= fuel)%nat →
  concat (chunks fuel buf) = buf ∧ Forall (λ c, Z.of_nat (length c) < 65536) (chunks fuel buf).
Proof.
  assert (0 < max_chunk)%nat as Em by (rewrite max_chunk_def; unfold FrameMaxPayload; lia).
  assert (∀ b : list byte, Z.of_nat (length (take max_chunk b)) < 65536) as Ht.
  { intros b. rewrite length_take. rewrite max_chunk_def. unfold FrameMaxPayload. lia. }
  revert buf. induction fuel as [|fuel IH]; intros buf H; cbn [chunks concat].
  - destruct buf; [|simpl in H; lia]. rewrite take_nil, drop_nil. split; [done|]. by constructor.
  - destruct (drop max_chunk buf) as [|b buf'] eqn:Ed.
    + rewrite <- (take_drop max_chunk buf) at 2. rewrite Ed. split; [done|]. by constructor.
    + assert (length (b :: buf') <= fuel)%nat as Hl.
      { apply (f_equal length) in Ed. rewrite length_drop in Ed. cbn [length] in *. lia. }
      destruct (IH _ Hl) as [E F]. cbn [concat]. rewrite E. split; [|by constructor].
      by rewrite <- Ed, take_drop.
Qed.

Lemma chunk_items_ok delta cs :
  0 <= delta < 65536 → Forall (λ c, Z.of_nat (length c) < 65536) cs →
  Forall item_ok (chunk_items delta cs).
Proof.
  assert (∀ d c, 0 <= d < 65536 → Z.of_nat (length c) < 65536 → item_ok (out_item d c)) as H.
  { intros d c Hd Hc. split; [|done]. unfold item_fits, is_byte. cbn. unfold FrameTypeOutput. lia. }
  intros Hd [|c cs' Hc Hcs]; constructor; [by apply H|].
  apply Forall_fmap. eapply Forall_impl; [done|]. intros. apply H; [lia|done].
Qed.

Lemma out_item_means cum d c its :
  0 <= cum + d < 2 ^ 64 →
  items_frames cum (out_item d c :: its) =
    event_frame (mkEvent FrameTypeOutput (cum + d) c) :: items_frames (cum + d) its ∧
  items_cum cum (out_item d c :: its) = items_cum (cum + d) its.
Proof.
  intros H. assert (item_cum cum (out_item d c) = cum + d) as E.
  { unfold item_cum. cbn [out_item it_typ it_delta]. by rewrite u64_small. }
  unfold items_cum. cbn [items_frames foldl]. unfold item_frame. rewrite !E. done.
Qed.

Lemma chunk_items_frames cum delta cs :
  0 <= cum → 0 <= delta → cum + delta < 2 ^ 64 → cs ≠ [] →
  items_frames cum (chunk_items delta cs) =
    (event_frame <$> (mkEvent FrameTypeOutput (cum + delta) <$> cs)) ∧
  items_cum cum (chunk_items delta cs) = cum + delta.
Proof.
  assert (∀ t cs, 0 <= t < 2 ^ 64 →
    items_frames t (out_item 0 <$> cs) = (event_frame <$> (mkEvent FrameTypeOutput t <$> cs)) ∧
    items_cum t (out_item 0 <$> cs) = t) as H.
  { intros t cs' Ht. induction cs' as [|c cs' [IH1 IH2]]; [done|].
    cbn [fmap list_fmap]. destruct (out_item_means t 0 c (out_item 0 <$> cs')) as [E1 E2]; [lia|].
    rewrite Z.add_0_r in E1, E2. fold (out_item 0 <$> cs').
    split; [by rewrite E1, IH1|by rewrite E2]. }
  intros H1 H2 H3 H4. destruct cs as [|c cs]; [done|].
  destruct (H (cum + delta) cs ltac:(lia)) as [F1 F2]. cbn [chunk_items fmap list_fmap].
  destruct (out_item_means cum delta c (out_item 0 <$> cs)) as [E1 E2]; [lia|].
  split; [by rewrite E1, F1|by rewrite E2].
Qed.

Lemma chunks_nonnil fuel buf : chunks fuel buf ≠ [].
Proof. by destruct fuel. Qed.

(** ** The simulation *)

Lemma bucket_of_max now last : bucket_of now last = Z.max (now / 33 * 33) last.
Proof.
  unfold bucket_of, frameBucketMs. destruct (Z.ltb_spec (now / 33 * 33) last); lia.
Qed.

(** The recorder's pending fields against the specification's. *)
Definition pending_rel (t last pb : Z) (ph : bool) (buf : list byte)
    (p : option (Z * list byte)) : Prop :=
  match p with
  | None => ph = false ∧ buf = []
  | Some (b, bf) => ph = true ∧ pb = b ∧ buf = bf ∧ last <= b <= bucket_of t last
  end.

(** At time [t] the file holds whole records that show the events of [a]. *)
Definition refines (t : Z) (r : Recorder) (a : arec) : Prop :=
  ∃ its pb ph buf,
    r = mk (recorderPreamble ++ enc_items its) (a_last a) pb ph buf ∧
    Forall item_ok its ∧
    items_frames 0 its = (event_frame <$> a_events a) ∧
    items_cum 0 its = a_last a ∧
    0 <= a_last a <= t ∧ t < 2 ^ 64 ∧
    pending_rel t (a_last a) pb ph buf (a_pending a).

Lemma pending_rel_mono t t' last pb ph buf p :
  t <= t' → pending_rel t last pb ph buf p → pending_rel t' last pb ph buf p.
Proof.
  unfold pending_rel. destruct p as [[b bf]|]; [|done]. rewrite !bucket_of_max.
  intros Ht (-> & -> & -> & H). repeat split; lia.
Qed.

Lemma refines_mono t t' r a : t <= t' → t' < 2 ^ 64 → refines t r a → refines t' r a.
Proof.
  intros H1 H2 (its & pb & ph & buf & E & Hok & Hf & Hc & Hl & Ht & Hp).
  exists its, pb, ph, buf. repeat (split; [done|]). split; [lia|]. split; [done|].
  by eapply pending_rel_mono.
Qed.

Lemma flush_refines t r a :
  refines t r a →
  ∃ r', flushPendingLocked r = (Ok tt, r') ∧ refines t r' (abs_flush a).
Proof.
  intros (its & pb & ph & buf & -> & Hok & Hf & Hc & Hl & Ht & Hp).
  unfold abs_flush, flushPendingLocked, pending_rel in *. cbn [pendingHasBucket].
  destruct (a_pending a) as [[b bf]|] eqn:Ep.
  2:{ destruct Hp as [-> ->]. eexists. split; [done|].
      exists its, pb, false, []. unfold pending_rel. rewrite Ep. done. }
  destruct Hp as (-> & -> & -> & Hb). rewrite bucket_of_max in Hb.
  cbn [negb pendingBucketMs pendingBuf]. unfold mbind, st_bind. cbn [st_modify].
  unfold set_pending at 1. cbn [rec_file w_open lastEmittedMs].
  destruct (bridgeIdle_spec b (recorderPreamble ++ enc_items its) (a_last a) 0 false [])
    as (sps & last' & E & Hsps & Hsc & Hsf & Hl' & Hg & _); [lia|lia|].
  rewrite E. cbn [st_get lastEmittedMs].
  rewrite u64_small, u16_small by lia. rewrite flush_loop_spec. cbn [st_modify].
  eexists. split; [done|].
  destruct (chunks_spec (length bf) bf ltac:(lia)) as [_ Hcl].
  destruct (chunk_items_frames last' (b - last') (chunks (length bf) bf)) as [Hcf Hcc];
    [lia|lia|lia|apply chunks_nonnil|].
  replace (last' + (b - last')) with b in * by lia.
  exists (its ++ sps ++ chunk_items (b - last') (chunks (length bf) bf)), 0, false, [].
  cbn [a_last a_events a_pending].
  split; [unfold set_last; simpl; by rewrite !enc_items_app, <- !app_assoc|].
  split; [rewrite !Forall_app; repeat split; try done; apply chunk_items_ok; [lia|done]|].
  split; [by rewrite !items_frames_app, Hc, Hsf, Hsc, Hcf, Hf, fmap_app|].
  split; [by rewrite !items_cum_app, Hc, Hsc, Hcc|].
  split; [lia|]. done.
Qed.

Lemma write_refines t r a now data :
  refines t r a → t <= now < 2 ^ 64 →
  ∃ r', Recorder_Write now data (Some r) = (Ok (length data), Some r') ∧
    refines now r' (abs_write now data a).
Proof.
  intros H Hn. unfold Recorder_Write. destruct (w_open r) eqn:Hw.
  2:{ destruct H as (? & ? & ? & ? & -> & _). done. }
  cbn [negb]. destruct data as [|x data]; [|set (dat := x :: data)].
  { eexists. split; [done|]. simpl. apply (refines_mono t); [lia|lia|done]. }
  unfold write_locked, mbind, st_bind. cbn [st_get].
  pose proof H as (its & pb & ph & buf & Er & Hok & Hf & Hc & Hl & Ht & Hp).
  assert (lastEmittedMs r = a_last a) as El by by rewrite Er. rewrite El.
  unfold abs_write, dat at 3. fold dat.
  destruct (a_pending a) as [[b bf]|] eqn:Ep; unfold pending_rel in Hp.
  - destruct Hp as (-> & -> & -> & Hb). rewrite bucket_of_max in Hb.
    assert (pendingHasBucket r = true ∧ pendingBucketMs r = b) as [-> ->] by by rewrite Er.
    destruct (Z.eqb_spec b (bucket_of now (a_last a))) as [Eb|Eb].
    + rewrite (proj2 (Z.eqb_eq _ _)) by done. rewrite Er.
      eexists. split; [done|]. exists its, b, true, (bf ++ dat). simpl.
      repeat (split; [done|]). split; [lia|]. split; [lia|].
      rewrite bucket_of_max in *. repeat split; lia.
    + rewrite (proj2 (Z.eqb_neq _ _)) by congruence. cbn [negb andb].
      destruct (flush_refines t r a H) as (r1 & -> & H1).
      unfold abs_flush in *. rewrite Ep in *. cbn [a_last a_events a_pending] in *.
      destruct H1 as (its1 & pb1 & ph1 & buf1 & -> & Hok1 & Hf1 & Hc1 & Hl1 & _ & Hp1 & ->).
      simpl in Hp1. subst ph1. eexists. split; [done|].
      exists its1, (bucket_of now (a_last a)), true, dat. simpl.
      repeat (split; [done|]). split; [lia|]. split; [lia|].
      rewrite !bucket_of_max in *. repeat split; lia.
  - destruct Hp as [-> ->].
    assert (pendingHasBucket r = false) as -> by by rewrite Er. rewrite Er.
    eexists. split; [done|]. exists its, (bucket_of now (a_last a)), true, dat. simpl.
    repeat (split; [done|]). split; [lia|]. split; [lia|].
    rewrite !bucket_of_max in *. repeat split; lia.
Qed.

Lemma abs_flush_pending a : a_pending (abs_flush a) = None.
Proof. unfold abs_flush. by destruct (a_pending a) as [[b bf]|] eqn:E. Qed.

Definition resize_item (delta cols rows : Z) : item :=
  mkItem FrameTypeResize delta (PutUint16 cols ++ PutUint16 rows).

Lemma resize_item_means cum d cols rows :
  0 <= cum → 0 <= d < 65536 → cum + d < 2 ^ 64 →
  item_ok (resize_item d cols rows) ∧
  items_frames cum [resize_item d cols rows] =
    [event_frame (mkEvent FrameTypeResize (cum + d) (PutUint16 cols ++ PutUint16 rows))] ∧
  items_cum cum [resize_item d cols rows] = cum + d.
Proof.
  intros H1 H2 H3. assert (item_cum cum (resize_item d cols rows) = cum + d) as E.
  { unfold item_cum. cbn [resize_item it_typ it_delta].
    change (FrameTypeResize =? FrameTypeSpacer) with false. apply u64_small. lia. }
  split; [|split].
  - split; [|done]. unfold item_fits, is_byte, resize_item, PutUint16, FrameTypeResize.
    cbn [it_typ it_delta it_payload]. rewrite length_app, !le_put_length. lia.
  - cbn [items_frames]. unfold item_frame. by rewrite E.
  - unfold items_cum. cbn [foldl]. done.
Qed.

Lemma writeResize_sink d cols rows out last pb ph buf :
  writeResizeFrameLocked d cols rows (mk out last pb ph buf) =
    (Ok tt, mk (out ++ enc_items [resize_item d cols rows]) last pb ph buf).
Proof.
  unfold writeResizeFrameLocked, mbind, st_bind. rewrite !rec_write_sink.
  by rewrite <- app_assoc, <- enc_item_snoc.
Qed.

Lemma resize_refines t r a now cols rows :
  refines t r a → t <= now < 2 ^ 64 →
  ∃ r', RecordResize now cols rows (Some r) = (Ok tt, Some r') ∧
    refines now r' (abs_resize now cols rows a).
Proof.
  intros H Hn. unfold RecordResize.
  assert (w_open r = true) as -> by (destruct H as (? & ? & ? & ? & -> & _); done).
  cbn [negb]. unfold resize_locked, mbind, st_bind.
  destruct (flush_refines t r a H) as (r1 & -> & H1). pose proof (abs_flush_pending a) as Ep.
  destruct H1 as (its & pb & ph & buf & -> & Hok & Hf & Hc & Hl & Ht & Hp).
  unfold abs_resize. set (a1 := abs_flush a) in *. rewrite Ep in Hp. destruct Hp as [-> ->].
  destruct (bridgeIdle_spec now (recorderPreamble ++ enc_items its) (a_last a1) pb false [])
    as (sps & last' & E & Hsps & Hsc & Hsf & Hl' & Hg & _); [lia|lia|].
  rewrite E. cbn [st_get lastEmittedMs]. rewrite u64_small, u16_small by lia.
  rewrite writeResize_sink. cbn [st_modify]. eexists. split; [done|].
  destruct (resize_item_means last' (now - last') cols rows) as (Ri & Rf & Rc); [lia..|].
  replace (last' + (now - last')) with now in * by lia.
  exists (its ++ sps ++ [resize_item (now - last') cols rows]), pb, false, [].
  cbn [a_last a_events a_pending].
  split; [unfold set_last; simpl; by rewrite !enc_items_app, <- !app_assoc|].
  split; [rewrite !Forall_app; repeat split; try done; by constructor|].
  split; [by rewrite !items_frames_app, Hc, Hsf, Hsc, Rf, Hf, fmap_app|].
  split; [by rewrite !items_cum_app, Hc, Hsc, Rc|].
  split; [lia|]. split; [lia|]. done.
Qed.

Lemma run_refines ops t r a :
  refines t r a → clock_ok t ops →
  ∃ t' r', rec_run ops (Some r) = (Ok tt, Some r') ∧ refines t' r' (abs_run ops a).
Proof.
  revert t r a. induction ops as [|op ops IH]; intros t r a H Hc; [by eauto|].
  destruct Hc as [Ht Hc]. cbn [rec_run]. unfold mbind at 1, st_bind at 1.
  destruct op as [now data|now cols rows]; cbn [rec_step op_time abs_run foldl] in *.
  - destruct (write_refines t r a now data H Ht) as (r' & E & H').
    unfold mbind, st_bind. rewrite E. cbn. by apply (IH now).
  - destruct (resize_refines t r a now cols rows H Ht) as (r' & E & H').
    rewrite E. by apply (IH now).
Qed.

Lemma new_refines cols rows :
  ∃ r, NewRecorder (Ok (sink [])) cols rows = Ok r ∧ refines 0 r (abs_new cols rows).
Proof.
  unfold NewRecorder. rewrite rec_write_sink, writeResize_sink. eexists. split; [done|].
  destruct (resize_item_means 0 0 (if cols =? 0 then 80 else cols) (if rows =? 0 then 24 else rows))
    as (Ri & Rf & Rc); [lia..|].
  eexists [_], 0, false, []. split; [done|]. split; [by constructor|]. split; [done|].
  split; [done|]. split; [simpl; lia|]. split; [lia|]. done.
Qed.

(** The whole life of a recording over a file that does not fail. *)
Definition record (cols rows : Z) (ops : list rec_op) : res io_error Recorder :=
  r ← NewRecorder (Ok (sink [])) cols rows;
  match rec_run ops (Some r) with
  | (Err e, _) => Err e
  | (Ok _, o) =>
      match Recorder_Close None o with
      | (Ok _, Some r') => Ok r'
      | (Ok _, None) => Err NilDeref
      | (Err e, _) => Err e
      end
  end.

Lemma record_refines_items cols rows ops :
  clock_ok 0 ops →
  ∃ r its, record cols rows ops = Ok r ∧
    w_out (rec_file r) = recorderPreamble ++ enc_items its ∧ Forall item_ok its ∧
    items_frames 0 its = (event_frame <$> a_events (abs_flush (abs_run ops (abs_new cols rows)))).
Proof.
  intros Hc. unfold record. destruct (new_refines cols rows) as (r0 & -> & H0).
  cbn [mbind res_bind].
  destruct (run_refines ops 0 r0 _ H0 Hc) as (t & r1 & -> & H1).
  unfold Recorder_Close.
  assert (w_open r1 = true) as -> by (destruct H1 as (? & ? & ? & ? & -> & _); done).
  cbn [negb]. destruct (flush_refines t r1 _ H1) as (r2 & -> & H2).
  destruct H2 as (its & pb & ph & buf & -> & Hok & Hf & _).
  eexists _, its. split; [done|]. split; [done|]. split; done.
Qed.

(** Refinement.  A recording made with a monotone clock on a file that does
    not fail is created, written and closed without error, and decoding the file
    gives exactly the events of the specification, at their absolute times:
    whatever the idle gaps (bridged by spacers, also beyond 49.7 days), resizes
    inside a bucket and outputs larger than a frame. *)
Theorem recorder_refines cols rows ops fin :
  clock_ok 0 ops →
  ∃ r, record cols rows ops = Ok r ∧
    decode_all (NewFrameDecoder (Reader (w_out (rec_file r)) fin)) =
      (event_frame <$> a_events (abs_flush (abs_run ops (abs_new cols rows))), stream_end fin).
Proof.
  intros Hc. destruct (record_refines_items cols rows ops Hc) as (r & its & E & Ho & Hok & Hf).
  exists r. split; [done|]. rewrite Ho, <- (app_nil_r (enc_items its)).
  rewrite decode_all_items by (done || by left). by rewrite Hf.
Qed.

Lemma recorder_refines_witness :
  ∃ r, record 100 30 [OpWrite 40 [65; 66]; OpResize 41 120 40; OpWrite 99999999999 [67]] = Ok r ∧
    decode_all (NewFrameDecoder (Reader (w_out (rec_file r)) EOF)) =
      (event_frame <$> a_events (abs_flush (abs_run
         [OpWrite 40 [65; 66]; OpResize 41 120 40; OpWrite 99999999999 [67]] (abs_new 100 30))),
       stream_end EOF).
Proof. apply recorder_refines. cbn. lia. Defined.

(** ** What is replayed: the order and the time of every byte and resize *)

Inductive token := TByte (b : byte) | TResize (geometry : list byte).

(** The things that happened to the terminal, each with its time. *)
Definition op_tokens (op : rec_op) : list (Z * token) :=
  match op with
  | OpWrite now data => (λ b, (now, TByte b)) <$> data
  | OpResize now cols rows => [(now, TResize (PutUint16 cols ++ PutUint16 rows))]
  end.

Definition event_tokens (e : event) : list (Z * token) :=
  if ev_typ e =? FrameTypeOutput then (λ b, (ev_ms e, TByte b)) <$> ev_payload e
  else [(ev_ms e, TResize (ev_payload e))].

Definition pending_tokens (a : arec) : list (Z * token) :=
  match a_pending a with
  | None => []
  | Some (b, buf) => (λ x, (b, TByte x)) <$> buf
  end.

(** Recorded as [x] what happened as [y]: the same token, at most one bucket
    early and never late. *)
Definition recorded_as (x y : Z * token) : Prop :=
  snd x = snd y ∧ fst x <= fst y < fst x + frameBucketMs.

Definition all_tokens (a : arec) : list (Z * token) :=
  (a_events a ≫= event_tokens) ++ pending_tokens a.

Lemma event_tokens_chunks b cs :
  ((mkEvent FrameTypeOutput b <$> cs) ≫= event_tokens) = (λ x, (b, TByte x)) <$> concat cs.
Proof.
  induction cs as [|c cs IH]; [done|]. rewrite fmap_cons, bind_cons, IH. simpl.
  by rewrite fmap_app.
Qed.

Lemma abs_flush_tokens a : all_tokens (abs_flush a) = all_tokens a.
Proof.
  unfold all_tokens, abs_flush, pending_tokens.
  destruct (a_pending a) as [[b buf]|] eqn:E; cbn [a_events a_pending]; [|by rewrite E].
  rewrite bind_app, event_tokens_chunks, app_nil_r.
  by destruct (chunks_spec (length buf) buf ltac:(lia)) as [-> _].
Qed.

Lemma recorded_write b now (data : list byte) :
  b <= now < b + frameBucketMs →
  Forall2 recorded_as ((λ x, (b, TByte x)) <$> data) ((λ x, (now, TByte x)) <$> data).
Proof.
  intros H. induction data as [|x data IH]; [constructor|].
  rewrite !fmap_cons. by constructor.
Qed.

Lemma bucket_of_near now last :
  last <= now → bucket_of now last <= now < bucket_of now last + frameBucketMs.
Proof. rewrite bucket_of_max. unfold frameBucketMs. lia. Qed.

Lemma abs_write_tokens now data a :
  a_last a <= now →
  ∃ b, all_tokens (abs_write now data a) = all_tokens a ++ ((λ x, (b, TByte x)) <$> data) ∧
    b <= now < b + frameBucketMs.
Proof.
  intros Hl. exists (bucket_of now (a_last a)).
  split; [|by apply bucket_of_near]. unfold abs_write.
  destruct data as [|x data]; [by rewrite app_nil_r|set (dat := x :: data)].
  destruct (a_pending a) as [[b buf]|] eqn:E.
  - destruct (Z.eqb_spec b (bucket_of now (a_last a))) as [Eb|Eb].
    + unfold all_tokens, pending_tokens. cbn [a_events a_pending].
      by rewrite E, fmap_app, app_assoc, Eb.
    + rewrite <- (abs_flush_tokens a). unfold all_tokens, pending_tokens at 2.
      rewrite abs_flush_pending, app_nil_r. done.
  - unfold all_tokens, pending_tokens. cbn [a_events a_pending]. by rewrite E, app_nil_r.
Qed.

Lemma abs_resize_tokens now cols rows a :
  all_tokens (abs_resize now cols rows a) =
    all_tokens a ++ [(now, TResize (PutUint16 cols ++ PutUint16 rows))].
Proof.
  rewrite <- (abs_flush_tokens a). unfold all_tokens at 1 2, abs_resize, pending_tokens.
  rewrite abs_flush_pending. cbn [a_events a_pending]. by rewrite bind_app, !app_nil_r.
Qed.

Lemma bucket_le now last : last <= now → bucket_of now last <= now.
Proof. intros H. by destruct (bucket_of_near now last H). Qed.

(** Times stay in order along a run. *)
Definition arec_times (t : Z) (a : arec) : Prop :=
  a_last a <= t ∧ match a_pending a with Some (b, _) => b <= t | None => True end.

Lemma abs_step_times op t a :
  arec_times t a → t <= op_time op → arec_times (op_time op) (abs_step op a).
Proof.
  unfold arec_times. destruct op as [now data|now cols rows]; cbn [abs_step op_time];
    [|simpl; lia].
  intros [Hl Hp] Ht. unfold abs_write. destruct data as [|x data].
  { split; [lia|]. destruct (a_pending a) as [[? ?]|]; lia. }
  pose proof (bucket_le now (a_last a) ltac:(lia)) as Hb.
  destruct (a_pending a) as [[b buf]|] eqn:E; [|simpl; lia].
  destruct (b =? bucket_of now (a_last a)); [simpl; lia|].
  unfold abs_flush. rewrite E. simpl. lia.
Qed.

Lemma abs_run_tokens ops t a done_ :
  arec_times t a → clock_ok t ops → Forall2 recorded_as (all_tokens a) done_ →
  Forall2 recorded_as (all_tokens (abs_run ops a)) (done_ ++ (ops ≫= op_tokens)).
Proof.
  revert t a done_. induction ops as [|op ops IH]; intros t a done_ Hl Hc Ha.
  { by rewrite app_nil_r. }
  destruct Hc as [Ht Hc]. rewrite bind_cons, app_assoc. cbn [abs_run foldl].
  apply (IH (op_time op)); [apply (abs_step_times op t); [done|lia]|done|].
  destruct Hl as [Hl _]. destruct op as [now data|now cols rows]; cbn [abs_step op_tokens op_time] in *.
  - destruct (abs_write_tokens now data a ltac:(lia)) as (b & -> & Hb).
    apply Forall2_app; [done|]. by apply recorded_write.
  - rewrite abs_resize_tokens. apply Forall2_app; [done|].
    constructor; [|constructor]. split; [done|]. simpl. unfold frameBucketMs. lia.
Qed.

(** The prelude stays the first event, and every event is an output or a
    four-byte resize. *)
Definition event_wf (e : event) : Prop :=
  ev_typ e = FrameTypeOutput ∨ (ev_typ e = FrameTypeResize ∧ length (ev_payload e) = 4%nat).

Definition arec_wf (p : event) (a : arec) : Prop :=
  ∃ evs, a_events a = p :: evs ∧ Forall event_wf evs.

Lemma abs_flush_wf p a : arec_wf p a → arec_wf p (abs_flush a).
Proof.
  intros (evs & E & H). unfold abs_flush. destruct (a_pending a) as [[b buf]|]; [|by exists evs].
  eexists. cbn [a_events]. rewrite E. split; [done|]. apply Forall_app. split; [done|].
  apply Forall_fmap, Forall_true. by left.
Qed.

Lemma abs_run_wf p ops a : arec_wf p a → arec_wf p (abs_run ops a).
Proof.
  revert a. induction ops as [|op ops IH]; intros a H; [done|]. cbn [abs_run foldl]. apply IH.
  pose proof (abs_flush_wf p a H) as H'. destruct op as [now data|now cols rows]; cbn [abs_step].
  - unfold abs_write. destruct data; [done|].
    destruct (a_pending a) as [[b buf]|]; [by destruct (b =? _)|done].
  - destruct H' as (evs & E & H'). eexists. unfold abs_resize. cbn [a_events]. rewrite E.
    split; [done|]. apply Forall_app. split; [done|]. constructor; [|done]. by right.
Qed.

Lemma record_decodes cols rows ops :
  clock_ok 0 ops →
  let cols' := if cols =? 0 then defaultRecorderCols else cols in
  let rows' := if rows =? 0 then defaultRecorderRows else rows in
  ∃ r evs, record cols rows ops = Ok r ∧
    (∀ fin, decode_all (NewFrameDecoder (Reader (w_out (rec_file r)) fin)) =
      (event_frame <$> (mkEvent FrameTypeResize 0 (PutUint16 cols' ++ PutUint16 rows') :: evs),
       stream_end fin)) ∧
    Forall event_wf evs ∧
    Forall2 recorded_as (evs ≫= event_tokens) (ops ≫= op_tokens).
Proof.
  intros Hc cols' rows'.
  destruct (record_refines_items cols rows ops Hc) as (r & its & E & Ho & Hok & Hf).
  set (p := mkEvent FrameTypeResize 0 (PutUint16 cols' ++ PutUint16 rows')).
  assert (arec_wf p (abs_new cols rows)) as H0 by (eexists; split; [done|constructor]).
  destruct (abs_flush_wf p _ (abs_run_wf p ops _ H0)) as (evs & Ee & Hwf).
  exists r, evs. split; [done|]. split; [|split; [done|]].
  { intros fin. rewrite Ho, <- (app_nil_r (enc_items its)).
    rewrite decode_all_items by (done || by left). by rewrite Hf, Ee. }
  pose proof (abs_run_tokens ops 0 (abs_new cols rows)
    [(0, TResize (PutUint16 cols' ++ PutUint16 rows'))]) as H.
  rewrite <- (abs_flush_tokens (abs_run ops _)) in H.
  unfold all_tokens at 2, pending_tokens in H.
  rewrite abs_flush_pending, Ee, app_nil_r, bind_cons in H.
  apply Forall2_cons in H; [by destruct H|split; [simpl; lia|done]|done|].
  constructor; [|constructor]. split; [done|]. simpl. unfold frameBucketMs. lia.
Qed.

(** C11: Replay is faithful.  The decoded recording shows the initial geometry,
    then every byte written and every resize, in the order they happened,
    nothing lost and nothing added; each carries a time that is never later than
    the real one and less than 33 ms earlier. *)
Theorem recording_faithful cols rows ops fin :
  clock_ok 0 ops →
  let cols' := if cols =? 0 then defaultRecorderCols else cols in
  let rows' := if rows =? 0 then defaultRecorderRows else rows in
  ∃ r evs, record cols rows ops = Ok r ∧
    decode_all (NewFrameDecoder (Reader (w_out (rec_file r)) fin)) =
      (event_frame <$> evs, stream_end fin) ∧
    Forall2 recorded_as (evs ≫= event_tokens)
      ((OpResize 0 cols' rows' :: ops) ≫= op_tokens).
Proof.
  intros Hc cols' rows'. destruct (record_decodes cols rows ops Hc) as (r & evs & E & D & _ & F).
  eexists r, _. split; [done|]. split; [apply D|].
  rewrite !bind_cons. apply Forall2_app; [|done].
  constructor; [|constructor]. split; [done|]. simpl. unfold frameBucketMs. lia.
Qed.

Lemma recording_faithful_witness :
  ∃ r evs, record 0 30 [OpWrite 40 [65]; OpResize 41 9 9; OpWrite 42 [66]; OpWrite 70000 [67]] = Ok r ∧
    decode_all (NewFrameDecoder (Reader (w_out (rec_file r)) EOF)) =
      (event_frame <$> evs, stream_end EOF) ∧
    Forall2 recorded_as (evs ≫= event_tokens)
      ((OpResize 0 80 30 :: [OpWrite 40 [65]; OpResize 41 9 9; OpWrite 42 [66]; OpWrite 70000 [67]])
        ≫= op_tokens).
Proof. apply (recording_faithful 0 30). cbn. lia. Defined.

Lemma items_frames_take its k cum :
  items_frames cum (take k its) `prefix_of` items_frames cum its.
Proof.
  rewrite <- (take_drop k its) at 2. rewrite items_frames_app. by eexists.
Qed.

(** C26: Crash safety of a recording.  Whatever byte the recorder died at, past
    the preamble, the file decodes without an error to a prefix of the frames of
    the complete recording: a frame is shown whole or not at all. *)
Theorem recording_truncated cols rows ops r n :
  clock_ok 0 ops → record cols rows ops = Ok r →
  (length recorderPreamble <= n)%nat →
  ∃ fs, decode_all (NewFrameDecoder (Reader (take n (w_out (rec_file r))) EOF)) = (fs, DecIO EOF) ∧
    fs `prefix_of` (decode_all (NewFrameDecoder (Reader (w_out (rec_file r)) EOF))).1.
Proof.
  intros Hc Hr Hn.
  destruct (record_refines_items cols rows ops Hc) as (r' & its & E & Ho & Hok & _).
  rewrite Hr in E. injection E as <-. rewrite Ho, take_app, (take_ge recorderPreamble) by done.
  destruct (prefix_items its (take (n - length recorderPreamble) (enc_items its)) Hok)
    as (k & tail & -> & Ht).
  { eexists. symmetry. apply take_drop. }
  rewrite decode_all_items by (try done; by apply Forall_take).
  rewrite <- (app_nil_r (enc_items its)), decode_all_items by (done || by left).
  eexists. split; [done|]. apply items_frames_take.
Qed.

Lemma recording_truncated_witness :
  ∃ r fs, record 80 24 [OpWrite 40 [65; 66; 67]; OpResize 90 9 9] = Ok r ∧
    decode_all (NewFrameDecoder (Reader (take 32 (w_out (rec_file r))) EOF)) = (fs, DecIO EOF) ∧
    fs `prefix_of` (decode_all (NewFrameDecoder (Reader (w_out (rec_file r)) EOF))).1.
Proof.
  assert (∃ r, record 80 24 [OpWrite 40 [65; 66; 67]; OpResize 90 9 9] = Ok r) as [r Hr]
    by (eexists; vm_compute; reflexivity).
  destruct (recording_truncated 80 24 [OpWrite 40 [65; 66; 67]; OpResize 90 9 9] r 32)
    as (fs & H); [cbn; lia|done|cbn; lia|].
  exists r, fs. split; [exact Hr|exact H].
Defined.

(** No spacer flood.  [bridgeIdleLocked] on a recorder whose clock went
    backwards writes nothing; otherwise it writes one spacer per 49.7 days of
    idleness, rounded up (nine bytes each), none for a gap that fits, and leaves
    a gap that fits the 16-bit delta. *)
Theorem bridge_bounded now r :
  w_open r = true → w_plan (rec_file r) = [] →
  0 <= lastEmittedMs r < 2 ^ 64 → 0 <= now < 2 ^ 64 →
  ∃ n r', bridgeIdleLocked now r = (Ok tt, r') ∧
    length (w_out (rec_file r')) = (length (w_out (rec_file r)) + 9 * n)%nat ∧
    (now <= lastEmittedMs r → n = 0%nat) ∧
    (lastEmittedMs r <= now →
       Z.of_nat n <= (now - lastEmittedMs r + uint32_max - 1) / uint32_max ∧
       lastEmittedMs r <= lastEmittedMs r' <= now ∧ now - lastEmittedMs r' <= 65535).
Proof.
  destruct r as [[out plan] op last pb ph buf]. cbn. intros -> -> Hl Hn.
  destruct (Z.leb_spec now last) as [H|H].
  - exists 0%nat. eexists. unfold bridgeIdleLocked. cbn [lastEmittedMs].
    rewrite (proj2 (Z.leb_le _ _)) by done. split; [done|]. cbn. split; [lia|]. split; [done|].
    intros. assert (now = last) as -> by lia. unfold uint32_max. lia.
  - destruct (bridgeIdle_spec now out last pb ph buf)
      as (sps & last' & E & _ & _ & _ & Hr1 & Hr2 & Hr3 & Hlen);
      [lia|lia|].
    exists (length sps). eexists. split; [exact E|]. cbn. split; [by rewrite length_app, Hlen|].
    split; [lia|]. intros _. lia.
Qed.

Lemma bridge_bounded_witness :
  ∃ n r', bridgeIdleLocked 5 (mk [] 100 0 false []) = (Ok tt, r') ∧
    length (w_out (rec_file r')) = (0 + 9 * n)%nat ∧ (5 <= 100 → n = 0%nat) ∧
    (100 <= 5 → Z.of_nat n <= (5 - 100 + uint32_max - 1) / uint32_max ∧
       100 <= lastEmittedMs r' <= 5 ∧ 5 - lastEmittedMs r' <= 65535).
Proof. apply (bridge_bounded 5 (mk [] 100 0 false [])); [done|done|cbn; lia|lia]. Defined.
