(* ===== verification/Wire.v ===== *)
(** * [internal/attachwire]: the TLV protocol of [hoot attach]

    [WriteFrame]/[ReadFrame] over the reader and the writer of [GoBase], the
    payload types ([PTYSize], [Origin], [Hello]) and [ParsePrefixKey].  The JSON
    encoding of the payloads is [encoding/json]'s and is not modelled here. *)
From S2P Require Import Prelude GoBase.
Open Scope Z_scope.

Definition MsgHello : Z := 0.
Definition MsgInput : Z := 1.
Definition MsgOutput : Z := 2.
Definition MsgSize : Z := 3.
Definition MsgSnapshotScrollback : Z := 4.
Definition MsgSnapshotScreen : Z := 5.
Definition MsgPing : Z := 6.
Definition MsgPong : Z := 7.

Definition MaxPayload : Z := Z.shiftl 1 24.

Record PTYSize := mkSize { Cols : Z; Rows : Z }.

#[export] Instance PTYSize_eq_dec : EqDecision PTYSize.
Proof. solve_decision. Defined.

Record Origin := mkOrigin {
  Host : list byte; Term : list byte; TermProgram : list byte;
  TermProgramVersion : list byte; User : list byte
}.

#[export] Instance Origin_eq_dec : EqDecision Origin.
Proof. solve_decision. Defined.

Definition empty (s : list byte) : bool := match s with [] => true | _ => false end.

Definition Origin_IsZero (o : Origin) : bool :=
  empty (Host o) && empty (Term o) && empty (TermProgram o) &&
  empty (TermProgramVersion o) && empty (User o).

Record Hello := mkHello { hello_Size : PTYSize; hello_Origin : Origin }.

Inductive wire_error :=
| ErrPayloadMax (n : Z)    (** [attachwire: payload %d exceeds max %d] *)
| ErrFrameLength (n : Z)   (** [attachwire: frame length %d exceeds max %d] *)
| WireIO (e : io_error).

(** A call of an [io] function inside a function with its own errors. *)
Definition wire_io {S A} (m : st S io_error A) : st S wire_error A := λ s,
  match m s with (Ok a, s') => (Ok a, s') | (Err e, s') => (Err (WireIO e), s') end.

(** A frame: its type tag and its payload. *)
Definition wframe : Type := Z * list byte.

Definition WriteFrame (typ : Z) (payload : list byte) : st writer wire_error unit :=
  if MaxPayload <? Z.of_nat (length payload)
  then st_fail (ErrPayloadMax (Z.of_nat (length payload)))
  else
    _ ← wire_io (Write (typ :: PutUint32 (u32 (Z.of_nat (length payload)))));
    if 0 <? Z.of_nat (length payload) then wire_io (Write payload) else mret tt.

Definition ReadFrame : st reader wire_error wframe :=
  hdr ← wire_io (ReadFull 5);
  let typ := nth 0 hdr 0 in
  let n := le_get (drop 1 hdr) in
  if MaxPayload <? n then st_fail (ErrFrameLength n)
  else if n =? 0 then mret (typ, [])
  else
    payload ← wire_io (ReadFull (Z.to_nat n));
    mret (typ, payload).

(** The read loop of every connection: the frames up to the first error. *)
Fixpoint read_loop (fuel : nat) (r : reader) : list wframe * wire_error :=
  match fuel with
  | O => ([], WireIO NilDeref)
  | S fuel' =>
      match ReadFrame r with
      | (Err e, _) => ([], e)
      | (Ok f, r') => let '(fs, e) := read_loop fuel' r' in (f :: fs, e)
      end
  end.

Definition read_frames (r : reader) : list wframe * wire_error :=
  read_loop (S (length (rd_data r))) r.

(** A writer goroutine sending frames until one fails. *)
Fixpoint WriteFrames (fs : list wframe) : st writer wire_error unit :=
  match fs with
  | [] => mret tt
  | f :: fs' => _ ← WriteFrame (fst f) (snd f); WriteFrames fs'
  end.

(** [strconv.ParseUint(s, 16, 8)]; [None] for a syntax or a range error. *)
Definition hex_val (c : byte) : option Z :=
  if (chr "0" <=? c) && (c <=? chr "9") then Some (c - chr "0")
  else if (chr "a" <=? c) && (c <=? chr "f") then Some (c - chr "a" + 10)
  else if (chr "A" <=? c) && (c <=? chr "F") then Some (c - chr "A" + 10)
  else None.

Fixpoint parse_hex8 (s : list byte) (acc : Z) : option Z :=
  match s with
  | [] => Some acc
  | c :: s' =>
      match hex_val c with
      | None => None
      | Some d => if 255 <? acc * 16 + d then None else parse_hex8 s' (acc * 16 + d)
      end
  end.

Definition ParseUint_16_8 (s : list byte) : option Z :=
  match s with [] => None | _ => parse_hex8 s 0 end.

Inductive prefix_error := PkEmpty | PkNoControl | PkBadHex | PkPrintable | PkUnrecognized.

#[export] Instance prefix_error_eq_dec : EqDecision prefix_error.
Proof. solve_decision. Defined.

Definition is_printable (b : byte) : bool := (32 <=? b) && (b <? 127).

Definition control_of (letter : byte) : res prefix_error byte :=
  if (chr "a" <=? letter) && (letter <=? chr "z") then Ok (u8 (letter - chr "a" + 1))
  else if (chr "A" <=? letter) && (letter <=? chr "Z") then Ok (u8 (letter - chr "A" + 1))
  else if letter =? chr "\" then Ok 28
  else if letter =? chr "]" then Ok 29
  else if letter =? chr "^" then Ok 30
  else if letter =? chr "_" then Ok 31
  else if letter =? chr "@" then Ok 0
  else if letter =? chr "?" then Ok 127
  else Err PkNoControl.

(** The three forms [C-x], [c-x] and [^x]: the letter. *)
Definition prefix_letter (spec : list byte) : option byte :=
  match spec with
  | [c; d; l] => if ((c =? chr "C") || (c =? chr "c")) && (d =? chr "-") then Some l else None
  | [c; l] => if c =? chr "^" then Some l else None
  | _ => None
  end.

Definition ParsePrefixKey (spec : list byte) : res prefix_error byte :=
  match spec with
  | [] => Err PkEmpty
  | _ =>
      match prefix_letter spec with
      | Some letter => control_of letter
      | None =>
          match spec with
          | z :: x :: rest =>
              if (z =? chr "0") && ((x =? chr "x") || (x =? chr "X")) then
                match ParseUint_16_8 rest with
                | None => Err PkBadHex
                | Some b => if is_printable b then Err PkPrintable else Ok b
                end
              else Err PkUnrecognized
          | [b] => if is_printable b then Err PkPrintable else Ok b
          | [] => Err PkEmpty
          end
      end
  end.

(** ** Framing *)

Definition frame_ok (f : wframe) : Prop := Z.of_nat (length (snd f)) <= MaxPayload.

Definition enc_frame (f : wframe) : list byte :=
  fst f :: PutUint32 (Z.of_nat (length (snd f))) ++ snd f.

Definition enc_frames (fs : list wframe) : list byte := concat (enc_frame <$> fs).

Lemma MaxPayload_eq : MaxPayload = 16777216.
Proof. done. Qed.

Lemma enc_frame_length f : length (enc_frame f) = (5 + length (snd f))%nat.
Proof. unfold enc_frame, PutUint32. simpl. by rewrite ?length_app. Qed.

Lemma WriteFrame_sink f out :
  frame_ok f → WriteFrame (fst f) (snd f) (sink out) = (Ok tt, sink (out ++ enc_frame f)).
Proof.
  destruct f as [t pl]. unfold frame_ok, enc_frame, WriteFrame. cbn [fst snd]. intros H.
  pose proof MaxPayload_eq. rewrite (proj2 (Z.ltb_ge _ _)), u32_small by lia.
  unfold mbind, st_bind, wire_io. rewrite Write_sink. destruct pl as [|b pl].
  - cbn. done.
  - rewrite (proj2 (Z.ltb_lt _ _)) by (cbn [length]; lia).
    by rewrite Write_sink, <- app_assoc.
Qed.

Lemma WriteFrames_sink fs out :
  Forall frame_ok fs → WriteFrames fs (sink out) = (Ok tt, sink (out ++ enc_frames fs)).
Proof.
  intros H. revert out. induction H as [|f fs Hf Hfs IH]; intros out; cbn [WriteFrames].
  - by rewrite app_nil_r.
  - unfold mbind, st_bind. rewrite WriteFrame_sink by done. rewrite IH.
    unfold enc_frames. cbn [fmap list_fmap concat]. by rewrite <- app_assoc.
Qed.

Lemma hdr_len32 t n : 0 <= n < 2 ^ 32 → le_get (drop 1 (t :: PutUint32 n)) = n.
Proof. exact (le_get_put_small 4 n). Qed.

Lemma ReadFrame_enc f rest fin :
  frame_ok f → ReadFrame (Reader (enc_frame f ++ rest) fin) = (Ok f, Reader rest fin).
Proof.
  destruct f as [t pl]. unfold frame_ok. cbn [snd]. intros H. pose proof MaxPayload_eq.
  unfold ReadFrame, mbind, st_bind, wire_io.
  replace (enc_frame (t, pl) ++ rest)
    with ((t :: PutUint32 (Z.of_nat (length pl))) ++ pl ++ rest)
    by (unfold enc_frame; simpl; by rewrite <- ?app_assoc).
  rewrite ReadFull_app by done. cbn [nth]. rewrite hdr_len32 by lia.
  rewrite (proj2 (Z.ltb_ge _ _)) by lia.
  destruct pl as [|b pl]; [done|].
  rewrite (proj2 (Z.eqb_neq _ _)) by (cbn [length]; lia).
  by rewrite Nat2Z.id, ReadFull_app.
Qed.

(** An incomplete frame: what a connection lost inside a frame leaves. *)
Definition frame_cut (tail : list byte) : Prop :=
  tail = [] ∨ ∃ f, frame_ok f ∧ tail `prefix_of` enc_frame f ∧ tail ≠ enc_frame f.

(** How the loss is reported: [io.EOF] between two frames, and also between the
    header of a frame and its payload, where [io.ReadFull] has read nothing of
    its buffer yet. *)
Definition cut_error (tail : list byte) (fin : io_error) : io_error :=
  match fin with
  | EOF => if (length tail =? 0)%nat || (length tail =? 5)%nat then EOF else ErrUnexpectedEOF
  | e => e
  end.

Lemma read_frames_nil fuel fin :
  (0 < fuel)%nat → read_loop fuel (Reader [] fin) = ([], WireIO fin).
Proof. destruct fuel; [lia|]. intros _. cbn. by destruct fin. Qed.

Lemma ReadFull_shrinks n (r r' : reader) bs :
  ReadFull n r = (Ok bs, r') → length (rd_data r) = (n + length (rd_data r'))%nat.
Proof.
  unfold ReadFull. case_decide; intros [= <- <-]. simpl. rewrite length_drop. lia.
Qed.

Lemma ReadFrame_shrinks r f r' :
  ReadFrame r = (Ok f, r') → (length (rd_data r') < length (rd_data r))%nat.
Proof.
  unfold ReadFrame, mbind, st_bind, wire_io.
  destruct (ReadFull 5 r) as [[hdr|e] r1] eqn:E1; [|done]. apply ReadFull_shrinks in E1.
  destruct (MaxPayload <? _); [done|]. destruct (_ =? 0); [intros [= _ <-]; lia|].
  destruct (ReadFull _ r1) as [[pl|e] r2] eqn:E2; [|done]. apply ReadFull_shrinks in E2.
  intros [= _ <-]. lia.
Qed.

Lemma read_loop_fuel f1 f2 r :
  (length (rd_data r) < f1)%nat → (length (rd_data r) < f2)%nat →
  read_loop f1 r = read_loop f2 r.
Proof.
  revert f2 r. induction f1 as [|f1 IH]; intros f2 r H1 H2; [lia|].
  destruct f2 as [|f2]; [lia|]. cbn [read_loop].
  destruct (ReadFrame r) as [[f|e] r'] eqn:E; [|done].
  apply ReadFrame_shrinks in E. by rewrite (IH f2) by lia.
Qed.

Lemma read_frames_cons f rest fin :
  frame_ok f →
  read_frames (Reader (enc_frame f ++ rest) fin) =
    let '(fs, e) := read_frames (Reader rest fin) in (f :: fs, e).
Proof.
  intros Hf. unfold read_frames. cbn [read_loop rd_data].
  rewrite ReadFrame_enc by done.
  rewrite (read_loop_fuel _ (S (length rest))); [done| |simpl; lia].
  cbn [rd_data]. rewrite length_app, enc_frame_length. lia.
Qed.

Lemma ReadFrame_cut tail fin :
  frame_cut tail → (ReadFrame (Reader tail fin)).1 = Err (WireIO (cut_error tail fin)).
Proof.
  intros Ht. pose proof MaxPayload_eq. unfold ReadFrame, mbind, st_bind, wire_io.
  destruct (decide (length tail < 5)%nat) as [H5|H5].
  { rewrite ReadFull_short by done. simpl. unfold cut_error. destruct fin; try done.
    by destruct tail as [|? [|? [|? [|? [|? ?]]]]]; simpl in H5; [..|lia]. }
  destruct Ht as [->|([t pl] & Hf & [k Hk] & Hne)]; [simpl in H5; lia|].
  unfold frame_ok in Hf. cbn [snd] in Hf.
  unfold enc_frame in Hk. cbn [fst snd] in Hk. rewrite app_comm_cons in Hk.
  assert (enc_frame (t, pl) = (t :: PutUint32 (Z.of_nat (length pl))) ++ pl) as Ef by done.
  set (h := t :: PutUint32 _) in *. assert (length h = 5%nat) as Hh by done.
  assert (∃ t', tail = h ++ t') as [t' ->].
  { exists (drop 5 tail). rewrite <- (take_drop 5 tail) at 1. f_equal.
    apply (f_equal (take 5)) in Hk. rewrite !take_app_le in Hk by lia. by rewrite <- Hk. }
  rewrite ReadFull_app by done. cbv zeta.
  assert (le_get (drop 1 h) = Z.of_nat (length pl)) as -> by (apply hdr_len32; lia).
  clearbody h.
  rewrite <- app_assoc in Hk. apply app_inv_head in Hk.
  assert (length t' < length pl)%nat.
  { rewrite Hk, length_app. destruct k; [|simpl; lia].
    exfalso. apply Hne. rewrite Ef. by rewrite Hk, app_nil_r. }
  rewrite (proj2 (Z.ltb_ge _ _)), (proj2 (Z.eqb_neq _ _)) by lia.
  rewrite ReadFull_short by lia. cbn [fst]. unfold cut_error. rewrite length_app, Hh.
  destruct fin; try done. by destruct t'.
Qed.

Lemma read_frames_stream fs tail fin :
  Forall frame_ok fs → frame_cut tail →
  read_frames (Reader (enc_frames fs ++ tail) fin) = (fs, WireIO (cut_error tail fin)).
Proof.
  intros Hfs Ht. induction Hfs as [|f fs Hf Hfs IH].
  - unfold read_frames. cbn [enc_frames fmap list_fmap concat app read_loop rd_data].
    pose proof (ReadFrame_cut tail fin Ht) as E.
    destruct (ReadFrame _) as [[x|e] r]; by simplify_eq/=.
  - unfold enc_frames in *. cbn [fmap list_fmap concat].
    rewrite <- app_assoc, read_frames_cons by done. by rewrite IH.
Qed.

(** A stream of frames cut anywhere: whole frames, then a cut one. *)
Lemma enc_frames_cut k fs :
  Forall frame_ok fs →
  ∃ fs1 tail, take k (enc_frames fs) = enc_frames fs1 ++ tail ∧ fs1 `prefix_of` fs ∧ frame_cut tail ∧
    ((length (enc_frames fs) <= k)%nat → fs1 = fs).
Proof.
  intros Hfs. revert k. induction Hfs as [|f fs Hf Hfs IH]; intros k.
  { exists [], []. split; [by destruct k|]. split; [done|]. split; [by left|done]. }
  unfold enc_frames. cbn [fmap list_fmap concat]. fold (enc_frames fs).
  destruct (decide (k < length (enc_frame f))%nat) as [Hk|Hk].
  - exists [], (take k (enc_frame f)). rewrite take_app_le by lia. split; [done|].
    split; [apply prefix_nil|]. split; [|rewrite length_app; lia].
    right. exists f. split; [done|]. split; [apply prefix_take|].
    intros E. apply (f_equal length) in E. rewrite length_take in E. lia.
  - destruct (IH (k - length (enc_frame f))%nat) as (fs1 & tail & E & Hp & Hc & Hall).
    exists (f :: fs1), tail. rewrite take_app_ge by lia. rewrite E.
    split; [by rewrite app_assoc|]. split; [by apply prefix_cons|]. split; [done|].
    rewrite length_app. intros Hlen. f_equal. apply Hall. lia.
Qed.

(** C19: Round trip of the wire.  A sequence of frames written on one end of a
    connection is read as the same sequence on the other, whatever the payload
    sizes up to the 16 MiB cap, and a connection lost in the middle of a frame
    gives the frames before it, then an error, never a partial frame. *)
Theorem wire_roundtrip fs tail fin :
  Forall frame_ok fs → frame_cut tail →
  ∃ bs, WriteFrames fs (sink []) = (Ok tt, sink bs) ∧
    read_frames (Reader (bs ++ tail) fin) = (fs, WireIO (cut_error tail fin)).
Proof.
  intros Hfs Ht. exists (enc_frames fs). split; [by apply WriteFrames_sink|].
  by apply read_frames_stream.
Qed.

Lemma wire_roundtrip_witness :
  ∃ bs, WriteFrames [(MsgInput, [65; 66]); (MsgPing, [])] (sink []) = (Ok tt, sink bs) ∧
    read_frames (Reader (bs ++ [2; 3; 0]) EOF) =
      ([(MsgInput, [65; 66]); (MsgPing, [])], WireIO (cut_error [2; 3; 0] EOF)).
Proof.
  apply wire_roundtrip.
  - repeat constructor; unfold frame_ok; rewrite MaxPayload_eq; simpl; lia.
  - right. exists (2, [1; 2; 3]). split; [unfold frame_ok; rewrite MaxPayload_eq; simpl; lia|].
    split; [by eexists [0; 0; 1; 2; 3]|done].
Defined.

Lemma bytes_whdr (bs : list byte) :
  bytes_ok bs → length bs = 5%nat →
  ∃ t n, bs = t :: PutUint32 n ∧ 0 <= n < 2 ^ 32.
Proof.
  intros Hb Hl. destruct bs as [|t bs]; [done|]. apply Forall_cons in Hb as [_ Hb].
  exists t, (le_get bs). injection Hl as Hl. split.
  - f_equal. unfold PutUint32. rewrite <- Hl. symmetry. by apply le_put_get.
  - pose proof (le_get_range _ Hb) as H. by rewrite Hl in H.
Qed.

Lemma short_header_cut (bs : list byte) : bytes_ok bs → (length bs < 5)%nat → frame_cut bs.
Proof.
  intros Hb Hl. destruct bs as [|t bs]; [by left|]. right.
  apply Forall_cons in Hb as [_ Hb]. pose proof MaxPayload_eq.
  (* complete the length with zeros: at most 2^24 *)
  set (n := le_get (bs ++ replicate (4 - length bs) 0)).
  assert (bytes_ok (bs ++ replicate (4 - length bs) 0)) as Hp
    by (apply Forall_app; split; [done|by apply Forall_replicate]).
  assert (length (bs ++ replicate (4 - length bs) 0) = 4%nat) as Hlp
    by (rewrite length_app, length_replicate; simpl in Hl; lia).
  assert (0 <= n < 2 ^ 24) as Hn.
  { assert (Hr : bytes_ok (bs ++ replicate (3 - length bs) 0))
      by (apply Forall_app; split; [done|by apply Forall_replicate]).
    assert (n = le_get (bs ++ replicate (3 - length bs) 0)) as ->.
    { unfold n. destruct bs as [|? [|? [|? [|? ?]]]]; try done; simpl in Hl; lia. }
    apply le_get_range in Hr. rewrite length_app, length_replicate in Hr.
    replace (length bs + (3 - length bs))%nat with 3%nat in Hr by (simpl in Hl; lia). done. }
  exists (t, replicate (Z.to_nat n) 0). unfold frame_ok, enc_frame. cbn [fst snd].
  rewrite length_replicate, Z2Nat.id by lia. split; [lia|].
  assert (PutUint32 n = bs ++ replicate (4 - length bs) 0) as ->.
  { unfold PutUint32, n. rewrite <- Hlp at 1. by apply le_put_get. }
  split; [|].
  - rewrite <- app_assoc. by eexists.
  - intros E. apply (f_equal length) in E. simpl in E. rewrite length_app, Hlp in E.
    simpl in Hl. lia.
Qed.

(** [ReadFrame] is exact on arbitrary input.  A frame it returns has at most
    16 MiB of payload and is exactly the bytes consumed; an oversized length is
    refused with nothing read beyond the header; every other error is the loss
    of the connection before the frame was complete. *)
Theorem ReadFrame_exact r :
  bytes_ok (rd_data r) →
  let '(x, r') := ReadFrame r in
  match x with
  | Ok f => frame_ok f ∧ rd_data r = enc_frame f ++ rd_data r' ∧ rd_fin r' = rd_fin r
  | Err (ErrFrameLength n) =>
      MaxPayload < n ∧ ∃ t, rd_data r = (t :: PutUint32 n) ++ rd_data r'
  | Err (WireIO e) => frame_cut (rd_data r) ∧ e = cut_error (rd_data r) (rd_fin r)
  | Err (ErrPayloadMax _) => False
  end.
Proof.
  destruct r as [data fin]. cbn [rd_data rd_fin]. intros Hb. pose proof MaxPayload_eq as HM.
  destruct (decide (length data < 5)%nat) as [H5|H5].
  { pose proof (short_header_cut data Hb H5) as Hc. pose proof (ReadFrame_cut data fin Hc) as E.
    destruct (ReadFrame _) as [x r']. cbn [fst] in E. by subst x. }
  assert (∃ h rest, data = h ++ rest ∧ length h = 5%nat) as (h & rest & -> & Hh).
  { exists (take 5 data), (drop 5 data). rewrite take_drop, length_take. auto with lia. }
  apply Forall_app in Hb as [Hbh Hbr].
  destruct (bytes_whdr h Hbh Hh) as (t & n & -> & Hn).
  destruct (decide (n <= MaxPayload)) as [HnM|HnM].
  2:{ unfold ReadFrame, mbind, st_bind, wire_io. rewrite ReadFull_app, hdr_len32 by (done || lia).
      rewrite (proj2 (Z.ltb_lt _ _)) by lia. cbn. split; [lia|]. by exists t. }
  destruct (decide (Z.to_nat n <= length rest)%nat) as [Hr|Hr].
  - set (pl := take (Z.to_nat n) rest).
    assert (Z.of_nat (length pl) = n) as Hpl by (unfold pl; rewrite length_take; lia).
    assert ((t :: PutUint32 n) ++ rest = enc_frame (t, pl) ++ drop (Z.to_nat n) rest) as E.
    { unfold enc_frame. cbn [fst snd]. rewrite Hpl, app_comm_cons, <- app_assoc. unfold pl.
      by rewrite take_drop. }
    assert (frame_ok (t, pl)) as Hok by (unfold frame_ok; simpl; lia).
    rewrite E, ReadFrame_enc by done. done.
  - set (pl := rest ++ replicate (Z.to_nat n - length rest) 0).
    assert (length pl = Z.to_nat n) as Hpl
      by (unfold pl; rewrite length_app, length_replicate; lia).
    assert (frame_cut ((t :: PutUint32 n) ++ rest)) as Hc.
    { right. exists (t, pl). unfold frame_ok, enc_frame. cbn [fst snd].
      rewrite Hpl, Z2Nat.id by lia. split; [lia|]. rewrite app_comm_cons. split.
      - unfold pl. rewrite app_assoc. by eexists.
      - intros E. apply (f_equal length) in E. rewrite !length_app, Hpl in E. lia. }
    pose proof (ReadFrame_cut _ fin Hc) as E.
    destruct (ReadFrame _) as [x r']. cbn [fst] in E. by subst x.
Qed.

Lemma ReadFrame_exact_witness :
  let '(x, r') := ReadFrame (Reader [1; 1; 0; 0; 0; 65; 9] EOF) in
  match x with
  | Ok f => frame_ok f ∧ [1; 1; 0; 0; 0; 65; 9] = enc_frame f ++ rd_data r' ∧ rd_fin r' = EOF
  | Err (ErrFrameLength n) =>
      MaxPayload < n ∧ ∃ t, [1; 1; 0; 0; 0; 65; 9] = (t :: PutUint32 n) ++ rd_data r'
  | Err (WireIO e) => frame_cut [1; 1; 0; 0; 0; 65; 9] ∧ e = cut_error [1; 1; 0; 0; 0; 65; 9] EOF
  | Err (ErrPayloadMax _) => False
  end.
Proof.
  apply (ReadFrame_exact (Reader [1; 1; 0; 0; 0; 65; 9] EOF)).
  repeat constructor; unfold is_byte; lia.
Defined.

(** A connection that dies between the header of a frame and its payload is
    reported as [io.EOF], the same as an orderly close at a frame boundary. *)
Theorem eof_after_header t payload :
  payload ≠ [] → Z.of_nat (length payload) <= MaxPayload →
  read_frames (Reader (take 5 (enc_frame (t, payload))) EOF) =
  read_frames (Reader [] EOF).
Proof.
  intros Hp Hl.
  assert (length (take 5 (enc_frame (t, payload))) = 5%nat) as H5
    by (rewrite length_take, enc_frame_length; lia).
  assert (frame_cut (take 5 (enc_frame (t, payload)))) as Hc.
  { right. exists (t, payload). split; [done|]. split; [eexists; symmetry; apply take_drop|].
    intros E. apply (f_equal length) in E. rewrite H5, enc_frame_length in E.
    destruct payload; [done|]. simpl in E. lia. }
  pose proof (read_frames_stream [] _ EOF (List.Forall_nil _) Hc) as E.
  cbn [enc_frames fmap list_fmap concat app] in E. rewrite E.
  unfold cut_error. by rewrite H5.
Qed.

Lemma eof_after_header_witness :
  read_frames (Reader (take 5 (enc_frame (MsgOutput, [65]))) EOF) = read_frames (Reader [] EOF).
Proof. apply eof_after_header; [done|]. rewrite MaxPayload_eq. simpl. lia. Defined.

(** ** The prefix key *)

Lemma hex_val_range c d : hex_val c = Some d → 0 <= d < 16.
Proof.
  unfold hex_val. cbn [chr]. vm_compute (Z.of_N _).
  destruct ((48 <=? c) && (c <=? 57)) eqn:E1; [intros [= <-]; lia|].
  destruct ((97 <=? c) && (c <=? 102)) eqn:E2; [intros [= <-]; lia|].
  destruct ((65 <=? c) && (c <=? 70)) eqn:E3; [intros [= <-]; lia|done].
Qed.

Lemma parse_hex8_range s acc b :
  0 <= acc < 256 → parse_hex8 s acc = Some b → 0 <= b < 256.
Proof.
  revert acc. induction s as [|c s IH]; intros acc Ha; cbn [parse_hex8]; [intros [= <-]; lia|].
  destruct (hex_val c) as [d|] eqn:E; [|done]. apply hex_val_range in E.
  destruct (Z.ltb_spec 255 (acc * 16 + d)); [done|]. apply IH. lia.
Qed.

Lemma control_of_range l b : control_of l = Ok b → is_byte b ∧ is_printable b = false.
Proof.
  unfold control_of, is_byte, is_printable, u8. cbn [chr]. vm_compute (Z.of_N _).
  repeat match goal with
  | |- (if ?c then _ else _) = _ → _ => destruct c eqn:?
  end; intros [= <-]; lia.
Qed.

(** A prefix key is never printable, so it can never swallow typed text. *)
Theorem prefix_never_printable spec b :
  bytes_ok spec → ParsePrefixKey spec = Ok b → is_byte b ∧ is_printable b = false.
Proof.
  intros Hs. unfold ParsePrefixKey. destruct spec as [|c spec]; [done|].
  destruct (prefix_letter (c :: spec)) as [l|]; [apply control_of_range|].
  destruct spec as [|x rest].
  - destruct (is_printable c) eqn:E; [done|]. intros [= <-]. by apply Forall_cons in Hs as [? _].
  - destruct (_ && _); [|done]. unfold ParseUint_16_8. destruct rest as [|d rest]; [done|].
    destruct (parse_hex8 (d :: rest) 0) as [v|] eqn:E; [|done].
    destruct (is_printable v) eqn:Ep; [done|]. intros [= <-].
    split; [|done]. by apply parse_hex8_range in E.
Qed.

Lemma prefix_never_printable_witness :
  is_byte 29 ∧ is_printable 29 = false.
Proof.
  apply (prefix_never_printable (B"C-]")); [apply bytes_of_string_ok|reflexivity].
Defined.

(** The control letters: [^x], [C-x] and [c-x] are one key, [x land 31]; [?] is
    DEL, and the opening bracket (ESC) is not offered. *)
Definition control_spec (l : byte) : res prefix_error byte :=
  if ((64 <=? l) && (l <? 96) && negb (l =? 91)) || ((97 <=? l) && (l <? 123))
  then Ok (Z.land l 31)
  else if l =? 63 then Ok 127 else Err PkNoControl.

Lemma prefix_control_spec l :
  is_byte l →
  ParsePrefixKey [chr "^"; l] = control_spec l ∧
  ParsePrefixKey [chr "C"; chr "-"; l] = control_spec l ∧
  ParsePrefixKey [chr "c"; chr "-"; l] = control_spec l.
Proof.
  intros Hl. unfold is_byte in Hl.
  assert (forallb (λ n, let b := Z.of_nat n in
    bool_decide (control_of b = control_spec b)) (seq 0 256) = true) as H by (vm_compute; done).
  rewrite forallb_forall in H. specialize (H (Z.to_nat l)).
  rewrite in_seq, Z2Nat.id in H by lia. apply bool_decide_eq_true in H; [|lia].
  rewrite <- H. done.
Qed.
