(* ===== verification/State.v ===== *)
(** * [state.go]: the data of state.json

    Go strings are byte lists; a [time.Time] is nanoseconds since the epoch, with
    [None] the zero time. *)
From S2P Require Import Prelude GoBase Wire.
Open Scope Z_scope.

Abbreviation gostring := (list byte).
Definition time := option Z.

Definition IsZero (t : time) : bool := match t with None => true | Some _ => false end.

(** [Unix()]: whole seconds, rounded towards minus infinity. *)
Definition Unix (t : time) : Z :=
  match t with None => -62135596800 | Some ns => ns / 1000000000 end.

Record AttachmentRecord := mkAttRec {
  ar_ID : gostring; ar_StartedAt : time; ar_Size : PTYSize; ar_Origin : option Origin
}.

#[export] Instance AttachmentRecord_eq_dec : EqDecision AttachmentRecord.
Proof. solve_decision. Defined.

Record SessionState := mkSessionState {
  ss_Key : gostring;
  ss_PID : Z;
  ss_CreatedAt : time;
  ss_Argv : list gostring;
  ss_CWD : gostring;
  ss_Size : PTYSize;
  ss_NoHistory : bool;
  ss_Attachments : list AttachmentRecord
}.

#[export] Instance SessionState_eq_dec : EqDecision SessionState.
Proof. solve_decision. Defined.

(** [State] is the service's raw JSON. *)
Record StateFile := mkStateFile { sf_Session : SessionState; sf_State : gostring }.

#[export] Instance StateFile_eq_dec : EqDecision StateFile.
Proof. solve_decision. Defined.

Definition empty_session : SessionState :=
  mkSessionState [] 0 None [] [] (mkSize 0 0) false [].
Definition empty_state : StateFile := mkStateFile empty_session [].

(** [strings.Join(elems, sep)] *)
Fixpoint Join (elems : list gostring) (sep : gostring) : gostring :=
  match elems with
  | [] => []
  | [s] => s
  | s :: rest => s ++ sep ++ Join rest sep
  end.
