(* ===== verification/Terminal.v ===== *)
(** * The terminal emulator, [github.com/mitchellh/go-libghostty]

    The emulator is a C library the program calls through a binding; its source
    is not part of the repository.  [TermOps] are the calls the program makes,
    [TermLaws] the documented fact that the emulator parses a stream, so how the
    stream was cut into [VTWrite] calls does not matter.  [tape] is an emulator
    that remembers what it was given: it shows that the laws can hold. *)
From S2P Require Import Prelude GoBase.
Open Scope Z_scope.

Inductive screen := ScreenPrimary | ScreenAlternate.

#[export] Instance screen_eq_dec : EqDecision screen.
Proof. solve_decision. Defined.

(** The formatter and the options it is made with. [FmtSnapshot] is
    [FormatterFormatVT] with trim and the cursor, style, modes and keyboard
    extras; the others are made with trim alone. *)
Inductive formatter := FmtPlain | FmtVT | FmtHTML | FmtSnapshot.

Abbreviation term_error := (list byte).

Class TermOps (T : Type) := {
  NewTerminal : Z → Z → Z → res term_error T;     (** columns, rows, scrollback *)
  (** the second component is what the emulator answers to queries, through the
      [WithWritePty] callback *)
  VTWrite : list byte → T → T * list (list byte);
  TermResize : Z → Z → st T term_error unit;
  Format : formatter → T → res term_error (list byte);
  ActiveScreen : T → res term_error screen;
  ScrollbackRows : T → res term_error Z;
  BracketedPaste : T → res term_error bool        (** [ModeGet(ModeBracketedPaste)] *)
}.

Class TermLaws (T : Type) `{TermOps T} := {
  VTWrite_nil : ∀ t, VTWrite [] t = (t, []);
  VTWrite_app : ∀ a b t, (VTWrite (a ++ b) t).1 = (VTWrite b (VTWrite a t).1).1
}.

(** ** An emulator that keeps a tape *)

Inductive tape_entry := TapeByte (b : byte) | TapeSize (cols rows : Z).

Definition tape := list tape_entry.

Definition tape_bytes (t : tape) : list byte :=
  t ≫= λ e, match e with TapeByte b => [b] | TapeSize _ _ => [] end.

#[export] Instance tape_ops : TermOps tape := {
  NewTerminal cols rows _ := Ok [TapeSize cols rows];
  VTWrite bs t := (t ++ (TapeByte <$> bs), []);
  TermResize cols rows t := (Ok tt, t ++ [TapeSize cols rows]);
  Format _ t := Ok (tape_bytes t);
  ActiveScreen _ := Ok ScreenPrimary;
  ScrollbackRows _ := Ok 0;
  BracketedPaste _ := Ok false
}.

#[export] Instance tape_laws : TermLaws tape.
Proof.
  split; intros; simpl; [by rewrite app_nil_r|]. by rewrite fmap_app, app_assoc.
Qed.
