(* ===== verification/Replay.v ===== *)
(** * [replay.go], [recorder.go] (consumers) and [cmd/hoot/log.go]

    What reads a recording back: [ReadOutputEvents], the asciicast export and
    [hoot log]'s off-line replay into a fresh emulator.  All three loop over
    [FrameDecoder.Next] until [io.EOF]; [consume] is that loop. *)
From S2P Require Import Prelude GoBase Recorder FrameDecoder Recording Wire State Terminal.
Open Scope Z_scope.

Inductive log_error :=
| ErrPrelude (e : dec_error)      (** [read prelude: %w] *)
| ErrNotResize                    (** [first frame is not a resize] *)
| ErrReadFrame (e : dec_error)    (** [read frame: %w] *)
| ErrResizeLength (n : Z)         (** [asciicast: resize payload len=%d, want 4] *)
| ErrTerm (e : term_error)
| ErrWrite (e : io_error)
| ErrNotFound                     (** exit code 1, [recording not found] *)
| ErrClosed                       (** [replay: closed] *)
| IndexPanic.                     (** index out of range: the program panics *)

(** ** The loop *)

Section consume.
Context {S : Type} (handle : Frame → st S log_error unit).

Fixpoint consume (fuel : nat) (d : FrameDecoder) : st S log_error unit :=
  match fuel with
  | O => st_fail (ErrReadFrame OutOfFuel)
  | Datatypes.S fuel' =>
      match Next d with
      | (Err (DecIO EOF), _) => mret tt
      | (Err e, _) => st_fail (ErrReadFrame e)
      | (Ok f, d') => _ ← handle f; consume fuel' d'
      end
  end.

(** Enough for every byte of the file: [Next] reads five at least. *)
Definition consume_all (d : FrameDecoder) : st S log_error unit :=
  consume (Datatypes.S (length (rd_data (dec_r d)))) d.

Fixpoint handle_all (fs : list Frame) : st S log_error unit :=
  match fs with
  | [] => mret tt
  | f :: fs' => _ ← handle f; handle_all fs'
  end.

Definition stream_result (e : dec_error) : st S log_error unit :=
  match e with DecIO EOF => mret tt | e => st_fail (ErrReadFrame e) end.

(** The loop handles the decoded frames in order, then reports how they end. *)
Lemma consume_frames fuel d s :
  consume fuel d s =
    (_ ← handle_all (decode_loop fuel d).1; stream_result (decode_loop fuel d).2) s.
Proof.
  revert d s. induction fuel as [|fuel IH]; intros d s; [done|]. cbn [consume decode_loop].
  destruct (Next d) as [[f|e] d']; cbn [handle_all fst snd].
  - specialize (IH d'). destruct (decode_loop fuel d') as [fs e].
    cbn [fst snd handle_all] in *. unfold mbind, st_bind in *.
    destruct (handle f s) as [[[]|x] s']; [by rewrite IH|done].
  - by destruct e as [| |[]|].
Qed.
End consume.

(** ** [ReadOutputEvents] *)

Record AsciicastOutputEvent := mkOutEvent { oe_At : Z; oe_Data : list byte }.

Definition out_event_handle (fr : Frame) : st (list AsciicastOutputEvent * Z) log_error unit :=
  λ '(events, last),
  let last := if last <? fr_At fr then fr_At fr else last in
  if fr_Type fr =? FrameTypeOutput
  then (Ok tt, (events ++ [mkOutEvent (fr_At fr) (fr_Payload fr)], last))
  else (Ok tt, (events, last)).

(** [for i < len(events) && events[i].At < cutoff { i++ }] *)
Fixpoint skip_until (cutoff : Z) (events : list AsciicastOutputEvent)
  : list AsciicastOutputEvent :=
  match events with
  | [] => []
  | e :: events' => if oe_At e <? cutoff then skip_until cutoff events' else e :: events'
  end.

Inductive open_result := OpenNotExist | OpenErr (e : io_error) | Opened (r : reader).

Definition ReadOutputEvents (path : gostring) (open_ : open_result) (window : Z)
  : res log_error (list AsciicastOutputEvent) :=
  match path with
  | [] => Ok []
  | _ =>
      match open_ with
      | OpenNotExist => Ok []
      | OpenErr e => Err (ErrWrite e)
      | Opened r =>
          match consume_all out_event_handle (NewFrameDecoder r) ([], 0) with
          | (Err e, _) => Err e
          | (Ok _, (events, last)) =>
              if (window <=? 0) || bool_decide (length events = 0%nat) then Ok events
              else
                let cutoff := i64 (last - window) in
                if cutoff <=? 0 then Ok events else Ok (skip_until cutoff events)
          end
      end
  end.

(** ** The asciicast export *)

Record AsciicastHeader := mkHeader {
  h_Version : Z; h_Width : Z; h_Height : Z; h_Timestamp : Z;
  h_Command : gostring; h_Title : gostring
}.

Definition AsciicastHeaderFromState (st : option StateFile) : AsciicastHeader :=
  match st with
  | None => mkHeader 2 0 0 0 [] []
  | Some st =>
      let s := sf_Session st in
      mkHeader 2 0 0
        (if IsZero (ss_CreatedAt s) then 0 else Unix (ss_CreatedAt s))
        (match ss_Argv s with [] => [] | argv => Join argv B" " end)
        (ss_Key s)
  end.

(** A row of the JSONL output; its JSON text is [encoding/json]'s, [render]. *)
Inductive cast_row :=
| RowHeader (h : AsciicastHeader)
| RowOutput (at_ : Z) (data : list byte)
| RowResize (at_ : Z) (cols rows : Z).

(** Both halves of a four-byte resize payload. *)
Definition resize_dims (pl : list byte) : Z * Z :=
  (le_get (take 2 pl), le_get (take 2 (drop 2 pl))).

Section asciicast.
Context (render : cast_row → list byte).

Definition Encode (row : cast_row) : st writer log_error unit := λ w,
  match Write (render row) w with
  | (Ok _, w') => (Ok tt, w')
  | (Err e, w') => (Err (ErrWrite e), w')
  end.

Definition cast_handle (fr : Frame) : st writer log_error unit :=
  if fr_Type fr =? FrameTypeOutput then Encode (RowOutput (fr_At fr) (fr_Payload fr))
  else if fr_Type fr =? FrameTypeResize then
    if negb (Z.of_nat (length (fr_Payload fr)) =? 4)
    then st_fail (ErrResizeLength (Z.of_nat (length (fr_Payload fr))))
    else
      let '(c, r) := resize_dims (fr_Payload fr) in Encode (RowResize (fr_At fr) c r)
  else mret tt.

Definition WriteAsciicastJSONL (inp : reader) (header : AsciicastHeader)
  : st writer log_error unit :=
  match Next (NewFrameDecoder inp) with
  | (Err e, _) => st_fail (ErrPrelude e)
  | (Ok first, d) =>
      if negb (fr_Type first =? FrameTypeResize) ||
         negb (Z.of_nat (length (fr_Payload first)) =? 4)
      then st_fail ErrNotResize
      else
        let '(cols, rows) := resize_dims (fr_Payload first) in
        let version := if h_Version header =? 0 then 2 else h_Version header in
        _ ← Encode (RowHeader (mkHeader version cols rows (h_Timestamp header)
                      (h_Command header) (h_Title header)));
        consume_all cast_handle d
  end.

(** [runLogAsciinema]: [state_] is what [LoadStateFile] returns. *)
Definition runLogAsciinema {E} (state_ : res E (option StateFile)) (open_ : open_result)
  : st writer log_error unit :=
  let st := match state_ with Ok st => st | Err _ => None end in
  let header := AsciicastHeaderFromState st in
  match open_ with
  | OpenNotExist => st_fail ErrNotFound
  | OpenErr e => st_fail (ErrWrite e)
  | Opened r => WriteAsciicastJSONL r header
  end.
End asciicast.

(** ** [hoot log]: the off-line emulator *)

Inductive ReplayFormat := ReplayFormatVT | ReplayFormatPlain.

Definition resolveLogFormat (stdoutIsTTY : bool) (flag : gostring) : option gostring :=
  if bool_decide (flag = []) then Some (if stdoutIsTTY then B"vt" else B"plain")
  else if bool_decide (flag = B"vt") || bool_decide (flag = B"plain") ||
          bool_decide (flag = B"asciinema")
  then Some flag
  else None.

(** [samePath] and [logOutputWriter]: [abs], [stat] and [sameFile] are what the
    file system answers; the writer is opened (and truncated) only when the
    output is not the recording itself. *)
Inductive stat_result := StatOk (inode : nat) | StatNotExist | StatErr (e : io_error).

Definition samePath (abs : gostring → res io_error gostring) (stat : gostring → stat_result)
    (a b : gostring) : res io_error bool :=
  absA ← abs a;
  absB ← abs b;
  if bool_decide (absA = absB) then Ok true
  else match stat absA, stat absB with
       | StatOk i, StatOk j => Ok (bool_decide (i = j))
       | StatNotExist, _ | _, StatNotExist => Ok false
       | StatErr e, _ => Err e
       | _, StatErr e => Err e
       end.

Inductive log_output := ToStdout | ToFile (path : gostring) | OutputIsSource | OutputErr (e : io_error).

Definition logOutputWriter (abs : gostring → res io_error gostring)
    (stat : gostring → stat_result) (open_ : gostring → res io_error unit)
    (logPath outputPath : gostring) : log_output :=
  if bool_decide (outputPath = []) then ToStdout
  else match samePath abs stat logPath outputPath with
       | Err e => OutputErr e
       | Ok true => OutputIsSource
       | Ok false =>
           match open_ outputPath with
           | Err e => OutputErr e
           | Ok _ => ToFile outputPath
           end
       end.

Section replay.
Context {T : Type} `{TO : TermOps T}.

(** A [*Replay]: [None] is nil, or closed ([term == nil]). *)
Definition NewLibghosttyReplay (cols rows : Z) : res log_error (option T) :=
  let cols := if cols =? 0 then defaultRecorderCols else cols in
  let rows := if rows =? 0 then defaultRecorderRows else rows in
  match NewTerminal cols rows 10000 with
  | Err e => Err (ErrTerm e)
  | Ok t => Ok (Some t)
  end.

Definition Replay_VTWrite (payload : list byte) : st (option T) log_error unit := λ o,
  match o with None => (Ok tt, None) | Some t => (Ok tt, Some (VTWrite payload t).1) end.

Definition Replay_Resize (cols rows : Z) : st (option T) log_error unit := λ o,
  match o with
  | None => (Err ErrClosed, None)
  | Some t => match TermResize cols rows t with
              | (Ok _, t') => (Ok tt, Some t')
              | (Err e, t') => (Err (ErrTerm e), Some t')
              end
  end.

Definition Replay_Snapshot (format : ReplayFormat) (o : option T) : res log_error (list byte) :=
  match o with
  | None => Err ErrClosed
  | Some t =>
      match Format (match format with ReplayFormatVT => FmtVT | ReplayFormatPlain => FmtPlain end) t with
      | Ok bs => Ok bs
      | Err e => Err (ErrTerm e)
      end
  end.

Definition Replay_Close (o : option T) : option T := None.

(** The loop body of [runLogReplay]; [fr.Payload[3]] is indexed unchecked. *)
Definition replay_handle (fr : Frame) : st (option T) log_error unit :=
  if fr_Type fr =? FrameTypeOutput then Replay_VTWrite (fr_Payload fr)
  else if fr_Type fr =? FrameTypeResize then
    if Z.of_nat (length (fr_Payload fr)) <? 4 then st_fail IndexPanic
    else let '(c, rw) := resize_dims (fr_Payload fr) in Replay_Resize c rw
  else mret tt.

Definition runLogReplay (open_ : open_result) (format : ReplayFormat)
  : st writer log_error unit := λ w,
  match open_ with
  | OpenNotExist => (Err ErrNotFound, w)
  | OpenErr e => (Err (ErrWrite e), w)
  | Opened f =>
      match Next (NewFrameDecoder f) with
      | (Err e, _) => (Err (ErrPrelude e), w)
      | (Ok first, d) =>
          if negb (fr_Type first =? FrameTypeResize) ||
             negb (Z.of_nat (length (fr_Payload first)) =? 4)
          then (Err ErrNotResize, w)
          else
            let '(cols, rows) := resize_dims (fr_Payload first) in
            match NewLibghosttyReplay cols rows with
            | Err e => (Err e, w)
            | Ok r =>
                match consume_all replay_handle d r with
                | (Err e, _) => (Err e, w)
                | (Ok _, r') =>
                    match Replay_Snapshot format r' with
                    | Err e => (Err e, w)
                    | Ok snap =>
                        match Write snap w with
                        | (Ok _, w') => (Ok tt, w')
                        | (Err e, w') => (Err (ErrWrite e), w')
                        end
                    end
                end
            end
      end
  end.

(** ** Replay reproduces the live emulator *)

(** What the live emulator went through: [readLoop] feeds it every chunk and
    [Resize] changes its grid (see [Pty]). *)
Definition live_step (op : rec_op) : st T log_error unit := λ t,
  match op with
  | OpWrite _ data => (Ok tt, (VTWrite data t).1)
  | OpResize _ cols rows =>
      match TermResize cols rows t with
      | (Ok _, t') => (Ok tt, t')
      | (Err e, t') => (Err (ErrTerm e), t')
      end
  end.

Fixpoint live_run (ops : list rec_op) : st T log_error unit :=
  match ops with
  | [] => mret tt
  | op :: ops' => _ ← live_step op; live_run ops'
  end.

Context {TL : TermLaws T}.

Lemma live_run_app a b t :
  live_run (a ++ b) t = (_ ← live_run a; live_run b) t.
Proof.
  revert t. induction a as [|op a IH]; intros t; [done|]. cbn [live_run app].
  unfold mbind, st_bind in *. destruct (live_step op t) as [[[]|e] t']; [apply IH|done].
Qed.

(** One token at a time; the laws of the emulator make this the same. *)
Definition token_step (k : token) : st T log_error unit := λ t,
  match k with
  | TByte b => (Ok tt, (VTWrite [b] t).1)
  | TResize g =>
      match TermResize (resize_dims g).1 (resize_dims g).2 t with
      | (Ok _, t') => (Ok tt, t')
      | (Err e, t') => (Err (ErrTerm e), t')
      end
  end.

Fixpoint tokens_run (ks : list token) : st T log_error unit :=
  match ks with
  | [] => mret tt
  | k :: ks' => _ ← token_step k; tokens_run ks'
  end.

Lemma tokens_run_app a b t : tokens_run (a ++ b) t = (_ ← tokens_run a; tokens_run b) t.
Proof.
  revert t. induction a as [|k a IH]; intros t; [done|]. cbn [tokens_run app].
  unfold mbind, st_bind in *. destruct (token_step k t) as [[[]|e] t']; [apply IH|done].
Qed.

Lemma tokens_run_bytes bs t : tokens_run (TByte <$> bs) t = (Ok tt, (VTWrite bs t).1).
Proof.
  revert t. induction bs as [|b bs IH]; intros t; [by rewrite VTWrite_nil|].
  rewrite fmap_cons. cbn [tokens_run]. unfold mbind, st_bind. cbn [token_step].
  rewrite IH. by rewrite (VTWrite_app [b] bs).
Qed.

Lemma resize_dims_put cols rows :
  0 <= cols < 65536 → 0 <= rows < 65536 →
  resize_dims (PutUint16 cols ++ PutUint16 rows) = (cols, rows).
Proof.
  intros Hc Hr. unfold resize_dims, PutUint16. f_equal; by apply (le_get_put_small 2).
Qed.

(** Resizes carry [uint16] dimensions. *)
Definition op_u16 (op : rec_op) : Prop :=
  match op with
  | OpWrite _ _ => True
  | OpResize _ c r => 0 <= c < 65536 ∧ 0 <= r < 65536
  end.

Lemma live_tokens ops t :
  Forall op_u16 ops → live_run ops t = tokens_run (snd <$> (ops ≫= op_tokens)) t.
Proof.
  intros H. revert t. induction H as [|op ops Hop Hops IH]; intros t; [done|].
  rewrite bind_cons, fmap_app, tokens_run_app. cbn [live_run]. unfold mbind, st_bind at 1 2.
  destruct op as [now data|now cols rows]; cbn [op_tokens live_step].
  - rewrite <- list_fmap_compose. change (snd ∘ λ b, (now, TByte b)) with TByte.
    by rewrite tokens_run_bytes, IH.
  - destruct Hop. cbn [fmap list_fmap snd tokens_run]. unfold mbind, st_bind.
    cbn [token_step]. rewrite resize_dims_put by done. cbn [fst snd].
    destruct (TermResize cols rows t) as [[|] t']; [apply IH|done].
Qed.

Lemma replay_event e t :
  event_wf e →
  replay_handle (event_frame e) (Some t) =
    let '(x, t') := tokens_run (snd <$> event_tokens e) t in (x, Some t').
Proof.
  unfold replay_handle, event_frame, event_tokens. cbn [fr_Type fr_Payload].
  intros [->|[-> Hl]].
  - rewrite !Z.eqb_refl, <- list_fmap_compose.
    change (snd ∘ λ b, (ev_ms e, TByte b)) with TByte. by rewrite tokens_run_bytes.
  - change (FrameTypeResize =? FrameTypeOutput) with false. rewrite Z.eqb_refl, Hl.
    change (Z.of_nat 4 <? 4) with false.
    cbn [fmap list_fmap snd tokens_run]. unfold mbind, st_bind. cbn [token_step].
    destruct (resize_dims (ev_payload e)) as [c r]. unfold Replay_Resize. cbn [fst snd].
    by destruct (TermResize c r t) as [[|] t'].
Qed.

Lemma replay_events evs t :
  Forall event_wf evs →
  handle_all replay_handle (event_frame <$> evs) (Some t) =
    let '(x, t') := tokens_run (snd <$> (evs ≫= event_tokens)) t in (x, Some t').
Proof.
  intros H. revert t. induction H as [|e evs He Hevs IH]; intros t; [done|].
  rewrite bind_cons, fmap_app, tokens_run_app, fmap_cons. cbn [handle_all].
  unfold mbind, st_bind. rewrite replay_event by done.
  destruct (tokens_run (snd <$> event_tokens e) t) as [[[]|x] t']; [apply IH|done].
Qed.

Lemma recorded_tokens xs ys : Forall2 recorded_as xs ys → snd <$> xs = snd <$> ys.
Proof. induction 1 as [|x y xs ys [E _] _ IH]; [done|]. by rewrite !fmap_cons, E, IH. Qed.

Lemma consume_recording evs fin d t :
  is_eof fin = true → Forall event_wf evs →
  decode_all d = (event_frame <$> evs, stream_end fin) →
  consume_all replay_handle d (Some t) =
    let '(x, t') := tokens_run (snd <$> (evs ≫= event_tokens)) t in (x, Some t').
Proof.
  intros Hfin Hwf Hd. unfold consume_all, decode_all in *. rewrite consume_frames, Hd.
  unfold mbind, st_bind. cbn [fst snd]. rewrite replay_events by done.
  destruct (tokens_run _ t) as [[[]|x] t']; [|done]. unfold stream_end. by rewrite Hfin.
Qed.

(** [hoot log] reproduces the screen.  If the live emulator, created with
    the recording's geometry and fed the session's outputs and resizes, ends in
    state [t], then replaying the closed recording prints what the formatter
    says of [t]: although the recorder has batched and split the stream, for any
    emulator that parses a stream. *)
Lemma replay_reproduces cols rows ops t0 t r snap format out :
  let cols' := if cols =? 0 then defaultRecorderCols else cols in
  let rows' := if rows =? 0 then defaultRecorderRows else rows in
  clock_ok 0 ops → Forall op_u16 (OpResize 0 cols rows :: ops) →
  NewTerminal cols' rows' 10000 = Ok t0 →
  live_run ops t0 = (Ok tt, t) →
  record cols rows ops = Ok r →
  Format (match format with ReplayFormatVT => FmtVT | ReplayFormatPlain => FmtPlain end) t = Ok snap →
  runLogReplay (Opened (Reader (w_out (rec_file r)) EOF)) format (sink out) =
    (Ok tt, sink (out ++ snap)).
Proof.
  intros cols' rows' Hc Hu Ht0 Hlive Hr Hsnap.
  apply Forall_cons in Hu as [[Hu1 Hu2] Hu].
  destruct (record_decodes cols rows ops Hc) as (r' & evs & Er & Hd & Hwf & Hrec).
  rewrite Hr in Er. injection Er as <-. specialize (Hd EOF). rewrite fmap_cons in Hd.
  apply decode_all_cons in Hd as (d' & Hn & Hd'). fold cols' rows' in Hn.
  unfold runLogReplay. rewrite Hn. cbn [event_frame fr_Type fr_Payload ev_typ ev_payload].
  assert (0 <= cols' < 65536 ∧ 0 <= rows' < 65536 ∧ cols' ≠ 0 ∧ rows' ≠ 0) as (? & ? & ? & ?).
  { unfold cols', rows', defaultRecorderCols, defaultRecorderRows.
    destruct (Z.eqb_spec cols 0), (Z.eqb_spec rows 0); lia. }
  rewrite Z.eqb_refl. change (negb true || negb _) with false. cbv iota.
  rewrite resize_dims_put by done. unfold NewLibghosttyReplay.
  rewrite (proj2 (Z.eqb_neq cols' 0)), (proj2 (Z.eqb_neq rows' 0)), Ht0 by done.
  rewrite (consume_recording evs EOF d' t0 eq_refl Hwf Hd').
  rewrite (recorded_tokens _ _ Hrec), <- live_tokens, Hlive by done.
  unfold Replay_Snapshot. by rewrite Hsnap, Write_sink.
Qed.
End replay.

(** ** The asciicast of a recording *)

Definition event_row (e : event) : cast_row :=
  if ev_typ e =? FrameTypeOutput then RowOutput (duration_ms (ev_ms e)) (ev_payload e)
  else RowResize (duration_ms (ev_ms e)) (resize_dims (ev_payload e)).1
         (resize_dims (ev_payload e)).2.

Section cast.
Context (render : cast_row → list byte).

Lemma cast_events evs out :
  Forall event_wf evs →
  handle_all (cast_handle render) (event_frame <$> evs) (sink out) =
    (Ok tt, sink (out ++ concat (render ∘ event_row <$> evs))).
Proof.
  intros Hwf. revert out. induction Hwf as [|e evs He Hevs IH]; intros out.
  { by rewrite app_nil_r. }
  rewrite !fmap_cons. cbn [handle_all concat]. unfold mbind, st_bind.
  assert (cast_handle render (event_frame e) (sink out) =
    (Ok tt, sink (out ++ render (event_row e)))) as ->.
  { unfold cast_handle, event_row. cbn [event_frame fr_Type fr_Payload fr_At].
    destruct He as [->|[-> Hl]]; [by rewrite !Z.eqb_refl|].
    change (FrameTypeResize =? FrameTypeOutput) with false. rewrite Z.eqb_refl, Hl.
    change (negb (Z.of_nat 4 =? 4)) with false.
    by destruct (resize_dims (ev_payload e)). }
  rewrite IH. by rewrite <- app_assoc.
Qed.

(** The asciicast export of a closed recording is its header, with the
    geometry of the recording, then one row per event at its time, and the rows
    of a session's outputs and resizes are in the order they happened. *)
Theorem asciicast_complete cols rows ops r header out :
  let cols' := if cols =? 0 then defaultRecorderCols else cols in
  let rows' := if rows =? 0 then defaultRecorderRows else rows in
  clock_ok 0 ops → Forall op_u16 (OpResize 0 cols rows :: ops) →
  record cols rows ops = Ok r →
  ∃ evs, Forall2 recorded_as (evs ≫= event_tokens) (ops ≫= op_tokens) ∧
    WriteAsciicastJSONL render (Reader (w_out (rec_file r)) EOF) header (sink out) =
      (Ok tt, sink (out ++
         render (RowHeader (mkHeader (if h_Version header =? 0 then 2 else h_Version header)
                   cols' rows' (h_Timestamp header) (h_Command header) (h_Title header))) ++
         concat (render ∘ event_row <$> evs))).
Proof.
  intros cols' rows' Hc Hu Hr. apply Forall_cons in Hu as [[Hu1 Hu2] Hu].
  destruct (record_decodes cols rows ops Hc) as (r' & evs & Er & Hd & Hwf & Hrec).
  rewrite Hr in Er. injection Er as <-. specialize (Hd EOF). rewrite fmap_cons in Hd.
  apply decode_all_cons in Hd as (d' & Hn & Hd'). fold cols' rows' in Hn.
  exists evs. split; [done|]. unfold WriteAsciicastJSONL. rewrite Hn.
  cbn [event_frame fr_Type fr_Payload ev_typ ev_payload].
  assert (0 <= cols' < 65536 ∧ 0 <= rows' < 65536) as [? ?].
  { unfold cols', rows', defaultRecorderCols, defaultRecorderRows.
    destruct (Z.eqb_spec cols 0), (Z.eqb_spec rows 0); lia. }
  rewrite Z.eqb_refl. change (negb true || negb _) with false. cbv iota.
  rewrite resize_dims_put by done. unfold mbind, st_bind. unfold Encode at 1.
  rewrite Write_sink. unfold consume_all, decode_all in *. rewrite consume_frames, Hd'.
  unfold mbind, st_bind. cbn [fst snd]. rewrite cast_events by done.
  by rewrite <- app_assoc.
Qed.
End cast.

Lemma asciicast_complete_witness :
  ∃ r, record 100 30 [OpWrite 40 [65]; OpResize 41 9 8] = Ok r ∧
  ∃ evs, Forall2 recorded_as (evs ≫= event_tokens)
      ([OpWrite 40 [65]; OpResize 41 9 8] ≫= op_tokens) ∧
    WriteAsciicastJSONL (λ _, [1]) (Reader (w_out (rec_file r)) EOF) (mkHeader 0 0 0 7 [] []) (sink []) =
      (Ok tt, sink ([] ++ [1] ++ concat ((λ _, [1]) ∘ event_row <$> evs))).
Proof.
  assert (∃ r, record 100 30 [OpWrite 40 [65]; OpResize 41 9 8] = Ok r)
    as [r Hr] by (eexists; vm_compute; reflexivity).
  exists r. split; [exact Hr|].
  apply (asciicast_complete (λ _, [1]) 100 30 [OpWrite 40 [65]; OpResize 41 9 8] r
    (mkHeader 0 0 0 7 [] [])); [cbn; lia| |exact Hr].
  repeat constructor; cbn; lia.
Defined.

(** A resize frame with less than four bytes of payload, after a sound prelude,
    stops the asciicast export with an error but [runLogReplay] with a panic. *)
Lemma short_resize_panics {T} {TO : TermOps T} (t : T) ty at_ pl :
  ty = FrameTypeResize → (length pl < 4)%nat →
  replay_handle (mkFrame ty at_ pl) (Some t) = (Err IndexPanic, Some t).
Proof.
  intros -> Hl. unfold replay_handle. cbn [fr_Type fr_Payload].
  change (FrameTypeResize =? FrameTypeOutput) with false. rewrite Z.eqb_refl.
  by rewrite (proj2 (Z.ltb_lt _ _)) by lia.
Qed.
