(* ===== verification/Channel.v ===== *)
(** * Go channels

    A buffered channel as its contents, capacity and closed flag.  The sends of
    the program are the non-blocking ones, [select { case ch <- x: default: }];
    sending on or closing a closed channel is a run-time panic, [None] here. *)
From S2P Require Import Prelude.

Record chan (A : Type) := mkChan { ch_buf : list A; ch_cap : nat; ch_closed : bool }.
Arguments mkChan {A} _ _ _.
Arguments ch_buf {A} _.
Arguments ch_cap {A} _.
Arguments ch_closed {A} _.

Definition make_chan {A} (cap : nat) : chan A := mkChan [] cap false.

(** [select { case ch <- x: default: }]; a full channel drops [x]. *)
Definition try_send {A} (x : A) (c : chan A) : option (chan A) :=
  if ch_closed c then None
  else if (length (ch_buf c) <? ch_cap c)%nat
  then Some (mkChan (ch_buf c ++ [x]) (ch_cap c) false)
  else Some c.

Definition close_chan {A} (c : chan A) : option (chan A) :=
  if ch_closed c then None else Some (mkChan (ch_buf c) (ch_cap c) true).

Inductive recv_result (A : Type) := Received (x : A) | RecvClosed | RecvBlocks.
Arguments Received {A} x.
Arguments RecvClosed {A}.
Arguments RecvBlocks {A}.

(** [x, ok := <-ch]: a closed channel is drained first. *)
Definition recv {A} (c : chan A) : recv_result A * chan A :=
  match ch_buf c with
  | x :: b => (Received x, mkChan b (ch_cap c) (ch_closed c))
  | [] => (if ch_closed c then RecvClosed else RecvBlocks, c)
  end.

(** Never more than its capacity. *)
Definition chan_ok {A} (c : chan A) : Prop := (length (ch_buf c) <= ch_cap c)%nat.

Lemma try_send_ok {A} (x : A) c c' : chan_ok c → try_send x c = Some c' → chan_ok c'.
Proof.
  unfold try_send, chan_ok. intros H. destruct (ch_closed c); [done|].
  destruct (Nat.ltb_spec (length (ch_buf c)) (ch_cap c)); intros [= <-]; [|done].
  simpl. rewrite length_app. simpl. lia.
Qed.

Lemma try_send_open {A} (x : A) c :
  ch_closed c = false →
  ∃ c', try_send x c = Some c' ∧ ch_closed c' = false ∧ ch_cap c' = ch_cap c ∧
    ch_buf c' = (if (length (ch_buf c) <? ch_cap c)%nat then ch_buf c ++ [x] else ch_buf c).
Proof.
  unfold try_send. intros Hc. rewrite Hc.
  destruct (length (ch_buf c) <? ch_cap c)%nat; eexists; split; done.
Qed.
