(* ===== verification/Pty.v ===== *)
(** * [pty_libghostty.go]: the PTY, its emulators, recorder and subscribers

    [LibghosttyPTY]: the emulator [term], the primary-screen mirror
    [primaryTerm] with its filter, the recorder, the bytes written to the PTY
    master, and the subscriber channels.  Every definition below that the code
    passes to [p.do] is one action of the dispatcher goroutine, which runs them
    one at a time; [pty_do] is here the identity on an open PTY and nothing on a
    closed one.  ([Dispatcher] models the goroutine and its queue.) *)
From S2P Require Import Prelude GoBase StreamFilter QueryStripper PrimaryFilter Recorder Recording Terminal Channel.
Open Scope Z_scope.

Inductive pty_error :=
| PtyClosed                     (** [pty closed] *)
| PtyNilMaster                  (** [libghostty: master is nil] *)
| PtyTerm (e : term_error)
| PtySetsize (e : io_error)
| PtyIO (e : io_error)
| NoForeground                  (** [ErrNoForeground] *)
| PtyPanic.                     (** send on, or close of, a closed channel *)

Abbreviation chan_id := nat.

(** The initial state of a subscriber's query stripper. *)
Abbreviation new_stripper := newStripper.

Section pty.
Context {T : Type} {TO : TermOps T}.

Record LibghosttyPTY := mkPty {
  p_term : option T;
  p_primaryTerm : option T;
  p_primaryFilter : vtPrimaryScreenFilter;
  p_master : writer;
  p_cols : Z;
  p_rows : Z;
  p_subs : gmap chan_id vtQueryStripper;
  p_chans : gmap chan_id (chan (list byte));   (** every channel made, also cancelled ones *)
  p_rec : option Recorder;
  p_closed : bool                              (** [done] is closed *)
}.

Abbreviation pty_st := (st LibghosttyPTY pty_error).

Definition set_terms (t p : option T) (x : LibghosttyPTY) : LibghosttyPTY :=
  mkPty t p (p_primaryFilter x) (p_master x) (p_cols x) (p_rows x) (p_subs x) (p_chans x)
    (p_rec x) (p_closed x).
Definition set_primary (p : option T) (f : vtPrimaryScreenFilter) (x : LibghosttyPTY) : LibghosttyPTY :=
  mkPty (p_term x) p f (p_master x) (p_cols x) (p_rows x) (p_subs x) (p_chans x)
    (p_rec x) (p_closed x).
Definition set_master (w : writer) (x : LibghosttyPTY) : LibghosttyPTY :=
  mkPty (p_term x) (p_primaryTerm x) (p_primaryFilter x) w (p_cols x) (p_rows x) (p_subs x)
    (p_chans x) (p_rec x) (p_closed x).
Definition set_dims (c r : Z) (x : LibghosttyPTY) : LibghosttyPTY :=
  mkPty (p_term x) (p_primaryTerm x) (p_primaryFilter x) (p_master x) c r (p_subs x)
    (p_chans x) (p_rec x) (p_closed x).
Definition set_subs (s : gmap chan_id vtQueryStripper) (c : gmap chan_id (chan (list byte)))
    (x : LibghosttyPTY) : LibghosttyPTY :=
  mkPty (p_term x) (p_primaryTerm x) (p_primaryFilter x) (p_master x) (p_cols x) (p_rows x) s c
    (p_rec x) (p_closed x).
Definition set_rec (r : option Recorder) (x : LibghosttyPTY) : LibghosttyPTY :=
  mkPty (p_term x) (p_primaryTerm x) (p_primaryFilter x) (p_master x) (p_cols x) (p_rows x)
    (p_subs x) (p_chans x) r (p_closed x).
Definition set_closed (x : LibghosttyPTY) : LibghosttyPTY :=
  mkPty (p_term x) (p_primaryTerm x) (p_primaryFilter x) (p_master x) (p_cols x) (p_rows x)
    (p_subs x) (p_chans x) (p_rec x) true.

(** [NewLibghosttyPTY]; a recorder comes from [WithRecorder]. *)
Definition NewLibghosttyPTY (master : option writer) (cols rows scrollback : Z)
    (rec : option Recorder) : res pty_error LibghosttyPTY :=
  match master with
  | None => Err PtyNilMaster
  | Some m =>
      match NewTerminal cols rows scrollback with
      | Err e => Err (PtyTerm e)
      | Ok term =>
          match NewTerminal cols rows scrollback with
          | Err e => Err (PtyTerm e)
          | Ok primary =>
              Ok (mkPty (Some term) (Some primary) (mkPrimary false primaryFilterNormal []) m
                    cols rows ∅ ∅ rec false)
          end
      end
  end.

(** [p.master.Write], its error dropped or returned by the caller. *)
Definition master_write (bs : list byte) : st LibghosttyPTY pty_error (res io_error unit) := λ p,
  let '(x, w) := GoBase.Write bs (p_master p) in (Ok x, set_master w p).

(** [Write]: client input goes to the master, not to the emulator. *)
Definition Write (data : list byte) : pty_st unit :=
  x ← master_write data;
  match x with Ok _ => mret tt | Err e => st_fail (PtyIO e) end.

(** [p.do]: nothing runs once [done] is closed. *)
Definition pty_do (fn : pty_st unit) : pty_st unit := λ p,
  if p_closed p then (Ok tt, p) else fn p.

(** The emulator's answers to queries, through [WithWritePty]. *)
Fixpoint write_replies (rs : list (list byte)) : pty_st unit :=
  match rs with
  | [] => mret tt
  | r :: rs' => _ ← master_write r; write_replies rs'
  end.

Definition tee_recorder (now : Z) (chunk : list byte) : pty_st unit := λ p,
  (Ok tt, set_rec (Recorder_Write now chunk (p_rec p)).2 p).

Definition feed_term (chunk : list byte) : pty_st unit := λ p,
  match p_term p with
  | None => (Ok tt, p)
  | Some t =>
      let '(t', replies) := VTWrite chunk t in
      write_replies replies (set_terms (Some t') (p_primaryTerm p) p)
  end.

Definition feed_primary (chunk : list byte) : pty_st unit := λ p,
  match p_primaryTerm p with
  | None => (Ok tt, p)
  | Some t =>
      let '(primaryChunk, f) := Filter chunk (p_primaryFilter p) in
      let t' := match primaryChunk with [] => t | _ => (VTWrite primaryChunk t).1 end in
      (Ok tt, set_primary (Some t') f p)
  end.

(** One turn of [for _, sub := range p.subs]. *)
Definition send_sub (chunk : list byte) (id : chan_id) (s : vtQueryStripper) : pty_st unit := λ p,
  let '(filtered, s') := Filter chunk s in
  let p := set_subs (<[id := s']> (p_subs p)) (p_chans p) p in
  match filtered with
  | [] => (Ok tt, p)
  | _ =>
      match p_chans p !! id with
      | None => (Err PtyPanic, p)
      | Some c =>
          match try_send filtered c with
          | None => (Err PtyPanic, p)
          | Some c' => (Ok tt, set_subs (p_subs p) (<[id := c']> (p_chans p)) p)
          end
      end
  end.

Fixpoint fan_out (chunk : list byte) (subs : list (chan_id * vtQueryStripper)) : pty_st unit :=
  match subs with
  | [] => mret tt
  | (id, s) :: subs' => _ ← send_sub chunk id s; fan_out chunk subs'
  end.

(** The action of [readLoop] for one chunk. *)
Definition feed_action (now : Z) (chunk : list byte) : pty_st unit :=
  _ ← tee_recorder now chunk;
  _ ← feed_term chunk;
  _ ← feed_primary chunk;
  p ← st_get;
  fan_out chunk (map_to_list (p_subs p)).

Definition readLoop_chunk (now : Z) (chunk : list byte) : pty_st unit :=
  match chunk with [] => mret tt | _ => pty_do (feed_action now chunk) end.

(** ** Resize *)

Definition term_of (t : option T) : res pty_error T :=
  match t with None => Err PtyClosed | Some t => Ok t end.

Definition resize_action (now cols rows : Z) : pty_st unit := λ p,
  match p_term p with
  | None => (Err PtyClosed, p)
  | Some t =>
      match TermResize cols rows t with
      | (Err e, t') => (Err (PtyTerm e), set_terms (Some t') (p_primaryTerm p) p)
      | (Ok _, t') =>
          let p := set_terms (Some t') (p_primaryTerm p) p in
          let resized :=
            match p_primaryTerm p with
            | None => (Ok tt, p)
            | Some q =>
                match TermResize cols rows q with
                | (Err e, q') => (Err (PtyTerm e), set_terms (p_term p) (Some q') p)
                | (Ok _, q') => (Ok tt, set_terms (p_term p) (Some q') p)
                end
            end in
          match resized with
          | (Err e, p) => (Err e, p)
          | (Ok _, p) => (Ok tt, set_rec (RecordResize now cols rows (p_rec p)).2 p)
          end
      end
  end.

(** [setsize]: what the kernel answers to [TIOCSWINSZ]. *)
Definition Resize (setsize : res io_error unit) (now cols rows : Z) : pty_st unit :=
  match setsize with
  | Err e => st_fail (PtySetsize e)
  | Ok _ =>
      _ ← pty_do (resize_action now cols rows);
      st_modify (set_dims cols rows)
  end.

Definition Size (p : LibghosttyPTY) : Z * Z := (p_cols p, p_rows p).

(** ** Formatting and snapshots *)

Definition lift_term {A} (x : res term_error A) : res pty_error A :=
  match x with Ok a => Ok a | Err e => Err (PtyTerm e) end.

(** [formatBytes]; after [Close], [do] leaves [out] and [ferr] nil. *)
Definition formatBytes (format : formatter) (p : LibghosttyPTY) : res pty_error (list byte) :=
  if p_closed p then Ok []
  else t ← term_of (p_term p); lift_term (Format format t).

Definition FormatText := formatBytes FmtPlain.
Definition FormatHTML := formatBytes FmtHTML.
Definition FormatVT := formatBytes FmtVT.

Definition Capture (lines : Z) (withEscapes : bool) : LibghosttyPTY → res pty_error (list byte) :=
  formatBytes (if withEscapes then FmtVT else FmtPlain).

Definition BracketedPasteActive (p : LibghosttyPTY) : bool :=
  if p_closed p then false
  else match p_term p with
       | None => false
       | Some t => match BracketedPaste t with Ok v => v | Err _ => false end
       end.

Definition formatTerminalSnapshot (t : T) : res pty_error (list byte) :=
  lift_term (Format FmtSnapshot t).

Definition snapshotLocked (p : LibghosttyPTY) : res pty_error (list byte) :=
  t ← term_of (p_term p);
  active ← lift_term (ActiveScreen t);
  match active, p_primaryTerm p with
  | ScreenAlternate, Some q =>
      primary ← formatTerminalSnapshot q;
      alt ← formatTerminalSnapshot t;
      Ok (primary ++ alt)
  | _, _ => formatTerminalSnapshot t
  end.

(** [bytes.Index(rest, "\r\n")] *)
Fixpoint index_crlf (bs : list byte) : option nat :=
  match bs with
  | [] => None
  | c :: bs' =>
      if (c =? 13) && bool_decide (head bs' = Some 10) then Some 0%nat
      else S <$> index_crlf bs'
  end.

(** The row loop: where the cut falls, if there are enough rows. *)
Fixpoint cut_rows (rows : nat) (rest : list byte) (cut : nat) : option nat :=
  match rows with
  | O => Some cut
  | S rows' =>
      match index_crlf rest with
      | None => None
      | Some idx => cut_rows rows' (drop (idx + 2) rest) (cut + (idx + 2))
      end
  end.

Definition splitSnapshotRows (snap : list byte) (scrollbackRows : Z) : list byte * list byte :=
  if (scrollbackRows =? 0) || bool_decide (snap = []) then ([], snap)
  else match cut_rows (Z.to_nat scrollbackRows) snap 0 with
       | None => (snap, [])
       | Some cut => (take cut snap, drop cut snap)
       end.

Definition formatTerminalSnapshotParts (t : T) : res pty_error (list byte * list byte) :=
  snap ← formatTerminalSnapshot t;
  rows ← lift_term (ScrollbackRows t);
  Ok (splitSnapshotRows snap rows).

Definition snapshotPartsLocked (p : LibghosttyPTY) : res pty_error (list byte * list byte) :=
  t ← term_of (p_term p);
  active ← lift_term (ActiveScreen t);
  match active with
  | ScreenAlternate => snap ← snapshotLocked p; Ok ([], snap)
  | ScreenPrimary => formatTerminalSnapshotParts t
  end.

Definition Snapshot (p : LibghosttyPTY) : res pty_error (list byte) :=
  if p_closed p then Ok [] else snapshotLocked p.

Definition SnapshotParts (p : LibghosttyPTY) : res pty_error (list byte * list byte) :=
  if p_closed p then Ok ([], []) else snapshotPartsLocked p.

(** ** Subscriptions *)

(** A fresh channel with the new subscriber on it; [id] is the channel. *)
Definition add_sub (id : chan_id) (p : LibghosttyPTY) : LibghosttyPTY :=
  set_subs (<[id := newStripper]> (p_subs p)) (p_chans p) p.

Definition make_sub_chan (id : chan_id) (cap : nat) (p : LibghosttyPTY) : LibghosttyPTY :=
  set_subs (p_subs p) (<[id := make_chan cap]> (p_chans p)) p.

Definition close_sub (id : chan_id) : pty_st unit := λ p,
  match p_chans p !! id with
  | None => (Err PtyPanic, p)
  | Some c =>
      match close_chan c with
      | None => (Err PtyPanic, p)
      | Some c' => (Ok tt, set_subs (p_subs p) (<[id := c']> (p_chans p)) p)
      end
  end.

Definition subscribe_cap (cap : nat) (id : chan_id) : pty_st unit :=
  _ ← st_modify (make_sub_chan id cap);
  pty_do (st_modify (add_sub id)).

Definition subscribe : chan_id → pty_st unit := subscribe_cap 64.
Definition SubscribeAtRecord : chan_id → pty_st unit := subscribe_cap 256.

(** The [cancel] closure each of them returns. *)
Definition cancel (id : chan_id) : pty_st unit :=
  pty_do (λ p,
    match p_subs p !! id with
    | None => (Ok tt, p)
    | Some _ => close_sub id (set_subs (delete id (p_subs p)) (p_chans p) p)
    end).

(** The shared body of [SubscribeWithSnapshot] and [SubscribeWithSnapshotParts]:
    register the subscriber and take the snapshot in one action. *)
Definition subscribe_snapshot {A} (snapshot : LibghosttyPTY → res pty_error A) (id : chan_id)
  : pty_st A := λ p,
  let p := make_sub_chan id 256 p in
  if p_closed p then
    match close_sub id p with
    | (Ok _, p') => (Err PtyClosed, p')
    | (Err e, p') => (Err e, p')
    end
  else
    match p_term p with
    | None => (Err PtyClosed, p)
    | Some _ =>
        let p := add_sub id p in
        match snapshot p with
        | Ok a => (Ok a, p)
        | Err e =>
            match close_sub id (set_subs (delete id (p_subs p)) (p_chans p) p) with
            | (Ok _, p') => (Err e, p')
            | (Err e', p') => (Err e', p')
            end
        end
    end.

Definition SubscribeWithSnapshot : chan_id → pty_st (list byte) :=
  subscribe_snapshot snapshotLocked.

Definition SubscribeWithSnapshotParts : chan_id → pty_st (list byte * list byte) :=
  subscribe_snapshot snapshotPartsLocked.

(** ** Close *)

Fixpoint close_subs (ids : list chan_id) : pty_st unit :=
  match ids with
  | [] => mret tt
  | id :: ids' =>
      _ ← st_modify (λ p, set_subs (delete id (p_subs p)) (p_chans p) p);
      _ ← close_sub id;
      close_subs ids'
  end.

(** [Close]; [room] says whether the shutdown action found room in the action
    queue, [rec_close] what closing the recorder's file returns. *)
Definition Close (room : bool) (rec_close : option io_error) : pty_st unit := λ p,
  if p_closed p then (Ok tt, p)
  else
    (_ ← (if room then
            p ← st_get;
            _ ← close_subs (map_to_list (p_subs p)).*1;
            _ ← st_modify (set_terms None None);
            st_modify (λ p, set_rec (Recorder_Close rec_close (p_rec p)).2 p)
          else mret tt);
     st_modify set_closed) p.

(** [SignalForeground]: [pgid] is the kernel's answer to [TIOCGPGRP], [kill] to
    [kill(-pgid, sig)]. *)
Definition SignalForeground (pgid : res io_error Z) (kill : Z → res io_error unit)
  : res pty_error unit :=
  match pgid with
  | Err e => Err (PtyIO e)
  | Ok pgid =>
      if pgid <=? 1 then Err NoForeground
      else match kill (- pgid) with Ok _ => Ok tt | Err e => Err (PtyIO e) end
  end.

(** ** No panic

    The channels of the registered subscribers are open, so the fan-out never
    sends on a closed channel and [cancel] never closes one twice. *)
Definition pty_inv (p : LibghosttyPTY) : Prop :=
  (∀ id s, p_subs p !! id = Some s →
     ∃ c, p_chans p !! id = Some c ∧ ch_closed c = false) ∧
  (∀ id c, p_chans p !! id = Some c → chan_ok c).

(** [p'] differs from [p] in the emulators, the recorder and the master only. *)
Definition same_subs (p p' : LibghosttyPTY) : Prop :=
  p_subs p' = p_subs p ∧ p_chans p' = p_chans p ∧ p_closed p' = p_closed p.

Lemma same_subs_trans p q r : same_subs p q → same_subs q r → same_subs p r.
Proof. unfold same_subs. intuition congruence. Qed.

Lemma same_subs_inv p p' : same_subs p p' → pty_inv p → pty_inv p'.
Proof. intros (E1 & E2 & _). unfold pty_inv. by rewrite E1, E2. Qed.

Lemma write_replies_ok rs p :
  ∃ w, write_replies rs p = (Ok tt, set_master w p).
Proof.
  revert p. induction rs as [|r rs IH]; intros p.
  { exists (p_master p). by destruct p. }
  cbn [write_replies]. unfold mbind, st_bind, master_write.
  destruct (GoBase.Write r (p_master p)) as [x w].
  destruct (IH (set_master w p)) as [w' E]. exists w'. rewrite E. by destruct p.
Qed.

(** What the emulator of an open PTY becomes. *)
Definition term_after (chunk : list byte) (t : option T) : option T :=
  (λ t, (VTWrite chunk t).1) <$> t.

Lemma feed_term_ok chunk p :
  ∃ p', feed_term chunk p = (Ok tt, p') ∧ same_subs p p' ∧
    p_term p' = term_after chunk (p_term p) ∧ p_rec p' = p_rec p ∧
    p_primaryTerm p' = p_primaryTerm p ∧ p_primaryFilter p' = p_primaryFilter p.
Proof.
  unfold feed_term. destruct (p_term p) as [t|] eqn:E; cbn [term_after fmap option_fmap option_map].
  - destruct (VTWrite chunk t) as [t' rs] eqn:Ev. simpl.
    destruct (write_replies_ok rs (set_terms (Some t') (p_primaryTerm p) p)) as [w Ew].
    eexists. split; [exact Ew|]. done.
  - exists p. by rewrite E.
Qed.

(** What the primary mirror of an open PTY becomes. *)
Definition primary_after (chunk : list byte) (t : option T) (f : vtPrimaryScreenFilter) : option T :=
  (λ t, match (Filter chunk f).1 with [] => t | bs => (VTWrite bs t).1 end) <$> t.

Lemma feed_primary_ok chunk p :
  ∃ p', feed_primary chunk p = (Ok tt, p') ∧ same_subs p p' ∧
    p_term p' = p_term p ∧ p_rec p' = p_rec p ∧
    p_primaryTerm p' = primary_after chunk (p_primaryTerm p) (p_primaryFilter p).
Proof.
  unfold feed_primary, primary_after. destruct (p_primaryTerm p) as [t|] eqn:E.
  - destruct (Filter chunk (p_primaryFilter p)) as [bs f]. eexists. split; [done|]. by destruct bs.
  - exists p. by rewrite E.
Qed.

(** The effect of one chunk on a subscriber and its channel. *)
Definition sub_after (chunk : list byte) (s : vtQueryStripper) : vtQueryStripper :=
  (Filter chunk s).2.

Definition chan_after (chunk : list byte) (s : vtQueryStripper) (c : chan (list byte)) : chan (list byte) :=
  match (Filter chunk s).1 with
  | [] => c
  | bs => mkChan (if (length (ch_buf c) <? ch_cap c)%nat then ch_buf c ++ [bs] else ch_buf c)
            (ch_cap c) (ch_closed c)
  end.

Lemma send_sub_ok chunk id s c p :
  p_chans p !! id = Some c → ch_closed c = false →
  send_sub chunk id s p =
    (Ok tt, set_subs (<[id := sub_after chunk s]> (p_subs p))
              (<[id := chan_after chunk s c]> (p_chans p)) p).
Proof.
  intros Hc Ho. unfold send_sub, sub_after, chan_after.
  destruct (Filter chunk s) as [bs s']. cbn [fst snd].
  destruct bs as [|b bs]; [by rewrite (insert_id (p_chans p) id c Hc)|].
  cbn [set_subs p_chans]. rewrite Hc.
  unfold try_send. rewrite Ho. destruct c as [buf cap cl]. cbn [ch_buf ch_cap ch_closed] in *. subst cl.
  by destruct (length buf <? cap)%nat.
Qed.

(** The state after a chunk has been offered to every subscriber in [l]. *)
Definition fanned (chunk : list byte) (l : list (chan_id * vtQueryStripper))
    (p p' : LibghosttyPTY) : Prop :=
  p' = set_subs (p_subs p') (p_chans p') p ∧
  (∀ id, id ∉ l.*1 → p_subs p' !! id = p_subs p !! id ∧ p_chans p' !! id = p_chans p !! id) ∧
  (∀ id s c, (id, s) ∈ l → p_chans p !! id = Some c →
     p_subs p' !! id = Some (sub_after chunk s) ∧ p_chans p' !! id = Some (chan_after chunk s c)).

Lemma fan_out_ok chunk l p :
  NoDup l.*1 →
  (∀ id s, (id, s) ∈ l → ∃ c, p_chans p !! id = Some c ∧ ch_closed c = false) →
  ∃ p', fan_out chunk l p = (Ok tt, p') ∧ fanned chunk l p p'.
Proof.
  revert p. induction l as [|[id s] l IH]; intros p Hnd Hopen.
  { exists p. split; [done|]. split; [by destruct p|]. split; [done|].
    intros ? ? ? H. by apply elem_of_nil in H. }
  rewrite fmap_cons in Hnd. apply NoDup_cons in Hnd as [Hid Hnd]. cbn [fst] in Hid.
  destruct (Hopen id s) as (c & Hc & Ho); [by left|].
  cbn [fan_out]. unfold mbind, st_bind. rewrite (send_sub_ok chunk id s c) by done.
  set (p1 := set_subs _ _ p).
  assert (∀ j, j ≠ id → p_subs p1 !! j = p_subs p !! j ∧ p_chans p1 !! j = p_chans p !! j) as Hne.
  { intros j Hj. simpl. by rewrite !lookup_insert_ne by done. }
  destruct (IH p1 Hnd) as (p' & E & E1 & E2 & E3).
  { intros j s' Hj. destruct (Hopen j s') as (c' & Hc' & Ho'); [by right|].
    exists c'. split; [|done]. destruct (Hne j) as [_ ->]; [|done].
    intros ->. apply Hid. apply list_elem_of_fmap. by exists (id, s'). }
  exists p'. split; [done|]. split; [by rewrite E1|]. split.
  - intros j Hj. rewrite fmap_cons, not_elem_of_cons in Hj. destruct Hj as [Hj1 Hj2].
    destruct (E2 j Hj2) as [-> ->]. by apply Hne.
  - intros j s' c' Hj Hc'. apply elem_of_cons in Hj as [[= -> ->]|Hj].
    + destruct (E2 id Hid) as [-> ->]. simpl. rewrite !lookup_insert_eq.
      rewrite Hc in Hc'. by injection Hc' as ->.
    + apply E3; [done|]. destruct (Hne j) as [_ ->]; [|done].
      intros ->. apply Hid. apply list_elem_of_fmap. by exists (id, s').
Qed.

(** Every subscriber of an open PTY sees the chunk through its own stripper. *)
Lemma fan_out_all chunk p :
  pty_inv p →
  ∃ p', fan_out chunk (map_to_list (p_subs p)) p = (Ok tt, p') ∧
    p' = set_subs (p_subs p') (p_chans p') p ∧
    (∀ id, p_subs p' !! id = sub_after chunk <$> p_subs p !! id) ∧
    (∀ id, p_chans p' !! id =
       match p_subs p !! id with
       | Some s => chan_after chunk s <$> p_chans p !! id
       | None => p_chans p !! id
       end).
Proof.
  intros [Hopen _]. destruct (fan_out_ok chunk (map_to_list (p_subs p)) p) as (p' & E & E1 & E2 & E3).
  - apply NoDup_fst_map_to_list.
  - intros id s Hs. apply elem_of_map_to_list in Hs. by apply (Hopen id s).
  - assert (∀ id, p_subs p !! id = None → id ∉ (map_to_list (p_subs p)).*1) as Hnone.
    { intros id Hn Hin. apply list_elem_of_fmap in Hin as ([j s] & -> & Hin).
      apply elem_of_map_to_list in Hin. simpl in Hn. congruence. }
    exists p'. split; [done|]. split; [done|].
    split; intros id; destruct (p_subs p !! id) as [s|] eqn:Es.
    + destruct (Hopen id s Es) as (c & Hc & _).
      by destruct (E3 id s c) as [-> _]; [apply elem_of_map_to_list|..].
    + destruct (E2 id (Hnone id Es)) as [-> _]. by rewrite Es.
    + destruct (Hopen id s Es) as (c & Hc & _). rewrite Hc.
      by destruct (E3 id s c) as [_ ->]; [apply elem_of_map_to_list|..].
    + destruct (E2 id (Hnone id Es)) as [_ ->]. done.
Qed.

(** One chunk on an open PTY, for every part of the state. *)
Lemma feed_action_ok now chunk p :
  pty_inv p →
  ∃ p', feed_action now chunk p = (Ok tt, p') ∧
    p_term p' = term_after chunk (p_term p) ∧
    p_primaryTerm p' = primary_after chunk (p_primaryTerm p) (p_primaryFilter p) ∧
    p_rec p' = (Recorder_Write now chunk (p_rec p)).2 ∧
    p_closed p' = p_closed p ∧
    (∀ id, p_subs p' !! id = sub_after chunk <$> p_subs p !! id) ∧
    (∀ id, p_chans p' !! id =
       match p_subs p !! id with
       | Some s => chan_after chunk s <$> p_chans p !! id
       | None => p_chans p !! id
       end).
Proof.
  intros Hinv. unfold feed_action, mbind, st_bind, tee_recorder.
  set (p0 := set_rec _ p). destruct (feed_term_ok chunk p0) as (p1 & -> & S1 & T1 & R1 & P1 & F1).
  destruct (feed_primary_ok chunk p1) as (p2 & -> & S2 & T2 & R2 & P2). cbn [st_get].
  assert (same_subs p p2) as S02 by (by eapply same_subs_trans; [|by eapply same_subs_trans]).
  destruct (fan_out_all chunk p2) as (p3 & -> & E & E1 & E2);
    [by apply (same_subs_inv p)|]. destruct S02 as (Es & Ec & Ed). rewrite Es, Ec in *.
  exists p3. split; [done|]. rewrite E. cbn [p_term p_primaryTerm p_rec p_closed set_subs p_subs p_chans].
  rewrite T2, T1, R2, R1, P2, P1, F1, Ed. done.
Qed.

Lemma feed_inv now chunk p p' x :
  pty_inv p → feed_action now chunk p = (x, p') → x = Ok tt ∧ pty_inv p'.
Proof.
  intros Hinv E. destruct (feed_action_ok now chunk p Hinv) as (q & E' & _ & _ & _ & _ & Hs & Hc).
  rewrite E in E'. injection E' as -> ->. split; [done|]. destruct Hinv as [H1 H2]. split.
  - intros id s. rewrite Hs. destruct (p_subs p !! id) as [s0|] eqn:E0; [|done].
    intros _. destruct (H1 id s0 E0) as (c & Ec & Ho). rewrite Hc, E0, Ec.
    eexists. split; [done|]. unfold chan_after. by destruct (Filter chunk s0).1.
  - intros id c. rewrite Hc. destruct (p_subs p !! id) as [s0|] eqn:E0; [|apply H2].
    destruct (p_chans p !! id) as [c0|] eqn:Ec; [|done]. intros [= <-].
    specialize (H2 id c0 Ec). unfold chan_after, chan_ok in *.
    destruct (Filter chunk s0).1; [done|]. simpl.
    destruct (Nat.ltb_spec (length (ch_buf c0)) (ch_cap c0)); [|done].
    rewrite length_app. simpl. lia.
Qed.

(** ** What a subscriber receives *)

(** [readLoop] over a list of chunks, each with the recorder's clock. *)
Fixpoint feeds (cs : list (Z * list byte)) : pty_st unit :=
  match cs with
  | [] => mret tt
  | (now, chunk) :: cs' => _ ← readLoop_chunk now chunk; feeds cs'
  end.

Lemma chan_after_room chunk s c :
  (length (ch_buf c) < ch_cap c)%nat →
  concat (ch_buf (chan_after chunk s c)) = concat (ch_buf c) ++ (Filter chunk s).1 ∧
  (length (ch_buf (chan_after chunk s c)) <= S (length (ch_buf c)))%nat ∧
  ch_cap (chan_after chunk s c) = ch_cap c.
Proof.
  intros H. unfold chan_after. destruct (Filter chunk s).1 as [|b bs] eqn:E.
  - rewrite app_nil_r. auto.
  - rewrite (proj2 (Nat.ltb_lt _ _)) by done. simpl. rewrite concat_app, length_app. simpl.
    rewrite app_nil_r. auto with lia.
Qed.

Lemma chunk_step now chunk p :
  pty_inv p → p_closed p = false →
  ∃ p', readLoop_chunk now chunk p = (Ok tt, p') ∧ pty_inv p' ∧ p_closed p' = false ∧
    p_term p' = (match chunk with [] => p_term p | _ => term_after chunk (p_term p) end) ∧
    (∀ id s c, p_subs p !! id = Some s → p_chans p !! id = Some c →
       p_subs p' !! id = Some (sub_after chunk s) ∧
       p_chans p' !! id = Some (chan_after chunk s c)).
Proof.
  intros Hinv Hcl. unfold readLoop_chunk. destruct chunk as [|b chunk].
  { exists p. do 4 (split; [done|]). intros id s c Hs Hc. unfold sub_after, chan_after.
    by rewrite Filter_nil. }
  unfold pty_do. rewrite Hcl. set (ck := b :: chunk).
  destruct (feed_action_ok now ck p Hinv) as (p' & E & Et & _ & _ & Ed & Es & Ec).
  exists p'. split; [done|]. split; [by destruct (feed_inv now ck p p' _ Hinv E)|].
  split; [congruence|]. split; [done|]. intros id s c Hs Hc.
  by rewrite Es, Ec, Hs, Hc.
Qed.

Context {TL : TermLaws T}.

Lemma term_after_app a b t : term_after b (term_after a t) = term_after (a ++ b) t.
Proof. destruct t; [|done]. simpl. by rewrite VTWrite_app. Qed.

Lemma term_after_nil t : term_after [] t = t.
Proof. destruct t; [|done]. simpl. by rewrite VTWrite_nil. Qed.

Lemma feeds_sub cs p id s c :
  pty_inv p → p_closed p = false →
  p_subs p !! id = Some s → p_chans p !! id = Some c →
  (length (ch_buf c) + length cs <= ch_cap c)%nat →
  ∃ p' c', feeds cs p = (Ok tt, p') ∧ p_chans p' !! id = Some c' ∧
    concat (ch_buf c') = concat (ch_buf c) ++ (Filter (concat cs.*2) s).1 ∧
    p_term p' = term_after (concat cs.*2) (p_term p) ∧ p_closed p' = false.
Proof.
  revert p s c. induction cs as [|[now chunk] cs IH]; intros p s c Hinv Hcl Hs Hc Hlen.
  { exists p, c. cbn. rewrite Filter_nil, app_nil_r, term_after_nil. done. }
  cbn [length] in Hlen. destruct (chunk_step now chunk p Hinv Hcl)
    as (p1 & E & Hinv1 & Hcl1 & Ht1 & Hsub).
  destruct (Hsub id s c Hs Hc) as [Hs1 Hc1].
  destruct (chan_after_room chunk s c) as (Eb & El & Ecap); [lia|].
  destruct (IH p1 _ _ Hinv1 Hcl1 Hs1 Hc1) as (p' & c' & E' & Hc' & Eb' & Ht' & Hcl'); [lia|].
  exists p', c'. cbn [feeds]. unfold mbind, st_bind. rewrite E. split; [done|].
  split; [done|]. rewrite fmap_cons. cbn [concat snd]. rewrite Filter_app. cbn [fst].
  rewrite Eb', Eb, <- app_assoc. split; [done|]. split; [|done]. rewrite Ht', Ht1.
  rewrite <- term_after_app. f_equal. destruct chunk; [by rewrite term_after_nil|done].
Qed.

(** C6: Snapshot, then live bytes, with no gap and no overlap.  The snapshot
    [SubscribeWithSnapshotParts] returns is of the emulator as it is when the
    subscription is installed; the channel then carries, in order, the query-
    stripped stream of exactly the bytes the emulator is fed afterwards, as long
    as the subscriber is not 256 chunks behind. *)
Theorem snapshot_then_live id p parts p1 cs t :
  pty_inv p → p_closed p = false → p_term p = Some t → p_chans p !! id = None →
  SubscribeWithSnapshotParts id p = (Ok parts, p1) → (length cs <= 256)%nat →
  ∃ p2 c, feeds cs p1 = (Ok tt, p2) ∧ snapshotPartsLocked p = Ok parts ∧
    p_chans p2 !! id = Some c ∧
    concat (ch_buf c) = (Filter (concat cs.*2) newStripper).1 ∧
    p_term p2 = Some (VTWrite (concat cs.*2) t).1.
Proof.
  intros Hinv Hcl Ht Hfresh Hsub Hlen.
  unfold SubscribeWithSnapshotParts, subscribe_snapshot in Hsub.
  change (p_closed (make_sub_chan id 256 p)) with (p_closed p) in Hsub.
  change (p_term (make_sub_chan id 256 p)) with (p_term p) in Hsub. rewrite Hcl, Ht in Hsub.
  set (q := add_sub id (make_sub_chan id 256 p)) in *.
  change (snapshotPartsLocked q) with (snapshotPartsLocked p) in Hsub.
  destruct (snapshotPartsLocked p) as [parts'|e]; [injection Hsub as -> <-|].
  2:{ by destruct (close_sub id _) as [[] ?]. }
  assert (pty_inv q) as Hq.
  { destruct Hinv as [H1 H2]. split.
    - intros j s. simpl. intros [[<- <-]|[Hj Hs]]%lookup_insert_Some.
      + rewrite lookup_insert_eq. by eexists.
      + rewrite lookup_insert_ne by done. by apply (H1 j s).
    - intros j c. simpl. intros [[<- <-]|[Hj Hc]]%lookup_insert_Some; [|by apply (H2 j)].
      unfold chan_ok. simpl. lia. }
  destruct (feeds_sub cs q id newStripper (make_chan 256)) as (p2 & c & E & Hc & Eb & Et & _);
    [done|done|by apply lookup_insert_eq|by apply lookup_insert_eq|simpl; lia|].
  exists p2, c. do 3 (split; [done|]). split; [exact Eb|].
  rewrite Et. change (p_term q) with (p_term p). by rewrite Ht.
Qed.
End pty.

Arguments LibghosttyPTY T : clear implicits.

Lemma snapshot_then_live_witness :
  ∃ p1 p2 c, SubscribeWithSnapshotParts 7 (mkPty (T := tape) (Some [TapeByte 65]) None (ground false)
                (sink []) 80 24 ∅ ∅ None false) = (Ok ([], [65]), p1) ∧
    feeds [(0, [66; 27]); (5, [91; 99]); (9, [67])] p1 = (Ok tt, p2) ∧
    p_chans p2 !! 7%nat = Some c ∧
    concat (ch_buf c) = (Filter (concat [(0, [66; 27]); (5, [91; 99]); (9, [67])].*2) newStripper).1 ∧
    p_term p2 = Some (VTWrite (concat [(0, [66; 27]); (5, [91; 99]); (9, [67])].*2) [TapeByte 65]).1.
Proof.
  set (p := mkPty (T := tape) (Some [TapeByte 65]) None (ground false)
    (sink []) 80 24 ∅ ∅ None false).
  assert (∃ p1, SubscribeWithSnapshotParts 7 p = (Ok ([], [65]), p1)) as [p1 H1]
    by (eexists; reflexivity).
  destruct (snapshot_then_live 7 p ([], [65]) p1 [(0, [66; 27]); (5, [91; 99]); (9, [67])]
    [TapeByte 65]) as (p2 & c & E & _ & Hc & Eb & Et).
  - split; intros ? ?; simpl; by rewrite lookup_empty.
  - reflexivity.
  - reflexivity.
  - reflexivity.
  - exact H1.
  - simpl; lia.
  - exists p1, p2, c. auto.
Defined.
