(* ===== verification/PtySafety.v ===== *)
(** * [pty_libghostty.go]: safety of the PTY's operations

    The operations of [Pty] as a step relation ([pty_step]) with reachability:
    no sequence of them sends on a closed channel or closes one twice, closing
    releases every subscriber, and [splitSnapshotRows] loses nothing. *)
From S2P Require Import Prelude GoBase StreamFilter QueryStripper PrimaryFilter Recorder Recording Terminal Channel Pty.
Open Scope Z_scope.

Section steps.
Context {T : Type} {TO : TermOps T}.
Implicit Types p : LibghosttyPTY T.

(** The receiving end of a subscription: [chunk, ok := <-ch]. *)
Definition recv_sub (id : chan_id) : st (LibghosttyPTY T) pty_error (recv_result (list byte)) := λ p,
  match p_chans p !! id with
  | None => (Ok RecvBlocks, p)
  | Some c => let '(x, c') := recv c in (Ok x, set_subs (p_subs p) (<[id := c']> (p_chans p)) p)
  end.

(** Everything that can happen to a PTY. *)
Inductive pty_op :=
| PChunk (now : Z) (chunk : list byte)              (** [readLoop] *)
| PResize (setsize : res io_error unit) (now cols rows : Z)
| PInput (data : list byte)                         (** [Write] *)
| PSubscribe (cap : nat) (id : chan_id)             (** [subscribe], [SubscribeAtRecord] *)
| PSnap (id : chan_id)                              (** [SubscribeWithSnapshot] *)
| PParts (id : chan_id)                             (** [SubscribeWithSnapshotParts] *)
| PCancel (id : chan_id)
| PRecv (id : chan_id)
| PClose (room : bool) (rec_close : option io_error).

(** The result of an operation, its value forgotten. *)
Definition result {A} (x : res pty_error A * LibghosttyPTY T) : res pty_error unit * LibghosttyPTY T :=
  (match x.1 with Ok _ => Ok tt | Err e => Err e end, x.2).

Definition pty_run1 (op : pty_op) (p : LibghosttyPTY T) : res pty_error unit * LibghosttyPTY T :=
  match op with
  | PChunk now chunk => readLoop_chunk now chunk p
  | PResize setsize now cols rows => Resize setsize now cols rows p
  | PInput data => Write data p
  | PSubscribe cap id => subscribe_cap cap id p
  | PSnap id => result (SubscribeWithSnapshot id p)
  | PParts id => result (SubscribeWithSnapshotParts id p)
  | PCancel id => cancel id p
  | PRecv id => result (recv_sub id p)
  | PClose room rc => Close room rc p
  end.

(** [make(chan []byte, n)] returns a channel nobody has. *)
Definition fresh_op (op : pty_op) p : Prop :=
  match op with
  | PSubscribe _ id | PSnap id | PParts id => p_chans p !! id = None
  | _ => True
  end.

Inductive pty_step : LibghosttyPTY T → LibghosttyPTY T → Prop :=
| pty_step_op op p x p' : fresh_op op p → pty_run1 op p = (x, p') → pty_step p p'.

Inductive pty_reachable (p0 : LibghosttyPTY T) : LibghosttyPTY T → Prop :=
| reach_here : pty_reachable p0 p0
| reach_step p p' : pty_reachable p0 p → pty_step p p' → pty_reachable p0 p'.

Definition no_panic {A} (x : res pty_error A) : Prop :=
  match x with Err PtyPanic => False | _ => True end.

(** Two states with the same subscribers and channels. *)
Lemma inv_same p p' :
  p_subs p' = p_subs p → p_chans p' = p_chans p → pty_inv p → pty_inv p'.
Proof. unfold pty_inv. by intros -> ->. Qed.

Lemma resize_action_same now cols rows p :
  (resize_action now cols rows p).1 ≠ Err PtyPanic ∧
  p_subs (resize_action now cols rows p).2 = p_subs p ∧
  p_chans (resize_action now cols rows p).2 = p_chans p.
Proof.
  unfold resize_action. destruct (p_term p) as [t|]; [|done].
  destruct (TermResize cols rows t) as [[|e] t']; [|done]. cbn [p_primaryTerm set_terms].
  destruct (p_primaryTerm p) as [q|]; [|done]. by destruct (TermResize cols rows q) as [[|] q'].
Qed.

Lemma Resize_inv setsize now cols rows p :
  pty_inv p →
  no_panic (Resize setsize now cols rows p).1 ∧ pty_inv (Resize setsize now cols rows p).2.
Proof.
  intros Hinv. unfold Resize. destruct setsize; [|done]. unfold mbind, st_bind, pty_do.
  destruct (p_closed p); [by split; [|by eapply inv_same; [..|exact Hinv]]|].
  destruct (resize_action_same now cols rows p) as (H1 & H2 & H3).
  destruct (resize_action now cols rows p) as [[[]|e] p']; cbn [fst snd] in *.
  - split; [done|]. by eapply inv_same; [..|exact Hinv].
  - split; [by destruct e|]. by eapply inv_same; [..|exact Hinv].
Qed.

Lemma insert_chan_inv id c p :
  chan_ok c → (ch_closed c = false ∨ p_subs p !! id = None) → pty_inv p →
  pty_inv (set_subs (p_subs p) (<[id := c]> (p_chans p)) p).
Proof.
  intros Hc Ho [H1 H2]. split.
  - intros j s. simpl. intros Hs. destruct (decide (j = id)) as [->|Hj].
    + rewrite lookup_insert_eq. exists c. split; [done|]. destruct Ho; congruence.
    + rewrite lookup_insert_ne by done. by apply (H1 j s).
  - intros j c'. simpl. intros [[<- <-]|[_ Hj]]%lookup_insert_Some; [done|by apply (H2 j)].
Qed.

Lemma add_sub_inv id c p :
  p_chans p !! id = Some c → ch_closed c = false → pty_inv p → pty_inv (add_sub id p).
Proof.
  intros Hc Ho [H1 H2]. split; [|exact H2]. intros j s. simpl.
  intros [[<- <-]|[_ Hs]]%lookup_insert_Some; [by exists c|by apply (H1 j s)].
Qed.

Lemma make_chan_inv id cap p :
  p_chans p !! id = None → pty_inv p → pty_inv (make_sub_chan id cap p).
Proof.
  intros Hf Hinv. apply insert_chan_inv; [unfold chan_ok; simpl; lia|by left|done].
Qed.

(** Removing a subscriber, then closing its channel. *)
Lemma close_sub_inv id c p :
  p_chans p !! id = Some c → ch_closed c = false → pty_inv p →
  ∃ p', close_sub id (set_subs (delete id (p_subs p)) (p_chans p) p) = (Ok tt, p') ∧ pty_inv p'.
Proof.
  intros Hc Ho [H1 H2]. unfold close_sub. cbn [p_chans set_subs]. rewrite Hc.
  unfold close_chan. rewrite Ho. eexists. split; [done|].
  set (q := set_subs (delete id (p_subs p)) (p_chans p) p).
  assert (pty_inv q) as Hq.
  { split; [|exact H2]. intros j s. simpl. intros [_ Hs]%lookup_delete_Some. by apply (H1 j s). }
  apply (insert_chan_inv id _ q); [|right|done].
  - exact (H2 id c Hc).
  - by apply lookup_delete_eq.
Qed.

Lemma subscribe_snapshot_inv {A} (snapshot : LibghosttyPTY T → res pty_error A) id p :
  (∀ q, no_panic (snapshot q)) →
  p_chans p !! id = None → pty_inv p →
  no_panic (subscribe_snapshot snapshot id p).1 ∧ pty_inv (subscribe_snapshot snapshot id p).2.
Proof.
  intros Hsnap Hf Hinv. unfold subscribe_snapshot.
  pose proof (make_chan_inv id 256 p Hf Hinv) as Hm. set (m := make_sub_chan id 256 p) in *.
  assert (p_chans m !! id = Some (make_chan 256)) as Hc by apply lookup_insert_eq.
  assert (p_subs m !! id = None) as Hs.
  { destruct (p_subs p !! id) as [s|] eqn:E; [|done].
    destruct Hinv as [H1 _]. destruct (H1 id s E) as (c & Hc' & _). congruence. }
  destruct (p_closed m).
  - unfold close_sub. rewrite Hc. cbn [close_chan make_chan ch_closed fst snd].
    split; [done|]. apply insert_chan_inv; [unfold chan_ok; simpl; lia|by right|done].
  - destruct (p_term m); [|done].
    pose proof (add_sub_inv id _ m Hc eq_refl Hm) as Ha. set (a := add_sub id m) in *.
    specialize (Hsnap a). destruct (snapshot a) as [x|e]; [done|].
    destruct (close_sub_inv id (make_chan 256) a) as (p' & -> & Hp'); [done..|].
    cbn [fst snd]. split; [|done]. exact Hsnap.
Qed.

Lemma term_of_no_panic (t : option T) : no_panic (term_of t).
Proof. by destruct t. Qed.

Lemma snapshot_no_panic p : no_panic (snapshotLocked p) ∧ no_panic (snapshotPartsLocked p).
Proof.
  unfold snapshotPartsLocked, snapshotLocked, formatTerminalSnapshotParts, formatTerminalSnapshot,
    mbind, res_bind, lift_term, term_of.
  split; repeat (case_match; simplify_eq/=); done.
Qed.

Lemma subscribe_cap_inv cap id p :
  p_chans p !! id = None → pty_inv p →
  no_panic (subscribe_cap cap id p).1 ∧ pty_inv (subscribe_cap cap id p).2.
Proof.
  intros Hf Hinv. unfold subscribe_cap, mbind, st_bind. cbn [st_modify].
  pose proof (make_chan_inv id cap p Hf Hinv) as Hm. unfold pty_do.
  destruct (p_closed _); [done|]. split; [done|].
  by apply (add_sub_inv id (make_chan cap)); [apply lookup_insert_eq|..].
Qed.

Lemma cancel_inv id p :
  pty_inv p → no_panic (cancel id p).1 ∧ pty_inv (cancel id p).2.
Proof.
  intros Hinv. unfold cancel, pty_do. destruct (p_closed p); [done|].
  destruct (p_subs p !! id) as [s|] eqn:Es; [|done].
  pose proof Hinv as [H1 _]. destruct (H1 id s Es) as (c & Hc & Ho).
  by destruct (close_sub_inv id c p Hc Ho Hinv) as (p' & -> & Hp').
Qed.

Lemma recv_sub_inv id p :
  pty_inv p → no_panic (recv_sub id p).1 ∧ pty_inv (recv_sub id p).2.
Proof.
  intros Hinv. unfold recv_sub. destruct (p_chans p !! id) as [c|] eqn:Ec; [|done].
  pose proof Hinv as [H1 H2]. specialize (H2 id c Ec). unfold recv, chan_ok in *.
  assert (ch_closed c = false ∨ p_subs p !! id = None) as Ho.
  { destruct (p_subs p !! id) as [s|] eqn:Es; [|by right]. left.
    destruct (H1 id s Es) as (c' & Hc' & Ho). congruence. }
  destruct c as [[|x b] cap cl]; simpl in *; (split; [done|]);
    (apply insert_chan_inv; [unfold chan_ok; simpl; lia|done|done]).
Qed.

(** [Close] closes the channels one by one; none of them twice. *)
Lemma close_subs_ok ids p :
  NoDup ids → (∀ id, id ∈ ids → is_Some (p_subs p !! id)) → pty_inv p →
  ∃ p', close_subs ids p = (Ok tt, p') ∧ pty_inv p' ∧
    p_closed p' = p_closed p ∧ p_rec p' = p_rec p ∧
    (∀ id, id ∉ ids → p_subs p' !! id = p_subs p !! id ∧ p_chans p' !! id = p_chans p !! id) ∧
    (∀ id, id ∈ ids → p_subs p' !! id = None ∧
       ∃ c, p_chans p !! id = Some c ∧
         p_chans p' !! id = Some (mkChan (ch_buf c) (ch_cap c) true)).
Proof.
  revert p. induction ids as [|id ids IH]; intros p Hnd Hsome Hinv.
  { exists p. do 5 (split; [done|]). intros ? H. by apply elem_of_nil in H. }
  apply NoDup_cons in Hnd as [Hid Hnd].
  destruct (Hsome id) as [s Es]; [by left|]. pose proof Hinv as [H1 _].
  destruct (H1 id s Es) as (c & Hc & Ho).
  cbn [close_subs]. unfold mbind, st_bind. cbn [st_modify].
  destruct (close_sub_inv id c p Hc Ho Hinv) as (p1 & E1 & Hinv1). rewrite E1.
  assert (p1 = set_subs (delete id (p_subs p))
    (<[id := mkChan (ch_buf c) (ch_cap c) true]> (p_chans p)) p) as Ep1.
  { unfold close_sub in E1. cbn [p_chans set_subs] in E1. rewrite Hc in E1.
    unfold close_chan in E1. rewrite Ho in E1. by injection E1 as <-. }
  destruct (IH p1 Hnd) as (p' & E & Hinv' & Hcl & Hrec & Hout & Hin); [|done|].
  { intros j Hj. rewrite Ep1. simpl. rewrite lookup_delete_ne by (intros ->; done).
    apply Hsome. by right. }
  exists p'. split; [done|]. split; [done|]. rewrite Hcl, Hrec, Ep1. do 2 (split; [done|]).
  split; intros j Hj.
  - apply not_elem_of_cons in Hj as [Hj1 Hj2]. destruct (Hout j Hj2) as [-> ->].
    rewrite Ep1. simpl. by rewrite lookup_delete_ne, lookup_insert_ne by done.
  - apply elem_of_cons in Hj as [->|Hj].
    + destruct (Hout id Hid) as [-> ->]. rewrite Ep1. simpl.
      rewrite lookup_delete_eq, lookup_insert_eq. split; [done|]. by exists c.
    + destruct (Hin j Hj) as [Hs (c' & Hc' & Hc'')]. split; [done|]. exists c'.
      rewrite Ep1 in Hc'. simpl in Hc'. rewrite lookup_insert_ne in Hc' by (intros ->; done). done.
Qed.

Lemma Close_room rc p :
  pty_inv p → p_closed p = false →
  ∃ p', Close true rc p = (Ok tt, p') ∧ pty_inv p' ∧ p_closed p' = true ∧
    p_subs p' = ∅ ∧ p_term p' = None ∧ p_primaryTerm p' = None ∧
    p_rec p' = (Recorder_Close rc (p_rec p)).2 ∧
    (∀ id, is_Some (p_subs p !! id) → ∃ c, p_chans p !! id = Some c ∧
       p_chans p' !! id = Some (mkChan (ch_buf c) (ch_cap c) true)).
Proof.
  intros Hinv Hcl. unfold Close. rewrite Hcl. unfold mbind, st_bind. cbn [st_get].
  assert (∀ id, id ∈ (map_to_list (p_subs p)).*1 ↔ is_Some (p_subs p !! id)) as Hids.
  { intros id. rewrite list_elem_of_fmap. split.
    - intros ([j s] & -> & Hj). apply elem_of_map_to_list in Hj. by exists s.
    - intros [s Hs]. exists (id, s). split; [done|]. by apply elem_of_map_to_list. }
  destruct (close_subs_ok (map_to_list (p_subs p)).*1 p) as (p1 & -> & Hinv1 & _ & Hrec & Hout & Hin);
    [apply NoDup_fst_map_to_list|intros id; by apply Hids|done|].
  cbn [st_modify]. eexists. split; [done|]. cbn.
  split; [by eapply inv_same; [..|exact Hinv1]|]. split; [done|]. split.
  { apply map_empty. intros id. destruct (decide (id ∈ (map_to_list (p_subs p)).*1)) as [Hi|Hi].
    - by destruct (Hin id Hi).
    - destruct (Hout id Hi) as [-> _]. rewrite Hids in Hi. by apply eq_None_not_Some. }
  do 2 (split; [done|]). split; [by rewrite Hrec|].
  intros id Hid%Hids. by destruct (Hin id Hid).
Qed.

Lemma pty_run1_inv op p :
  fresh_op op p → pty_inv p →
  no_panic (pty_run1 op p).1 ∧ pty_inv (pty_run1 op p).2.
Proof.
  intros Hf Hinv. destruct op as [now ck|ss now c r|data|cap id|id|id|id|id|room rc];
    cbn [pty_run1 fresh_op] in *.
  - unfold readLoop_chunk, pty_do. destruct ck; [done|]. destruct (p_closed p); [done|].
    destruct (feed_action now _ p) as [x p'] eqn:E. by destruct (feed_inv _ _ _ _ _ Hinv E) as [-> ?].
  - by apply Resize_inv.
  - unfold Write, mbind, st_bind, master_write. destruct (GoBase.Write data _) as [[|e] w];
      (split; [done|]); by eapply inv_same; [..|exact Hinv].
  - by apply subscribe_cap_inv.
  - destruct (subscribe_snapshot_inv snapshotLocked id p (λ q, proj1 (snapshot_no_panic q)) Hf Hinv).
    unfold SubscribeWithSnapshot, result. by destruct (subscribe_snapshot _ _ _) as [[|[]] ?].
  - destruct (subscribe_snapshot_inv snapshotPartsLocked id p (λ q, proj2 (snapshot_no_panic q)) Hf Hinv).
    unfold SubscribeWithSnapshotParts, result. by destruct (subscribe_snapshot _ _ _) as [[|[]] ?].
  - by apply cancel_inv.
  - destruct (recv_sub_inv id p Hinv). unfold result. by destruct (recv_sub id p) as [[|[]] ?].
  - destruct (p_closed p) eqn:Hcl; [unfold Close; by rewrite Hcl|]. destruct room.
    + by destruct (Close_room rc p Hinv Hcl) as (p' & -> & Hp' & _).
    + unfold Close. rewrite Hcl. split; [done|]. by eapply inv_same; [..|exact Hinv].
Qed.

(** C13: No crash.  From a new PTY, no sequence of chunks, resizes, inputs,
    subscriptions, cancellations, receives and [Close], in any order, sends on a
    closed channel or closes one twice; every channel stays within its
    capacity, and every registered subscriber's channel is open. *)
Theorem pty_never_panics master cols rows sb rec p0 p op :
  NewLibghosttyPTY master cols rows sb rec = Ok p0 →
  pty_reachable p0 p → fresh_op op p →
  pty_inv p ∧ no_panic (pty_run1 op p).1.
Proof.
  intros Hnew Hr Hf.
  assert (pty_inv p0) as H0.
  { unfold NewLibghosttyPTY in Hnew. repeat (case_match; simplify_eq/=).
    split; intros ? ?; simpl; by rewrite lookup_empty. }
  assert (pty_inv p) as Hinv.
  { clear Hf. induction Hr as [|p p' _ IH Hstep]; [done|].
    destruct Hstep as [op' q x q' Hf E]. destruct (pty_run1_inv op' q Hf IH) as [_ H].
    by rewrite E in H. }
  split; [done|]. by apply pty_run1_inv.
Qed.

(** [Close], its shutdown action having run, closes the channel of every
    subscriber without losing what is queued on it, leaves no subscriber, closes
    the recorder (flushing it) and makes the PTY inert: a later chunk or
    [Close] changes nothing. *)
Theorem pty_close_releases p rc :
  pty_inv p → p_closed p = false →
  ∃ p', Close true rc p = (Ok tt, p') ∧ p_subs p' = ∅ ∧
    p_rec p' = (Recorder_Close rc (p_rec p)).2 ∧
    (∀ id, is_Some (p_subs p !! id) → ∃ c, p_chans p !! id = Some c ∧
       p_chans p' !! id = Some (mkChan (ch_buf c) (ch_cap c) true)) ∧
    (∀ now chunk, readLoop_chunk now chunk p' = (Ok tt, p')) ∧
    (∀ room rc', Close room rc' p' = (Ok tt, p')).
Proof.
  intros Hinv Hcl. destruct (Close_room rc p Hinv Hcl) as (p' & E & _ & Hc & Hs & _ & _ & Hr & Hch).
  exists p'. do 4 (split; [done|]). split.
  - intros now chunk. destruct chunk; [done|]. unfold readLoop_chunk, pty_do. by rewrite Hc.
  - intros room rc'. unfold Close. by rewrite Hc.
Qed.

End steps.

(** ** [splitSnapshotRows] *)

Definition crlf : list byte := [13; 10].

Definition no_crlf (bs : list byte) : Prop := ∀ a b, bs ≠ a ++ crlf ++ b.

(** A row of the snapshot: text without a line end, and its line end. *)
Definition row (l : list byte) : Prop := ∃ u, l = u ++ crlf ∧ no_crlf (u ++ [13]).

Lemma no_crlf_cons c bs :
  no_crlf bs → ((c =? 13) && bool_decide (head bs = Some 10)) = false → no_crlf (c :: bs).
Proof.
  intros H Hc a b E. destruct a as [|x a]; simplify_eq/=. by apply (H a b).
Qed.

Lemma index_crlf_spec bs :
  match index_crlf bs with
  | None => no_crlf bs
  | Some i => ∃ u rest, bs = u ++ crlf ++ rest ∧ length u = i ∧ no_crlf (u ++ [13])
  end.
Proof.
  induction bs as [|c bs IH]; [intros [] ?; done|]. cbn [index_crlf].
  destruct (_ && _) eqn:E; [|destruct (index_crlf bs) as [i|]; cbn [fmap option_fmap option_map]].
  - apply andb_prop in E as [E1%Z.eqb_eq E2%bool_decide_eq_true]. subst c.
    destruct bs as [|d bs]; simplify_eq/=. exists [], bs. do 2 (split; [done|]).
    intros [|? [|? ?]] ?; done.
  - destruct IH as (u & rest & -> & <- & Hu). exists (c :: u), rest. do 2 (split; [done|]).
    simpl. apply no_crlf_cons; [done|]. rewrite <- E. do 2 f_equal. by destruct u.
  - by apply no_crlf_cons.
Qed.

Lemma cut_rows_spec n rest cut :
  match cut_rows n rest cut with
  | Some cut' => ∃ rows rest', Forall row rows ∧ length rows = n ∧
      rest = concat rows ++ rest' ∧ (cut' = cut + length (concat rows))%nat
  | None => ∃ rows rest', Forall row rows ∧ (length rows < n)%nat ∧
      rest = concat rows ++ rest' ∧ no_crlf rest'
  end.
Proof.
  revert rest cut. induction n as [|n IH]; intros rest cut; cbn [cut_rows].
  { exists [], rest. split; [constructor|]. simpl. auto with lia. }
  pose proof (index_crlf_spec rest) as Hi. destruct (index_crlf rest) as [i|].
  2:{ exists [], rest. split; [constructor|]. simpl. auto with lia. }
  destruct Hi as (u & rest1 & -> & <- & Hu).
  replace (drop (length u + 2) (u ++ crlf ++ rest1)) with rest1
    by (rewrite <- drop_drop, drop_app_length; done).
  specialize (IH rest1 (cut + (length u + 2))%nat).
  assert (row (u ++ crlf)) as Hrow by by exists u.
  destruct (cut_rows n rest1 _) as [cut'|]; destruct IH as (rows & rest' & Hr & Hn & -> & H);
    exists ((u ++ crlf) :: rows), rest'; (split; [by constructor|]); cbn [length concat];
    rewrite <- !app_assoc.
  - split; [lia|]. split; [done|]. rewrite !length_app. simpl. lia.
  - split; [lia|]. done.
Qed.

(** The two halves of a snapshot are the snapshot: nothing is lost or
    duplicated, the first half being the first [n] rows with their line ends.
    When the snapshot has fewer than [n] line ends, everything is scrollback and
    the screen is empty. *)
Theorem splitSnapshotRows_spec snap n :
  0 <= n →
  let '(scrollback, screen) := splitSnapshotRows snap n in
  scrollback ++ screen = snap ∧
  ((∃ rows, Forall row rows ∧ Z.of_nat (length rows) = n ∧ scrollback = concat rows) ∨
   (snap = [] ∧ screen = []) ∨
   (screen = [] ∧ ∃ rows rest, Forall row rows ∧ Z.of_nat (length rows) < n ∧
      snap = concat rows ++ rest ∧ no_crlf rest)).
Proof.
  intros Hn. unfold splitSnapshotRows. destruct (Z.eqb_spec n 0) as [->|Hn0].
  { split; [done|]. left. by exists []. }
  destruct (bool_decide_reflect (snap = [])) as [->|Hs]; [split; [done|]; auto|].
  cbn [orb]. pose proof (cut_rows_spec (Z.to_nat n) snap 0) as H.
  destruct (cut_rows _ _ _) as [cut|].
  - destruct H as (rows & rest & Hr & Hl & -> & ->). split; [by rewrite take_drop|].
    left. exists rows. split; [done|]. split; [lia|]. simpl. by rewrite take_app_length.
  - destruct H as (rows & rest & Hr & Hl & -> & Hno). split; [by rewrite app_nil_r|].
    right. right. split; [done|]. exists rows, rest. split; [done|]. split; [lia|done].
Qed.

Lemma splitSnapshotRows_spec_witness :
  let '(scrollback, screen) := splitSnapshotRows [65; 13; 10; 66; 13; 10; 67] 1 in
  scrollback ++ screen = [65; 13; 10; 66; 13; 10; 67] ∧
  ((∃ rows, Forall row rows ∧ Z.of_nat (length rows) = 1 ∧ scrollback = concat rows) ∨
   ([65; 13; 10; 66; 13; 10; 67] = [] ∧ screen = []) ∨
   (screen = [] ∧ ∃ rows rest, Forall row rows ∧ Z.of_nat (length rows) < 1 ∧
      [65; 13; 10; 66; 13; 10; 67] = concat rows ++ rest ∧ no_crlf rest)).
Proof. apply (splitSnapshotRows_spec [65; 13; 10; 66; 13; 10; 67] 1). lia. Defined.

Lemma tape_pty_new :
  ∃ p0, NewLibghosttyPTY (T := tape) (Some (sink [])) 80 24 10000 None = Ok p0.
Proof. by eexists. Qed.

Lemma pty_never_panics_witness :
  ∃ p0 p : LibghosttyPTY tape,
    NewLibghosttyPTY (Some (sink [])) 80 24 10000 None = Ok p0 ∧ pty_reachable p0 p ∧
    pty_inv p ∧ no_panic (pty_run1 (PCancel 3) p).1.
Proof.
  eexists _, _. split; [reflexivity|].
  match goal with |- pty_reachable ?p0 _ ∧ _ =>
    assert (pty_reachable p0 (pty_run1 (PSubscribe 64 3) p0).2) as Hr
      by (eapply reach_step; [apply reach_here|];
          apply (pty_step_op (PSubscribe 64 3) _ (pty_run1 (PSubscribe 64 3) p0).1);
          [reflexivity|reflexivity])
  end.
  split; [exact Hr|].
  refine (pty_never_panics (Some (sink [])) 80 24 10000 None _ _ _ _ Hr _);
    [reflexivity|exact I].
Defined.

Lemma pty_close_releases_witness :
  let p := (pty_run1 (PSubscribe 64 3) (mkPty (T := tape) (Some []) None (ground false)
    (sink []) 80 24 ∅ ∅ None false)).2 in
  ∃ p', Close true None p = (Ok tt, p') ∧ p_subs p' = ∅ ∧
    p_rec p' = (Recorder_Close None (p_rec p)).2 ∧
    (∀ id, is_Some (p_subs p !! id) → ∃ c, p_chans p !! id = Some c ∧
       p_chans p' !! id = Some (mkChan (ch_buf c) (ch_cap c) true)) ∧
    (∀ now chunk, readLoop_chunk now chunk p' = (Ok tt, p')) ∧
    (∀ room rc', Close room rc' p' = (Ok tt, p')).
Proof.
  intros p. apply pty_close_releases; [|reflexivity].
  apply (pty_run1_inv (PSubscribe 64 3)); [reflexivity|].
  split; intros ? ?; simpl; by rewrite lookup_empty.
Defined.
