(* ===== verification/PtyKeeps.v ===== *)
(** * What the operations of the PTY leave alone

    A field of the PTY that no change of its subscribers, emulators, recorder or
    [done] channel touches is kept by everything but the operation that sets it:
    its size ([Sizes]) and its master ([Typing]). *)
From S2P Require Import Prelude GoBase StreamFilter QueryStripper PrimaryFilter Recorder Recording Terminal Channel Pty PtySafety.
Open Scope Z_scope.

Section keeps.
Context {T : Type} {TO : TermOps T} {X : Type} (f : LibghosttyPTY T → X).

Abbreviation pty := (LibghosttyPTY T).

Definition keeps {A} (m : pty → res pty_error A * pty) : Prop := ∀ p, f (m p).2 = f p.

Lemma keeps_bind {A C} (m : st pty pty_error A) (k : A → st pty pty_error C) :
  keeps m → (∀ a, keeps (k a)) → keeps (x ← m; k x).
Proof.
  intros Hm Hk p. specialize (Hm p). unfold mbind, st_bind. destruct (m p) as [[a|e] p']; cbn in *; [|done].
  by rewrite Hk.
Qed.

Lemma keeps_do (m : st pty pty_error unit) : keeps m → keeps (pty_do m).
Proof. intros Hm p. unfold pty_do. by destruct (p_closed p). Qed.

Hypothesis f_subs : ∀ s c p, f (set_subs s c p) = f p.
Hypothesis f_terms : ∀ t u p, f (set_terms t u p) = f p.
Hypothesis f_rec : ∀ r p, f (set_rec r p) = f p.
Hypothesis f_closed : ∀ p, f (set_closed p) = f p.

Lemma keeps_close_sub id : keeps (close_sub id).
Proof. intros p. unfold close_sub. destruct (_ !! id); [|done]. destruct (close_chan _); [apply f_subs|done]. Qed.

Lemma keeps_subscribe cap id : keeps (subscribe_cap cap id).
Proof.
  apply keeps_bind; [intros p; apply f_subs|]. intros _. apply keeps_do. intros p. apply f_subs.
Qed.

Lemma keeps_cancel id : keeps (cancel id).
Proof.
  apply keeps_do. intros p. destruct (p_subs p !! id); [|done]. rewrite keeps_close_sub. apply f_subs.
Qed.

Lemma keeps_snapshot {A} (snapshot : pty → res pty_error A) id : keeps (subscribe_snapshot snapshot id).
Proof.
  intros p. unfold subscribe_snapshot. cbv zeta. set (q := make_sub_chan id 256 p).
  assert (f q = f p) as Hq by apply f_subs. clearbody q.
  assert (∀ r, f r = f p → f (close_sub id r).2 = f p) as Hc by (intros r Hr; by rewrite keeps_close_sub).
  destruct (p_closed q). { specialize (Hc q Hq). by destruct (close_sub id q) as [[?|?] p']. }
  destruct (p_term q); [|done]. assert (f (add_sub id q) = f p) as Ha by (rewrite <- Hq; apply f_subs).
  destruct (snapshot _); [exact Ha|]. specialize (Hc (set_subs (delete id (p_subs (add_sub id q))) (p_chans (add_sub id q)) (add_sub id q))).
  rewrite f_subs in Hc. specialize (Hc Ha). by destruct (close_sub id _) as [[?|?] p'].
Qed.

Lemma keeps_recv id : keeps (recv_sub id).
Proof. intros p. unfold recv_sub. destruct (_ !! id); [|done]. destruct (recv _). apply f_subs. Qed.

Lemma keeps_Close room rc : keeps (Close room rc).
Proof.
  intros p. unfold Close. destruct (p_closed p); [done|]. revert p. apply keeps_bind; [|intros _ p; apply f_closed].
  destruct room; [|done]. apply keeps_bind; [done|]. intros q. apply keeps_bind.
  - induction ((map_to_list (p_subs q)).*1) as [|id l IH]; [done|]. cbn [close_subs].
    apply keeps_bind; [intros p; apply f_subs|]. intros _. apply keeps_bind; [apply keeps_close_sub|done].
  - intros _. apply keeps_bind; [intros p; apply f_terms|]. intros _ p. apply f_rec.
Qed.

Lemma keeps_resize_action now cols rows : keeps (resize_action now cols rows).
Proof.
  intros q. unfold resize_action. destruct (p_term q); [|done]. destruct (TermResize _ _ _) as [[?|?] ?]; [|apply f_terms].
  cbv zeta. destruct (p_primaryTerm (set_terms _ _ _)); [|cbn [snd]; by rewrite f_rec, f_terms].
  destruct (TermResize _ _ _) as [[?|?] ?]; cbn [snd]; [|by rewrite !f_terms]. by rewrite f_rec, !f_terms.
Qed.
End keeps.
