(* ===== verification/Delivery.v ===== *)
(** * What a subscription delivers while everything else goes on

    [Pty.snapshot_then_live] is about a subscriber left alone with the read
    loop.  Here the other operations of [PtySafety.pty_op] interleave: resizes,
    inputs, other clients' subscriptions, and [Close].  [delivers] is the
    invariant of one subscription: what was received from its channel and what
    is queued on it is a prefix of the stripped output, all of it while the
    subscription is live. *)
From S2P Require Import Prelude GoBase StreamFilter QueryStripper PrimaryFilter Recorder Terminal Channel Pty PtySafety.
Open Scope Z_scope.

Section delivery.
Context {T : Type} {TO : TermOps T}.
Implicit Types p : LibghosttyPTY T.

(** The channel an operation is about, and the output it brings. *)
Definition op_chan (op : pty_op) : option chan_id :=
  match op with
  | PSubscribe _ id | PSnap id | PParts id | PCancel id | PRecv id => Some id
  | _ => None
  end.

Definition op_bytes (op : pty_op) : list byte :=
  match op with PChunk _ chunk => chunk | _ => [] end.

(** The read loop finds room on the channel. *)
Definition has_room (id : chan_id) p : Prop :=
  ∀ c, p_chans p !! id = Some c → (length (ch_buf c) < ch_cap c)%nat.

Definition room_for (id : chan_id) (op : pty_op) p : Prop :=
  match op with PChunk _ _ => has_room id p | _ => True end.

Definition delivers (id : chan_id) (fed : list byte) (got : list (list byte)) p : Prop :=
  pty_inv p ∧ ∃ c, p_chans p !! id = Some c ∧
    concat got ++ concat (ch_buf c) `prefix_of` (Filter fed newStripper).1 ∧
    (p_closed p = false → ∀ s, p_subs p !! id = Some s →
       s = (Filter fed newStripper).2 ∧
       concat got ++ concat (ch_buf c) = (Filter fed newStripper).1).

(** [p'] keeps the subscription of [p], or has ended it, with the same queue. *)
Definition keeps (id : chan_id) p p' : Prop :=
  (p_closed p' = false → p_closed p = false ∧
     (p_subs p' !! id = p_subs p !! id ∨ p_subs p' !! id = None)) ∧
  (∀ c, p_chans p !! id = Some c → ∃ c', p_chans p' !! id = Some c' ∧ ch_buf c' = ch_buf c).

Lemma keeps_refl id p : keeps id p p.
Proof. split; [by auto|]. intros c Hc. by exists c. Qed.

Lemma keeps_same id p p' :
  p_subs p' = p_subs p → p_chans p' = p_chans p → p_closed p' = p_closed p → keeps id p p'.
Proof. unfold keeps. intros -> -> ->. apply keeps_refl. Qed.

Lemma keeps_delivers id fed got p p' :
  pty_inv p' → keeps id p p' → delivers id fed got p → delivers id fed got p'.
Proof.
  intros Hi [K1 K2] (_ & c & Hc & Hp & Hl). split; [done|].
  destruct (K2 c Hc) as (c' & Hc' & Eb). exists c'. rewrite Eb. split; [done|]. split; [done|].
  intros Hcl s Hs. destruct (K1 Hcl) as [Ho [E|E]]; [|congruence].
  apply Hl; [done|congruence].
Qed.

Lemma Resize_keeps id ss now cols rows p : keeps id p (Resize ss now cols rows p).2.
Proof.
  unfold Resize. destruct ss; [|by apply keeps_same]. unfold mbind, st_bind, pty_do.
  destruct (p_closed p) eqn:Hcl; [by apply keeps_same|].
  unfold resize_action. destruct (p_term p) as [t|]; [|by apply keeps_same].
  destruct (TermResize cols rows t) as [[|e] t']; [|by apply keeps_same]. cbn [p_primaryTerm set_terms].
  destruct (p_primaryTerm p) as [q|]; [|by apply keeps_same].
  destruct (TermResize cols rows q) as [[|] q']; by apply keeps_same.
Qed.

Lemma Write_keeps id data p : keeps id p (Write data p).2.
Proof.
  unfold Write, mbind, st_bind, master_write.
  destruct (GoBase.Write data (p_master p)) as [[|] w]; by apply keeps_same.
Qed.

(** Operations on another channel. *)
Lemma keeps_other id j p p' :
  j ≠ id → p_closed p' = p_closed p →
  (∀ i, i ≠ j → p_subs p' !! i = p_subs p !! i ∧ p_chans p' !! i = p_chans p !! i) → keeps id p p'.
Proof.
  intros Hj Hc H. destruct (H id) as [E1 E2]; [done|]. split.
  - rewrite Hc. intros Ho. by auto.
  - intros c. rewrite E2. intros Hcc. by exists c.
Qed.

Definition touches_only (j : chan_id) p p' : Prop :=
  p_closed p' = p_closed p ∧
  ∀ i, i ≠ j → p_subs p' !! i = p_subs p !! i ∧ p_chans p' !! i = p_chans p !! i.

Lemma touches_refl j p : touches_only j p p.
Proof. by split. Qed.

Lemma touches_trans j p q r : touches_only j p q → touches_only j q r → touches_only j p r.
Proof.
  intros [E1 H1] [E2 H2]. split; [congruence|]. intros i Hi.
  destruct (H1 i Hi) as [<- <-]. by apply H2.
Qed.

Lemma touches_chan j c p : touches_only j p (set_subs (p_subs p) (<[j := c]> (p_chans p)) p).
Proof. split; [done|]. intros i Hi. cbn. by rewrite lookup_insert_ne. Qed.

Lemma touches_add j s p : touches_only j p (set_subs (<[j := s]> (p_subs p)) (p_chans p) p).
Proof. split; [done|]. intros i Hi. cbn. by rewrite lookup_insert_ne. Qed.

Lemma touches_del j p : touches_only j p (set_subs (delete j (p_subs p)) (p_chans p) p).
Proof. split; [done|]. intros i Hi. cbn. by rewrite lookup_delete_ne. Qed.

Lemma close_sub_touches j p : touches_only j p (close_sub j p).2.
Proof.
  unfold close_sub. destruct (p_chans p !! j) as [c|]; [|apply touches_refl].
  destruct (close_chan c); [apply touches_chan|apply touches_refl].
Qed.

Lemma cancel_touches j p : touches_only j p (cancel j p).2.
Proof.
  unfold cancel, pty_do. destruct (p_closed p); [apply touches_refl|].
  destruct (p_subs p !! j); [|apply touches_refl].
  eapply touches_trans; [apply touches_del|apply close_sub_touches].
Qed.

Lemma subscribe_cap_touches cap j p : touches_only j p (subscribe_cap cap j p).2.
Proof.
  unfold subscribe_cap, mbind, st_bind, pty_do. cbn [st_modify].
  pose proof (touches_chan j (make_chan cap) p) as H. fold (make_sub_chan j cap p) in H.
  destruct (p_closed (make_sub_chan j cap p)); [done|].
  eapply touches_trans; [exact H|apply touches_add].
Qed.

Lemma subscribe_snapshot_touches {A} (f : LibghosttyPTY T → res pty_error A) j p :
  touches_only j p (subscribe_snapshot f j p).2.
Proof.
  unfold subscribe_snapshot. pose proof (touches_chan j (make_chan 256) p) as H.
  fold (make_sub_chan j 256 p) in H. set (m := make_sub_chan j 256 p) in *.
  assert (∀ q, touches_only j m q → touches_only j p (close_sub j q).2) as Hc.
  { intros q Hq. eapply touches_trans; [exact H|]. eapply touches_trans; [exact Hq|apply close_sub_touches]. }
  destruct (p_closed m).
  - specialize (Hc m (touches_refl j m)). by destruct (close_sub j m) as [[|] q].
  - destruct (p_term m); [|done].
    pose proof (touches_add j newStripper m) as Ha. fold (add_sub j m) in Ha.
    destruct (f (add_sub j m)) as [a|e]; [by eapply touches_trans|].
    specialize (Hc _ (touches_trans _ _ _ _ Ha (touches_del j (add_sub j m)))).
    by destruct (close_sub j _) as [[|] q].
Qed.

Lemma recv_touches j p : touches_only j p (recv_sub j p).2.
Proof.
  unfold recv_sub. destruct (p_chans p !! j) as [c|]; [|apply touches_refl].
  destruct (recv c) as [x c']. apply touches_chan.
Qed.

Lemma Close_keeps id room rc p : pty_inv p → keeps id p (Close room rc p).2.
Proof.
  intros Hi. destruct (p_closed p) eqn:Hcl; [unfold Close; rewrite Hcl; apply keeps_refl|].
  destruct room.
  2:{ unfold Close. rewrite Hcl. split; [done|]. intros c Hc. by exists c. }
  destruct (close_subs_ok (map_to_list (p_subs p)).*1 p) as (p1 & E & _ & _ & _ & Hout & Hin).
  { apply NoDup_fst_map_to_list. }
  { intros i ([j s] & -> & Hj)%list_elem_of_fmap. apply elem_of_map_to_list in Hj. by exists s. }
  { done. }
  unfold Close. rewrite Hcl. unfold mbind, st_bind. cbn [st_get]. rewrite E. cbn.
  split; [done|]. intros c Hc. cbn.
  destruct (decide (id ∈ (map_to_list (p_subs p)).*1)) as [Hm|Hm].
  - destruct (Hin id Hm) as (_ & c' & Hc' & ->). eexists. split; [done|]. cbn. congruence.
  - destruct (Hout id Hm) as [_ ->]. by exists c.
Qed.

Lemma op_keeps id op p :
  op_chan op ≠ Some id → (∀ now chunk, op ≠ PChunk now chunk) → pty_inv p →
  keeps id p (pty_run1 op p).2.
Proof.
  intros Hj Hn Hi.
  assert (∀ j p', j ≠ id → touches_only j p p' → keeps id p p') as Ht.
  { intros j p' Hne [E H]. by apply (keeps_other id j). }
  destruct op as [now ck|ss now c r|data|cap j|j|j|j|j|room rc]; cbn [pty_run1 op_chan result snd] in *.
  - by destruct (Hn now ck).
  - apply Resize_keeps.
  - apply Write_keeps.
  - apply (Ht j); [congruence|apply subscribe_cap_touches].
  - apply (Ht j); [congruence|apply subscribe_snapshot_touches].
  - apply (Ht j); [congruence|apply subscribe_snapshot_touches].
  - apply (Ht j); [congruence|apply cancel_touches].
  - apply (Ht j); [congruence|apply recv_touches].
  - by apply Close_keeps.
Qed.

Lemma Filter_prefix (a b : list byte) (s : vtQueryStripper) : (Filter a s).1 `prefix_of` (Filter (a ++ b) s).1.
Proof. rewrite Filter_app. by eexists. Qed.

Lemma chunk_delivers id fed got now chunk p :
  has_room id p → delivers id fed got p → delivers id (fed ++ chunk) got (readLoop_chunk now chunk p).2.
Proof.
  intros Hroom (Hi & c & Hc & Hp & Hl).
  destruct (p_closed p) eqn:Hcl.
  { assert ((readLoop_chunk now chunk p).2 = p) as ->
      by (unfold readLoop_chunk, pty_do; destruct chunk; [done|]; by rewrite Hcl).
    split; [done|]. exists c. split; [done|]. split; [|congruence].
    etrans; [exact Hp|apply Filter_prefix]. }
  destruct chunk as [|b chunk]; [rewrite app_nil_r; split; [done|]; exists c; split; [done|]; split; [done|exact (λ _, Hl eq_refl)]|].
  unfold readLoop_chunk, pty_do. rewrite Hcl. set (ck := b :: chunk).
  destruct (feed_action_ok now ck p Hi) as (p' & E & _ & _ & _ & _ & Es & Ec).
  rewrite E. cbn [snd]. split; [by destruct (feed_inv now ck p p' _ Hi E)|].
  rewrite Ec, Hc. destruct (p_subs p !! id) as [s|] eqn:Hs.
  - destruct (Hl eq_refl s eq_refl) as [-> Eq].
    destruct (chan_after_room ck (Filter fed newStripper).2 c) as (Eb & _); [by apply Hroom|].
    exists (chan_after ck (Filter fed newStripper).2 c). split; [done|].
    rewrite Eb, app_assoc, Eq, Filter_app. cbn [fst snd]. split; [done|].
    intros _ s'. rewrite Es, Hs. intros [= <-]. done.
  - exists c. split; [done|]. split; [etrans; [exact Hp|apply Filter_prefix]|].
    intros _ s'. rewrite Es, Hs. done.
Qed.

(** Whatever else happens to the PTY. *)
Lemma op_delivers id fed got op p :
  op_chan op ≠ Some id → fresh_op op p → room_for id op p → delivers id fed got p →
  delivers id (fed ++ op_bytes op) got (pty_run1 op p).2.
Proof.
  intros Hj Hf Hr Hd. pose proof Hd as [Hi _].
  assert (match op with PChunk _ _ => True | _ => delivers id fed got (pty_run1 op p).2 end) as H.
  { destruct op; try done; (apply (keeps_delivers id fed got p); [by apply pty_run1_inv| |done]);
      by apply op_keeps. }
  destruct op; cbn [op_bytes]; rewrite ?app_nil_r; [by apply chunk_delivers|exact H..].
Qed.

(** Its own receives and its own [cancel]. *)
Lemma recv_delivers id fed got x p p' :
  recv_sub id p = (Ok x, p') → delivers id fed got p →
  delivers id fed (match x with Received ck => got ++ [ck] | _ => got end) p'.
Proof.
  intros E (Hi & c & Hc & Hp & Hl). pose proof (recv_sub_inv id p Hi) as [_ Hi'].
  rewrite E in Hi'. cbn [snd] in Hi'. split; [done|]. unfold recv_sub in E. rewrite Hc in E. unfold recv in E.
  destruct (ch_buf c) as [|y b] eqn:Eb; injection E as <- <-; cbn [p_chans set_subs p_closed p_subs].
  - exists c. rewrite lookup_insert_eq, Eb. destruct (ch_closed c); by split.
  - exists (mkChan b (ch_cap c) (ch_closed c)). rewrite lookup_insert_eq. cbn [ch_buf].
    rewrite concat_app, <- app_assoc. cbn in *. by rewrite app_nil_r.
Qed.

Lemma cancel_delivers id fed got p : delivers id fed got p → delivers id fed got (cancel id p).2.
Proof.
  intros Hd. pose proof Hd as (Hi & _). apply (keeps_delivers id fed got p); [by apply cancel_inv| |done].
  unfold cancel, pty_do. destruct (p_closed p) eqn:Hcl; [apply keeps_refl|].
  destruct (p_subs p !! id) as [s|] eqn:Hs; [|apply keeps_refl].
  destruct Hi as [H1 _]. destruct (H1 id s Hs) as (c & Hc & Ho).
  unfold close_sub. cbn [p_chans set_subs]. rewrite Hc. unfold close_chan. rewrite Ho. cbn. split.
  - intros _. split; [done|]. right. cbn. apply lookup_delete_eq.
  - intros c' Hc'. cbn. rewrite lookup_insert_eq. eexists. split; [done|]. cbn. congruence.
Qed.

(** A subscription just made. *)
Lemma subscribed_delivers id p parts p' :
  pty_inv p → p_chans p !! id = None → SubscribeWithSnapshotParts id p = (Ok parts, p') →
  delivers id [] [] p' ∧ snapshotPartsLocked p = Ok parts.
Proof.
  intros Hi Hf E.
  pose proof (subscribe_snapshot_inv snapshotPartsLocked id p (λ q, proj2 (snapshot_no_panic q)) Hf Hi) as [_ Hi'].
  unfold SubscribeWithSnapshotParts in E. rewrite E in Hi'. cbn [snd] in Hi'.
  unfold subscribe_snapshot in E. change (p_closed (make_sub_chan id 256 p)) with (p_closed p) in E.
  change (p_term (make_sub_chan id 256 p)) with (p_term p) in E.
  destruct (p_closed p); [by destruct (close_sub id _) as [[] ?]|].
  destruct (p_term p); [|done]. set (q := add_sub id (make_sub_chan id 256 p)) in *.
  change (snapshotPartsLocked q) with (snapshotPartsLocked p) in E.
  destruct (snapshotPartsLocked p) as [a|e].
  - injection E as -> <-. split; [|done]. split; [done|]. exists (make_chan 256).
    unfold q, add_sub, make_sub_chan. cbn. rewrite !lookup_insert_eq. split; [done|]. split; [done|].
    intros _ s [= <-]. done.
  - by destruct (close_sub id _) as [[] ?].
Qed.
End delivery.
