(* ===== verification/PtyLive.v ===== *)
(** * The channel of a live subscription

    A subscriber's channel is open as long as the subscription is registered, and
    [cancel] and [Close] close it: what is left in it can be read, and then its end
    is seen.  Over every operation of [Pty]. *)
From S2P Require Import Prelude GoBase StreamFilter QueryStripper PrimaryFilter Recorder Recording Terminal Channel Pty PtySafety Delivery.
Open Scope Z_scope.

Section live.
Context {T : Type} {TO : TermOps T}.
Implicit Types p : LibghosttyPTY T.

(** The channel is there, and it is registered or closed. *)
Definition chan_live (id : chan_id) p : Prop :=
  ∃ c, p_chans p !! id = Some c ∧ (ch_closed c = true ∨ is_Some (p_subs p !! id)).

(** A PTY that is closed has no subscribers: its shutdown action has run. *)
Definition released p : Prop := p_closed p = true → p_subs p = ∅.

(** [Close] finds room in the queue of the dispatcher. *)
Definition shuts_down (op : pty_op) : Prop := match op with PClose false _ => False | _ => True end.

Lemma live_same id p p' :
  p_subs p' !! id = p_subs p !! id → p_chans p' !! id = p_chans p !! id → chan_live id p → chan_live id p'.
Proof. unfold chan_live. by intros -> ->. Qed.

Lemma close_all_live id rc p :
  pty_inv p → p_closed p = false → p_subs (Close true rc p).2 = ∅ ∧ (chan_live id p → chan_live id (Close true rc p).2).
Proof.
  intros Hi Hcl. destruct (Close_room rc p Hi Hcl) as (p' & E & _ & _ & Hs & _ & _ & _ & Hc). rewrite E. cbn [snd]. split; [done|].
  intros (c & Hch & Ho). destruct (p_subs p !! id) as [s|] eqn:Es.
  - destruct (Hc id ltac:(by eexists)) as (c' & _ & Hc'). eexists. split; [done|]. by left.
  - destruct Ho as [Ho|[? ?]]; [|done]. exists c. split; [|by left]. unfold Close in E. rewrite Hcl in E.
    destruct (close_subs_ok (map_to_list (p_subs p)).*1 p) as (p1 & E1 & _ & _ & _ & Hout & _).
    { apply NoDup_fst_map_to_list. }
    { intros i ([j s] & -> & Hj)%list_elem_of_fmap. apply elem_of_map_to_list in Hj. by exists s. }
    { done. }
    unfold mbind, st_bind in E. cbn [st_get] in E. rewrite E1 in E. cbn in E. injection E as <-. cbn.
    destruct (Hout id) as [_ ->]; [|done]. intros ([j s] & -> & Hj)%list_elem_of_fmap. apply elem_of_map_to_list in Hj. cbn in Es. congruence.
Qed.

Lemma Resize_same ss now cols rows p :
  p_subs (Resize ss now cols rows p).2 = p_subs p ∧ p_chans (Resize ss now cols rows p).2 = p_chans p ∧ p_closed (Resize ss now cols rows p).2 = p_closed p.
Proof.
  unfold Resize. destruct ss; [|done]. unfold mbind, st_bind, pty_do. destruct (p_closed p) eqn:Hcl; [done|]. unfold resize_action.
  destruct (p_term p) as [t|]; [|done]. destruct (TermResize cols rows t) as [[|e] t']; [|done]. cbn [p_primaryTerm set_terms].
  destruct (p_primaryTerm p) as [q|]; [|done]. by destruct (TermResize cols rows q) as [[|] q'].
Qed.

Lemma Write_same data p :
  p_subs (Write data p).2 = p_subs p ∧ p_chans (Write data p).2 = p_chans p ∧ p_closed (Write data p).2 = p_closed p.
Proof. unfold Write, mbind, st_bind, master_write. by destruct (GoBase.Write data (p_master p)) as [[|] w]. Qed.

(** The channel and the operation it is about, or none. *)
Lemma op_touches op p :
  match op with PChunk _ _ | PClose _ _ => True | PResize _ _ _ _ | PInput _ => p_subs (pty_run1 op p).2 = p_subs p ∧ p_chans (pty_run1 op p).2 = p_chans p ∧ p_closed (pty_run1 op p).2 = p_closed p
  | PSubscribe _ j | PSnap j | PParts j | PCancel j | PRecv j => touches_only j p (pty_run1 op p).2 end.
Proof.
  destruct op; cbn [pty_run1 result snd]; try done; [apply Resize_same|apply Write_same|apply subscribe_cap_touches|apply subscribe_snapshot_touches
    |apply subscribe_snapshot_touches|apply cancel_touches|apply recv_touches].
Qed.

(** Operations about other channels. *)
Lemma op_live id op p :
  pty_inv p → op_chan op ≠ Some id → shuts_down op → chan_live id p → chan_live id (pty_run1 op p).2.
Proof.
  intros Hi Hne Hs Hl. pose proof (op_touches op p) as Ht.
  destruct op as [now ck|ss now c r|data|cap j|j|j|j|j|room rc]; cbn [op_chan] in Hne; try (destruct Ht as [_ Ht]; destruct (Ht id) as [Es Ec]; [congruence|]; by eapply live_same);
    try (destruct Ht as (Es & Ec & _); apply (live_same id p); [by rewrite Es|by rewrite Ec|done]).
  - cbn [pty_run1]. unfold readLoop_chunk, pty_do. destruct ck as [|b ck]; [done|]. destruct (p_closed p); [done|].
    destruct (feed_action_ok now (b :: ck) p Hi) as (p' & -> & _ & _ & _ & _ & Es & Ec). cbn [snd]. destruct Hl as (c & Hc & Ho). unfold chan_live. rewrite Ec, Es, Hc.
    destruct (p_subs p !! id) as [s|]; [|by exists c]. eexists. split; [done|]. right. by eexists.
  - cbn [pty_run1]. destruct (p_closed p) eqn:Hcl; [unfold Close; by rewrite Hcl|]. destruct room; [|done]. by apply close_all_live.
Qed.

Lemma op_gone id op p : pty_inv p → op_chan op ≠ Some id → p_subs p !! id = None → p_subs (pty_run1 op p).2 !! id = None.
Proof.
  intros Hi Hne Hn. pose proof (op_touches op p) as Ht.
  destruct op as [now ck|ss now c r|data|cap j|j|j|j|j|room rc]; cbn [op_chan] in Hne; try (destruct Ht as [_ Ht]; destruct (Ht id) as [-> _]; [congruence|done]);
    try (destruct Ht as (-> & _); done).
  - cbn [pty_run1]. unfold readLoop_chunk, pty_do. destruct ck as [|b ck]; [done|]. destruct (p_closed p); [done|].
    destruct (feed_action_ok now (b :: ck) p Hi) as (p' & -> & _ & _ & _ & _ & Es & Ec). cbn [snd]. by rewrite Es, Hn.
  - cbn [pty_run1]. destruct (p_closed p) eqn:Hcl; [unfold Close; by rewrite Hcl|]. destruct room; [|unfold Close; by rewrite Hcl].
    destruct (close_all_live id rc p Hi Hcl) as [-> _]. apply lookup_empty.
Qed.

Lemma close_sub_closed j p : p_closed (close_sub j p).2 = p_closed p ∧ p_subs (close_sub j p).2 = p_subs p.
Proof. unfold close_sub. destruct (p_chans p !! j) as [c|]; [|done]. by destruct (close_chan c). Qed.

Lemma subscribe_snapshot_closed {A} (f : LibghosttyPTY T → res pty_error A) id p :
  p_closed p = true → p_subs (subscribe_snapshot f id p).2 = p_subs p.
Proof.
  intros Hcl. unfold subscribe_snapshot. change (p_closed (make_sub_chan id 256 p)) with (p_closed p). rewrite Hcl.
  pose proof (close_sub_closed id (make_sub_chan id 256 p)) as [_ Hs]. by destruct (close_sub _ _) as [[|] q].
Qed.

Lemma op_released op p : pty_inv p → shuts_down op → released p → released (pty_run1 op p).2.
Proof.
  intros Hi Hs Hr. assert (∀ j q, touches_only j p q → (p_closed p = true → p_subs q = p_subs p) → released q) as Ht.
  { intros j q [Ec _] Hq Hcl. rewrite Ec in Hcl. rewrite (Hq Hcl). by apply Hr. }
  pose proof (op_touches op p) as Hto. destruct op as [now ck|ss now c r|data|cap j|j|j|j|j|room rc];
    try (destruct Hto as (Es & _ & Ec); intros Hcl; rewrite Es; apply Hr; congruence); try (apply (Ht j); [done|]; cbn [pty_run1 result snd]; intros Hcl).
  - cbn [pty_run1]. unfold readLoop_chunk, pty_do. destruct ck as [|b ck]; [done|]. destruct (p_closed p) eqn:Hcl; [done|].
    destruct (feed_action_ok now (b :: ck) p Hi) as (p' & -> & _ & _ & _ & Ed & _). cbn [snd]. intros Hc. congruence.
  - unfold subscribe_cap, mbind, st_bind, pty_do. cbn [st_modify]. change (p_closed (make_sub_chan j cap p)) with (p_closed p). by rewrite Hcl.
  - by apply subscribe_snapshot_closed.
  - by apply subscribe_snapshot_closed.
  - unfold cancel, pty_do. by rewrite Hcl.
  - unfold recv_sub. destruct (p_chans p !! j) as [c|]; [|done]. by destruct (recv c).
  - cbn [pty_run1]. destruct (p_closed p) eqn:Hcl; [unfold Close; by rewrite Hcl|]. destruct room; [|done]. intros _. by apply (close_all_live 0%nat).
Qed.

(** Its own: [cancel] ends the subscription, and a receive keeps it. *)
Lemma cancel_live id p : pty_inv p → released p → chan_live id p → chan_live id (cancel id p).2 ∧ p_subs (cancel id p).2 !! id = None.
Proof.
  intros [H1 H2] Hr Hl. unfold cancel, pty_do. destruct (p_closed p) eqn:Hcl; [split; [done|]; cbn; rewrite (Hr Hcl); apply lookup_empty|].
  destruct (p_subs p !! id) as [s|] eqn:Es; [|by split]. destruct (H1 id s Es) as (c & Hc & Ho).
  unfold close_sub. cbn [p_chans set_subs]. rewrite Hc. unfold close_chan. rewrite Ho. cbn. split; [|by apply lookup_delete_eq].
  eexists. split; [by apply lookup_insert_eq|]. by left.
Qed.

Lemma cancel_gone id p : p_subs p !! id = None → p_subs (cancel id p).2 !! id = None.
Proof. intros Hn. unfold cancel, pty_do. destruct (p_closed p); [done|]. by rewrite Hn. Qed.

Lemma recv_live id p : chan_live id p → chan_live id (recv_sub id p).2 ∧ p_subs (recv_sub id p).2 = p_subs p.
Proof.
  intros (c & Hc & Ho). unfold recv_sub. rewrite Hc. destruct (recv c) as [x c'] eqn:E. cbn. split; [|done]. exists c'. cbn. rewrite lookup_insert_eq.
  split; [done|]. unfold recv in E. destruct (ch_buf c); injection E as _ <-; [done|]. by cbn.
Qed.

(** A closed channel never makes its reader wait. *)
Lemma recv_ended id p : chan_live id p → p_subs p !! id = None → ∀ q, recv_sub id p ≠ (Ok RecvBlocks, q).
Proof.
  intros (c & Hc & [Ho|[? ?]]) Hn; [|congruence]. unfold recv_sub. rewrite Hc. unfold recv. destruct (ch_buf c); [rewrite Ho|]; intros q; by injection 1.
Qed.

Lemma recv_closed id p q : pty_inv p → recv_sub id p = (Ok RecvClosed, q) → p_subs q !! id = None.
Proof.
  intros [H1 _] E. unfold recv_sub in E. destruct (p_chans p !! id) as [c|] eqn:Ec; [|done].
  destruct (recv c) as [x c'] eqn:Er. injection E as -> <-. cbn. destruct (p_subs p !! id) as [s|] eqn:Es; [|done]. destruct (H1 id s Es) as (c0 & Hc & Ho).
  unfold recv in Er. assert (c0 = c) as -> by congruence. rewrite Ho in Er. by destruct (ch_buf c).
Qed.

(** A new subscription is live. *)
Lemma subscribed_live id p x p' : pty_inv p → p_chans p !! id = None → SubscribeWithSnapshotParts id p = (Ok x, p') → chan_live id p'.
Proof.
  intros Hi Hf E. unfold SubscribeWithSnapshotParts, subscribe_snapshot in E. change (p_closed (make_sub_chan id 256 p)) with (p_closed p) in E.
  change (p_term (make_sub_chan id 256 p)) with (p_term p) in E. destruct (p_closed p); [by destruct (close_sub id _) as [[] ?]|].
  destruct (p_term p); [|done]. set (q := add_sub id (make_sub_chan id 256 p)) in *. destruct (snapshotPartsLocked q) as [y|e].
  - injection E as _ <-. exists (make_chan 256). cbn. rewrite !lookup_insert_eq. split; [done|]. right. by eexists.
  - by destruct (close_sub id _) as [[] ?].
Qed.
End live.
