(* ===== verification/SessionLog.v ===== *)
(** * A session, from the PTY to [hoot log]

    Ties [Pty], [Recorder], [FrameDecoder] and [Replay] together: the recorder
    and the emulator of a PTY see the same session, so replaying the closed
    recording shows what the live emulator showed. *)
From S2P Require Import Prelude GoBase StreamFilter PrimaryFilter Recorder FrameDecoder Recording Wire State Terminal Replay Channel Pty PtySafety.
Open Scope Z_scope.

Section session_log.
Context {T : Type} {TO : TermOps T}.
Implicit Types p : LibghosttyPTY T.

(** The output and resizes of a session, as the PTY's operations. *)
Definition pty_rec_op (op : rec_op) : st (LibghosttyPTY T) pty_error unit :=
  match op with
  | OpWrite now data => readLoop_chunk now data
  | OpResize now cols rows => Resize (Ok tt) now cols rows
  end.

Fixpoint pty_session (ops : list rec_op) : st (LibghosttyPTY T) pty_error unit :=
  match ops with
  | [] => mret tt
  | op :: ops' => _ ← pty_rec_op op; pty_session ops'
  end.

(** The recorder's errors are dropped by the PTY, so its state goes on. *)
Definition rec_after (ops : list rec_op) (o : option Recorder) : option Recorder :=
  foldl (λ o op, (rec_step op o).2) o ops.

Lemma rec_run_after ops o o' : rec_run ops o = (Ok tt, o') → rec_after ops o = o'.
Proof.
  revert o. induction ops as [|op ops IH]; intros o; [by intros [= ->]|].
  cbn [rec_run]. unfold mbind, st_bind. cbn [rec_after foldl].
  destruct (rec_step op o) as [[[]|e] o1]; [|done]. apply IH.
Qed.

Lemma rec_step_write now data o :
  (rec_step (OpWrite now data) o).2 = (Recorder_Write now data o).2.
Proof.
  cbn [rec_step]. unfold mbind, st_bind. by destruct (Recorder_Write now data o) as [[|] ?].
Qed.

Context {TL : TermLaws T}.

(** The tee: one operation on an open PTY. *)
Lemma pty_tee_step op p p' t :
  pty_inv p → p_closed p = false → p_term p = Some t → pty_rec_op op p = (Ok tt, p') →
  ∃ t', live_step op t = (Ok tt, t') ∧ p_term p' = Some t' ∧ p_closed p' = false ∧
    p_rec p' = (rec_step op (p_rec p)).2.
Proof.
  intros Hinv Hcl Ht. destruct op as [now data|now cols rows]; cbn [pty_rec_op live_step].
  - rewrite rec_step_write. unfold readLoop_chunk. destruct data as [|b data].
    { intros [= <-]. exists t. rewrite VTWrite_nil. do 3 (split; [done|]).
      destruct (p_rec p) as [r|]; [|done]. unfold Recorder_Write. by destruct (negb _). }
    unfold pty_do. rewrite Hcl. destruct (feed_action_ok now (b :: data) p Hinv)
      as (q & E & Et & _ & Er & Ec & _). rewrite E. intros [= <-].
    eexists. split; [done|]. rewrite Et, Ht, Er, Ec. done.
  - unfold Resize, mbind, st_bind, pty_do. rewrite Hcl. unfold resize_action. rewrite Ht.
    destruct (TermResize cols rows t) as [[[]|e] t'] eqn:Er; [|done]. cbn [p_primaryTerm set_terms].
    destruct (p_primaryTerm p) as [q|].
    + destruct (TermResize cols rows q) as [[|e] q'] eqn:Eq; [|done]. intros [= <-].
      exists t'. do 2 (split; [done|]). by split; [exact Hcl|].
    + intros [= <-]. exists t'. do 2 (split; [done|]). by split; [exact Hcl|].
Qed.

Lemma pty_tee ops p p' t :
  pty_inv p → p_closed p = false → p_term p = Some t → pty_session ops p = (Ok tt, p') →
  ∃ t', live_run ops t = (Ok tt, t') ∧ p_term p' = Some t' ∧ p_closed p' = false ∧
    pty_inv p' ∧ p_rec p' = rec_after ops (p_rec p).
Proof.
  revert p t. induction ops as [|op ops IH]; intros p t Hinv Hcl Ht.
  { intros [= <-]. by exists t. }
  cbn [pty_session live_run]. unfold mbind, st_bind.
  destruct (pty_rec_op op p) as [[[]|e] p1] eqn:E; [|done].
  destruct (pty_tee_step op p p1 t Hinv Hcl Ht E) as (t1 & -> & Ht1 & Hcl1 & Hr1).
  assert (pty_inv p1) as Hinv1.
  { destruct op as [now data|now cols rows]; cbn [pty_rec_op] in E.
    - destruct (pty_run1_inv (PChunk now data) p I Hinv) as [_ H]. cbn [pty_run1] in H.
      by rewrite E in H.
    - destruct (pty_run1_inv (PResize (Ok tt) now cols rows) p I Hinv) as [_ H].
      cbn [pty_run1] in H. by rewrite E in H. }
  intros H. destruct (IH p1 t1 Hinv1 Hcl1 Ht1 H) as (t' & Hl & Ht' & Hcl' & Hinv' & Hr').
  exists t'. do 4 (split; [done|]). by rewrite Hr', Hr1.
Qed.

(** C12: [hoot log] shows what the session showed.  A session is recorded from
    the creation of the PTY to its [Close]; when every resize succeeded, the
    plain or VT replay of the recording is byte for byte what the live PTY's
    formatter printed before it was closed. *)
Theorem hoot_log_shows_session master cols rows r0 p0 ops p1 p2 format snap out :
  0 < cols < 65536 → 0 < rows < 65536 → clock_ok 0 ops → Forall op_u16 ops →
  NewRecorder (Ok (sink [])) cols rows = Ok r0 →
  NewLibghosttyPTY (Some master) cols rows 10000 (Some r0) = Ok p0 →
  pty_session ops p0 = (Ok tt, p1) → Close true None p1 = (Ok tt, p2) →
  formatBytes (match format with ReplayFormatVT => FmtVT | ReplayFormatPlain => FmtPlain end) p1
    = Ok snap →
  ∃ r2, p_rec p2 = Some r2 ∧
    runLogReplay (T := T) (Opened (Reader (w_out (rec_file r2)) EOF)) format (sink out) =
      (Ok tt, sink (out ++ snap)).
Proof.
  intros Hcols Hrows Hclk Hu Hrec Hnew Hses Hclose Hfmt.
  unfold NewLibghosttyPTY in Hnew.
  destruct (NewTerminal cols rows 10000) as [t0|e] eqn:Ht0; [|done]. injection Hnew as <-.
  set (p0 := mkPty _ _ _ _ _ _ _ _ _ _) in Hses.
  assert (pty_inv p0) as H0 by (split; intros ? ?; simpl; by rewrite lookup_empty).
  destruct (pty_tee ops p0 p1 t0 H0 eq_refl eq_refl Hses) as (t & Hlive & Ht & Hcl & Hinv & Hr).
  destruct (Close_room None p1 Hinv Hcl) as (q & E & _ & _ & _ & _ & _ & Hrc & _).
  rewrite Hclose in E. injection E as <-.
  destruct (new_refines cols rows) as (r0' & E & R0). rewrite Hrec in E. injection E as <-.
  destruct (run_refines ops 0 r0 _ R0 Hclk) as (tm & r1 & Hrun & R1).
  apply rec_run_after in Hrun as Hafter. cbn [p_rec p0] in Hr. rewrite Hafter in Hr.
  assert (∃ r2, record cols rows ops = Ok r2 ∧ p_rec p2 = Some r2) as (r2 & Hrecord & Hr2).
  { unfold record. rewrite Hrec. cbn [mbind res_bind]. rewrite Hrun, Hrc, Hr.
    unfold Recorder_Close. destruct R1 as (its & pb & ph & buf & -> & R1).
    cbn [w_open negb]. destruct (flush_refines tm (mkRecorder (sink (recorderPreamble ++ enc_items its))
      true (a_last (abs_run ops (abs_new cols rows))) pb ph buf) (abs_run ops (abs_new cols rows)))
      as (r2 & -> & _).
    - exists its, pb, ph, buf. by split.
    - by eexists. }
  exists r2. split; [done|].
  unfold formatBytes in Hfmt. rewrite Hcl, Ht in Hfmt. cbn in Hfmt.
  apply (replay_reproduces cols rows ops t0 t r2 snap format out); try done.
  - constructor; [simpl; lia|done].
  - rewrite (proj2 (Z.eqb_neq cols 0)), (proj2 (Z.eqb_neq rows 0)) by lia. done.
  - unfold lift_term in Hfmt. destruct (Format _ t) as [s|e]; congruence.
Qed.
End session_log.

Lemma hoot_log_shows_session_witness :
  ∃ r0 p0 p1 p2 r2,
    NewRecorder (Ok (sink [])) 80 24 = Ok r0 ∧
    NewLibghosttyPTY (T := tape) (Some (sink [])) 80 24 10000 (Some r0) = Ok p0 ∧
    pty_session [OpWrite 3 [65]; OpResize 90000 90 30; OpWrite 90001 [66]] p0 = (Ok tt, p1) ∧
    Close true None p1 = (Ok tt, p2) ∧ p_rec p2 = Some r2 ∧
    runLogReplay (T := tape) (Opened (Reader (w_out (rec_file r2)) EOF)) ReplayFormatPlain (sink []) =
      (Ok tt, sink ([] ++ [65; 66])).
Proof.
  assert (∃ r0, NewRecorder (Ok (sink [])) 80 24 = Ok r0) as [r0 H0]
    by (eexists; vm_compute; reflexivity).
  assert (∃ p0, NewLibghosttyPTY (T := tape) (Some (sink [])) 80 24 10000 (Some r0) = Ok p0)
    as [p0 Hp0] by (eexists; reflexivity).
  assert (∃ p1 p2, pty_session [OpWrite 3 [65]; OpResize 90000 90 30; OpWrite 90001 [66]] p0 = (Ok tt, p1) ∧
    Close true None p1 = (Ok tt, p2) ∧ formatBytes FmtPlain p1 = Ok [65; 66]) as (p1 & p2 & H1 & H2 & H3).
  { clear -H0 Hp0. vm_compute in H0. injection H0 as <-. vm_compute in Hp0. injection Hp0 as <-.
    eexists _, _. split; [vm_compute; reflexivity|]. split; vm_compute; reflexivity. }
  destruct (hoot_log_shows_session (T := tape) (sink []) 80 24 r0 p0
    [OpWrite 3 [65]; OpResize 90000 90 30; OpWrite 90001 [66]] p1 p2 ReplayFormatPlain [65; 66] [])
    as (r2 & Hr2 & H); [lia|lia|cbn; lia|repeat constructor; cbn; lia|exact H0|exact Hp0|exact H1|exact H2|exact H3|].
  exists r0, p0, p1, p2, r2. repeat (split; [assumption|]). exact H.
Defined.
