(* ===== verification/PtyRoutes.v ===== *)
(** * [pty_libghostty_routes.go]: the /pty/* HTTP handlers

    A handler maps the request's method, query and body, and the PTY, to a
    response and the PTY after it.  [net/http] and the JSON decoder are outside
    the model: the decoded body is an argument. *)
From S2P Require Import Prelude GoBase StreamFilter QueryStripper PrimaryFilter Recorder Recording Terminal Channel Pty PtySafety.
Open Scope Z_scope.

Inductive http_method := MethodGet | MethodPost | MethodOther.

#[export] Instance http_method_eq_dec : EqDecision http_method.
Proof. solve_decision. Defined.

Record response := mkResponse { status : Z; resp_body : list byte }.

Definition StatusOK : Z := 200.
Definition StatusNoContent : Z := 204.
Definition StatusBadRequest : Z := 400.
Definition StatusMethodNotAllowed : Z := 405.
Definition StatusConflict : Z := 409.
Definition StatusRequestEntityTooLarge : Z := 413.
Definition StatusInternalServerError : Z := 500.

(** [http.Error]; the text of the message is left out. *)
Definition http_error (code : Z) : response := mkResponse code [].

Definition inputBodyCap : nat := Z.to_nat (Z.shiftl 1 20).

Lemma inputBodyCap_def : inputBodyCap = Z.to_nat (Z.shiftl 1 20).
Proof. done. Qed.

#[global] Opaque inputBodyCap.

Definition pasteStart : list byte := ESC :: B"[200~".
Definition pasteEnd : list byte := ESC :: B"[201~".

(** [bytes.Contains]: a prefix test at every position. *)
Fixpoint is_prefix (s bs : list byte) : bool :=
  match s, bs with
  | [], _ => true
  | _, [] => false
  | a :: s', b :: bs' => (a =? b) && is_prefix s' bs'
  end.

Fixpoint Contains (bs s : list byte) : bool :=
  is_prefix s bs || match bs with [] => false | _ :: bs' => Contains bs' s end.

Section routes.
Context {T : Type} {TO : TermOps T}.
Implicit Types p : LibghosttyPTY T.

(** [handleText], [handleHTML], [handleVT]. *)
Definition handle_format (format : formatter) (m : http_method) p : response :=
  if negb (bool_decide (m = MethodGet)) then http_error StatusMethodNotAllowed
  else match formatBytes format p with
       | Err _ => http_error StatusInternalServerError
       | Ok out => mkResponse StatusOK out
       end.

Definition handleText := handle_format FmtPlain.
Definition handleHTML := handle_format FmtHTML.
Definition handleVT := handle_format FmtVT.

(** [io.ReadAll(io.LimitReader(body, n))]: what the client sent, and the error
    that ended it, if it was not the end of the body. *)
Definition read_limited (n : nat) (sent : list byte) (err : option io_error) : res io_error (list byte) :=
  if (n <=? length sent)%nat then Ok (take n sent)
  else match err with None => Ok sent | Some e => Err e end.

(** The end of [handleInput]: [p.Write(data)]. *)
Definition write_input (data : list byte) (p : LibghosttyPTY T) : response * LibghosttyPTY T :=
  match Write data p with
  | (Err _, p') => (http_error StatusInternalServerError, p')
  | (Ok _, p') => (mkResponse StatusNoContent [], p')
  end.

Definition handleInput (m : http_method) (paste : list byte) (sent : list byte)
    (err : option io_error) (p : LibghosttyPTY T) : response * LibghosttyPTY T :=
  if negb (bool_decide (m = MethodPost)) then (http_error StatusMethodNotAllowed, p)
  else match read_limited (S inputBodyCap) sent err with
       | Err _ => (http_error StatusBadRequest, p)
       | Ok data =>
           if (inputBodyCap <? length data)%nat then (http_error StatusRequestEntityTooLarge, p)
           else if bool_decide (paste = []) || bool_decide (paste = B"off")
           then write_input data p
           else if bool_decide (paste = B"on") then
             if Contains data pasteEnd then (http_error StatusBadRequest, p)
             else if negb (BracketedPasteActive p) then (http_error StatusConflict, p)
             else write_input (pasteStart ++ data ++ pasteEnd) p
           else (http_error StatusBadRequest, p)
       end.

(** [body]: the decoded [{cols, rows}], or the decoder's error. *)
Definition handleResize (m : http_method) (body : option (Z * Z)) (setsize : res io_error unit)
    (now : Z) (p : LibghosttyPTY T) : response * LibghosttyPTY T :=
  if negb (bool_decide (m = MethodPost)) then (http_error StatusMethodNotAllowed, p)
  else match body with
       | None => (http_error StatusBadRequest, p)
       | Some (cols, rows) =>
           if (cols =? 0) || (rows =? 0) then (http_error StatusBadRequest, p)
           else match Resize setsize now cols rows p with
                | (Err _, p') => (http_error StatusInternalServerError, p')
                | (Ok _, p') => (mkResponse StatusNoContent [], p')
                end
       end.

(** Everything queued on a channel, taken in order. *)
Definition drain (id : chan_id) p : list byte :=
  match p_chans p !! id with None => [] | Some c => concat (ch_buf c) end.

(** [handleStream] up to the end of the request.  [between] is what the other
    goroutines do after its [subscribe] action and before its [Snapshot] action,
    [live] what happens after that until the client leaves. *)
Definition handleStream (id : chan_id) (between live : st (LibghosttyPTY T) pty_error unit)
    (p : LibghosttyPTY T) : response * LibghosttyPTY T :=
  match subscribe id p with
  | (Err _, p1) => (http_error StatusInternalServerError, p1)
  | (Ok _, p1) =>
      let p2 := (between p1).2 in
      match Snapshot p2 with
      | Err _ => (http_error StatusInternalServerError, (cancel id p2).2)
      | Ok snap =>
          let p3 := (live p2).2 in
          (mkResponse StatusOK (snap ++ drain id p3), (cancel id p3).2)
      end
  end.

(** ** Input *)

Lemma is_prefix_spec s bs : is_prefix s bs = true ↔ s `prefix_of` bs.
Proof.
  revert bs. induction s as [|a s IH]; intros bs; [split; [by exists bs|done]|].
  destruct bs as [|b bs]; simpl.
  - split; [done|]. intros [k Hk]. done.
  - rewrite andb_true_iff, Z.eqb_eq, IH. split.
    + intros [-> [k ->]]. by exists k.
    + intros [k Hk]. injection Hk as -> ->. split; [done|]. by exists k.
Qed.

Lemma Contains_spec bs s : Contains bs s = true ↔ ∃ a b, bs = a ++ s ++ b.
Proof.
  induction bs as [|c bs IH]; simpl; rewrite orb_true_iff, is_prefix_spec.
  - split.
    + intros [[k Hk]|]; [|done]. by exists [], k.
    + intros (a & b & E). left. destruct a; [|done]. by exists b.
  - rewrite IH. split.
    + intros [[k ->]|(a & b & ->)]; [by exists [], k|by exists (c :: a), b].
    + intros (a & b & E). destruct a as [|x a]; [left; by exists b|].
      injection E as -> ->. right. by exists a, b.
Qed.

(** The end marker starts with the only ESC it has, so it cannot begin inside
    [data] and end after it. *)
Lemma paste_end_once data a b :
  Contains data pasteEnd = false → data ++ pasteEnd = a ++ pasteEnd ++ b → a = data ∧ b = [].
Proof.
  intros Hc. revert a. induction data as [|x data IH]; intros a E.
  - destruct a as [|c a].
    + split; [done|]. by injection E.
    + exfalso. apply (f_equal length) in E. rewrite !length_app in E. simpl in E. lia.
  - destruct a as [|c a].
    + (* the marker would start inside the data: it is inside it, or runs into
         the ESC of the real one *)
      exfalso. assert (Contains (x :: data) pasteEnd = true ∨ (length (x :: data) < 6)%nat) as [H|H].
      { destruct (decide (length (x :: data) < 6)%nat) as [|Hl]; [by right|left].
        apply Contains_spec. exists [], (drop 6 (x :: data)). simpl app at 1.
        rewrite <- (take_drop 6 (x :: data)) at 1. f_equal.
        apply (f_equal (take 6)) in E. rewrite take_app_le in E by lia. by rewrite E. }
      { congruence. }
      destruct data as [|? [|? [|? [|? [|? ?]]]]]; simplify_eq/=; lia.
    + injection E as -> E. simpl in Hc. apply orb_false_elim in Hc as [_ Hc].
      by destruct (IH Hc a E) as [-> ->].
Qed.

Lemma write_input_spec d p :
  let '(r, p') := write_input d p in
  (status r = StatusNoContent ∧ w_out (p_master p') = w_out (p_master p) ++ d) ∨
  status r = StatusInternalServerError.
Proof.
  unfold write_input, Write, mbind, st_bind, master_write, GoBase.Write.
  destruct (w_plan (p_master p)) as [|[[k e]|] plan]; [by left|by right|by left].
Qed.

(** [POST /pty/input] is all or nothing.  A 204 means one write of exactly
    the body reached the master, wrapped in the paste markers when asked, the
    receiver then being in bracketed-paste mode and the end marker occurring
    nowhere but at the end; a refusal (400, 405, 409, 413) leaves the PTY as it
    was; anything else is a failed write. *)
Lemma handleInput_cases m paste sent err p :
  let '(r, p') := handleInput m paste sent err p in
  (status r = StatusNoContent ∧ m = MethodPost ∧ (length sent <= inputBodyCap)%nat ∧
   ∃ payload, w_out (p_master p') = w_out (p_master p) ++ payload ∧
     (((paste = [] ∨ paste = B"off") ∧ payload = sent) ∨
      (paste = B"on" ∧ BracketedPasteActive p = true ∧ payload = pasteStart ++ sent ++ pasteEnd ∧
       ∀ a b, sent ++ pasteEnd = a ++ pasteEnd ++ b → a = sent ∧ b = []))) ∨
  (status r ∈ [StatusBadRequest; StatusMethodNotAllowed; StatusConflict;
               StatusRequestEntityTooLarge] ∧ p' = p) ∨
  status r = StatusInternalServerError.
Proof.
  unfold handleInput. destruct (bool_decide_reflect (m = MethodPost)) as [->|];
    [|right; left; split; [set_solver|done]].
  cbn [negb]. unfold read_limited. destruct (Nat.leb_spec (S inputBodyCap) (length sent)) as [Hl|Hl].
  { rewrite (proj2 (Nat.ltb_lt _ _)) by (rewrite length_take; lia).
    right; left. split; [set_solver|done]. }
  destruct err as [e|]; [right; left; split; [set_solver|done]|].
  rewrite (proj2 (Nat.ltb_ge _ _)) by lia.
  destruct (bool_decide_reflect (paste = [])) as [Hp|_];
    [|destruct (bool_decide_reflect (paste = B"off")) as [Hp|_]]; cbn [orb].
  1,2: pose proof (write_input_spec sent p) as H; destruct (write_input sent p) as [r p'];
    destruct H as [[Hr Ho]|H]; [left|auto];
    split; [done|]; split; [done|]; split; [lia|]; exists sent; auto.
  destruct (bool_decide_reflect (paste = B"on")) as [Hp|_]; [|right; left; split; [set_solver|done]].
  destruct (Contains sent pasteEnd) eqn:Ec; [right; left; split; [set_solver|done]|].
  destruct (BracketedPasteActive p) eqn:Eb; cbn [negb]; [|right; left; split; [set_solver|done]].
  pose proof (write_input_spec (pasteStart ++ sent ++ pasteEnd) p) as H.
  destruct (write_input _ p) as [r p']. destruct H as [[Hr Ho]|H]; [left|auto].
  split; [done|]. split; [done|]. split; [lia|]. eexists. split; [exact Ho|]. right.
  do 3 (split; [done|]). intros a b. by apply paste_end_once.
Qed.

(** ** [handleStream] *)

Context {TL : TermLaws T}.

Lemma feeds_app a b p : feeds (a ++ b) p = (_ ← feeds a; feeds b) p.
Proof.
  revert p. induction a as [|[now c] a IH]; intros p; [done|]. cbn [feeds app].
  unfold mbind, st_bind in *. destruct (readLoop_chunk now c p) as [[[]|e] p1]; [apply IH|done].
Qed.

(** [GET /pty/stream] replays an overlap.  Output that arrives between its
    subscription and its snapshot, two separate actions, is sent twice: the
    snapshot is of an emulator that has seen it, and the channel carries it
    again.  ([SubscribeWithSnapshotParts] takes both in one action and does not,
    see [snapshot_then_live].) *)
Theorem stream_overlap id between live p t :
  pty_inv p → p_closed p = false → p_term p = Some t → p_chans p !! id = None →
  (length between + length live <= 64)%nat →
  let p2 := (feeds between (subscribe id p).2).2 in
  p_term p2 = Some (VTWrite (concat between.*2) t).1 ∧
  ∀ snap, Snapshot p2 = Ok snap →
    (handleStream id (feeds between) (feeds live) p).1 =
      mkResponse StatusOK
        (snap ++ (Filter (concat between.*2 ++ concat live.*2) newStripper).1).
Proof.
  intros Hinv Hcl Ht Hf Hlen.
  assert (subscribe id p = (Ok tt, add_sub id (make_sub_chan id 64 p))) as Hsub.
  { unfold subscribe, subscribe_cap, mbind, st_bind, pty_do. cbn [st_modify].
    change (p_closed (make_sub_chan id 64 p)) with (p_closed p). by rewrite Hcl. }
  unfold handleStream. rewrite Hsub. cbn [snd fst]. set (p1 := add_sub id _).
  assert (pty_inv p1) as H1.
  { pose proof (make_chan_inv id 64 p Hf Hinv) as Hm.
    apply (add_sub_inv id (make_chan 64)); [by apply lookup_insert_eq|done|done]. }
  assert (p_subs p1 !! id = Some newStripper) as Hs by apply lookup_insert_eq.
  assert (p_chans p1 !! id = Some (make_chan 64)) as Hc by apply lookup_insert_eq.
  destruct (feeds_sub between p1 id newStripper (make_chan 64)) as (p2 & _ & E & _ & _ & Et & _);
    [done|done|done|done|simpl; lia|].
  destruct (feeds_sub (between ++ live) p1 id newStripper (make_chan 64))
    as (p3 & c3 & E3 & Hc3 & Eb3 & _); [done|done|done|done|rewrite length_app; simpl; lia|].
  rewrite feeds_app in E3. unfold mbind, st_bind in E3. rewrite E in E3 |- *. cbn [snd].
  split; [rewrite Et; change (p_term p1) with (p_term p); by rewrite Ht|].
  intros snap ->. rewrite E3. cbn [snd fst]. unfold drain. rewrite Hc3, Eb3.
  by rewrite fmap_app, concat_app.
Qed.
End routes.

Lemma stream_overlap_witness :
  let p := mkPty (T := tape) (Some []) None (ground false) (sink []) 80 24 ∅ ∅ None false in
  let p2 := (feeds [(0, [120])] (subscribe 0 p).2).2 in
  p_term p2 = Some (VTWrite (concat [(0, [120])].*2) []).1 ∧ Snapshot p2 = Ok [120] ∧
  (handleStream 0 (feeds [(0, [120])]) (feeds [(1, [121])]) p).1 =
    mkResponse StatusOK
      ([120] ++ (Filter (concat [(0, [120])].*2 ++ concat [(1, [121])].*2) newStripper).1).
Proof.
  intros p p2. destruct (stream_overlap 0 [(0, [120])] [(1, [121])] p []) as [H1 H2].
  - split; intros ? ?; simpl; by rewrite lookup_empty.
  - reflexivity.
  - reflexivity.
  - reflexivity.
  - simpl; lia.
  - split; [exact H1|]. assert (Snapshot p2 = Ok [120]) as Hs by (vm_compute; reflexivity).
    split; [exact Hs|]. apply H2. exact Hs.
Defined.
