(* ===== verification/Dispatcher.v ===== *)
(** * [pty_libghostty.go]: the dispatcher goroutine, [do] and [Close]

    [Pty] takes [p.do] as atomic.  Here is the protocol behind it: the buffered
    channel of actions, the [done] channel, the goroutine [dispatch], any number
    of goroutines inside [do] and one inside [Close] ([doneOnce]), interleaved
    step by step as a small-step relation.  A [select] with several ready cases
    may take any of them. *)
From S2P Require Import Prelude.

Definition actions_cap : nat := 64.

(** An action of a [do] caller, or the shutdown action of [Close]. *)
Inductive action := AFn (i : nat) | AShutdown.

#[export] Instance action_eq_dec : EqDecision action.
Proof. solve_decision. Defined.

(** Where a goroutine inside [do] is. *)
Inductive caller :=
| Start                  (** before the first [select] *)
| Checked                (** [done] was open; at the second [select] *)
| Waiting                (** its action is sent; at [<-done] *)
| Returned (ran : bool).

#[export] Instance caller_eq_dec : EqDecision caller.
Proof. solve_decision. Defined.

Inductive closer := CStart | CWaiting | CClosing | CDone.

Inductive dispatcher := Running | Draining | Exited.

#[export] Instance dispatcher_eq_dec : EqDecision dispatcher.
Proof. solve_decision. Defined.

Record dstate := mkD {
  d_actions : list action;
  d_done : bool;
  d_disp : dispatcher;
  d_callers : gmap nat caller;
  d_closer : closer
}.

(** What running an action does: the function returns and releases its caller;
    the shutdown action releases [Close]. *)
Definition run_action (a : action) (s : dstate) : dstate :=
  match a with
  | AFn i => mkD (d_actions s) (d_done s) (d_disp s) (<[i := Returned true]> (d_callers s)) (d_closer s)
  | AShutdown => mkD (d_actions s) (d_done s) (d_disp s) (d_callers s) CClosing
  end.

Definition set_caller (i : nat) (c : caller) (s : dstate) : dstate :=
  mkD (d_actions s) (d_done s) (d_disp s) (<[i := c]> (d_callers s)) (d_closer s).
Definition set_actions (l : list action) (s : dstate) : dstate :=
  mkD l (d_done s) (d_disp s) (d_callers s) (d_closer s).
Definition set_disp (x : dispatcher) (s : dstate) : dstate :=
  mkD (d_actions s) (d_done s) x (d_callers s) (d_closer s).
Definition set_closer (x : closer) (s : dstate) : dstate :=
  mkD (d_actions s) (d_done s) (d_disp s) (d_callers s) x.

Inductive dstep : dstate → dstate → Prop :=
(** [do]: a new call; the first [select]; the second one *)
| do_enter i s : d_callers s !! i = None → dstep s (set_caller i Start s)
| do_closed i s :
    d_callers s !! i = Some Start → d_done s = true → dstep s (set_caller i (Returned false) s)
| do_open i s :
    d_callers s !! i = Some Start → d_done s = false → dstep s (set_caller i Checked s)
| do_send i s :
    d_callers s !! i = Some Checked → length (d_actions s) < actions_cap →
    dstep s (set_actions (d_actions s ++ [AFn i]) (set_caller i Waiting s))
| do_done i s :
    d_callers s !! i = Some Checked → d_done s = true → dstep s (set_caller i (Returned false) s)
(** [dispatch]: the outer loop and the drain loop *)
| disp_run a l s :
    d_disp s = Running → d_actions s = a :: l → dstep s (run_action a (set_actions l s))
| disp_done s : d_disp s = Running → d_done s = true → dstep s (set_disp Draining s)
| drain_run a l s :
    d_disp s = Draining → d_actions s = a :: l → dstep s (run_action a (set_actions l s))
| drain_exit s : d_disp s = Draining → d_actions s = [] → dstep s (set_disp Exited s)
(** [Close] *)
| close_send s :
    d_closer s = CStart → length (d_actions s) < actions_cap →
    dstep s (set_closer CWaiting (set_actions (d_actions s ++ [AShutdown]) s))
| close_full s :
    d_closer s = CStart → length (d_actions s) = actions_cap → dstep s (set_closer CClosing s)
| close_done s :
    d_closer s = CClosing →
    dstep s (mkD (d_actions s) true (d_disp s) (d_callers s) CDone).

Definition d_init : dstate := mkD [] false Running ∅ CStart.

Inductive dreach (s0 : dstate) : dstate → Prop :=
| dreach_refl : dreach s0 s0
| dreach_step s s' : dreach s0 s → dstep s s' → dreach s0 s'.

(** ** The invariant *)

(** The queue holds one action per waiting caller, and no other. *)
Record dinv (s : dstate) : Prop := {
  inv_wait : ∀ i, d_callers s !! i = Some Waiting ↔ AFn i ∈ d_actions s;
  inv_nodup : NoDup (d_actions s);
  inv_cap : length (d_actions s) <= actions_cap;
  inv_shut : AShutdown ∈ d_actions s → d_closer s = CWaiting;
  inv_done : d_done s = true → d_closer s = CDone;
  inv_disp : d_disp s ≠ Running → d_done s = true;
  inv_ret : ∀ i, d_callers s !! i = Some (Returned false) → d_done s = true
}.

Lemma dinv_init : dinv d_init.
Proof.
  split; simpl; try done; unfold actions_cap; try lia.
  - intros i. rewrite lookup_empty. split; [done|]. by intros H%elem_of_nil.
  - constructor.
  - by intros H%elem_of_nil.
Qed.

(** A caller that changes state without touching the queue. *)
Lemma set_caller_inv i c c' s :
  dinv s → d_callers s !! i = c → c ≠ Some Waiting → c' ≠ Waiting →
  (c' = Returned false → d_done s = true) → dinv (set_caller i c' s).
Proof.
  intros [H1 H2 H3 H4 H5 H6 H7] Hi Hc Hc' Hr. split; simpl; try done.
  - intros j. rewrite lookup_insert. case_decide as E; [subst j|apply H1].
    rewrite <- H1, Hi. split; intros [=]; congruence.
  - intros j. rewrite lookup_insert. case_decide; [intros [= ->]; by apply Hr|apply H7].
Qed.

Lemma run_action_inv a l s :
  dinv s → d_actions s = a :: l → dinv (run_action a (set_actions l s)).
Proof.
  intros [H1 H2 H3 H4 H5 H6 H7] E. rewrite E in *. apply NoDup_cons in H2 as [Ha Hl].
  destruct a as [i|]; split; simpl in *; try done; try lia.
  - intros j. rewrite lookup_insert. case_decide as Ej.
    + subst j. split; [done|]. done.
    + rewrite H1, elem_of_cons. split; [intros [[=]|]; [congruence|done]|by right].
  - intros H. apply H4. by right.
  - intros j. rewrite lookup_insert. case_decide; [done|]. apply H7.
  - intros j. rewrite H1, elem_of_cons. split; [by intros [|]|by right].
  - intros Hd. rewrite H4 in H5 by by left. by discriminate H5.
Qed.

Lemma send_inv i s :
  dinv s → d_callers s !! i = Some Checked → length (d_actions s) < actions_cap →
  dinv (set_actions (d_actions s ++ [AFn i]) (set_caller i Waiting s)).
Proof.
  intros [H1 H2 H3 H4 H5 H6 H7] Hi Hl. split; simpl; try done.
  - intros j. rewrite lookup_insert, elem_of_app, list_elem_of_singleton.
    case_decide as E; [subst j; by intuition|]. rewrite H1.
    split; [by left|]. intros [|[=]]; [done|congruence].
  - apply NoDup_app. split; [done|]. split; [|apply NoDup_singleton].
    intros a Ha ->%list_elem_of_singleton. apply H1 in Ha. congruence.
  - rewrite length_app. simpl. lia.
  - rewrite elem_of_app, list_elem_of_singleton. intros [|]; [by apply H4|done].
  - intros j. rewrite lookup_insert. case_decide; [done|]. apply H7.
Qed.

Lemma close_inv x l d s :
  dinv s → d_actions s = l →
  (x = CWaiting ∧ d_closer s = CStart ∧ d = d_done s) → length l < actions_cap →
  dinv (mkD (l ++ [AShutdown]) d (d_disp s) (d_callers s) x).
Proof.
  intros [H1 H2 H3 H4 H5 H6 H7] <- (-> & Hc & ->) Hl. split; simpl; try done.
  - intros i. rewrite H1, elem_of_app, list_elem_of_singleton. intuition congruence.
  - apply NoDup_app. split; [done|]. split; [|apply NoDup_singleton].
    intros a Ha ->%list_elem_of_singleton. apply H4 in Ha. congruence.
  - rewrite length_app. simpl. lia.
  - intros Hd. rewrite H5 in Hc by done. done.
Qed.

Lemma dstep_inv s s' : dinv s → dstep s s' → dinv s'.
Proof.
  intros Hinv Hs. destruct Hs as [i s Hi|i s Hi Hd|i s Hi Hd|i s Hi Hl|i s Hi Hd
    |a l s Hr Ha|s Hr Hd|a l s Hr Ha|s Hr Ha|s Hc Hl|s Hc Hl|s Hc].
  - by eapply set_caller_inv.
  - by eapply set_caller_inv.
  - by eapply set_caller_inv.
  - by apply send_inv.
  - by eapply set_caller_inv.
  - by apply run_action_inv.
  - destruct Hinv; by split.
  - by apply run_action_inv.
  - destruct Hinv as [? ? ? ? ? H6 ?]. split; try done. intros _. apply H6. simpl. congruence.
  - apply (close_inv CWaiting (d_actions s) (d_done s) s); auto.
  - destruct Hinv as [H1 H2 H3 H4 H5 H6 H7]. split; try done; simpl.
    + intros H%H4. congruence.
    + intros H%H5. congruence.
  - destruct Hinv as [H1 H2 H3 H4 H5 H6 H7]. split; try done; simpl.
    intros H%H4. congruence.
Qed.

Lemma dreach_inv s : dreach d_init s → dinv s.
Proof. induction 1; [apply dinv_init|by eapply dstep_inv]. Qed.

(** ** What the protocol guarantees *)

(** [do] runs its function at most once, and skips it only on a closed PTY.
    In every reachable state the queue holds exactly one action for each waiting
    caller; a caller that returned without running its function saw [done]
    closed; and until the dispatcher has exited, a queued action can always be
    taken, so the caller at the head of the queue is released by the next
    action. *)
Theorem do_protocol s :
  dreach d_init s →
  NoDup (d_actions s) ∧
  (∀ i, d_callers s !! i = Some Waiting ↔ AFn i ∈ d_actions s) ∧
  (∀ i, d_callers s !! i = Some (Returned false) → d_done s = true) ∧
  (∀ i l, d_actions s = AFn i :: l → d_disp s ≠ Exited →
     ∃ s', dstep s s' ∧ d_callers s' !! i = Some (Returned true) ∧ d_actions s' = l).
Proof.
  intros H%dreach_inv. destruct H as [H1 H2 _ _ _ _ H7]. do 3 (split; [done|]).
  intros i l Hl Hd. exists (run_action (AFn i) (set_actions l s)).
  split; [|simpl; by rewrite lookup_insert_eq].
  destruct (d_disp s) eqn:E; [by apply disp_run|by apply drain_run|done].
Qed.

Lemma do_protocol_witness :
  let s := set_actions [AFn 0] (set_caller 0 Waiting (set_caller 0 Checked (set_caller 0 Start d_init))) in
  NoDup (d_actions s) ∧
  (∀ i, d_callers s !! i = Some Waiting ↔ AFn i ∈ d_actions s) ∧
  (∀ i, d_callers s !! i = Some (Returned false) → d_done s = true) ∧
  (∀ i l, d_actions s = AFn i :: l → d_disp s ≠ Exited →
     ∃ s', dstep s s' ∧ d_callers s' !! i = Some (Returned true) ∧ d_actions s' = l).
Proof.
  intros s. apply (do_protocol s).
  eapply dreach_step; [eapply dreach_step; [eapply dreach_step; [apply dreach_refl|]|]|].
  - apply (do_enter 0). reflexivity.
  - apply (do_open 0); reflexivity.
  - apply (do_send 0); [reflexivity|simpl; unfold actions_cap; lia].
Defined.

(** ** The race between [do] and [Close] *)

(** Once the dispatcher has exited with an action in the queue, the queue only
    grows: nobody will run it. *)
Lemma exited_forever i s s' :
  d_disp s = Exited → AFn i ∈ d_actions s → d_callers s !! i = Some Waiting →
  dstep s s' →
  d_disp s' = Exited ∧ AFn i ∈ d_actions s' ∧ d_callers s' !! i = Some Waiting.
Proof.
  intros He Ha Hw Hs.
  assert (∀ j c, d_callers s !! j ≠ Some Waiting → <[j := c]> (d_callers s) !! i = Some Waiting) as Hne.
  { intros j c Hj. rewrite lookup_insert_ne; [done|]. by intros ->. }
  destruct Hs; simpl in *; try congruence; try (split; [done|]); try (split; [set_solver|]);
    try (apply Hne; congruence); done.
Qed.

(** A call of [do] can hang for ever.  It passes its first [select] while
    the PTY is open; [Close] then closes [done] and the dispatcher drains its
    queue and exits; the second [select] finds both of its cases ready, the
    closed [done] and room in the buffer, and may take the send.  Nothing reads
    that action any more: in no continuation does the call return. *)
Theorem do_can_hang :
  ∃ s, dreach d_init s ∧ d_callers s !! 0 = Some Waiting ∧
    ∀ s', dreach s s' → d_callers s' !! 0 = Some Waiting.
Proof.
  set (s1 := set_caller 0 Checked (set_caller 0 Start d_init)).
  set (s2 := set_closer CWaiting (set_actions [AShutdown] s1)).
  set (s3 := run_action AShutdown (set_actions [] s2)).
  set (s4 := mkD (d_actions s3) true (d_disp s3) (d_callers s3) CDone).
  set (s5 := set_disp Exited (set_disp Draining s4)).
  set (s6 := set_actions [AFn 0] (set_caller 0 Waiting s5)).
  exists s6. split; [|split; [reflexivity|]].
  - assert (dreach d_init s1) as H1.
    { eapply dreach_step; [eapply dreach_step; [apply dreach_refl|]|].
      - by apply (do_enter 0).
      - by apply (do_open 0). }
    assert (dreach d_init s2) as H2.
    { eapply dreach_step; [exact H1|]. apply (close_send s1); [done|].
      simpl. unfold actions_cap. lia. }
    assert (dreach d_init s3) as H3 by (eapply dreach_step; [exact H2|]; by apply disp_run).
    assert (dreach d_init s4) as H4 by (eapply dreach_step; [exact H3|]; by apply close_done).
    assert (dreach d_init s5) as H5.
    { eapply dreach_step; [eapply dreach_step; [exact H4|by apply disp_done]|by apply drain_exit]. }
    eapply dreach_step; [exact H5|]. apply (do_send 0); [done|]. simpl. unfold actions_cap. lia.
  - intros s' Hs'. assert (d_disp s' = Exited ∧ AFn 0 ∈ d_actions s' ∧
      d_callers s' !! 0 = Some Waiting) as (_ & _ & H); [|exact H].
    induction Hs' as [|s s' _ (Hd & Ha & Hw) Hstep].
    + split; [done|]. split; [by left|done].
    + by apply (exited_forever 0 s s').
Qed.
