(* ===== verification/Linear.v ===== *)
(** * The PTY behind [do]: its operations are atomic

    [Pty] takes each function passed to [p.do] as one step, and [Dispatcher] shows
    the protocol of goroutines and channels behind [do].  Here the two are put
    together: the goroutines of [Dispatcher], each with the function it was given,
    and the state these functions work on.  Every concurrent history of calls and
    of [Close] is a sequential one ([do_linearizes]); the calls of the PTY are
    then those of [Pty] ([pty_linearizable]). *)
From S2P Require Import Prelude GoBase StreamFilter QueryStripper PrimaryFilter Recorder Recording Terminal Channel Pty PtySafety Delivery PtyLive Dispatcher.

Open Scope nat_scope.

Section linear.
Context {P Rt : Type}.
#[local] Abbreviation body := (P → Rt * P).
Context (allowed : nat → body → Prop).   (** the functions a call may be given *)
Context (shutdown : P → P).              (** the shutdown action of [Close] *)

(** ** The concurrent system *)

Record csys := mkC {
  c_d : dstate;
  c_state : P;
  c_fns : gmap nat body         (** the function each call was given *)
}.

(** Who makes a call: a goroutine inside [do], or the one inside [Close]. *)
Inductive who := Call (i : nat) | Closing.

#[export] Instance who_eq_dec : EqDecision who.
Proof. solve_decision. Defined.

(** What can be seen of a step: a call begins, or it returns.  [do] returns the
    result its function left, or nothing if the function was not run. *)
Inductive label :=
| LCall (w : who)
| LReturn (i : nat) (r : option Rt)
| LClosed
| LInner.

Definition c_init (p : P) : csys := mkC d_init p ∅.

Inductive cstep : csys → label → csys → Prop :=
| c_enter i fn s :
    d_callers (c_d s) !! i = None → allowed i fn →
    cstep s (LCall (Call i)) (mkC (set_caller i Start (c_d s)) (c_state s) (<[i := fn]> (c_fns s)))
| c_open i s :
    d_callers (c_d s) !! i = Some Start → d_done (c_d s) = false →
    cstep s LInner (mkC (set_caller i Checked (c_d s)) (c_state s) (c_fns s))
| c_send i s :
    d_callers (c_d s) !! i = Some Checked → length (d_actions (c_d s)) < actions_cap →
    cstep s LInner (mkC (set_actions (d_actions (c_d s) ++ [AFn i]) (set_caller i Waiting (c_d s))) (c_state s) (c_fns s))
(** both [select]s of [do]: the PTY is closed, the function is not run *)
| c_skip i x s :
    d_callers (c_d s) !! i = Some x → (x = Start ∨ x = Checked) → d_done (c_d s) = true →
    cstep s (LReturn i None) (mkC (set_caller i (Returned false) (c_d s)) (c_state s) (c_fns s))
(** [dispatch] runs an action, in its outer loop or in its drain loop *)
| c_run i fn l s :
    d_disp (c_d s) ≠ Exited → d_actions (c_d s) = AFn i :: l → c_fns s !! i = Some fn →
    cstep s (LReturn i (Some (fn (c_state s)).1))
      (mkC (run_action (AFn i) (set_actions l (c_d s))) (fn (c_state s)).2 (c_fns s))
| c_shutdown l s :
    d_disp (c_d s) ≠ Exited → d_actions (c_d s) = AShutdown :: l →
    cstep s LInner (mkC (run_action AShutdown (set_actions l (c_d s))) (shutdown (c_state s)) (c_fns s))
| c_drain s :
    d_disp (c_d s) = Running → d_done (c_d s) = true →
    cstep s LInner (mkC (set_disp Draining (c_d s)) (c_state s) (c_fns s))
| c_exit s :
    d_disp (c_d s) = Draining → d_actions (c_d s) = [] →
    cstep s LInner (mkC (set_disp Exited (c_d s)) (c_state s) (c_fns s))
(** [Close] *)
| c_close s :
    d_closer (c_d s) = CStart → length (d_actions (c_d s)) < actions_cap →
    cstep s (LCall Closing)
      (mkC (set_closer CWaiting (set_actions (d_actions (c_d s) ++ [AShutdown]) (c_d s))) (c_state s) (c_fns s))
| c_close_full s :
    d_closer (c_d s) = CStart → length (d_actions (c_d s)) = actions_cap →
    cstep s (LCall Closing) (mkC (set_closer CClosing (c_d s)) (c_state s) (c_fns s))
| c_closed s :
    d_closer (c_d s) = CClosing →
    cstep s LClosed
      (mkC (mkD (d_actions (c_d s)) true (d_disp (c_d s)) (d_callers (c_d s)) CDone) (c_state s) (c_fns s)).

(** It is [Dispatcher] with a state: the same steps, no fewer. *)
Lemma cstep_dstep s l s' : cstep s l s' → dstep (c_d s) (c_d s').
Proof.
  destruct 1 as [i fn s Hi|i s Hi Hd|i s Hi Hl|i x s Hi [-> | ->] Hd|i fn l s Hd Ha Hf|l s Hd Ha|s Hr Hd|s Hr Ha|s Hc Hl|s Hc Hl|s Hc]; cbn [c_d];
    first [by constructor|by eapply do_closed|by eapply do_done|idtac].
  - destruct (d_disp (c_d s)) eqn:E; [by apply disp_run|by apply drain_run|done].
  - destruct (d_disp (c_d s)) eqn:E; [by apply disp_run|by apply drain_run|done].
Qed.

Lemma dstep_cstep s d' (fn : body) :
  (∀ i, allowed i fn) → (∀ i, d_callers (c_d s) !! i = Some Waiting → is_Some (c_fns s !! i)) → dinv (c_d s) → dstep (c_d s) d' →
  ∃ l s', cstep s l s' ∧ c_d s' = d'.
Proof.
  destruct s as [d p fns]. cbn [c_d c_fns]. intros Hok Hf Hi E.
  assert (∀ a l, d_disp d ≠ Exited → d_actions d = a :: l → ∃ lb s', cstep (mkC d p fns) lb s' ∧ c_d s' = run_action a (set_actions l d)) as Hrun.
  { intros a l Hd Ha. destruct a as [i|]; [|eexists _, _; split; [by eapply (c_shutdown l (mkC d p fns))|done]].
    destruct (Hf i) as [f Hfi]; [apply Hi; rewrite Ha; by left|]. eexists _, _. split; [by eapply (c_run i f l (mkC d p fns))|done]. }
  destruct E as [i d Hn|i d Hn Hd|i d Hn Hd|i d Hn Hl|i d Hn Hd|a l d Hr Ha|d Hr Hd|a l d Hr Ha|d Hr Ha|d Hc Hl|d Hc Hl|d Hc];
    try (apply Hrun; [congruence|done]); eexists _, _.
  - split; [by eapply (c_enter i fn (mkC d p fns))|done].
  - split; [by eapply (c_skip i Start (mkC d p fns)); [|left|]|done].
  - split; [by eapply (c_open i (mkC d p fns))|done].
  - split; [by eapply (c_send i (mkC d p fns))|done].
  - split; [by eapply (c_skip i Checked (mkC d p fns)); [|right|]|done].
  - split; [by eapply (c_drain (mkC d p fns))|done].
  - split; [by eapply (c_exit (mkC d p fns))|done].
  - split; [by eapply (c_close (mkC d p fns))|done].
  - split; [by eapply (c_close_full (mkC d p fns))|done].
  - split; [by eapply (c_closed (mkC d p fns))|done].
Qed.

(** ** Histories *)

Inductive history (s0 : csys) : list label → csys → Prop :=
| history_nil : history s0 [] s0
| history_snoc tr s l s' : history s0 tr s → cstep s l s' → history s0 (tr ++ [l]) s'.

Definition returns (tr : list label) : list (nat * option Rt) :=
  tr ≫= λ l, match l with LReturn i r => [(i, r)] | _ => [] end.

Definition ended (w : who) (tr : list label) : Prop :=
  match w with Call i => ∃ r, LReturn i r ∈ tr | Closing => LClosed ∈ tr end.

(** Real time: [a] had returned when [b] was called. *)
Definition before (tr : list label) (a b : who) : Prop :=
  ∃ t1 t2, tr = t1 ++ LCall b :: t2 ∧ ended a t1.

Lemma snoc_split {A} (l : list A) x t1 y t2 :
  l ++ [x] = t1 ++ y :: t2 → (x = y ∧ t1 = l ∧ t2 = []) ∨ ∃ t2', t2 = t2' ++ [x] ∧ l = t1 ++ y :: t2'.
Proof.
  destruct t2 as [|z t2 _] using rev_ind; intros E.
  - apply app_inj_tail in E as [-> ->]. by left.
  - right. exists t2. rewrite app_comm_cons, app_assoc in E. by apply app_inj_tail in E as [-> ->].
Qed.

Lemma before_snoc tr l a b : before (tr ++ [l]) a b → before tr a b ∨ (l = LCall b ∧ ended a tr).
Proof.
  intros (t1 & t2 & E & H). apply snoc_split in E as [(-> & -> & ->)|(t2' & -> & ->)]; [by right|left]. by exists t1, t2'.
Qed.

Lemma returns_snoc tr l : returns (tr ++ [l]) = returns tr ++ match l with LReturn i r => [(i, r)] | _ => [] end.
Proof. unfold returns. rewrite bind_app. cbn. by rewrite app_nil_r. Qed.

(** What the history says of the state of the goroutines. *)
Record hist (tr : list label) (s : csys) : Prop := {
  h_d : dinv (c_d s);
  h_fns : ∀ i x, d_callers (c_d s) !! i = Some x → is_Some (c_fns s !! i);
  h_ret : ∀ i r, LReturn i r ∈ tr → d_callers (c_d s) !! i = Some (Returned (bool_decide (is_Some r)));
  h_closed : LClosed ∈ tr ↔ d_done (c_d s) = true;
  h_skip : ∀ t1 t2 i, tr = t1 ++ t2 → LReturn i None ∈ t1 → LClosed ∈ t1;
  h_late : ∀ t1 t2 i, tr = t1 ++ LCall (Call i) :: t2 → LClosed ∈ t1 →
    d_callers (c_d s) !! i = Some Start ∨ d_callers (c_d s) !! i = Some (Returned false);
  h_allowed : ∀ i fn, c_fns s !! i = Some fn → allowed i fn
}.

Lemma hist_init p : hist [] (c_init p).
Proof.
  split; cbn; try done; [apply dinv_init|by intros i r ?%elem_of_nil|by split; [intros ?%elem_of_nil|]|..].
  - by intros [|] t2 i E H; [apply elem_of_nil in H|].
  - by intros [|] t2 i E.
Qed.

Lemma head_waiting i l s : dinv (c_d s) → d_actions (c_d s) = AFn i :: l → d_callers (c_d s) !! i = Some Waiting.
Proof. intros Hi Ha. apply Hi. rewrite Ha. by left. Qed.

(** The callers a step leaves alone. *)
Lemma cstep_callers s l s' j :
  dinv (c_d s) → cstep s l s' →
  d_callers (c_d s') !! j = d_callers (c_d s) !! j ∨
  match l with LReturn i r => i = j ∧ d_callers (c_d s') !! j = Some (Returned (bool_decide (is_Some r))) | _ =>
    match d_callers (c_d s) !! j with
    | None => d_callers (c_d s') !! j = Some Start
    | Some Start => d_done (c_d s) = false ∧ d_callers (c_d s') !! j = Some Checked
    | Some Checked => d_callers (c_d s') !! j = Some Waiting
    | _ => False
    end end.
Proof.
  intros Hd E. destruct E as [i fn s Hi|i s Hi Hnd|i s Hi Hl|i x s Hi Hx Hdn|i fn l s Hn Ha Hf|l s Hn Ha|s Hr Hdn|s Hr Ha|s Hc Hl|s Hc Hl|s Hc];
    cbn; try (by left); (destruct (decide (i = j)) as [<-|Hij]; [right; rewrite ?Hi, lookup_insert_eq; done|left; by rewrite lookup_insert_ne]).
Qed.

Lemma cstep_done s l s' :
  cstep s l s' → (l = LClosed ∧ d_done (c_d s') = true) ∨ (l ≠ LClosed ∧ d_done (c_d s') = d_done (c_d s)).
Proof. destruct 1; cbn; by auto. Qed.

Lemma cstep_fns s l s' i fn : cstep s l s' → c_fns s !! i = Some fn → is_Some (d_callers (c_d s) !! i) → c_fns s' !! i = Some fn.
Proof.
  intros E Hf [x Hx]. destruct E as [j f s Hj| | | | | | | | | |]; try done. cbn. rewrite lookup_insert_ne; [done|]. by intros ->; congruence.
Qed.

(** Where a caller is when it returns; and it returns once. *)
Lemma cstep_return s i r s' :
  dinv (c_d s) → cstep s (LReturn i r) s' →
  (∀ b, d_callers (c_d s) !! i ≠ Some (Returned b)) ∧ d_callers (c_d s') !! i = Some (Returned (bool_decide (is_Some r))) ∧
  match r with None => d_done (c_d s) = true | Some _ => d_callers (c_d s) !! i = Some Waiting end.
Proof.
  intros Hd E. remember (LReturn i r) as lb eqn:El.
  destruct E as [j fn s Hi|j s Hi Hnd|j s Hi Hl|j x s Hi Hx Hdn|j fn l s Hn Ha Hf|l s Hn Ha|s Hr Hdn|s Hr Ha|s Hc Hl|s Hc Hl|s Hc]; try discriminate El; injection El as -> <-;
    cbn [c_d run_action d_callers set_caller]; rewrite lookup_insert_eq.
  - split; [|done]. intros b Hb. by destruct Hx as [-> | ->]; congruence.
  - pose proof (head_waiting _ _ _ Hd Ha) as Hw. split; [by intros b; rewrite Hw|done].
Qed.

(** A caller that is there was given a function. *)
Lemma cstep_given s l s' i x :
  dinv (c_d s) → cstep s l s' → d_callers (c_d s) !! i = None → d_callers (c_d s') !! i = Some x → is_Some (c_fns s' !! i).
Proof.
  intros Hd E Hn Hx. assert (∀ j y (m : gmap nat caller), m !! i = None → <[j := y]> m !! i = Some x → m !! j ≠ None → False) as Hne.
  { intros j y m Hm Hj Hj'. destruct (decide (j = i)) as [->|]; [done|]. rewrite lookup_insert_ne in Hj by done. congruence. }
  destruct E as [j fn s Hi|j s Hi Hnd|j s Hi Hl|j z s Hi Hz Hdn|j fn l s Hnx Ha Hf|l s Hnx Ha|s Hr Hdn|s Hr Ha|s Hc Hl|s Hc Hl|s Hc]; cbn in *; try congruence.
  - destruct (decide (j = i)) as [->|]; [rewrite lookup_insert_eq; by eexists|]. rewrite lookup_insert_ne in Hx by done. congruence.
  - exfalso. eapply Hne; [done..|congruence].
  - exfalso. eapply Hne; [done..|congruence].
  - exfalso. eapply Hne; [done..|congruence].
  - exfalso. eapply Hne; [done..|]. by rewrite (head_waiting _ _ _ Hd Ha).
Qed.

Lemma hist_step tr s l s' : hist tr s → cstep s l s' → hist (tr ++ [l]) s'.
Proof.
  intros [Hd Hf Hr Hc Hs Hl Hal] E. pose proof (λ j, cstep_callers _ _ _ j Hd E) as Hj. pose proof (cstep_done _ _ _ E) as Hdn. split.
  - eapply dstep_inv; [exact Hd|]. by eapply cstep_dstep.
  - intros i x Hx. destruct (d_callers (c_d s) !! i) as [y|] eqn:Ey.
    + destruct (Hf i y Ey) as [fn Hfn]. exists fn. eapply cstep_fns; [done..|by eexists].
    + by eapply cstep_given.
  - intros i r [Hin|<-%list_elem_of_singleton]%elem_of_app; [|by destruct (cstep_return _ _ _ _ Hd E) as (_ & ? & _)].
    specialize (Hr i r Hin). destruct (Hj i) as [-> |Hx]; [done|]. destruct l; try (by rewrite Hr in Hx). destruct Hx as [-> Hx].
    destruct (cstep_return _ _ _ _ Hd E) as (Hn & _). by destruct (Hn _ Hr).
  - rewrite elem_of_app, list_elem_of_singleton, Hc. destruct Hdn as [[-> ->]|[Hn ->]]; [by split; auto|]. split; [by intros [?|<-]|by left].
  - intros t1 t2 i Et Hin. destruct t2 as [|x t2 _] using rev_ind.
    + rewrite app_nil_r in Et. subst t1. rewrite elem_of_app, list_elem_of_singleton in *. left. destruct Hin as [Hin|<-]; [by apply (Hs tr [] i); [rewrite app_nil_r|]|].
      apply Hc. by destruct (cstep_return _ _ _ _ Hd E) as (_ & _ & ?).
    + rewrite app_assoc in Et. apply app_inj_tail in Et as [-> ->]. by apply (Hs t1 t2 i).
  - intros t1 t2 i Et Hin. apply snoc_split in Et as [(-> & -> & ->)|(t2' & -> & ->)].
    + left. remember (LCall (Call i)) as lb eqn:El. destruct E; try discriminate El. injection El as ->. cbn. by rewrite lookup_insert_eq.
    + assert (d_done (c_d s) = true) as Hdone by (apply Hc; rewrite elem_of_app; by left).
      pose proof (Hl t1 t2' i eq_refl Hin) as Hx. destruct (Hj i) as [-> |Hy]; [done|].
      assert (match l with LReturn k r => r = None | _ => True end) as Hn.
      { destruct l as [w|k r| |]; try done. destruct r; [|done]. destruct Hy as [<- _]. destruct (cstep_return _ _ _ _ Hd E) as (_ & _ & ?). by destruct Hx; congruence. }
      destruct l as [w|k r| |]; [..|right; subst r; by destruct Hy| |]; destruct Hx as [Hx|Hx]; rewrite Hx in Hy; by naive_solver congruence.
  - destruct E; try exact Hal. intros j f. cbn. rewrite lookup_insert. case_decide as Hj'; [intros [= <-]; by rewrite <- Hj'|apply Hal].
Qed.

Lemma history_hist p tr s : history (c_init p) tr s → hist tr s.
Proof. induction 1; [apply hist_init|by eapply hist_step]. Qed.

(** ** The sequential object *)

(** One call at a time; [Close] in two operations, its shutdown action and the
    closing of [done]. *)
Inductive seq_op := ODo (i : nat) (fn : body) | OShutdown | OClosed.

Definition op_who (op : seq_op) : who := match op with ODo i _ => Call i | _ => Closing end.

(** A function runs if [done] is open. *)
Definition seq_step (op : seq_op) (q : P * bool) : list (nat * option Rt) * (P * bool) :=
  match op with
  | ODo i fn =>
      if q.2 then ([(i, None)], q) else let '(r, p) := fn q.1 in ([(i, Some r)], (p, false))
  | OShutdown => ([], (shutdown q.1, q.2))
  | OClosed => ([], (q.1, true))
  end.

Fixpoint seq_run (l : list seq_op) (q : P * bool) : list (nat * option Rt) * (P * bool) :=
  match l with
  | [] => ([], q)
  | op :: l' => let '(o1, q1) := seq_step op q in let '(o2, q2) := seq_run l' q1 in (o1 ++ o2, q2)
  end.

Lemma seq_run_app l1 l2 q :
  seq_run (l1 ++ l2) q = let '(o1, q1) := seq_run l1 q in let '(o2, q2) := seq_run l2 q1 in (o1 ++ o2, q2).
Proof.
  revert q. induction l1 as [|op l1 IH]; intros q; cbn; [by destruct (seq_run l2 q)|].
  destruct (seq_step op q) as [o q1]. rewrite IH. destruct (seq_run l1 q1) as [o1 q2], (seq_run l2 q2) as [o2 q3]. by rewrite app_assoc.
Qed.

(** Calls that come too late leave the state alone. *)
Definition skipped (op : seq_op) : Prop := match op with ODo _ _ => True | _ => False end.

Definition skip_outs (l : list seq_op) : list (nat * option Rt) :=
  l ≫= λ op, match op with ODo i _ => [(i, None)] | _ => [] end.

Lemma seq_run_closed l p : Forall skipped l → seq_run l (p, true) = (skip_outs l, (p, true)).
Proof. induction 1 as [|op l Ho _ IH]; [done|]. destruct op as [i fn| |]; [|done..]. cbn. by rewrite IH. Qed.

(** All that [a] does comes before all that [b] does. *)
Definition ordered (l : list seq_op) (a b : who) : Prop :=
  ∃ l1 l2, l = l1 ++ l2 ∧ Forall (λ op, op_who op ≠ b) l1 ∧ Forall (λ op, op_who op ≠ a) l2.

Lemma ordered_insert x y op a b : ordered (x ++ y) a b → op_who op ≠ a → op_who op ≠ b → ordered (x ++ op :: y) a b.
Proof.
  intros (l1 & l2 & E & H1 & H2) Ha Hb. apply app_eq_app in E as [l [[-> ->]|[-> ->]]].
  - apply Forall_app in H2 as [H2 H3]. exists l1, (l ++ op :: y). rewrite <- app_assoc. split; [done|]. split; [done|]. apply Forall_app. by repeat constructor.
  - apply Forall_app in H1 as [H1 H3]. exists (x ++ op :: l), l2. rewrite <- app_assoc. split; [done|]. split; [|done]. apply Forall_app. by repeat constructor.
Qed.

Lemma ordered_last l op a b : ordered l a b → op_who op ≠ a → ordered (l ++ [op]) a b.
Proof.
  intros (l1 & l2 & -> & H1 & H2) Ha. exists l1, (l2 ++ [op]). rewrite app_assoc. split; [done|]. split; [done|]. apply Forall_app. by repeat constructor.
Qed.

(** Facts about calls that keep as the system goes on. *)
Lemma returned_stays s l s' i b fn :
  dinv (c_d s) → cstep s l s' → d_callers (c_d s) !! i = Some (Returned b) → c_fns s !! i = Some fn →
  d_callers (c_d s') !! i = Some (Returned b) ∧ c_fns s' !! i = Some fn.
Proof.
  intros Hd E Hi Hf. split; [|by eapply cstep_fns; [done..|eexists]]. destruct (cstep_callers _ _ _ i Hd E) as [-> |Hx]; [done|].
  destruct l as [w|k r| |]; try (by rewrite Hi in Hx). destruct Hx as [-> _]. destruct (cstep_return _ _ _ _ Hd E) as (Hn & _). by destruct (Hn b).
Qed.

(** The closing of [done], once it is closed. *)
Definition close_op (d : bool) : list seq_op := if d then [OClosed] else [].

Definition ran_ok (s : csys) (op : seq_op) : Prop :=
  match op with
  | ODo i fn => d_callers (c_d s) !! i = Some (Returned true) ∧ c_fns s !! i = Some fn
  | OShutdown => d_closer (c_d s) = CClosing ∨ d_closer (c_d s) = CDone
  | OClosed => False
  end.

Definition skip_ok (s : csys) (op : seq_op) : Prop :=
  ∃ i fn, op = ODo i fn ∧ d_callers (c_d s) !! i = Some (Returned false) ∧ c_fns s !! i = Some fn.

Lemma cstep_closer s l s' :
  dinv (c_d s) → cstep s l s' → d_closer (c_d s) = CClosing ∨ d_closer (c_d s) = CDone →
  d_closer (c_d s') = CClosing ∨ d_closer (c_d s') = CDone.
Proof. intros Hd E. destruct E; cbn; try done; intros [H'|H']; try congruence; by auto. Qed.

Lemma ran_ok_step s l s' op : dinv (c_d s) → cstep s l s' → ran_ok s op → ran_ok s' op.
Proof.
  intros Hd E. destruct op as [i fn| |]; cbn; [|by eapply cstep_closer|done]. intros [H1 H2]. by eapply returned_stays.
Qed.

Lemma skip_ok_step s l s' op : dinv (c_d s) → cstep s l s' → skip_ok s op → skip_ok s' op.
Proof. intros Hd E (i & fn & -> & H1 & H2). exists i, fn. split; [done|]. by eapply returned_stays. Qed.

(** A call that begins has done nothing yet. *)
Lemma fresh_call s w s' op :
  dinv (c_d s) → cstep s (LCall w) s' → ran_ok s op ∨ skip_ok s op ∨ op ∈ close_op (d_done (c_d s)) → op_who op ≠ w.
Proof.
  intros Hd E Hop. remember (LCall w) as lb eqn:El. destruct E as [i fn s Hi| | | | | | | |s Hc _|s Hc _|]; try discriminate El; injection El as <-.
  - destruct op as [j f| |]; try done. intros [= ->]. destruct Hop as [[Hr _]|[(? & ? & [= <- <-] & Hr & _)|Hin]]; [congruence..|].
    destruct (d_done (c_d s)); cbn in Hin; [by apply list_elem_of_singleton in Hin|by apply elem_of_nil in Hin].
  - assert (d_done (c_d s) = false) as Hn by (destruct (d_done (c_d s)) eqn:E; [|done]; pose proof (inv_done _ Hd E); congruence). rewrite Hn in Hop.
    destruct op as [j f| |]; [done|..]; intros _; destruct Hop as [Hr|[(? & ? & [=] & _)|Hin%elem_of_nil]]; try done; cbn in Hr; destruct Hr; congruence.
  - assert (d_done (c_d s) = false) as Hn by (destruct (d_done (c_d s)) eqn:E; [|done]; pose proof (inv_done _ Hd E); congruence). rewrite Hn in Hop.
    destruct op as [j f| |]; [done|..]; intros _; destruct Hop as [Hr|[(? & ? & [=] & _)|Hin%elem_of_nil]]; try done; cbn in Hr; destruct Hr; congruence.
Qed.

(** A call that has returned was run, or was skipped after [done] was closed. *)
Lemma ended_case tr s i t1 t2 r :
  hist tr s → tr = t1 ++ t2 → LReturn i r ∈ t1 →
  d_callers (c_d s) !! i = Some (Returned true) ∨ (d_callers (c_d s) !! i = Some (Returned false) ∧ LClosed ∈ t1).
Proof.
  intros [_ _ Hr _ Hs _ _] Et Hin. rewrite (Hr i r) by (rewrite Et; apply elem_of_app; by left). destruct r; cbn; [by left|right]. split; [done|]. by apply (Hs t1 t2 i).
Qed.

(** Nothing that [a] does comes after what was run, if [a] had returned before a
    call that is still to be run was made. *)
Lemma ended_ran tr s sk a t1 t2 i :
  hist tr s → Forall (skip_ok s) sk → tr = t1 ++ LCall (Call i) :: t2 → ended a t1 → d_callers (c_d s) !! i = Some Waiting →
  Forall (λ op, op_who op ≠ a) (close_op (d_done (c_d s)) ++ sk).
Proof.
  intros Hh Hsk Et Ha Hi. assert (LClosed ∉ t1) as Hn by (intros Hc; destruct (h_late _ _ Hh t1 t2 i Et Hc); congruence).
  destruct a as [k|]; [|by destruct Hn]. destruct Ha as [r Hr]. destruct (ended_case _ _ _ _ _ _ Hh Et Hr) as [Hk|[_ Hc]]; [|by destruct Hn].
  apply Forall_app. split; [by destruct (d_done _); repeat constructor|]. eapply Forall_impl; [exact Hsk|]. intros op (j & fn & -> & Hj & _) [= ->]. congruence.
Qed.

(** ** The order in which they seem to happen *)

(** First the functions that were run, in the order they were run, with the
    shutdown action; then [done] is closed; then the calls that were skipped. *)
Record lin (p : P) (tr : list label) (s : csys) (ran sk : list seq_op) : Prop := {
  li_hist : hist tr s;
  li_run : ∃ o, seq_run ran (p, false) = (o, (c_state s, false)) ∧ returns tr ≡ₚ o ++ skip_outs sk;
  li_ran : Forall (ran_ok s) ran;
  li_sk : Forall (skip_ok s) sk;
  li_order : ∀ a b, before tr a b → ordered (ran ++ close_op (d_done (c_d s)) ++ sk) a b
}.

Lemma lin_init p : lin p [] (c_init p) [] [].
Proof.
  split; [apply hist_init|by exists []|constructor|constructor|]. intros a b (t1 & t2 & E & _). by destruct t1.
Qed.

Lemma skipped_done p tr s ran sk : lin p tr s ran sk → sk ≠ [] → d_done (c_d s) = true.
Proof.
  intros [[Hd _ _ _ _ _ _] _ _ Hs _] Hn. destruct Hs as [|op sk (i & fn & _ & Hi & _) _]; [done|]. by eapply inv_ret.
Qed.


(** A step that runs nothing and skips nothing. *)
Lemma lin_quiet p tr s l s' ran sk :
  lin p tr s ran sk → cstep s l s' → c_state s' = c_state s → match l with LCall _ | LInner => True | _ => False end →
  lin p (tr ++ [l]) s' ran sk.
Proof.
  intros [Hh (o & Ho & Hret) Hr Hs Hor] E Est Hl. pose proof (h_d _ _ Hh) as Hd. pose proof (cstep_done _ _ _ E) as [[-> _]|[_ Edn]]; [done|]. split.
  - by eapply hist_step.
  - exists o. rewrite Est, returns_snoc. split; [done|]. destruct l; try done; by rewrite app_nil_r.
  - eapply Forall_impl; [exact Hr|]. intros op. by eapply ran_ok_step.
  - eapply Forall_impl; [exact Hs|]. intros op. by eapply skip_ok_step.
  - rewrite Edn. intros a b [Hb|[-> Ha]]%before_snoc; [by apply Hor|].
    exists (ran ++ close_op (d_done (c_d s)) ++ sk), []. rewrite app_nil_r. split; [done|]. split; [|constructor].
    rewrite !Forall_app. repeat split; apply Forall_forall; intros op Hin; eapply fresh_call; try done.
    + left. by eapply Forall_forall in Hr.
    + by right; right.
    + right; left. by eapply Forall_forall in Hs.
Qed.

Lemma before_return tr i (r : option Rt) a b : before (tr ++ [LReturn i r]) a b → before tr a b.
Proof. by intros [H|[[=] _]]%before_snoc. Qed.

(** A call that has not returned precedes none. *)
Lemma before_ended tr s i a b :
  hist tr s → before tr a b → (∀ x, d_callers (c_d s) !! i ≠ Some (Returned x)) → a ≠ Call i.
Proof.
  intros Hh (t1 & t2 & -> & Ha) Hi ->. destruct Ha as [r Hr]. eapply Hi, (h_ret _ _ Hh i r). apply elem_of_app. by left.
Qed.

Lemma lin_skip p tr s i s' ran sk : lin p tr s ran sk → cstep s (LReturn i None) s' → ∃ op, lin p (tr ++ [LReturn i None]) s' ran (sk ++ [op]).
Proof.
  intros [Hh (o & Ho & Hret) Hr Hs Hor] E. pose proof (h_d _ _ Hh) as Hd. destruct (cstep_return _ _ _ _ Hd E) as (Hn & Hi & Hdn).
  assert (c_state s' = c_state s ∧ is_Some (d_callers (c_d s) !! i)) as [Est [x Hx]].
  { remember (LReturn i None) as lb eqn:El. destruct E; try discriminate El; by injection El as ->. }
  destruct (h_fns _ _ Hh i x Hx) as [fn Hfn]. exists (ODo i fn). pose proof (cstep_done _ _ _ E) as [[[=] _]|[_ Edn]]. split.
  - by eapply hist_step.
  - exists o. rewrite Est, returns_snoc, Hret. split; [done|]. unfold skip_outs. by rewrite bind_app, app_assoc.
  - eapply Forall_impl; [exact Hr|]. intros op. by eapply ran_ok_step.
  - apply Forall_app. split; [eapply Forall_impl; [exact Hs|]; intros op; by eapply skip_ok_step|]. repeat constructor. exists i, fn.
    split; [done|]. split; [done|]. eapply cstep_fns; [done..|by eexists].
  - rewrite Edn. intros a b Hb%before_return. rewrite !app_assoc. apply ordered_last; [rewrite <- app_assoc; by apply Hor|]. cbn.
    intros <-. by eapply (before_ended _ _ i).
Qed.

Lemma lin_run p tr s i r s' ran sk : lin p tr s ran sk → cstep s (LReturn i (Some r)) s' → ∃ op, lin p (tr ++ [LReturn i (Some r)]) s' (ran ++ [op]) sk.
Proof.
  intros [Hh (o & Ho & Hret) Hr Hs Hor] E. pose proof (h_d _ _ Hh) as Hd. destruct (cstep_return _ _ _ _ Hd E) as (Hn & Hi & Hw).
  assert (∃ fn, c_fns s !! i = Some fn ∧ fn (c_state s) = (r, c_state s')) as (fn & Hfn & Hrun).
  { remember (LReturn i (Some r)) as lb eqn:El. destruct E; try discriminate El. injection El as -> <-. eexists. split; [done|]. cbn. by destruct (fn _). }
  exists (ODo i fn). pose proof (cstep_done _ _ _ E) as [[[=] _]|[_ Edn]]. split.
  - by eapply hist_step.
  - exists (o ++ [(i, Some r)]). rewrite seq_run_app, Ho. cbn. rewrite Hrun. split; [done|]. rewrite returns_snoc, Hret. solve_Permutation.
  - apply Forall_app. split; [eapply Forall_impl; [exact Hr|]; intros op; by eapply ran_ok_step|]. repeat constructor; [done|].
    eapply cstep_fns; [done..|by eexists].
  - eapply Forall_impl; [exact Hs|]. intros op. by eapply skip_ok_step.
  - rewrite Edn. intros a b Hb%before_return. rewrite <- app_assoc. cbn [app]. assert (a ≠ Call i) as Hai by (by eapply before_ended).
    destruct (decide (b = Call i)) as [->|Hbi]; [|apply ordered_insert; [by apply Hor|cbn; congruence..]].
    destruct Hb as (t1 & t2 & Et & Ha). exists ran, (ODo i fn :: close_op (d_done (c_d s)) ++ sk). split; [done|]. split.
    + eapply Forall_impl; [exact Hr|]. intros [j f| |] Hj; cbn in *; [|done..]. intros [= ->]. destruct Hj as [Hj _]. congruence.
    + constructor; [cbn; congruence|]. by eapply ended_ran.
Qed.

Lemma lin_not_done p tr s ran sk : lin p tr s ran sk → d_closer (c_d s) ≠ CDone → d_done (c_d s) = false ∧ sk = [].
Proof.
  intros H Hc. assert (d_done (c_d s) = false) as Hd.
  { destruct (d_done (c_d s)) eqn:E; [|done]. by destruct (Hc (inv_done _ (h_d _ _ (li_hist _ _ _ _ _ H)) E)). }
  split; [done|]. destruct sk as [|op sk]; [done|]. by rewrite (skipped_done _ _ _ _ _ H) in Hd.
Qed.

(** [Close] has not returned. *)
Lemma closing_open tr s a b : hist tr s → d_done (c_d s) = false → before tr a b → a ≠ Closing.
Proof.
  intros Hh Hd (t1 & t2 & -> & Ha) ->. assert (d_done (c_d s) = true) as Hx; [|congruence]. apply (h_closed _ _ Hh), elem_of_app. by left.
Qed.

Lemma lin_shutdown p tr s l s' ran sk :
  lin p tr s ran sk → cstep s LInner s' → d_disp (c_d s) ≠ Exited → d_actions (c_d s) = AShutdown :: l →
  s' = mkC (run_action AShutdown (set_actions l (c_d s))) (shutdown (c_state s)) (c_fns s) →
  lin p (tr ++ [LInner]) s' (ran ++ [OShutdown]) sk.
Proof.
  intros H E Hdi Ha Es. pose proof H as [Hh (o & Ho & Hret) Hr Hs Hor]. pose proof (h_d _ _ Hh) as Hd.
  assert (d_closer (c_d s) = CWaiting) as Hcl by (apply Hd; rewrite Ha; by left). destruct (lin_not_done _ _ _ _ _ H) as [Hdn ->]; [congruence|].
  pose proof (cstep_done _ _ _ E) as [[[=] _]|[_ Edn]]. split.
  - by eapply hist_step.
  - exists o. rewrite seq_run_app, Ho. cbn. rewrite app_nil_r, returns_snoc, !app_nil_r in *. by rewrite Es.
  - apply Forall_app. split; [eapply Forall_impl; [exact Hr|]; intros op; by eapply ran_ok_step|]. repeat constructor. by rewrite Es.
  - constructor.
  - rewrite Edn, Hdn. cbn [close_op]. rewrite !app_nil_r. rewrite Hdn in Hor. cbn [close_op] in Hor. rewrite !app_nil_r in Hor.
    intros a b [Hb|[[=] _]]%before_snoc. apply ordered_last; [by apply Hor|]. cbn. intros <-. by eapply closing_open.
Qed.

Lemma lin_closed p tr s s' ran sk : lin p tr s ran sk → cstep s LClosed s' → lin p (tr ++ [LClosed]) s' ran sk.
Proof.
  intros H E. pose proof H as [Hh (o & Ho & Hret) Hr Hs Hor]. pose proof (h_d _ _ Hh) as Hd.
  assert (d_closer (c_d s) = CClosing ∧ c_state s' = c_state s ∧ d_done (c_d s') = true) as (Hcl & Est & Edn).
  { remember LClosed as lb eqn:El. by destruct E. }
  destruct (lin_not_done _ _ _ _ _ H) as [Hdn ->]; [congruence|]. rewrite Hdn in Hor. cbn [close_op] in Hor. rewrite !app_nil_r in Hor. split.
  - by eapply hist_step.
  - exists o. by rewrite Est, returns_snoc, app_nil_r.
  - eapply Forall_impl; [exact Hr|]. intros op. by eapply ran_ok_step.
  - constructor.
  - rewrite Edn. cbn [close_op]. rewrite app_nil_r. intros a b [Hb|[[=] _]]%before_snoc. apply ordered_last; [by apply Hor|]. cbn. intros <-. by eapply closing_open.
Qed.

Lemma lin_step p tr s l s' ran sk : lin p tr s ran sk → cstep s l s' → ∃ ran' sk', lin p (tr ++ [l]) s' ran' sk'.
Proof.
  intros H E. destruct l as [w|i [r|]| |].
  - exists ran, sk. eapply lin_quiet; [done..| |done]. remember (LCall w) as lb eqn:El. by destruct E.
  - destruct (lin_run _ _ _ _ _ _ _ _ H E) as [op Hop]. by eexists _, _.
  - destruct (lin_skip _ _ _ _ _ _ _ H E) as [op Hop]. by eexists _, _.
  - exists ran, sk. by eapply lin_closed.
  - pose proof E as E'. remember LInner as lb eqn:El.
    destruct E as [i fn s Hi|i s Hi Hnd|i s Hi Hl|i x s Hi Hx Hdn|i fn l s Hn Ha Hf|l s Hn Ha|s Hr Hdn|s Hr Ha|s Hc Hl|s Hc Hl|s Hc]; try discriminate El; subst;
      try (by exists ran, sk; eapply lin_quiet).
    exists (ran ++ [OShutdown]), sk. by eapply lin_shutdown.
Qed.

(** Every concurrent history is a sequential one.  Let any number of goroutines
    call [do], each with a function of its own, and one call [Close], the
    dispatcher running, draining and exiting as it likes.  Then there is one order
    of all the calls that have returned in which they can be made one at a time,
    each returning what it returned (its function's result, or nothing if it was
    skipped) and leaving the state that is there, and a call that had returned
    before another was made comes before it, [Close] included. *)
Theorem do_linearizes p tr s :
  history (c_init p) tr s →
  ∃ l outs, seq_run l (p, false) = (outs, (c_state s, d_done (c_d s))) ∧ returns tr ≡ₚ outs ∧
    (∀ i fn, ODo i fn ∈ l → c_fns s !! i = Some fn ∧ allowed i fn) ∧
    (∀ a b, before tr a b → ordered l a b).
Proof.
  intros H. assert (∃ ran sk, lin p tr s ran sk) as (ran & sk & L).
  { induction H as [|tr s l s' _ (ran & sk & L) E]; [exists [], []; apply lin_init|by eapply lin_step]. }
  pose proof L as [Hh (o & Ho & Hret) Hr Hs Hor]. exists (ran ++ close_op (d_done (c_d s)) ++ sk), (o ++ skip_outs sk). split_and!; [|done| |done].
  - rewrite seq_run_app, Ho. destruct (d_done (c_d s)) eqn:E; cbn.
    + rewrite seq_run_closed; [done|]. eapply Forall_impl; [exact Hs|]. by intros op (i & fn & -> & _).
    + destruct sk; [done|]. by rewrite (skipped_done _ _ _ _ _ L) in E.
  - intros i fn [Hin|[Hin|Hin]%elem_of_app]%elem_of_app.
    + rewrite Forall_forall in Hr. destruct (Hr _ Hin) as [_ Hf]. split; [done|by eapply h_allowed].
    + destruct (d_done _); cbn in Hin; [by apply list_elem_of_singleton in Hin|by apply elem_of_nil in Hin].
    + rewrite Forall_forall in Hs. destruct (Hs _ Hin) as (? & ? & [= -> ->] & _ & ?). split; [done|by eapply h_allowed].
Qed.

(** ** After the end *)

(** [done] is closed, the queue is empty, and nobody is past the first [select]. *)
Record finished (s : csys) : Prop := {
  fi_done : d_done (c_d s) = true;
  fi_actions : d_actions (c_d s) = [];
  fi_closer : d_closer (c_d s) = CDone;
  fi_callers : ∀ i x, d_callers (c_d s) !! i = Some x → x = Start ∨ ∃ b, x = Returned b
}.

(** Then no call does anything any more. *)
Lemma finished_still s0 tr s' : finished s0 → history s0 tr s' → finished s' ∧ c_state s' = c_state s0.
Proof.
  intros F H. induction H as [|tr s1 l s' _ [[F1 F2 F3 F4] Es] E]; [done|]. rewrite <- Es. clear Es F.
  assert (∀ i y, y = Start ∨ (∃ b, y = Returned b) → ∀ j x, <[i := y]> (d_callers (c_d s1)) !! j = Some x → x = Start ∨ ∃ b, x = Returned b) as Hi.
  { intros i y Hy j x [[_ <-]|[_ Hj]]%lookup_insert_Some; [done|by eapply F4]. }
  destruct E as [i fn s Hn Hok|i s Hn Hnd|i s Hn Hl|i x s Hn Hx Hdn|i fn l s Hn Ha Hf|l s Hn Ha|s Hr Hdn|s Hr Ha|s Hc Hl|s Hc Hl|s Hc]; try congruence; try by repeat split.
  - split; [|done]. split; [done..|]. cbn. apply Hi. by left.
  - destruct (F4 _ _ Hn) as [|[b ?]]; congruence.
  - split; [|done]. split; [done..|]. cbn. apply Hi. right. by eexists.
Qed.

(** ** Schedules *)

(** The system, executable: what a goroutine does next. *)
Inductive move :=
| XCall (i : nat) (fn : body) | XOpen (i : nat) | XSend (i : nat) | XSkip (i : nat)
| XDispatch | XDrain | XExit | XClose | XClosed.

Definition exec (m : move) (s : csys) : option (label * csys) :=
  let d := c_d s in
  match m with
  | XCall i fn =>
      match d_callers d !! i with
      | None => Some (LCall (Call i), mkC (set_caller i Start d) (c_state s) (<[i := fn]> (c_fns s)))
      | Some _ => None
      end
  | XOpen i =>
      match d_callers d !! i, d_done d with
      | Some Start, false => Some (LInner, mkC (set_caller i Checked d) (c_state s) (c_fns s))
      | _, _ => None
      end
  | XSend i =>
      match d_callers d !! i with
      | Some Checked =>
          if length (d_actions d) <? actions_cap
          then Some (LInner, mkC (set_actions (d_actions d ++ [AFn i]) (set_caller i Waiting d)) (c_state s) (c_fns s))
          else None
      | _ => None
      end
  | XSkip i =>
      match d_callers d !! i, d_done d with
      | Some (Start | Checked), true => Some (LReturn i None, mkC (set_caller i (Returned false) d) (c_state s) (c_fns s))
      | _, _ => None
      end
  | XDispatch =>
      match d_disp d, d_actions d with
      | Exited, _ | _, [] => None
      | _, AShutdown :: l => Some (LInner, mkC (run_action AShutdown (set_actions l d)) (shutdown (c_state s)) (c_fns s))
      | _, AFn i :: l =>
          match c_fns s !! i with
          | None => None
          | Some fn => Some (LReturn i (Some (fn (c_state s)).1), mkC (run_action (AFn i) (set_actions l d)) (fn (c_state s)).2 (c_fns s))
          end
      end
  | XDrain =>
      match d_disp d, d_done d with
      | Running, true => Some (LInner, mkC (set_disp Draining d) (c_state s) (c_fns s))
      | _, _ => None
      end
  | XExit =>
      match d_disp d, d_actions d with
      | Draining, [] => Some (LInner, mkC (set_disp Exited d) (c_state s) (c_fns s))
      | _, _ => None
      end
  | XClose =>
      match d_closer d with
      | CStart =>
          if length (d_actions d) <? actions_cap
          then Some (LCall Closing, mkC (set_closer CWaiting (set_actions (d_actions d ++ [AShutdown]) d)) (c_state s) (c_fns s))
          else if length (d_actions d) =? actions_cap then Some (LCall Closing, mkC (set_closer CClosing d) (c_state s) (c_fns s))
          else None
      | _ => None
      end
  | XClosed =>
      match d_closer d with
      | CClosing => Some (LClosed, mkC (mkD (d_actions d) true (d_disp d) (d_callers d) CDone) (c_state s) (c_fns s))
      | _ => None
      end
  end.

Definition move_ok (m : move) : Prop := match m with XCall i fn => allowed i fn | _ => True end.

Lemma exec_cstep m s l s' : move_ok m → exec m s = Some (l, s') → cstep s l s'.
Proof.
  destruct s as [d p fns]. intros Hok E. destruct m as [i fn|i|i|i| | | | |]; cbn [exec c_d c_state c_fns] in E.
  - destruct (d_callers d !! i) eqn:Ei; [done|]. injection E as <- <-. by apply (c_enter i fn (mkC d p fns)).
  - destruct (d_callers d !! i) as [[| | |]|] eqn:Ei; try done. destruct (d_done d) eqn:Ed; [done|]. injection E as <- <-. by apply (c_open i (mkC d p fns)).
  - destruct (d_callers d !! i) as [[| | |]|] eqn:Ei; try done. destruct (Nat.ltb_spec (length (d_actions d)) actions_cap); [|done]. injection E as <- <-. by apply (c_send i (mkC d p fns)).
  - destruct (d_callers d !! i) as [[| | |]|] eqn:Ei; try done; destruct (d_done d) eqn:Ed; try done; injection E as <- <-;
      [by apply (c_skip i Start (mkC d p fns)); [|left|]|by apply (c_skip i Checked (mkC d p fns)); [|right|]].
  - assert (d_disp d ≠ Exited) as Hd by by destruct (d_disp d). destruct (d_actions d) as [|[i|] l0] eqn:Ea; [by destruct (d_disp d)|..].
    + destruct (fns !! i) as [fn|] eqn:Ef; [|by destruct (d_disp d)]. destruct (d_disp d) eqn:Edi; try done; injection E as <- <-; apply (c_run i fn l0 (mkC d p fns)); cbn; congruence.
    + destruct (d_disp d) eqn:Edi; try done; injection E as <- <-; apply (c_shutdown l0 (mkC d p fns)); cbn; congruence.
  - destruct (d_disp d) eqn:Ed, (d_done d) eqn:En; try done. injection E as <- <-. by apply (c_drain (mkC d p fns)).
  - destruct (d_disp d) eqn:Ed, (d_actions d) eqn:Ea; try done. injection E as <- <-. by apply (c_exit (mkC d p fns)).
  - destruct (d_closer d) eqn:Ec; try done. destruct (Nat.ltb_spec (length (d_actions d)) actions_cap); [injection E as <- <-; by apply (c_close (mkC d p fns))|].
    destruct (Nat.eqb_spec (length (d_actions d)) actions_cap); [|done]. injection E as <- <-. by apply (c_close_full (mkC d p fns)).
  - destruct (d_closer d) eqn:Ec; try done. injection E as <- <-. by apply (c_closed (mkC d p fns)).
Qed.

(** A schedule; a move that cannot be made is left out. *)
Fixpoint exec_all (ms : list move) (tr : list label) (s : csys) : list label * csys :=
  match ms with
  | [] => (tr, s)
  | m :: ms' => match exec m s with Some (l, s') => exec_all ms' (tr ++ [l]) s' | None => exec_all ms' tr s end
  end.

Lemma exec_history s0 ms tr s : Forall move_ok ms → history s0 tr s → history s0 (exec_all ms tr s).1 (exec_all ms tr s).2.
Proof.
  intros Hok. revert tr s. induction Hok as [|m ms Hm _ IH]; intros tr s H; cbn; [done|].
  destruct (exec m s) as [[l s']|] eqn:E; [|by apply IH]. apply IH. eapply history_snoc; [done|by eapply exec_cstep].
Qed.
End linear.
