(* ===== verification/PtyAtomic.v ===== *)
(** * The calls of the PTY, under any interleaving

    [Linear] for [LibghosttyPTY]: each function the PTY passes to [p.do] is given
    to a goroutine of [Dispatcher].  [Pty]'s operations are what these calls amount
    to; none of them panics, however they interleave with each other and with
    [Close].  Two interleavings [Pty] does not have: a subscriber that comes
    between the shutdown action of [Close] and the closing of [done], and two
    [Resize]s, which are not one call of [do]. *)
From S2P Require Import Prelude GoBase StreamFilter QueryStripper PrimaryFilter Recorder Recording Terminal Channel Pty PtySafety Delivery PtyLive Dispatcher Linear.
Open Scope Z_scope.

Section pty.
Context {T : Type} {TO : TermOps T}.
#[local] Abbreviation pty := (LibghosttyPTY T).
Implicit Types p : pty.

(** The functions passed to [p.do]; a subscriber's channel is the call's own. *)
Inductive pty_call :=
| KFeed (now : Z) (chunk : list byte)      (** [readLoop] *)
| KResize (now cols rows : Z)
| KFormat (format : formatter)
| KPaste                                   (** [BracketedPasteActive] *)
| KSnapshot
| KSnapshotParts
| KSubscribe (cap : nat)                   (** [subscribe], [SubscribeAtRecord] *)
| KSubSnapshot                             (** [SubscribeWithSnapshot] *)
| KSubParts                                (** [SubscribeWithSnapshotParts] *)
| KCancel (id : chan_id).

(** What a call leaves in its caller's variables. *)
Inductive answer :=
| AUnit (x : res pty_error unit)
| ABytes (x : res pty_error (list byte))
| AParts (x : res pty_error (list byte * list byte))
| ABool (b : bool).

Definition with_answer {A} (f : A → answer) (x : A * pty) : answer * pty := (f x.1, x.2).

(** The operations of [Pty]. *)
Definition call (i : nat) (k : pty_call) (p : pty) : answer * pty :=
  match k with
  | KFeed now chunk => with_answer AUnit (readLoop_chunk now chunk p)
  | KResize now cols rows => with_answer AUnit (pty_do (resize_action now cols rows) p)
  | KFormat format => (ABytes (formatBytes format p), p)
  | KPaste => (ABool (BracketedPasteActive p), p)
  | KSnapshot => (ABytes (Snapshot p), p)
  | KSnapshotParts => (AParts (SnapshotParts p), p)
  | KSubscribe cap => with_answer AUnit (subscribe_cap cap i p)
  | KSubSnapshot => with_answer ABytes (SubscribeWithSnapshot i p)
  | KSubParts => with_answer AParts (SubscribeWithSnapshotParts i p)
  | KCancel id => with_answer AUnit (cancel id p)
  end.

(** What the caller returns when its function was not run. *)
Definition unrun (k : pty_call) : answer :=
  match k with
  | KFeed _ _ | KResize _ _ _ | KSubscribe _ | KCancel _ => AUnit (Ok tt)
  | KFormat _ | KSnapshot => ABytes (Ok [])
  | KPaste => ABool false
  | KSnapshotParts => AParts (Ok ([], []))
  | KSubSnapshot => ABytes (Err PtyClosed)
  | KSubParts => AParts (Err PtyClosed)
  end.

(** The shutdown action of [Close]. *)
Definition shutdown_action (rc : option io_error) : st pty pty_error unit :=
  p ← st_get;
  _ ← close_subs (map_to_list (p_subs p)).*1;
  _ ← st_modify (set_terms None None);
  st_modify (λ p, set_rec (Recorder_Close rc (p_rec p)).2 p).

Definition shutdown (rc : option io_error) (p : pty) : pty := (shutdown_action rc p).2.

(** [Close] is its shutdown action and then the closing of [done]. *)
Lemma Close_parts rc p : p_closed p = false → Close true rc p = (_ ← shutdown_action rc; st_modify set_closed) p.
Proof. intros Hc. unfold Close. by rewrite Hc. Qed.

Lemma shutdown_ok rc p :
  pty_inv p → p_closed p = false →
  ∃ p', shutdown_action rc p = (Ok tt, p') ∧ pty_inv p' ∧ p_closed p' = false ∧ p_term p' = None ∧ (∀ j, p_subs p' !! j = None) ∧
    (∀ j, is_Some (p_chans p' !! j) → is_Some (p_chans p !! j)).
Proof.
  intros Hi Hc. assert (∀ id, id ∈ (map_to_list (p_subs p)).*1 ↔ is_Some (p_subs p !! id)) as Hids.
  { intros id. rewrite list_elem_of_fmap. split.
    - intros ([j s] & -> & Hj). apply elem_of_map_to_list in Hj. by exists s.
    - intros [s Hs]. exists (id, s). split; [done|]. by apply elem_of_map_to_list. }
  unfold shutdown_action, mbind, st_bind. cbn [st_get].
  destruct (close_subs_ok (map_to_list (p_subs p)).*1 p) as (p1 & -> & H1 & Hc1 & _ & Hout & Hin); [apply NoDup_fst_map_to_list|intros id; by apply Hids|done|].
  cbn [st_modify]. eexists. split; [done|]. cbn. split; [by eapply inv_same; [..|exact H1]|]. split; [congruence|]. split; [done|]. split.
  - intros j. destruct (decide (j ∈ (map_to_list (p_subs p)).*1)) as [Hj|Hj]; [by destruct (Hin j Hj)|]. destruct (Hout j Hj) as [-> _].
    rewrite Hids in Hj. by apply eq_None_not_Some.
  - intros j. destruct (decide (j ∈ (map_to_list (p_subs p)).*1)) as [Hj|Hj]; [destruct (Hin j Hj) as (_ & c & -> & _); by eexists|]. by destruct (Hout j Hj) as [_ ->].
Qed.

(** ** A call and [done] *)

Definition at_flag (d : bool) (p : pty) : pty := if d then set_closed p else p.

(** On a closed PTY an operation of [Pty] is a call that was skipped; but for the
    channel a subscriber has made for itself. *)
Lemma call_closed i k p :
  p_closed p = true → (call i k p).1 = unrun k ∧
  match k with KSubscribe _ | KSubSnapshot | KSubParts => touches_only i p (call i k p).2 | _ => (call i k p).2 = p end.
Proof.
  intros Hc. pose proof (subscribe_snapshot_touches snapshotLocked i p) as H1. pose proof (subscribe_snapshot_touches snapshotPartsLocked i p) as H2.
  destruct k as [now ck|now c r|f| | | |cap| | |id]; cbn [call]; unfold formatBytes, BracketedPasteActive, Snapshot, SnapshotParts; rewrite ?Hc; try done.
  - unfold readLoop_chunk, pty_do. destruct ck; [done|]. by rewrite Hc.
  - unfold pty_do. by rewrite Hc.
  - pose proof (subscribe_cap_touches cap i p) as H3. split; [|done]. unfold with_answer, subscribe_cap, mbind, st_bind, pty_do. cbn [st_modify].
    change (p_closed (make_sub_chan i cap p)) with (p_closed p). by rewrite Hc.
  - split; [|done]. unfold with_answer, SubscribeWithSnapshot, subscribe_snapshot. change (p_closed (make_sub_chan i 256 p)) with (p_closed p). rewrite Hc.
    unfold close_sub. cbn. by rewrite lookup_insert_eq.
  - split; [|done]. unfold with_answer, SubscribeWithSnapshotParts, subscribe_snapshot. change (p_closed (make_sub_chan i 256 p)) with (p_closed p). rewrite Hc.
    unfold close_sub. cbn. by rewrite lookup_insert_eq.
  - unfold with_answer, cancel, pty_do. by rewrite Hc.
Qed.

(** One call of the sequential object of [Linear] is the operation of [Pty]. *)
Lemma seq_call rc i k p d :
  p_closed p = false →
  ∃ x p', seq_step (shutdown rc) (ODo i (call i k)) (p, d) = ([(i, x)], (p', d)) ∧ (call i k (at_flag d p)).1 = default (unrun k) x ∧
    match d, k with true, (KSubscribe _ | KSubSnapshot | KSubParts) => p' = p | _, _ => (call i k (at_flag d p)).2 = at_flag d p' end.
Proof.
  intros Hc. destruct d; cbn [seq_step snd fst at_flag].
  - destruct (call_closed i k (set_closed p)) as [H1 H2]; [done|]. exists None, p. split; [done|]. split; [done|]. by destruct k.
  - destruct (call i k p) as [r p'] eqn:E. by exists (Some r), p'.
Qed.

(** ** No interleaving panics *)

Definition calm (a : answer) : Prop :=
  match a with AUnit x => no_panic x | ABytes x => no_panic x | AParts x => no_panic x | ABool _ => True end.

Lemma close_sub_chans j p x : is_Some (p_chans (close_sub j p).2 !! x) → is_Some (p_chans p !! x).
Proof.
  unfold close_sub. destruct (p_chans p !! j) as [c|] eqn:E; [|done]. destruct (close_chan c); [|done]. cbn.
  destruct (decide (j = x)) as [->|]; [by rewrite E|by rewrite lookup_insert_ne].
Qed.

(** The channels there are afterwards. *)
Lemma call_chans i k p j :
  pty_inv p → p_closed p = false → is_Some (p_chans (call i k p).2 !! j) → j = i ∨ is_Some (p_chans p !! j).
Proof.
  intros Hi Hc. assert (∀ q, touches_only i p q → is_Some (p_chans q !! j) → j = i ∨ is_Some (p_chans p !! j)) as Ht.
  { intros q [_ Hq]. destruct (decide (j = i)) as [->|Hj]; [by left|]. destruct (Hq j Hj) as [_ ->]. by right. }
  destruct k as [now ck|now c r|f| | | |cap| | |id]; cbn [call with_answer fst snd]; try (by right).
  - unfold readLoop_chunk, pty_do. destruct ck as [|b ck]; [by right|]. rewrite Hc.
    destruct (feed_action_ok now (b :: ck) p Hi) as (p' & -> & _ & _ & _ & _ & _ & Ec). cbn [snd]. rewrite Ec. intros H. right.
    destruct (p_subs p !! j); [|done]. by rewrite fmap_is_Some in H.
  - unfold pty_do. rewrite Hc. destruct (resize_action_same now c r p) as (_ & _ & ->). by right.
  - apply Ht, subscribe_cap_touches.
  - apply Ht, subscribe_snapshot_touches.
  - apply Ht, subscribe_snapshot_touches.
  - unfold cancel, pty_do. rewrite Hc. destruct (p_subs p !! id); [|by right]. intros H%close_sub_chans. by right.
Qed.

Lemma resize_closed now c r p : p_closed (resize_action now c r p).2 = p_closed p.
Proof.
  unfold resize_action. destruct (p_term p) as [t|]; [|done]. destruct (TermResize c r t) as [[|e] t']; [|done]. cbn [p_primaryTerm set_terms].
  destruct (p_primaryTerm p) as [q|]; [|done]. by destruct (TermResize c r q) as [[|] q'].
Qed.

Lemma call_ok i k p :
  p_chans p !! i = None → pty_inv p → p_closed p = false →
  calm (call i k p).1 ∧ pty_inv (call i k p).2 ∧ p_closed (call i k p).2 = false.
Proof.
  intros Hf Hi Hc. destruct k as [now ck|now c r|f| | | |cap| | |id]; cbn [call with_answer fst snd calm].
  - destruct (pty_run1_inv (PChunk now ck) p I Hi) as [H1 H2]. split; [done|]. split; [done|]. unfold readLoop_chunk, pty_do. destruct ck as [|b ck]; [done|]. rewrite Hc.
    destruct (feed_action_ok now (b :: ck) p Hi) as (p' & -> & _ & _ & _ & E & _). cbn [snd]. by rewrite E.
  - unfold pty_do. rewrite Hc, resize_closed. destruct (resize_action_same now c r p) as (H1 & H2 & H3). split; [|by split; [eapply inv_same|]].
    by destruct (resize_action now c r p).1 as [|[]].
  - split; [|done]. unfold formatBytes. rewrite Hc. unfold mbind, res_bind, lift_term, term_of. by repeat case_match; simplify_eq.
  - done.
  - split; [|done]. unfold Snapshot. rewrite Hc. apply snapshot_no_panic.
  - split; [|done]. unfold SnapshotParts. rewrite Hc. apply snapshot_no_panic.
  - destruct (subscribe_cap_inv cap i p Hf Hi) as [H1 H2]. split; [done|]. split; [done|]. by destruct (subscribe_cap_touches cap i p) as [-> _].
  - destruct (subscribe_snapshot_inv snapshotLocked i p (λ q, proj1 (snapshot_no_panic q)) Hf Hi) as [H1 H2]. split; [done|]. split; [done|].
    exact (eq_trans (proj1 (subscribe_snapshot_touches snapshotLocked i p)) Hc).
  - destruct (subscribe_snapshot_inv snapshotPartsLocked i p (λ q, proj2 (snapshot_no_panic q)) Hf Hi) as [H1 H2]. split; [done|]. split; [done|].
    exact (eq_trans (proj1 (subscribe_snapshot_touches snapshotPartsLocked i p)) Hc).
  - destruct (cancel_inv id p Hi) as [H1 H2]. split; [done|]. split; [done|]. by destruct (cancel_touches id p) as [-> _].
Qed.

(** The functions a goroutine may pass to [p.do]. *)
Definition a_call (i : nat) (fn : pty → answer * pty) : Prop := ∃ k, fn = call i k.

#[local] Abbreviation csys := (Linear.csys (P := pty) (Rt := answer)).

Record quiet (tr : list (label (Rt := answer))) (s : csys) : Prop := {
  q_inv : pty_inv (c_state s);
  q_open : p_closed (c_state s) = false;
  q_chans : ∀ i, is_Some (p_chans (c_state s) !! i) → d_callers (c_d s) !! i = Some (Returned true);
  q_calm : ∀ i a, LReturn i (Some a) ∈ tr → calm a
}.


Lemma quiet_step rc tr (s : csys) l s' :
  hist a_call tr s → cstep a_call (shutdown rc) s l s' → quiet tr s → quiet (tr ++ [l]) s'.
Proof.
  intros Hh E [Hi Ho Hch Hca]. pose proof (h_d _ _ _ Hh) as Hd.
  assert (∀ i, d_callers (c_d s) !! i = Some (Returned true) → d_callers (c_d s') !! i = Some (Returned true)) as Hst.
  { intros i Hr. destruct (h_fns _ _ _ Hh i _ Hr) as [fn Hfn]. by eapply (returned_stays _ _ _ _ _ i true fn) in E as [? _]. }
  assert (c_state s' = c_state s → (∀ i a, l = LReturn i (Some a) → calm a) → quiet (tr ++ [l]) s') as Hsame.
  { intros Est Hl. split; rewrite ?Est; try done; [intros i Hx; by apply Hst, Hch|]. intros i a [Hin|Hin%list_elem_of_singleton]%elem_of_app; [by eapply Hca|by eapply Hl]. }
  destruct E as [i fn s Hn Hok|i s Hn Hnd|i s Hn Hl|i x s Hn Hx Hdn|i fn l s Hn Ha Hf|l s Hn Ha|s Hr Hdn|s Hr Ha|s Hc Hl|s Hc Hl|s Hc]; try (by apply Hsame; [|intros ? ? [=]]).
  - destruct (h_allowed _ _ _ Hh i fn Hf) as [k ->]. pose proof (head_waiting _ _ _ Hd Ha) as Hw.
    assert (p_chans (c_state s) !! i = None) as Hfr by (destruct (p_chans (c_state s) !! i) eqn:Ec; [|done]; rewrite (Hch i) in Hw by (by eexists); congruence).
    destruct (call_ok i k (c_state s) Hfr Hi Ho) as (H1 & H2 & H3). split; cbn [c_state]; [done|done| |].
    + intros j Hj. apply call_chans in Hj; [|done..]. destruct Hj as [-> |Hj]; [cbn; apply lookup_insert_eq|by apply Hst, Hch].
    + intros j a [Hin|[= -> ->]%list_elem_of_singleton]%elem_of_app; [by eapply Hca|done].
  - destruct (shutdown_ok rc (c_state s) Hi Ho) as (p' & Ep & H1 & H2 & _ & _ & H3). unfold shutdown in *. rewrite Ep in *. split; cbn [c_state snd]; [done|done| |].
    + intros j Hj. by apply Hst, Hch, H3.
    + intros j a [Hin|[=]%list_elem_of_singleton]%elem_of_app. by eapply Hca.
Qed.

(** C24: The PTY under concurrency.  Take a new PTY and any number of goroutines, each
    in one of its calls, with [Close] and the dispatcher, in any interleaving.  The
    history is one of [Pty]'s operations made one at a time: in an order that
    respects who had returned before whom was called, each call returns what its
    operation returns there, or what it returns on a closed PTY if it was skipped,
    and leaves the state there is.  And no interleaving panics: no send on a closed
    channel, none closed twice. *)
Theorem pty_linearizable rc p tr (s : csys) :
  pty_inv p → p_closed p = false → p_chans p = ∅ → history a_call (shutdown rc) (c_init p) tr s →
  (∃ l outs, seq_run (shutdown rc) l (p, false) = (outs, (c_state s, d_done (c_d s))) ∧ returns tr ≡ₚ outs ∧
     (∀ i fn, ODo i fn ∈ l → ∃ k, fn = call i k ∧ c_fns s !! i = Some fn) ∧ (∀ a b, before tr a b → ordered l a b)) ∧
  pty_inv (c_state s) ∧ p_closed (c_state s) = false ∧ (∀ i a, LReturn i (Some a) ∈ tr → calm a).
Proof.
  intros Hi Hc Hch H. split.
  - destruct (do_linearizes _ _ _ _ _ H) as (l & outs & H1 & H2 & H3 & H4). exists l, outs. split; [done|]. split; [done|]. split; [|done].
    intros i fn Hin. destruct (H3 i fn Hin) as [Hf [k Hk]]. by exists k.
  - assert (quiet tr s) as [H1 H2 _ H4]; [|done]. induction H as [|tr s l s' H IH E].
    + split; cbn; [done|done|intros i; rewrite Hch, lookup_empty; by intros []|by intros i a ?%elem_of_nil].
    + eapply quiet_step; [by eapply history_hist|done|done].
Qed.
End pty.

(** ** A run of it *)

#[local] Abbreviation tcsys := (Linear.csys (P := LibghosttyPTY tape) (Rt := answer)).

Definition ex_pty : LibghosttyPTY tape := mkPty (Some [TapeByte 65]) None (ground false) (sink []) 80 24 ∅ ∅ None false.

Definition ex_moves : list (move (P := LibghosttyPTY tape) (Rt := answer)) :=
  [XCall 0 (call 0 (KSubscribe 64)); XCall 1 (call 1 (KFeed 0 [66])); XOpen 0; XOpen 1; XSend 1; XSend 0; XDispatch; XClose;
   XDispatch; XDispatch; XClosed; XCall 2 (call 2 KSnapshot); XSkip 2; XDrain; XExit].

Lemma ex_moves_ok : Forall (move_ok a_call) ex_moves.
Proof. repeat constructor; by eexists. Qed.

(** Goroutine 0 subscribes while goroutine 1 feeds a chunk; [Close]; goroutine 2
    comes too late. *)
Lemma pty_linearizable_witness :
  let r := exec_all (shutdown None) ex_moves [] (c_init ex_pty) in
  returns r.1 = [(1%nat, Some (AUnit (Ok tt))); (0%nat, Some (AUnit (Ok tt))); (2%nat, None)] ∧
  before r.1 (Call 1) (Call 2) ∧
  (∃ l outs, seq_run (shutdown None) l (ex_pty, false) = (outs, (c_state r.2, true)) ∧ returns r.1 ≡ₚ outs ∧ ordered l (Call 1) (Call 2)) ∧
  pty_inv (c_state r.2).
Proof.
  intros r. assert (returns r.1 = [(1%nat, Some (AUnit (Ok tt))); (0%nat, Some (AUnit (Ok tt))); (2%nat, None)]) as Hret by (vm_compute; reflexivity).
  assert (before r.1 (Call 1) (Call 2)) as Hb.
  { exists (take 11 r.1), (drop 12 r.1). split; [vm_compute; reflexivity|]. exists (Some (AUnit (Ok tt))). apply (list_elem_of_lookup_2 _ 6%nat). vm_compute. reflexivity. }
  assert (d_done (c_d r.2) = true) as Hd by (vm_compute; reflexivity).
  split; [exact Hret|]. split; [exact Hb|].
  destruct (pty_linearizable None ex_pty r.1 r.2) as ((l & outs & H1 & H2 & _ & H4) & H5 & _);
    [split; intros i x; cbn; by rewrite lookup_empty|reflexivity|reflexivity|apply exec_history; [exact ex_moves_ok|apply history_nil]|].
  split; [|exact H5]. exists l, outs. rewrite Hd in H1. split; [exact H1|]. split; [exact H2|]. exact (H4 _ _ Hb).
Defined.

(** ** A subscriber in the gap of [Close] *)

Definition ex_late : list (move (P := LibghosttyPTY tape) (Rt := answer)) :=
  [XCall 0 (call 0 (KSubscribe 64)); XOpen 0; XClose; XSend 0; XDispatch; XDispatch; XClosed; XDrain; XExit].

(** [subscribe] can be run between the shutdown action of [Close] and the closing
    of [done]: it succeeds, and the subscriber waits for ever: whatever is called
    from then on, nothing is sent on its channel, nor is it closed. *)
Theorem late_subscriber_waits :
  let r := exec_all (shutdown None) ex_late [] (c_init ex_pty) in
  returns r.1 = [(0%nat, Some (AUnit (Ok tt)))] ∧
  ∀ tr s, history a_call (shutdown None) r.2 tr s →
    ∃ c, p_chans (c_state s) !! 0%nat = Some c ∧ ch_buf c = [] ∧ ch_closed c = false.
Proof.
  intros r. split; [vm_compute; reflexivity|]. intros tr s H. assert (finished r.2) as F.
  { split; [vm_compute; reflexivity..|]. intros i x. assert (d_callers (c_d r.2) = {[0%nat := Returned true]}) as -> by (vm_compute; reflexivity).
    intros [_ <-]%lookup_singleton_Some. right. by eexists. }
  destruct (finished_still _ _ _ _ _ F H) as [_ ->]. exists (make_chan 64). split; [vm_compute; reflexivity|done].
Qed.

(** The same without a race: a subscriber of a PTY that is closed. *)
Lemma closed_subscribe_waits {T : Type} {TO : TermOps T} cap id (p : LibghosttyPTY T) :
  p_closed p = true → p_chans p !! id = None →
  subscribe_cap cap id p = (Ok tt, make_sub_chan id cap p) ∧ p_chans (make_sub_chan id cap p) !! id = Some (make_chan cap).
Proof.
  intros Hc Hn. unfold subscribe_cap, mbind, st_bind, pty_do. cbn [st_modify]. change (p_closed (make_sub_chan id cap p)) with (p_closed p). rewrite Hc.
  split; [done|]. apply lookup_insert_eq.
Qed.

(** ** [Resize] is three steps *)

Section resize.
Context {T : Type} {TO : TermOps T}.

(** The window size the kernel keeps, and the PTY. *)
Record winsys := mkWin { ws_kernel : Z * Z; ws_pty : LibghosttyPTY T }.

(** [pty.Setsize]; the call of [do]; [p.cols, p.rows] under [p.mu]. *)
Inductive resize_part := RSetsize | RDo (now : Z) | RDims.

Definition resize_step (part : resize_part) (size : Z * Z) (s : winsys) : winsys :=
  match part with
  | RSetsize => mkWin size (ws_pty s)
  | RDo now => mkWin (ws_kernel s) (pty_do (resize_action now size.1 size.2) (ws_pty s)).2
  | RDims => mkWin (ws_kernel s) (set_dims size.1 size.2 (ws_pty s))
  end.

Definition resize_steps (l : list (resize_part * (Z * Z))) (s : winsys) : winsys := foldl (λ s x, resize_step x.1 x.2 s) s l.

(** Without interleaving it is the [Resize] of [Pty]. *)
Lemma resize_steps_Resize now c r k p :
  (Resize (Ok tt) now c r p).1 = Ok tt → resize_steps [(RSetsize, (c, r)); (RDo now, (c, r)); (RDims, (c, r))] (mkWin k p) = mkWin (c, r) (Resize (Ok tt) now c r p).2.
Proof.
  unfold Resize, mbind, st_bind, resize_steps. cbn. unfold pty_do. destruct (p_closed p); [done|]. by destruct (resize_action now c r p) as [[[]|e] q].
Qed.
End resize.

(** Two [Resize]s, one of the attach set and one of [/pty/resize], can leave the
    kernel, the emulator and [Size] with different sizes. *)
Theorem resize_race :
  ∃ l, filter (λ x, x.2 = (80, 24)) l = [(RSetsize, (80, 24)); (RDo 0, (80, 24)); (RDims, (80, 24))] ∧
    filter (λ x, x.2 = (40, 10)) l = [(RSetsize, (40, 10)); (RDo 0, (40, 10)); (RDims, (40, 10))] ∧
    let s := resize_steps l (mkWin (100, 30) ex_pty) in
    ws_kernel s = (40, 10) ∧ Size (ws_pty s) = (40, 10) ∧ last (default [] (p_term (ws_pty s))) = Some (TapeSize 80 24).
Proof.
  exists [(RSetsize, (80, 24)); (RSetsize, (40, 10)); (RDo 0, (40, 10)); (RDo 0, (80, 24)); (RDims, (80, 24)); (RDims, (40, 10))].
  split; [reflexivity|]. split; [reflexivity|]. vm_compute. repeat split.
Qed.
