(* ===== verification/GoStrings.v ===== *)
(** * Functions of Go's [strings] package

    [TrimSpace], [Fields], [HasPrefix]-style helpers and [strconv.Atoi], on byte
    strings.  White space is [unicode.IsSpace]'s: a space is recognised by its
    UTF-8 encoding, which starts at a rune boundary wherever it occurs. *)
From S2P Require Import Prelude GoBase Utf8 QueryStripper State.
Open Scope Z_scope.

(** The encodings of the runes [unicode.IsSpace] accepts. *)
Definition spaces : list gostring :=
  EncodeRune <$> [9; 10; 11; 12; 13; 32; 133; 160; 5760; 8192; 8193; 8194; 8195; 8196; 8197; 8198;
                  8199; 8200; 8201; 8202; 8232; 8233; 8239; 8287; 12288].

Fixpoint strip_prefix (pre s : gostring) : option gostring :=
  match pre, s with
  | [], _ => Some s
  | a :: pre', b :: s' => if a =? b then strip_prefix pre' s' else None
  | _, [] => None
  end.

(** [strings.TrimPrefix] *)
Definition TrimPrefix (s pre : gostring) : gostring := default s (strip_prefix pre s).

(** What is left after a space the string starts with. *)
Fixpoint skip_space (sps : list gostring) (s : gostring) : option gostring :=
  match sps with
  | [] => None
  | sp :: sps' => match strip_prefix sp s with Some s' => Some s' | None => skip_space sps' s end
  end.

Fixpoint trim_left (sps : list gostring) (fuel : nat) (s : gostring) : gostring :=
  match fuel with
  | O => s
  | S fuel' => match skip_space sps s with Some s' => trim_left sps fuel' s' | None => s end
  end.

Definition TrimSpace (s : gostring) : gostring :=
  let s := trim_left spaces (length s) s in
  rev (trim_left (rev (A:=byte) <$> spaces) (length s) (rev s)).

Definition end_field (cur : gostring) : list gostring := match cur with [] => [] | _ => [cur] end.

Fixpoint fields_loop (fuel : nat) (s cur : gostring) : list gostring :=
  match fuel, s with
  | S fuel', c :: s' =>
      match skip_space spaces s with
      | Some rest => end_field cur ++ fields_loop fuel' rest []
      | None => fields_loop fuel' s' (cur ++ [c])
      end
  | _, _ => end_field cur
  end.

(** [strings.Fields] *)
Definition Fields (s : gostring) : list gostring := fields_loop (length s) s [].

(** [strconv.Atoi] on a 64-bit platform: a sign and digits, in range. *)
Definition is_digit (c : byte) : bool := (48 <=? c) && (c <=? 57).

Definition Atoi (s : gostring) : option Z :=
  let '(neg, ds) := match s with
                    | c :: s' => if c =? chr "-" then (true, s') else if c =? chr "+" then (false, s') else (false, s)
                    | [] => (false, [])
                    end in
  match ds with
  | [] => None
  | _ =>
      if forallb is_digit ds then
        let v := if (neg : bool) then - dec_value ds else dec_value ds in
        if (- 2 ^ 63 <=? v) && (v <? 2 ^ 63) then Some v else None
      else None
  end.

Lemma strip_prefix_spec pre s s' : strip_prefix pre s = Some s' ↔ s = pre ++ s'.
Proof.
  revert s. induction pre as [|a pre IH]; intros s; cbn; [split; [by intros [= ->]|by intros ->]|].
  destruct s as [|b s]; [by split|]. destruct (Z.eqb_spec a b) as [->|Hne].
  - rewrite IH. split; [by intros ->|by intros [= ->]].
  - split; [done|]. by intros [= <- _].
Qed.

Lemma skip_space_shorter sps s s' :
  Forall (λ sp, sp ≠ []) sps → skip_space sps s = Some s' → (length s' < length s)%nat.
Proof.
  induction 1 as [|sp sps Hsp _ IH]; cbn; [done|]. destruct (strip_prefix sp s) as [r|] eqn:E; [|done].
  intros [= <-]. apply strip_prefix_spec in E as ->. rewrite length_app. destruct sp; [done|cbn; lia].
Qed.

Lemma spaces_nonempty : Forall (λ sp : gostring, sp ≠ []) spaces.
Proof. vm_compute. repeat constructor; discriminate. Qed.

(** Enough fuel. *)
Lemma fields_loop_fuel f1 f2 s cur :
  (length s <= f1)%nat → (length s <= f2)%nat → fields_loop f1 s cur = fields_loop f2 s cur.
Proof.
  revert f2 s cur. induction f1 as [|f1 IH]; intros f2 s cur H1 H2.
  { destruct s; [by destruct f2|cbn in H1; lia]. }
  destruct s as [|c s]; [by destruct f2|]. destruct f2 as [|f2]; [cbn in H2; lia|]. cbn [fields_loop].
  destruct (skip_space spaces (c :: s)) as [r|] eqn:E.
  - apply skip_space_shorter in E; [|apply spaces_nonempty]. cbn in *. f_equal. apply IH; lia.
  - cbn in *. apply IH; lia.
Qed.

Lemma trim_left_fuel sps f1 f2 s :
  Forall (λ sp, sp ≠ []) sps → (length s <= f1)%nat → (length s <= f2)%nat →
  trim_left sps f1 s = trim_left sps f2 s.
Proof.
  intros Hsp. revert f2 s. induction f1 as [|f1 IH]; intros f2 s H1 H2.
  { destruct s; [|cbn in H1; lia]. destruct f2; [done|]. cbn.
    destruct (skip_space sps []) as [r|] eqn:E; [|done]. apply skip_space_shorter in E; [cbn in E; lia|done]. }
  destruct f2 as [|f2]; cbn.
  - destruct s; [|cbn in H2; lia]. destruct (skip_space sps []) as [r|] eqn:E; [|done].
    apply skip_space_shorter in E; [cbn in E; lia|done].
  - destruct (skip_space sps s) as [r|] eqn:E; [|done]. apply skip_space_shorter in E; [|done]. apply IH; lia.
Qed.

Example fields_ex : Fields (32 :: B"ab  c" ++ [194; 160] ++ B"d") = [B"ab"; B"c"; B"d"].
Proof. reflexivity. Qed.

Example trim_ex : TrimSpace ([9; 32] ++ B"a b" ++ [226; 128; 168; 10]) = B"a b".
Proof. reflexivity. Qed.
