(* ===== verification/Paths.v ===== *)
(** * Slash-separated paths

    [path.Clean], [path.Join] and [path.Dir] of Go's standard library (and
    [filepath]'s, which agree with them on Unix), with the facts the program
    relies on: joining a plain name onto a directory adds it as the last
    component. *)
From S2P Require Import Prelude GoBase QueryStripper State.
Open Scope Z_scope.

Definition slash : byte := 47.
Definition dot : gostring := [46].
Definition dotdot : gostring := [46; 46].

(** One component onto the reversed stack of the components so far. *)
Definition push_comp (rooted : bool) (stack : list gostring) (c : gostring) : list gostring :=
  if bool_decide (c = []) || bool_decide (c = dot) then stack
  else if bool_decide (c = dotdot) then
    match stack with
    | [] => if rooted then [] else [c]
    | top :: below => if bool_decide (top = dotdot) then c :: stack else below
    end
  else c :: stack.

Definition render_path (rooted : bool) (comps : list gostring) : gostring :=
  let body := Join comps [slash] in
  if rooted then slash :: body
  else match body with [] => dot | _ => body end.

Definition is_rooted (p : gostring) : bool := bool_decide (head p = Some slash).

Definition Clean (p : gostring) : gostring :=
  match p with
  | [] => dot
  | _ => render_path (is_rooted p) (rev (foldl (push_comp (is_rooted p)) [] (split_on slash p)))
  end.

Fixpoint drop_empty (elems : list gostring) : list gostring :=
  match elems with [] :: rest => drop_empty rest | _ => elems end.

(** [path.Join(elems...)] *)
Definition path_Join (elems : list gostring) : gostring :=
  match drop_empty elems with [] => [] | l => Clean (Join l [slash]) end.

(** [path.Dir(p)] *)
Definition path_Dir (p : gostring) : gostring :=
  match removelast (split_on slash p) with
  | [] => Clean []
  | l => Clean (Join l [slash] ++ [slash])
  end.

(** A component that [Clean] keeps. *)
Definition plain_name (c : gostring) : Prop :=
  c ≠ [] ∧ c ≠ dot ∧ c ≠ dotdot ∧ Forall (λ b, b ≠ slash) c.

Lemma push_plain rooted stack c : plain_name c → push_comp rooted stack c = c :: stack.
Proof.
  intros (H1 & H2 & H3 & _). unfold push_comp.
  by rewrite (bool_decide_eq_false_2 (c = [])), (bool_decide_eq_false_2 (c = dot)),
    (bool_decide_eq_false_2 (c = dotdot)).
Qed.

Lemma split_on_nonempty sep bs : split_on sep bs ≠ [].
Proof. destruct bs as [|c bs]; [done|]. cbn. destruct (c =? sep); [done|]. by destruct (split_on sep bs). Qed.

Lemma split_on_snoc sep d c :
  Forall (λ b, b ≠ sep) c → split_on sep (d ++ sep :: c) = split_on sep d ++ [c].
Proof.
  intros Hc. induction d as [|b d IH]; cbn [app split_on].
  - rewrite Z.eqb_refl. by rewrite split_on_none.
  - destruct (b =? sep); [by rewrite IH|]. rewrite IH.
    pose proof (split_on_nonempty sep d). by destruct (split_on sep d).
Qed.

Lemma Join_snoc l c : l ≠ [] → Join (l ++ [c]) [slash] = Join l [slash] ++ slash :: c.
Proof.
  induction l as [|x l IH]; [done|]. intros _. destruct l as [|y l]; [done|].
  change ((x :: y :: l) ++ [c]) with (x :: (y :: l) ++ [c]).
  assert (∃ z k, (y :: l) ++ [c] = z :: k) as (z & k & E) by (by eexists _, _).
  cbn [Join]. rewrite E. rewrite <- E, IH by done. by rewrite <- !app_assoc.
Qed.

Lemma Clean_snoc d c :
  d ≠ [] → plain_name c →
  ∃ pre, Clean (d ++ slash :: c) = pre ++ c ∧
    ∀ c', plain_name c' → Clean (d ++ slash :: c') = pre ++ c'.
Proof.
  intros Hd Hc. assert (∃ pre, ∀ c', plain_name c' → Clean (d ++ slash :: c') = pre ++ c') as [pre H].
  2:{ exists pre. split; [by apply H|done]. }
  destruct d as [|b d]; [done|]. set (e := b :: d) in *.
  assert (∀ c', is_rooted (e ++ slash :: c') = is_rooted e) as Hr by done.
  set (st := foldl (push_comp (is_rooted e)) [] (split_on slash e)).
  exists ((if is_rooted e then [slash] else []) ++
          match rev st with [] => [] | l => Join l [slash] ++ [slash] end).
  intros c' Hc'. unfold Clean. destruct (e ++ slash :: c') as [|x0 l0] eqn:E; [done|]. rewrite <- E. rewrite Hr.
  destruct Hc' as (H1 & H2 & H3 & H4). rewrite split_on_snoc by done.
  rewrite foldl_app. fold st. cbn [foldl]. rewrite push_plain by (by repeat split).
  cbn [rev]. unfold render_path. destruct (rev st) as [|x l] eqn:Est.
  - cbn [app Join]. destruct (is_rooted e); [done|]. by destruct c'.
  - rewrite Join_snoc by done. rewrite <- !app_assoc. cbn [app].
    destruct (is_rooted e); cbn [app]; [done|].
    destruct (Join (x :: l) [slash]); done.
Qed.

(** Names of the same length give paths of the same length. *)
Lemma path_Join_length d c c' :
  d ≠ [] → plain_name c → plain_name c' → length c = length c' →
  length (path_Join [d; c]) = length (path_Join [d; c']).
Proof.
  intros Hd Hc Hc' Hl. destruct d as [|b d]; [done|].
  unfold path_Join. cbn [drop_empty Join app].
  destruct (Clean_snoc (b :: d) c ltac:(done) Hc) as (pre & E & H).
  cbn [app] in E, H. rewrite E, (H c') by done. rewrite !length_app. lia.
Qed.

Lemma Clean_nonempty p : Clean p ≠ [].
Proof.
  unfold Clean. destruct p as [|b p]; [done|]. unfold render_path.
  destruct (is_rooted _); [done|]. by destruct (Join _ _).
Qed.

Lemma path_Join_nonempty d l : d ≠ [] → path_Join (d :: l) ≠ [].
Proof. intros Hd. unfold path_Join. destruct d; [done|]. cbn [drop_empty]. apply Clean_nonempty. Qed.
