(* ===== verification/Ssh.v ===== *)
(** * [internal/sshtransport/transport.go]: the ssh tunnel

    The plan of a tunnel (paths, ports), the command lines given to [ssh], and
    what the remote shell makes of them: [lex] reads a command the way POSIX
    sh recognises tokens (quotes, backslash, blanks, operators).  The process
    itself ([Open], [Close]) is in [Tunnel].  [sha256.Sum256] is a parameter. *)
From S2P Require Import Prelude GoBase QueryStripper Wire State Paths.
Open Scope Z_scope.

Definition maxUnixSocketPathLen : nat := 80.

Record Config := mkConfig { cfg_User : gostring; cfg_Host : gostring; cfg_Port : gostring; cfg_StateDir : gostring }.

Record Plan := mkTunnelPlan {
  Target : gostring; pl_ControlPath : gostring; LocalSocket : gostring; RemoteSocket : gostring;
  RemoteBind : gostring; ForwardTarget : gostring; RemotePID : gostring
}.

(** ** Quoting *)

Definition sq : byte := 39.
Definition dq (s : gostring) : gostring := 34 :: s ++ [34].

(** [strings.ReplaceAll(s, "'", "'\\''")] *)
Definition escape_quotes (s : gostring) : gostring := s ≫= λ c, if c =? sq then [sq; 92; sq; sq] else [c].

Definition shellQuote (s : gostring) : gostring := sq :: escape_quotes s ++ [sq].

(** ** Paths and ports *)

Definition hexdigit (d : Z) : byte := if d <? 10 then 48 + d else 87 + d.
Definition EncodeToString (bs : list byte) : gostring := bs ≫= λ b, [hexdigit (b / 16); hexdigit (b mod 16)].

(** [remotePort]; [hex.DecodeString] of the first four bytes. *)
Definition remotePort (id : gostring) : Z :=
  match id with
  | a :: b :: c :: d :: _ =>
      match hex_val a, hex_val b, hex_val c, hex_val d with
      | Some a, Some b, Some c, Some d =>
          let n := Z.lor (Z.shiftl (16 * a + b) 8) (16 * c + d) in 20000 + n mod 30000
      | _, _, _, _ => 22000
      end
  | _ => 22000
  end.

Definition controlKey (user host port : gostring) : gostring :=
  let key := match user with [] => host | _ => user ++ B"@" ++ host end in
  match port with [] => key | _ => key ++ B":" ++ port end.

Section paths.
Context (Sum256 : list byte → list byte).
Context (uid pid : Z) (UserCacheDir : option gostring) (TempDir : gostring).

Definition shortSocketDir (cacheName tmpName sampleName : gostring) : gostring :=
  let fallback := path_Join [TempDir; tmpName] in
  match UserCacheDir with
  | Some ((_ :: _) as dir) =>
      let candidate := path_Join [dir; B"hootty"; cacheName] in
      if (length (path_Join [candidate; sampleName]) <=? maxUnixSocketPathLen)%nat then candidate else fallback
  | _ => fallback
  end.

Definition shortControlDir : gostring :=
  shortSocketDir B"ssh-control" (B"hootty-ssh-control-" ++ Itoa uid) B"cm-00000000".

Definition control_name (user host port : gostring) : gostring :=
  B"cm-" ++ EncodeToString (take 4 (Sum256 (controlKey user host port))).

Definition ControlPath (stateDir user host port : gostring) : gostring :=
  let name := control_name user host port in
  let candidate := path_Join [stateDir; name] in
  if (length candidate <=? maxUnixSocketPathLen)%nat then candidate else path_Join [shortControlDir; name].

Definition localSocketPath (stateDir safeHost id : gostring) : gostring :=
  let name := B"fwd-" ++ safeHost ++ B"-" ++ Itoa pid ++ B"-" ++ id ++ B".sock" in
  let candidate := path_Join [stateDir; name] in
  if (length candidate <=? maxUnixSocketPathLen)%nat then candidate
  else
    let shortName := B"fwd-" ++ EncodeToString (take 8 (Sum256 name)) ++ B".sock" in
    path_Join [shortSocketDir B"ssh-forward" (B"hootty-ssh-forward-" ++ Itoa uid) shortName; shortName].

(** The [strings.NewReplacer] of [BuildPlan]. *)
Definition safe_byte (c : byte) : byte := if (c =? chr "/") || (c =? chr ":") || (c =? chr "@") then chr "_" else c.

Definition BuildPlan (cfg : Config) (id remoteHome : gostring) : Plan :=
  let target := match cfg_User cfg with [] => cfg_Host cfg | u => u ++ B"@" ++ cfg_Host cfg end in
  let safeHost := (safe_byte <$> target) ++ match cfg_Port cfg with [] => [] | p => B"_" ++ p end in
  let addr := B"127.0.0.1:" ++ Itoa (remotePort id) in
  mkTunnelPlan target (ControlPath (cfg_StateDir cfg) (cfg_User cfg) (cfg_Host cfg) (cfg_Port cfg))
    (localSocketPath (cfg_StateDir cfg) safeHost id)
    (path_Join [remoteHome; B".hoot"; B".tunnels"; id ++ B".sock"]) addr addr
    (path_Join [remoteHome; B".hoot"; B".tunnels"; id ++ B".pid"]).
End paths.

(** ** Command lines *)

Definition baseArgs (cfg : Config) (controlPath : gostring) : list gostring :=
  [B"-o"; B"ControlMaster=auto"; B"-o"; B"ControlPath=" ++ controlPath; B"-o"; B"ControlPersist=60";
   B"-o"; B"ServerAliveInterval=15"; B"-o"; B"ServerAliveCountMax=2"] ++
  match cfg_Port cfg with [] => [] | p => [B"-p"; p] end.

Definition remoteServeScript (remoteBind remotePID : gostring) : gostring :=
  B"mkdir -p " ++ shellQuote (path_Dir remotePID) ++
  B"; hoot serve --bind " ++ shellQuote remoteBind ++
  B" & pid=$!; echo " ++ dq B"$pid" ++ B" > " ++ shellQuote remotePID ++
  B"; trap 'kill " ++ dq B"$pid" ++ B" 2>/dev/null; wait " ++ dq B"$pid" ++ B" 2>/dev/null; rm -f " ++ shellQuote remotePID ++
  B"; exit' HUP INT TERM EXIT; wait " ++ dq B"$pid".

Definition cleanup_script (remotePID : gostring) : gostring :=
  B"if test -f " ++ shellQuote remotePID ++
  B"; then pid=$(cat " ++ shellQuote remotePID ++
  B"); kill " ++ dq B"$pid" ++ B" 2>/dev/null; wait " ++ dq B"$pid" ++ B" 2>/dev/null; rm -f " ++ shellQuote remotePID ++
  B"; fi".

Definition TunnelArgs (cfg : Config) (plan : Plan) : list gostring :=
  baseArgs cfg (pl_ControlPath plan) ++
  [B"-o"; B"ExitOnForwardFailure=yes"; B"-L"; LocalSocket plan ++ B":" ++ ForwardTarget plan; Target plan;
   B"sh -lc " ++ shellQuote (remoteServeScript (RemoteBind plan) (RemotePID plan))].

Definition CleanupArgs (cfg : Config) (plan : Plan) : list gostring :=
  baseArgs cfg (pl_ControlPath plan) ++
  [Target plan; B"sh -lc " ++ shellQuote (cleanup_script (RemotePID plan))].

(** ** How a POSIX shell reads a command

    The token recognition rules of the Shell Command Language: a character of a
    word is [Lit] when quoting takes its special meaning away, else [Act].  The
    reader gives up ([None]) on an unterminated quote, a line continuation and
    a comment; a command substitution is read as the tokens it is made of. *)
Inductive shchar := Act (c : byte) | Lit (c : byte).
Inductive shtoken := TWord (w : list shchar) | TOp (c : byte).

Inductive lex_mode := MUnquoted | MEscape | MSingle | MDouble | MDoubleEscape.

Record lexer := mkLexer { lx_mode : lex_mode; lx_word : option (list shchar); lx_tokens : list shtoken }.

Definition is_blank (c : byte) : bool := (c =? 32) || (c =? 9).
Definition is_operator (c : byte) : bool :=
  existsb (Z.eqb c) [10; chr ";"; chr "&"; chr "|"; chr "("; chr ")"; chr "<"; chr ">"].

(** The word under construction with more characters, perhaps none. *)
Definition grow (cs : list shchar) (l : lexer) : option (list shchar) := Some (default [] (lx_word l) ++ cs).

Definition end_word (l : lexer) : list shtoken :=
  lx_tokens l ++ match lx_word l with None => [] | Some w => [TWord w] end.

Definition lex1 (l : lexer) (c : byte) : option lexer :=
  match lx_mode l with
  | MUnquoted =>
      if is_blank c then Some (mkLexer MUnquoted None (end_word l))
      else if is_operator c then Some (mkLexer MUnquoted None (end_word l ++ [TOp c]))
      else if c =? sq then Some (mkLexer MSingle (grow [] l) (lx_tokens l))
      else if c =? 34 then Some (mkLexer MDouble (grow [] l) (lx_tokens l))
      else if c =? 92 then Some (mkLexer MEscape (grow [] l) (lx_tokens l))
      else if (c =? chr "#") && bool_decide (lx_word l = None) then None
      else Some (mkLexer MUnquoted (grow [Act c] l) (lx_tokens l))
  | MEscape => if c =? 10 then None else Some (mkLexer MUnquoted (grow [Lit c] l) (lx_tokens l))
  | MSingle =>
      if c =? sq then Some (mkLexer MUnquoted (lx_word l) (lx_tokens l))
      else Some (mkLexer MSingle (grow [Lit c] l) (lx_tokens l))
  | MDouble =>
      if c =? 34 then Some (mkLexer MUnquoted (lx_word l) (lx_tokens l))
      else if c =? 92 then Some (mkLexer MDoubleEscape (lx_word l) (lx_tokens l))
      else if (c =? chr "$") || (c =? chr "`") then Some (mkLexer MDouble (grow [Act c] l) (lx_tokens l))
      else Some (mkLexer MDouble (grow [Lit c] l) (lx_tokens l))
  | MDoubleEscape =>
      if c =? 10 then None
      else if existsb (Z.eqb c) [chr "$"; chr "`"; 34; 92] then Some (mkLexer MDouble (grow [Lit c] l) (lx_tokens l))
      else Some (mkLexer MDouble (grow [Lit 92; Lit c] l) (lx_tokens l))
  end.

#[export] Instance shchar_eq_dec : EqDecision shchar.
Proof. solve_decision. Defined.

Fixpoint lex_run (l : lexer) (bs : list byte) : option lexer :=
  match bs with
  | [] => Some l
  | c :: bs' => match lex1 l c with None => None | Some l' => lex_run l' bs' end
  end.

Definition new_lexer : lexer := mkLexer MUnquoted None [].

Definition lex (bs : list byte) : option (list shtoken) :=
  match lex_run new_lexer bs with
  | Some l => match lx_mode l with MUnquoted => Some (end_word l) | _ => None end
  | None => None
  end.

(** Words without and with quoting. *)
Definition W (s : gostring) : shtoken := TWord (Act <$> s).
Definition Q (s : gostring) : shtoken := TWord (Lit <$> s).
(** ["$pid"] *)
Definition pid_word : shtoken := TWord [Act 36; Lit 112; Lit 105; Lit 100].

(** ** Reading quoted text *)

Lemma lex_run_app l a b : lex_run l (a ++ b) = match lex_run l a with None => None | Some l' => lex_run l' b end.
Proof. revert l. induction a as [|c a IH]; intros l; cbn; [done|]. by destruct (lex1 l c). Qed.

(** The escaped quote, between two characters of a single-quoted word. *)
Lemma lex_escaped w ts :
  lex_run (mkLexer MSingle (Some w) ts) [sq; 92; sq; sq] = Some (mkLexer MSingle (Some (w ++ [Lit sq])) ts).
Proof.
  trans (Some (mkLexer MSingle (Some (((w ++ []) ++ [Lit sq]) ++ [])) ts)); [reflexivity|].
  by rewrite !app_nil_r.
Qed.

Lemma lex_single w ts s rest :
  lex_run (mkLexer MSingle (Some w) ts) (escape_quotes s ++ sq :: rest) =
  lex_run (mkLexer MUnquoted (Some (w ++ (Lit <$> s))) ts) rest.
Proof.
  revert w. induction s as [|c s IH]; intros w.
  - cbn. by rewrite app_nil_r.
  - change (escape_quotes (c :: s)) with ((if c =? sq then [sq; 92; sq; sq] else [c]) ++ escape_quotes s).
    rewrite <- app_assoc, lex_run_app. rewrite fmap_cons, (cons_middle (Lit c) w), app_assoc.
    destruct (Z.eqb_spec c sq) as [-> |Hc]; [by rewrite lex_escaped|].
    cbn [lex_run lex1 lx_mode]. rewrite (proj2 (Z.eqb_neq c sq)) by done. apply (IH (w ++ [Lit c])).
Qed.

Lemma lex_quote l s rest :
  lx_mode l = MUnquoted →
  lex_run l (shellQuote s ++ rest) = lex_run (mkLexer MUnquoted (grow (Lit <$> s) l) (lx_tokens l)) rest.
Proof.
  intros Hm. unfold shellQuote. rewrite <- app_comm_cons, <- app_assoc. destruct l as [m w ts].
  cbn [lx_mode lx_tokens] in *. subst m. cbn [app].
  change (lex_run (mkLexer MUnquoted w ts) (sq :: escape_quotes s ++ sq :: rest)) with
    (lex_run (mkLexer MSingle (grow [] (mkLexer MUnquoted w ts)) ts) (escape_quotes s ++ sq :: rest)).
  unfold grow. cbn [lx_word]. by rewrite lex_single, app_nil_r.
Qed.

(** A character with no meaning to the shell outside quotes. *)
Definition ordinary (c : byte) : Prop :=
  is_blank c = false ∧ is_operator c = false ∧ c ≠ sq ∧ c ≠ 34 ∧ c ≠ 92 ∧ c ≠ chr "#".

Lemma lex_ordinary l c s rest :
  lx_mode l = MUnquoted → Forall ordinary (c :: s) →
  lex_run l ((c :: s) ++ rest) = lex_run (mkLexer MUnquoted (grow (Act <$> c :: s) l) (lx_tokens l)) rest.
Proof.
  revert l c. induction s as [|d s IH]; intros l c Hm Hs; apply Forall_cons in Hs as [(H1 & H2 & H3 & H4 & H5 & H6) Hs].
  all: cbn [app lex_run]; unfold lex1; rewrite Hm, H1, H2, !(proj2 (Z.eqb_neq c _)) by done; cbn [andb].
  - done.
  - etrans; [apply (IH (mkLexer MUnquoted (grow [Act c] l) (lx_tokens l)) d); done|].
    unfold grow. cbn [lx_word default lx_tokens from_option id]. by rewrite <- app_assoc.
Qed.

Lemma escape_quotes_none s : Forall (λ c, c ≠ sq) s → escape_quotes s = s.
Proof.
  induction 1 as [|c s Hc _ IH]; [done|]. cbn.
  rewrite (proj2 (Z.eqb_neq c sq)) by done. cbn. f_equal. exact IH.
Qed.

Lemma ordinary_no_quote s : Forall ordinary s → Forall (λ c, c ≠ sq) s.
Proof. intros H. eapply Forall_impl; [exact H|]. by intros c (_ & _ & Hc & _). Qed.

(** A command in pieces: constant text, a quoted value, an unquoted one. *)
Inductive seg := Text (a : list byte) | Quoted (s : list byte) | Bare (c : byte) (s : list byte).

Definition seg_bytes (x : seg) : list byte :=
  match x with Text a => a | Quoted s => shellQuote s | Bare c s => c :: s end.

Definition seg_ok (x : seg) : Prop := match x with Bare c s => Forall ordinary (c :: s) | _ => True end.

Fixpoint lex_segs (l : lexer) (xs : list seg) : option lexer :=
  match xs with
  | [] => Some l
  | x :: xs' =>
      match x, lx_mode l with
      | Text a, _ => match lex_run l a with None => None | Some l' => lex_segs l' xs' end
      | Quoted s, MUnquoted => lex_segs (mkLexer MUnquoted (grow (Lit <$> s) l) (lx_tokens l)) xs'
      | Bare c s, MUnquoted => lex_segs (mkLexer MUnquoted (grow (Act <$> c :: s) l) (lx_tokens l)) xs'
      | _, _ => None
      end
  end.

Lemma lex_segs_sound l xs l' :
  Forall seg_ok xs → lex_segs l xs = Some l' → lex_run l (concat (seg_bytes <$> xs)) = Some l'.
Proof.
  intros Hok. revert l. induction Hok as [|x xs Hx _ IH]; intros l; [done|].
  cbn [lex_segs fmap list_fmap concat]. destruct x as [a|s|c s]; cbn [seg_bytes].
  - rewrite lex_run_app. destruct (lex_run l a) as [l1|]; [apply IH|done].
  - destruct (lx_mode l) eqn:Hm; try done. rewrite lex_quote by done. apply IH.
  - destruct (lx_mode l) eqn:Hm; try done. rewrite lex_ordinary by done. apply IH.
Qed.

Lemma lex_segs_lex bs xs l :
  bs = concat (seg_bytes <$> xs) → Forall seg_ok xs → lex_segs new_lexer xs = Some l →
  lx_mode l = MUnquoted → lex bs = Some (end_word l).
Proof. intros -> Hok E Hm. unfold lex. by rewrite (lex_segs_sound _ _ _ Hok E), Hm. Qed.

Ltac read_segs xs :=
  etrans; [eapply (lex_segs_lex _ xs); [| |vm_compute; reflexivity|reflexivity]|vm_compute; reflexivity].

(** The remote command of [ssh] is [sh -lc] and one word, the script. *)
Lemma sh_lc_words script : lex (B"sh -lc " ++ shellQuote script) = Some [W B"sh"; W B"-lc"; Q script].
Proof.
  read_segs [Text B"sh -lc "; Quoted script]; [|by repeat constructor].
  cbn [concat seg_bytes fmap list_fmap]. by rewrite app_nil_r.
Qed.

Definition cleanup_tokens (pid : gostring) : list shtoken :=
  [W B"if"; W B"test"; W B"-f"; Q pid; TOp (chr ";");
   W B"then"; W B"pid=$"; TOp (chr "("); W B"cat"; Q pid; TOp (chr ")"); TOp (chr ";");
   W B"kill"; pid_word; W B"2"; TOp (chr ">"); W B"/dev/null"; TOp (chr ";");
   W B"wait"; pid_word; W B"2"; TOp (chr ">"); W B"/dev/null"; TOp (chr ";");
   W B"rm"; W B"-f"; Q pid; TOp (chr ";"); W B"fi"].

Lemma cleanup_script_words pid : lex (cleanup_script pid) = Some (cleanup_tokens pid).
Proof.
  read_segs [Text B"if test -f "; Quoted pid; Text B"; then pid=$(cat "; Quoted pid;
    Text (B"); kill " ++ dq B"$pid" ++ B" 2>/dev/null; wait " ++ dq B"$pid" ++ B" 2>/dev/null; rm -f ");
    Quoted pid; Text B"; fi"]; [|by repeat constructor].
  cbn [concat seg_bytes fmap list_fmap]. unfold cleanup_script. by rewrite <- !app_assoc, app_nil_r.
Qed.

(** The serve script: everything is read as intended except the word after
    [trap], whose path stands outside the quotes of the script. *)
Definition trap_head : gostring :=
  B"kill " ++ dq B"$pid" ++ B" 2>/dev/null; wait " ++ dq B"$pid" ++ B" 2>/dev/null; rm -f ".

Definition serve_tokens (bind pid : gostring) (trap : list shtoken) : list shtoken :=
  [W B"mkdir"; W B"-p"; Q (path_Dir pid); TOp (chr ";");
   W B"hoot"; W B"serve"; W B"--bind"; Q bind; TOp (chr "&");
   W B"pid=$!"; TOp (chr ";"); W B"echo"; pid_word; TOp (chr ">"); Q pid; TOp (chr ";"); W B"trap"] ++ trap ++
  [W B"HUP"; W B"INT"; W B"TERM"; W B"EXIT"; TOp (chr ";"); W B"wait"; pid_word].

Definition serve_segs (bind pid : gostring) (path : list seg) : list seg :=
  [Text B"mkdir -p "; Quoted (path_Dir pid); Text B"; hoot serve --bind "; Quoted bind;
   Text (B" & pid=$!; echo " ++ dq B"$pid" ++ B" > "); Quoted pid; Text B"; trap "; Quoted trap_head] ++ path ++
  [Quoted B"; exit"; Text (B" HUP INT TERM EXIT; wait " ++ dq B"$pid")].

Lemma serve_segs_bytes bind pid path :
  escape_quotes pid = concat (seg_bytes <$> path) →
  remoteServeScript bind pid = concat (seg_bytes <$> serve_segs bind pid path).
Proof.
  intros E. unfold serve_segs. rewrite !fmap_app, !concat_app, <- E. cbn [concat seg_bytes fmap list_fmap].
  unfold remoteServeScript, trap_head, shellQuote. rewrite !app_nil_r.
  repeat (rewrite <- !app_assoc; cbn [app]). reflexivity.
Qed.

Lemma serve_segs_lex bind pid path l :
  escape_quotes pid = concat (seg_bytes <$> path) → Forall seg_ok path →
  lex_segs new_lexer (serve_segs bind pid path) = Some l → lx_mode l = MUnquoted →
  lex (remoteServeScript bind pid) = Some (end_word l).
Proof.
  intros E Hok. apply lex_segs_lex; [by apply serve_segs_bytes|].
  unfold serve_segs. repeat (apply Forall_app; split); [by repeat constructor|done|by repeat constructor].
Qed.

Lemma serve_script_words bind pid :
  pid ≠ [] → Forall ordinary pid →
  lex (remoteServeScript bind pid) = Some (serve_tokens bind pid
    [TWord ((Lit <$> trap_head) ++ (Act <$> pid) ++ (Lit <$> B"; exit"))]).
Proof.
  intros Hne Ho. destruct pid as [|c p]; [done|].
  assert (escape_quotes (c :: p) = concat (seg_bytes <$> [Bare c p])) as E.
  { rewrite escape_quotes_none by by apply ordinary_no_quote. cbn. by rewrite app_nil_r. }
  etrans; [eapply (serve_segs_lex bind _ _ _ E); [by apply Forall_singleton|vm_compute; reflexivity|reflexivity]
          |vm_compute; reflexivity].
Qed.

(** A blank in the path ends the word: [trap] is given a shorter action, and the
    rest of the path as the first of the conditions it traps. *)
Lemma serve_script_split bind a b :
  a ≠ [] → b ≠ [] → Forall ordinary a → Forall ordinary b →
  lex (remoteServeScript bind (a ++ 32 :: b)) = Some (serve_tokens bind (a ++ 32 :: b)
    [TWord ((Lit <$> trap_head) ++ (Act <$> a)); TWord ((Act <$> b) ++ (Lit <$> B"; exit"))]).
Proof.
  intros Ha Hb Hoa Hob. destruct a as [|c a]; [done|]. destruct b as [|d b]; [done|].
  assert (escape_quotes ((c :: a) ++ 32 :: d :: b) = concat (seg_bytes <$> [Bare c a; Text [32]; Bare d b])) as E.
  { rewrite escape_quotes_none; [cbn; by rewrite app_nil_r|].
    apply Forall_app. split; [by apply ordinary_no_quote|]. constructor; [done|by apply ordinary_no_quote]. }
  etrans; [eapply (serve_segs_lex bind _ _ _ E); [|vm_compute; reflexivity|reflexivity]|vm_compute; reflexivity].
  by do 3 (apply Forall_cons; split; [done|]).
Qed.

(** ** Sizes *)

Lemma hexdigit_range d : 0 <= d < 16 → 48 <= hexdigit d <= 57 ∨ 97 <= hexdigit d <= 102.
Proof. unfold hexdigit. intros H. destruct (Z.ltb_spec d 10); lia. Qed.

Lemma EncodeToString_spec bs :
  bytes_ok bs → length (EncodeToString bs) = (2 * length bs)%nat ∧
  Forall (λ c, 48 <= c <= 57 ∨ 97 <= c <= 102) (EncodeToString bs).
Proof.
  induction 1 as [|b bs Hb _ [IH1 IH2]]; [done|]. unfold is_byte in Hb.
  change (EncodeToString (b :: bs)) with (hexdigit (b / 16) :: hexdigit (b mod 16) :: EncodeToString bs).
  split; [cbn [length]; lia|]. apply Forall_cons; split; [apply hexdigit_range; lia|]. apply Forall_cons; split; [apply hexdigit_range; lia|done].
Qed.

Lemma hex_name pre post bs :
  (3 <= length pre)%nat → bytes_ok bs → Forall (λ b, b ≠ slash) pre → Forall (λ b, b ≠ slash) post →
  plain_name (pre ++ EncodeToString bs ++ post).
Proof.
  intros Hl Hb H1 H2. destruct (EncodeToString_spec bs Hb) as [_ H3]. unfold plain_name, dot, dotdot.
  split; [by destruct pre; [cbn in Hl; lia|]|].
  do 2 (split; [intros E; apply (f_equal length) in E; rewrite length_app in E; cbn in E; lia|]).
  repeat (apply Forall_app; split); [done| |done].
  eapply Forall_impl; [exact H3|]. unfold slash. cbn. lia.
Qed.

Lemma remotePort_range id : 20000 <= remotePort id < 50000.
Proof.
  unfold remotePort. destruct id as [|a [|b [|c [|d id]]]]; try lia.
  destruct (hex_val a), (hex_val b), (hex_val c), (hex_val d); lia.
Qed.

Section sizes.
Context (Sum256 : list byte → list byte) (HS : ∀ x, bytes_ok (Sum256 x) ∧ length (Sum256 x) = 32%nat).
Context (uid pid : Z) (UserCacheDir : option gostring) (TempDir : gostring).

Lemma short_dir_fits cacheName tmpName sample name :
  TempDir ≠ [] → plain_name sample → plain_name name → length sample = length name →
  (length (path_Join [path_Join [TempDir; tmpName]; sample]) <= maxUnixSocketPathLen)%nat →
  (length (path_Join [shortSocketDir UserCacheDir TempDir cacheName tmpName sample; name]) <= maxUnixSocketPathLen)%nat.
Proof.
  intros Ht Hs Hn Hl Hfit.
  assert ((length (path_Join [path_Join [TempDir; tmpName]; name]) <= maxUnixSocketPathLen)%nat) as Hfit'.
  { rewrite (path_Join_length _ name sample); [exact Hfit|by apply path_Join_nonempty|done|done|done]. }
  unfold shortSocketDir. destruct UserCacheDir as [[|x dir]|]; [done| |done].
  destruct (Nat.leb_spec (length (path_Join [path_Join [x :: dir; B"hootty"; cacheName]; sample])) maxUnixSocketPathLen) as [H|H];
    [|done].
  rewrite (path_Join_length _ name sample); [exact H|by apply path_Join_nonempty|done|done|done].
Qed.

Lemma sum_prefix_ok n x : bytes_ok (take n (Sum256 x)).
Proof. apply Forall_take, HS. Qed.

Definition control_sample : gostring := B"cm-00000000".
Definition forward_sample : gostring := B"fwd-0000000000000000.sock".

Lemma sample_plain : plain_name control_sample ∧ plain_name forward_sample.
Proof. repeat split; try discriminate; vm_compute; repeat (constructor; try discriminate). Qed.

(** The temporary directory leaves room for a socket. *)
Definition temp_fits : Prop :=
  (length (path_Join [path_Join [TempDir; B"hootty-ssh-control-" ++ Itoa uid]; control_sample]) <= maxUnixSocketPathLen)%nat ∧
  (length (path_Join [path_Join [TempDir; B"hootty-ssh-forward-" ++ Itoa uid]; forward_sample]) <= maxUnixSocketPathLen)%nat.

Lemma ControlPath_fits stateDir user host port :
  TempDir ≠ [] → temp_fits →
  (length (ControlPath Sum256 uid UserCacheDir TempDir stateDir user host port) <= maxUnixSocketPathLen)%nat.
Proof.
  intros Ht [Hfit _]. unfold ControlPath.
  destruct (Nat.leb_spec (length (path_Join [stateDir; control_name Sum256 user host port])) maxUnixSocketPathLen); [done|].
  destruct (EncodeToString_spec _ (sum_prefix_ok 4 (controlKey user host port))) as [Hlen _].
  rewrite length_take, (proj2 (HS _)) in Hlen.
  apply short_dir_fits; [done|apply sample_plain| | |done].
  - unfold control_name. rewrite <- (app_nil_r (EncodeToString _)).
    apply hex_name; [done|apply sum_prefix_ok|vm_compute; repeat (constructor; try discriminate)|done].
  - unfold control_name. rewrite length_app, Hlen. done.
Qed.

Lemma localSocketPath_fits stateDir safeHost id :
  TempDir ≠ [] → temp_fits →
  (length (localSocketPath Sum256 uid pid UserCacheDir TempDir stateDir safeHost id) <= maxUnixSocketPathLen)%nat.
Proof.
  intros Ht [_ Hfit]. unfold localSocketPath. set (name := B"fwd-" ++ safeHost ++ _).
  destruct (Nat.leb_spec (length (path_Join [stateDir; name])) maxUnixSocketPathLen); [done|].
  destruct (EncodeToString_spec _ (sum_prefix_ok 8 name)) as [Hlen _].
  rewrite length_take, (proj2 (HS _)) in Hlen.
  assert (plain_name (B"fwd-" ++ EncodeToString (take 8 (Sum256 name)) ++ B".sock")) as Hp.
  { apply hex_name; [cbn; lia|apply sum_prefix_ok|vm_compute; repeat (constructor; try discriminate)..]. }
  assert (length (B"fwd-" ++ EncodeToString (take 8 (Sum256 name)) ++ B".sock") = length forward_sample) as El
    by (rewrite !length_app, Hlen; done).
  apply short_dir_fits; [done|done|done|done|].
  rewrite (path_Join_length _ _ forward_sample); [exact Hfit|by apply path_Join_nonempty|done|apply sample_plain|done].
Qed.

(** The tunnel plan is usable.  Given a temporary directory short enough,
    both unix socket paths of a plan stay within the 80 bytes the kernels allow
    for, whatever the state directory, the host and the id; both ends of the
    forward name the same loopback address, on a port from 20000 to 49999. *)
Theorem tunnel_plan_fits cfg id home :
  TempDir ≠ [] → temp_fits →
  let plan := BuildPlan Sum256 uid pid UserCacheDir TempDir cfg id home in
  (length (pl_ControlPath plan) <= maxUnixSocketPathLen)%nat ∧
  (length (LocalSocket plan) <= maxUnixSocketPathLen)%nat ∧
  ∃ port, 20000 <= port < 50000 ∧ RemoteBind plan = B"127.0.0.1:" ++ Itoa port ∧
    ForwardTarget plan = RemoteBind plan.
Proof.
  intros Ht Hfit plan. split; [by apply ControlPath_fits|]. split; [by apply localSocketPath_fits|].
  exists (remotePort id). split; [apply remotePort_range|done].
Qed.
End sizes.

(** C32: What the remote shell runs.  For any configuration and plan, the remote
    command of the tunnel and the one of its clean-up are [sh -lc] and a single
    word, the script, whatever the home directory contains; the clean-up script
    uses the pid file's path as one literal word each time.  The serve script
    does too, and its trap removes that path, when the path needs no quoting. *)
Theorem remote_scripts_read cfg plan :
  (∃ cmd, last (TunnelArgs cfg plan) = Some cmd ∧
     lex cmd = Some [W B"sh"; W B"-lc"; Q (remoteServeScript (RemoteBind plan) (RemotePID plan))]) ∧
  (∃ cmd, last (CleanupArgs cfg plan) = Some cmd ∧
     lex cmd = Some [W B"sh"; W B"-lc"; Q (cleanup_script (RemotePID plan))]) ∧
  lex (cleanup_script (RemotePID plan)) = Some (cleanup_tokens (RemotePID plan)) ∧
  (RemotePID plan ≠ [] → Forall ordinary (RemotePID plan) →
   lex (remoteServeScript (RemoteBind plan) (RemotePID plan)) =
    Some (serve_tokens (RemoteBind plan) (RemotePID plan)
      [TWord ((Lit <$> trap_head) ++ (Act <$> RemotePID plan) ++ (Lit <$> B"; exit"))])).
Proof.
  unfold TunnelArgs, CleanupArgs. rewrite !last_app. cbn [last].
  split; [eexists; split; [done|apply sh_lc_words]|]. split; [eexists; split; [done|apply sh_lc_words]|].
  split; [apply cleanup_script_words|apply serve_script_words].
Qed.

(** The path in the trap is not quoted.  [remoteServeScript] puts a quoted
    path inside a quoted script, which takes the quotes away: with a blank in
    the home directory, [trap] gets an action cut at the blank and the rest of
    the path as a signal name, while every other use of the path is one word. *)
Theorem trap_path_splits bind a b :
  a ≠ [] → b ≠ [] → Forall ordinary a → Forall ordinary b →
  lex (remoteServeScript bind (a ++ 32 :: b)) = Some (serve_tokens bind (a ++ 32 :: b)
    [TWord ((Lit <$> trap_head) ++ (Act <$> a)); TWord ((Act <$> b) ++ (Lit <$> B"; exit"))]) ∧
  lex (cleanup_script (a ++ 32 :: b)) = Some (cleanup_tokens (a ++ 32 :: b)).
Proof. intros. split; [by apply serve_script_split|apply cleanup_script_words]. Qed.

Definition zero_sum (_ : list byte) : list byte := replicate 32 0.
Definition ex_cfg : Config := mkConfig B"al" B"box" [] B"/home/al/.hoot".
Definition ex_plan (home : gostring) : Plan := BuildPlan zero_sum 1000 77 None B"/tmp" ex_cfg B"00ff00ff" home.

Lemma zero_sum_ok x : bytes_ok (zero_sum x) ∧ length (zero_sum x) = 32%nat.
Proof. split; [|done]. by apply Forall_replicate. Qed.

Lemma tunnel_plan_fits_witness :
  (length (pl_ControlPath (ex_plan B"/home/al")) <= 80)%nat ∧
  (length (LocalSocket (ex_plan B"/home/al")) <= 80)%nat ∧
  ∃ port, 20000 <= port < 50000 ∧ RemoteBind (ex_plan B"/home/al") = B"127.0.0.1:" ++ Itoa port ∧
    ForwardTarget (ex_plan B"/home/al") = RemoteBind (ex_plan B"/home/al").
Proof.
  apply (tunnel_plan_fits zero_sum zero_sum_ok 1000 77 None B"/tmp" ex_cfg B"00ff00ff" B"/home/al");
    [discriminate|]. split; apply Nat.leb_le; vm_compute; reflexivity.
Defined.

Lemma remote_scripts_read_witness :
  lex (remoteServeScript (RemoteBind (ex_plan B"/home/al")) (RemotePID (ex_plan B"/home/al"))) =
    Some (serve_tokens (RemoteBind (ex_plan B"/home/al")) (RemotePID (ex_plan B"/home/al"))
      [TWord ((Lit <$> trap_head) ++ (Act <$> RemotePID (ex_plan B"/home/al")) ++ (Lit <$> B"; exit"))]).
Proof.
  destruct (remote_scripts_read ex_cfg (ex_plan B"/home/al")) as (_ & _ & _ & H). apply H.
  - vm_compute. discriminate.
  - vm_compute. repeat (apply Forall_cons; split; [repeat split; try reflexivity; discriminate|]). constructor.
Defined.

Lemma trap_path_splits_witness :
  lex (remoteServeScript B"127.0.0.1:20255" (B"/home/a" ++ 32 :: B"l/.hoot/.tunnels/00.pid")) =
    Some (serve_tokens B"127.0.0.1:20255" (B"/home/a" ++ 32 :: B"l/.hoot/.tunnels/00.pid")
      [TWord ((Lit <$> trap_head) ++ (Act <$> B"/home/a"));
       TWord ((Act <$> B"l/.hoot/.tunnels/00.pid") ++ (Lit <$> B"; exit"))]).
Proof.
  apply (trap_path_splits B"127.0.0.1:20255" B"/home/a" B"l/.hoot/.tunnels/00.pid"); [discriminate|discriminate| |];
    vm_compute; repeat (apply Forall_cons; split; [repeat split; try reflexivity; discriminate|]); constructor.
Defined.
