(* ===== verification/Cli.v ===== *)
(** * The small parsers of the subcommands

    [cmd/hoot/encode.go] (the escapes of [hoot write], with [strconv.Unquote] on
    double-quoted input), [signal_parse.go], [env_override.go], [nesting.go],
    and the argument and status mapping of [detach.go], [kill.go], [write.go].
    [strings.ToUpper] is a parameter, as are the platform's signal numbers. *)
From S2P Require Import Prelude GoBase Utf8 QueryStripper Wire State GoStrings Ssh.
Open Scope Z_scope.

(** ** [strconv.Unquote] *)

Definition bs : byte := 92.

(** [utf8.ValidString]; the fuel is the length. *)
Fixpoint valid_loop (fuel : nat) (s : gostring) : bool :=
  match fuel, DecodeRune s with
  | _, None => true
  | O, Some _ => false
  | S fuel', Some (r, w) => negb ((r =? RuneError) && (w =? 1)%nat) && valid_loop fuel' (drop w s)
  end.
Definition ValidString (s : gostring) : bool := valid_loop (length s) s.

(** [n] digits in a base, most significant first. *)
Fixpoint read_digits (digit : byte → option Z) (base : Z) (n : nat) (s : gostring) (v : Z) : option (Z * gostring) :=
  match n with
  | O => Some (v, s)
  | S n' =>
      match s with
      | [] => None
      | c :: s' => match digit c with None => None | Some x => read_digits digit base n' s' (v * base + x) end
      end
  end.

Definition octal (c : byte) : option Z := if (48 <=? c) && (c <=? 55) then Some (c - 48) else None.

(** [UnquoteChar], the quote being the double one: the value, whether it is a
    rune to encode, the rest. *)
Definition UnquoteChar (s : gostring) : option (Z * bool * gostring) :=
  match s with
  | [] => None
  | c :: s1 =>
      if c =? 34 then None
      else if 128 <=? c then
        match DecodeRune s with None => None | Some (r, w) => Some (r, true, drop w s) end
      else if negb (c =? bs) then Some (c, false, s1)
      else
        match s1 with
        | [] => None
        | c :: s =>
            let simple v := Some (v, false, s) in
            if c =? chr "a" then simple 7 else if c =? chr "b" then simple 8
            else if c =? chr "f" then simple 12 else if c =? chr "n" then simple 10
            else if c =? chr "r" then simple 13 else if c =? chr "t" then simple 9
            else if c =? chr "v" then simple 11
            else if c =? chr "x" then
              match read_digits hex_val 16 2 s 0 with None => None | Some (v, s) => Some (v, false, s) end
            else if (c =? chr "u") || (c =? chr "U") then
              match read_digits hex_val 16 (if c =? chr "u" then 4%nat else 8%nat) s 0 with
              | None => None
              | Some (v, s) => if scalar v then Some (v, true, s) else None
              end
            else if (48 <=? c) && (c <=? 55) then
              match read_digits octal 8 2 s (c - 48) with
              | None => None
              | Some (v, s) => if 255 <? v then None else Some (v, false, s)
              end
            else if c =? bs then simple bs
            else if c =? 34 then simple 34
            else None
        end
  end.

(** The loop of [unquote]; the rest starts at the closing quote. *)
Fixpoint unquote_loop (fuel : nat) (s buf : gostring) : option (gostring * gostring) :=
  match s with
  | [] => None
  | c :: _ =>
      if c =? 34 then Some (buf, s)
      else
        match fuel with
        | O => None
        | S fuel' =>
            match UnquoteChar s with
            | None => None
            | Some (r, multibyte, rem) =>
                if c =? 10 then None
                else unquote_loop fuel' rem
                       (buf ++ if (r <? 128) || negb (multibyte : bool) then [u8 r] else EncodeRune r)
            end
        end
  end.

(** [Unquote] of a string that starts with a double quote. *)
Definition Unquote (s : gostring) : option gostring :=
  match s with
  | q :: in_ =>
      if (q =? 34) && (2 <=? length s)%nat then
        match cut_at 34 in_ with
        | None => None
        | Some (head, rem) =>
            if negb (existsb (Z.eqb bs) head) && negb (existsb (Z.eqb 10) head) && ValidString head
            then match rem with [] => Some head | _ => None end
            else match unquote_loop (length in_) in_ [] with
                 | Some (out, [_]) => Some out
                 | _ => None
                 end
        end
      else None
  | [] => None
  end.

(** [decodeArgvEscapes]; the hint in the error message is left out. *)
Definition decodeArgvEscapes (argv : list gostring) : option gostring := Unquote (34 :: Join argv [] ++ [34]).

(** [resolveWriteBody]: the file, the arguments or standard input. *)
Inductive body_error := BodyOpen | BodyRead | BodyEscape | BodyNone.

Definition resolveWriteBody (inputFile : gostring) (file : res body_error gostring) (argv : list gostring)
    (stdinIsTTY : bool) (stdin : res body_error gostring) : res body_error gostring :=
  match inputFile with
  | _ :: _ => file
  | [] =>
      match argv with
      | _ :: _ => match decodeArgvEscapes argv with Some b => Ok b | None => Err BodyEscape end
      | [] => if negb stdinIsTTY then stdin else Err BodyNone
      end
  end.

(** ** [parseSignal] *)

Definition signal_names : list gostring :=
  [B"HUP"; B"INT"; B"QUIT"; B"ILL"; B"TRAP"; B"ABRT"; B"IOT"; B"BUS"; B"FPE"; B"KILL"; B"USR1"; B"SEGV";
   B"USR2"; B"PIPE"; B"ALRM"; B"TERM"; B"CHLD"; B"CONT"; B"STOP"; B"TSTP"; B"TTIN"; B"TTOU"; B"URG";
   B"XCPU"; B"XFSZ"; B"VTALRM"; B"PROF"; B"WINCH"; B"IO"; B"SYS"].

Inductive signal_error := SigEmpty | SigRange (n : Z) | SigUnknown (spec : gostring).

Definition parseSignal (ToUpper : gostring → gostring) (signum : gostring → Z) (spec : gostring)
  : res signal_error Z :=
  match TrimSpace spec with
  | [] => Err SigEmpty
  | s =>
      match Atoi s with
      | Some n => if (n <? 1) || (64 <? n) then Err (SigRange n) else Ok n
      | None =>
          let upper := TrimPrefix (ToUpper s) B"SIG" in
          if bool_decide (upper ∈ signal_names) then Ok (signum upper) else Err (SigUnknown spec)
      end
  end.

(** ** Environment overrides *)

Inductive env_error :=
| EnvOpen (path : gostring) | EnvScan (path : gostring) | EnvNoValue (path : gostring) (line : nat)
| EnvName (name : gostring) | EnvUnset (name : gostring).

Definition name_rune (i : nat) (r : Z) : bool :=
  (r =? chr "_") || ((chr "A" <=? r) && (r <=? chr "Z")) || ((chr "a" <=? r) && (r <=? chr "z")) ||
  ((0 <? i)%nat && (chr "0" <=? r) && (r <=? chr "9")).

Definition validateEnvName (name : gostring) : bool :=
  match name with [] => false | _ => forallb (λ x, name_rune x.1 x.2) (range_string name) end.

(** [bufio.Scanner] over lines: one that fills the buffer ends the scan with an
    error when it is reached. *)
Definition max_token : nat := Z.to_nat 65536.

Definition drop_cr (line : gostring) : gostring :=
  if bool_decide (last line = Some 13) then removelast line else line.

Definition scan_lines (body : gostring) : list gostring :=
  let ls := split_on 10 body in
  if bool_decide (last ls = Some []) then removelast ls else ls.

Fixpoint env_lines (path : gostring) (n : nat) (ls : list gostring) (out : gmap gostring gostring)
  : res env_error (gmap gostring gostring) :=
  match ls with
  | [] => Ok out
  | l :: ls' =>
      if (max_token <=? length l)%nat then Err (EnvScan path)
      else
        match TrimSpace (drop_cr l) with
        | [] => env_lines path (S n) ls' out
        | (c :: _) as line =>
            if c =? chr "#" then env_lines path (S n) ls' out
            else match cut_at (chr "=") line with
                 | None => Err (EnvNoValue path n)
                 | Some (name, value) =>
                     if validateEnvName name then env_lines path (S n) ls' (<[name := value]> out)
                     else Err (EnvName name)
                 end
        end
  end.

(** [parseEnvFile]; [body] is [None] when the file cannot be opened. *)
Definition parseEnvFile (path : gostring) (body : option gostring) : res env_error (gmap gostring gostring) :=
  match body with
  | None => Err (EnvOpen path)
  | Some body => env_lines path 1 (scan_lines body) ∅
  end.

Fixpoint env_files (fs : list (gostring * option gostring)) (out : gmap gostring gostring)
  : res env_error (gmap gostring gostring) :=
  match fs with
  | [] => Ok out
  | (path, body) :: fs' =>
      match parseEnvFile path body with
      | Err e => Err e
      | Ok values => env_files fs' (values ∪ out)
      end
  end.

Fixpoint env_specs (lookup : gostring → option gostring) (specs : list gostring) (out : gmap gostring gostring)
  : res env_error (gmap gostring gostring) :=
  match specs with
  | [] => Ok out
  | spec :: specs' =>
      let '(name, value) := match cut_at (chr "=") spec with Some (n, v) => (n, Some v) | None => (spec, None) end in
      if negb (validateEnvName name) then Err (EnvName name)
      else match (match value with Some v => Some v | None => lookup name end) with
           | None => Err (EnvUnset name)
           | Some v => env_specs lookup specs' (<[name := v]> out)
           end
  end.

Definition parseEnvOverrides (envFiles : list (gostring * option gostring)) (specs : list gostring)
    (lookup : gostring → option gostring) : res env_error (gmap gostring gostring) :=
  match env_files envFiles ∅ with Err e => Err e | Ok out => env_specs lookup specs out end.

(** ** Nesting *)

Definition hootSessionEnv : gostring := B"HOOT_SESSION".

(** [current] is the value of [$HOOT_SESSION]; the error names it. *)
Definition errIfNestedHootSession (current : gostring) : option gostring :=
  match current with [] => None | _ => Some current end.

Definition errIfSelfLogSession (current key outputPath : gostring) : option gostring :=
  if bool_decide (current = []) || negb (bool_decide (current = key)) || negb (bool_decide (outputPath = []))
  then None else Some current.

(** ** [hoot detach], [kill], [write] *)

Inductive detach_error := DetachEmpty | DetachMalformed.

Definition splitDetachArg (arg : gostring) : res detach_error (gostring * gostring) :=
  match arg with
  | [] => Err DetachEmpty
  | _ =>
      match split_on (chr "/") arg with
      | [s] => Ok (s, [])
      | [s; a] => if bool_decide (s = []) || bool_decide (a = []) then Err DetachMalformed else Ok (s, a)
      | _ => Err DetachMalformed
      end
  end.

(** The exit codes; 0 is success. *)
Definition mapDetachStatus (status : Z) : Z :=
  if status =? 404 then 3 else if status =? 409 then 3 else if status =? 400 then 2 else 1.
Definition mapKillStatus (status : Z) : Z :=
  if status =? 204 then 0 else if status =? 404 then 3 else if status =? 409 then 5
  else if status =? 400 then 2 else 1.
Definition mapWriteStatus (status : Z) : Z :=
  if status =? 204 then 0 else if status =? 404 then 3 else if status =? 409 then 2
  else if status =? 400 then 2 else if status =? 413 then 2 else 1.

(** ** Every byte string can be written *)

Definition hex_escape (b : byte) : gostring := [bs; chr "x"; hexdigit (b / 16); hexdigit (b mod 16)].
Definition hex_escapes (s : gostring) : gostring := s ≫= hex_escape.

Lemma Join_nil_sep l : Join l [] = concat l.
Proof.
  induction l as [|a [|b l] IH]; [done|cbn; by rewrite app_nil_r|].
  change (Join (a :: b :: l) []) with (a ++ [] ++ Join (b :: l) []). by rewrite IH.
Qed.

Lemma hex_val_digit d : 0 <= d < 16 → hex_val (hexdigit d) = Some d.
Proof.
  intros H. assert (d = 0 ∨ d = 1 ∨ d = 2 ∨ d = 3 ∨ d = 4 ∨ d = 5 ∨ d = 6 ∨ d = 7 ∨ d = 8 ∨ d = 9 ∨
    d = 10 ∨ d = 11 ∨ d = 12 ∨ d = 13 ∨ d = 14 ∨ d = 15) as Hd by lia.
  destruct_or?; subst; reflexivity.
Qed.

Lemma hexdigit_not_quote d : 0 <= d < 16 → hexdigit d ≠ 34.
Proof. intros H. destruct (hexdigit_range d H); lia. Qed.

Lemma UnquoteChar_hex b rest : is_byte b → UnquoteChar (hex_escape b ++ rest) = Some (b, false, rest).
Proof.
  unfold is_byte. intros Hb.
  change (UnquoteChar (hex_escape b ++ rest)) with
    (match read_digits hex_val 16 2 (hexdigit (b / 16) :: hexdigit (b mod 16) :: rest) 0 with
     | None => None | Some (v, s) => Some (v, false, s) end).
  cbn [read_digits]. rewrite !hex_val_digit by lia. do 2 f_equal. f_equal. lia.
Qed.

Lemma unquote_hex s fuel buf :
  bytes_ok s → (length s <= fuel)%nat → unquote_loop fuel (hex_escapes s ++ [34]) buf = Some (buf ++ s, [34]).
Proof.
  intros Hs. revert fuel buf. induction Hs as [|b s Hb _ IH]; intros fuel buf Hf.
  { destruct fuel; cbn; by rewrite app_nil_r. }
  destruct fuel as [|fuel]; [cbn in Hf; lia|].
  change (hex_escapes (b :: s)) with (hex_escape b ++ hex_escapes s). rewrite <- app_assoc.
  pose proof (UnquoteChar_hex b (hex_escapes s ++ [34]) Hb) as E.
  change (unquote_loop (S fuel) (hex_escape b ++ hex_escapes s ++ [34]) buf) with
    (match UnquoteChar (hex_escape b ++ hex_escapes s ++ [34]) with
     | None => None
     | Some (r, multibyte, rem) =>
         unquote_loop fuel rem (buf ++ if (r <? 128) || negb (multibyte : bool) then [u8 r] else EncodeRune r)
     end).
  rewrite E. cbn [negb]. rewrite orb_true_r. unfold is_byte in Hb.
  assert (u8 b = b) as -> by (unfold u8; apply Z.mod_small; lia).
  rewrite IH by (cbn in Hf; lia). by rewrite <- app_assoc.
Qed.

Lemma hex_escapes_quote s : bytes_ok s → 34 ∉ hex_escapes s.
Proof.
  induction 1 as [|b s Hb _ IH]; [apply not_elem_of_nil|]. unfold is_byte in Hb.
  change (hex_escapes (b :: s)) with (hex_escape b ++ hex_escapes s). unfold hex_escape.
  rewrite not_elem_of_app. split; [|done]. rewrite !not_elem_of_cons.
  repeat split; try discriminate; try apply not_elem_of_nil; symmetry; apply hexdigit_not_quote; lia.
Qed.

(** Any input can be written.  For every byte string, NUL, quotes,
    backslashes, control bytes and invalid UTF-8 included, [hoot write] given the
    hex escapes of its bytes, cut into arguments anywhere, sends exactly that
    string. *)
Theorem write_escapes_any_bytes s argv :
  bytes_ok s → concat argv = hex_escapes s → decodeArgvEscapes argv = Some s.
Proof.
  intros Hs Ha. unfold decodeArgvEscapes. rewrite Join_nil_sep, Ha. unfold Unquote.
  assert (cut_at 34 (hex_escapes s ++ [34]) = Some (hex_escapes s, [])) as Ec
    by (apply cut_at_Some; split; [done|by apply hex_escapes_quote]).
  assert (Nat.leb 2 (length (34 :: hex_escapes s ++ [34])) = true) as El
    by (apply Nat.leb_le; cbn [length]; rewrite length_app; cbn; lia).
  rewrite El, Ec. cbn [Z.eqb Pos.eqb andb].
  destruct s as [|b s]; [done|].
  assert (existsb (Z.eqb bs) (hex_escapes (b :: s)) = true) as Eb by done. rewrite Eb. cbn [negb andb].
  rewrite unquote_hex; [done|done|].
  rewrite length_app. assert (length (b :: s) <= length (hex_escapes (b :: s)))%nat; [|lia].
  clear -b. generalize (b :: s). intros l. induction l as [|c l IH]; [done|].
  change (hex_escapes (c :: l)) with (hex_escape c ++ hex_escapes l). rewrite length_app. change (length (hex_escape c)) with 4%nat. cbn [length]. lia.
Qed.

(** The escape of a single quote is refused, and a byte that is not part of a
    rune is replaced by U+FFFD. *)
Lemma write_escape_limits :
  decodeArgvEscapes [[bs; 39]] = None ∧ decodeArgvEscapes [[255]] = Some [239; 191; 189].
Proof. by split. Qed.

Lemma write_escapes_any_bytes_witness :
  decodeArgvEscapes [[bs; chr "x"; chr "f"]; [chr "f"; bs; chr "x"; chr "0"; chr "0"]] = Some [255; 0].
Proof.
  apply (write_escapes_any_bytes [255; 0]); [|reflexivity].
  repeat (apply Forall_cons; split; [unfold is_byte; lia|]). constructor.
Defined.

(** ** Environment files *)

(** A variable that a line can carry: what [TrimSpace] would change is lost. *)
Definition line_of (kv : gostring * gostring) : gostring := kv.1 ++ chr "=" :: kv.2.

Definition carried (kv : gostring * gostring) : Prop :=
  validateEnvName kv.1 = true ∧ TrimSpace (drop_cr (line_of kv)) = line_of kv ∧
  Forall (λ c, c ≠ 10) (line_of kv) ∧ (length (line_of kv) < max_token)%nat.

Lemma name_rune_ascii i r : name_rune i r = true → 0 <= r < 128 ∧ r ≠ chr "=" ∧ r ≠ chr "#".
Proof. unfold name_rune. change (chr "_") with 95. change (chr "A") with 65. change (chr "Z") with 90.
  change (chr "a") with 97. change (chr "z") with 122. change (chr "0") with 48. change (chr "9") with 57.
  change (chr "=") with 61. change (chr "#") with 35. lia. Qed.

Lemma validateEnvName_chars name :
  validateEnvName name = true → name ≠ [] ∧ Forall (λ c, c ≠ chr "=") name ∧ head name ≠ Some (chr "#").
Proof.
  unfold validateEnvName. destruct name as [|c0 name0]; [done|]. intros H. split; [done|].
  enough (∀ fuel i s, (length s <= fuel)%nat → forallb (λ x, name_rune x.1 x.2) (range_loop fuel i s) = true →
    Forall (λ c, c ≠ chr "=") s ∧ head s ≠ Some (chr "#")) as E by (by apply (E _ 0%nat (c0 :: name0)) in H).
  clear. induction fuel as [|fuel IH]; intros i s Hl H.
  { destruct s; [by split|cbn in Hl; lia]. }
  cbn [range_loop] in H. destruct s as [|c s]; [by split|].
  destruct (DecodeRune (c :: s)) as [[r w]|] eqn:E; [|by exfalso; unfold DecodeRune in E; repeat case_match].
  cbn [forallb fst snd] in H. apply andb_prop in H as [H1 H2]. apply name_rune_ascii in H1 as (Hr & He & Hh).
  assert (r = c ∧ w = 1%nat) as [-> ->].
  { apply (DecodeRune_low c s); [done|lia]. }
  cbn [drop] in H2. destruct (IH (i + 1)%nat s) as [IH1 _]; [cbn in Hl; lia|done|].
  split; [by constructor|]. by intros [= ?].
Qed.

Lemma env_lines_carried path n kvs out :
  Forall carried kvs → env_lines path n (line_of <$> kvs) out = Ok (foldl (λ m kv, <[kv.1 := kv.2]> m) out kvs).
Proof.
  intros H. revert n out. induction H as [|[k v] kvs (Hn & Ht & _ & Hl) _ IH]; intros n out; [done|].
  cbn [fmap list_fmap env_lines foldl]. cbn [fst snd] in *.
  rewrite (proj2 (Nat.leb_gt max_token (length (line_of (k, v))))) by done. rewrite Ht.
  destruct (validateEnvName_chars k Hn) as (Hk & Heq & Hh). unfold line_of. cbn [fst snd].
  destruct k as [|c k]; [done|]. cbn [app].
  rewrite (proj2 (Z.eqb_neq c (chr "#"))) by (intros ->; by apply Hh).
  rewrite (proj2 (cut_at_Some (chr "=") (c :: k ++ chr "=" :: v) (c :: k) v)).
  - rewrite Hn. apply IH.
  - split; [done|]. rewrite Forall_forall in Heq. intros Hin. by apply (Heq _ Hin).
Qed.

Lemma scan_lines_carried kvs :
  Forall carried kvs → scan_lines (concat ((λ kv, line_of kv ++ [10]) <$> kvs)) = line_of <$> kvs.
Proof.
  intros H. unfold scan_lines.
  assert (split_on 10 (concat ((λ kv, line_of kv ++ [10]) <$> kvs)) = (line_of <$> kvs) ++ [[]]) as ->.
  { induction H as [|kv kvs (_ & _ & Hnl & _) _ IH]; [done|]. cbn [fmap list_fmap concat].
    rewrite <- app_assoc. cbn [app]. rewrite split_on_one by done. f_equal. exact IH. }
  rewrite last_snoc, bool_decide_eq_true_2 by done. by rewrite removelast_last.
Qed.

(** Environment files.  The variables written one per line are read back,
    the last one of a name winning, and [--env NAME=VALUE] overrides them. *)
Theorem env_overrides_read path kvs specs lookup :
  Forall carried kvs → Forall (λ kv, validateEnvName kv.1 = true) specs →
  parseEnvOverrides [(path, Some (concat ((λ kv, line_of kv ++ [10]) <$> kvs)))] (line_of <$> specs) lookup =
  Ok (foldl (λ m kv, <[kv.1 := kv.2]> m) ∅ (kvs ++ specs)).
Proof.
  intros Hk Hs. unfold parseEnvOverrides. cbn [env_files parseEnvFile].
  rewrite scan_lines_carried, env_lines_carried by done. rewrite map_union_empty, foldl_app.
  generalize (foldl (λ (m : gmap gostring gostring) kv, <[kv.1 := kv.2]> m) ∅ kvs).
  induction Hs as [|[k v] specs Hn _ IH]; intros m; [done|]. cbn [fmap list_fmap env_specs foldl]. cbn [fst snd] in *.
  destruct (validateEnvName_chars k Hn) as (_ & Heq & _).
  rewrite (proj2 (cut_at_Some (chr "=") (line_of (k, v)) k v)).
  - rewrite Hn. apply IH.
  - split; [done|]. rewrite Forall_forall in Heq. intros Hin. by apply (Heq _ Hin).
Qed.

Lemma env_overrides_read_witness :
  parseEnvOverrides [(B"f", Some (B"A=1" ++ 10 :: B"B= x=y" ++ [10]))] [B"A=2"] (λ _, None) =
  Ok (foldl (λ m kv, <[kv.1 := kv.2]> m) ∅ [(B"A", B"1"); (B"B", B" x=y"); (B"A", B"2")]).
Proof.
  apply (env_overrides_read B"f" [(B"A", B"1"); (B"B", B" x=y")] [(B"A", B"2")] (λ _, None)).
  - repeat (apply Forall_cons; split; [split; [reflexivity|]; split; [reflexivity|]; split;
      [vm_compute; repeat (apply Forall_cons; split; [discriminate|]); constructor
      |apply Nat.ltb_lt; vm_compute; reflexivity]|]). constructor.
  - repeat constructor.
Defined.
