(* ===== verification/Service.v ===== *)
(** * [cmd/hoot/service.go], [session.go]: the process of a session

    [RunCmdService.Run] with the states it publishes, [handleSignal], the
    environment of the child, and the order in which [Runner.Run] takes and
    gives back the session's resources.  Starting, waiting for and signalling a
    process are the operating system's answers; so is publishing a state (the
    publication itself is [Events.Runner_UpdateState]). *)
From S2P Require Import Prelude GoBase QueryStripper Wire State Terminal Recorder PrimaryFilter Channel Pty GoStrings Ssh Cli.
Open Scope Z_scope.

(** ** [RunCmdService.Run] *)

Record RunCmdService := mkService { svc_Cmd : gostring; svc_Args : list gostring; svc_StateDir : gostring; svc_Key : gostring }.

Record runState := mkRunState {
  rs_State : gostring; rs_Cmd : gostring; rs_PID : Z; rs_ExitCode : Z; rs_StartedAt : gostring; rs_ExitedAt : gostring
}.

Definition cmdString (s : RunCmdService) : gostring := Join (svc_Cmd s :: svc_Args s) B" ".

(** [cmd.Wait]: success, an exit status, or another error. *)
Inductive wait_result := WaitOk | WaitExit (code : Z) | WaitErr.

(** What the world answers in one run. *)
Record run_answers := mkRunAnswers {
  ra_started : gostring; ra_exited : gostring;        (** the clock, formatted *)
  ra_publish : runState → bool;                        (** [UpdateState] succeeds *)
  ra_start : option Z;                                 (** the child's pid *)
  ra_wait : wait_result
}.

Inductive run_error := RunNoCmd | RunPublishStarting | RunStart | RunPublishRunning.

Definition exit_of (w : wait_result) : Z := match w with WaitOk => 0 | WaitExit c => c | WaitErr => -1 end.

(** The states handed to [UpdateState], in order, and what [Run] returns. *)
Definition Run (s : RunCmdService) (a : run_answers) : list runState * res run_error unit :=
  match svc_Cmd s with
  | [] => ([], Err RunNoCmd)
  | _ =>
      let starting := mkRunState B"starting" (cmdString s) 0 0 (ra_started a) [] in
      if negb (ra_publish a starting) then ([starting], Err RunPublishStarting)
      else match ra_start a with
           | None =>
               ([starting; mkRunState B"exited" (cmdString s) 0 (-1) (ra_started a) (ra_exited a)], Err RunStart)
           | Some pid =>
               let running := mkRunState B"running" (cmdString s) pid 0 (ra_started a) [] in
               if negb (ra_publish a running) then ([starting; running], Err RunPublishRunning)
               else ([starting; running;
                      mkRunState B"exited" (cmdString s) pid (exit_of (ra_wait a)) (ra_started a) (ra_exited a)], Ok tt)
           end
  end.

(** ** [handleSignal] *)

(** What [Process.Signal] answers. *)
Inductive signal_answer := SignalSent | ProcessDone | SignalFailed.

(** A signal that went out: to a process group or to the child. *)
Inductive delivered := ToGroup (pgid sig : Z) | ToChild (pid sig : Z).

(** The response: its status, and the signals sent. *)
Definition response : Type := Z * list delivered.

Section signal.
Context (ToUpper : gostring → gostring) (signum : gostring → Z).

Definition signal_child (child : option (Z * signal_answer)) (sig : Z) : response :=
  match child with
  | None => (409, [])
  | Some (pid, SignalSent) => (204, [ToChild pid sig])
  | Some (_, ProcessDone) => (409, [])
  | Some (_, SignalFailed) => (500, [])
  end.

(** The signal a request asks for: [body] is [Some None] when it does not
    decode, [None] when it is empty. *)
Definition requested (body : option (option gostring)) : option (res signal_error Z) :=
  match body with
  | Some None => None
  | _ => let name := match body with Some (Some ((_ :: _) as n)) => n | _ => B"TERM" end in
         Some (parseSignal ToUpper signum name)
  end.

(** [pty] is [None] without a session or a PTY; else the kernel's answers to
    [TIOCGPGRP] and to [kill]. *)
Definition handleSignal (post : bool) (body : option (option gostring))
    (pty : option (res io_error Z * (Z → res io_error unit))) (child : option (Z * signal_answer)) : response :=
  if negb post then (405, [])
  else match requested body with
       | None | Some (Err _) => (400, [])
       | Some (Ok sig) =>
           match pty with
           | None => signal_child child sig
           | Some (pgid, kill) =>
               match SignalForeground pgid kill with
               | Ok _ => (204, match pgid with Ok g => [ToGroup g sig] | Err _ => [] end)
               | Err NoForeground => signal_child child sig
               | Err _ => (500, [])
               end
           end
       end.
End signal.

(** ** [sanitizeChildEnv] *)

Definition childTerm : gostring := B"xterm-256color".
Definition dropped_names : list gostring := [B"TMUX"; B"TMUX_PANE"; B"TERM"; hootSessionEnv].

(** The name of an environment entry, if it has one. *)
Definition entry_name (kv : gostring) : option gostring := fst <$> cut_at (chr "=") kv.

Definition kept_entry (kv : gostring) : bool :=
  match entry_name kv with None => true | Some n => negb (bool_decide (n ∈ dropped_names)) end.

Definition sanitizeChildEnv (parent : list gostring) (sessionKey : gostring) : list gostring :=
  filter (λ kv, kept_entry kv = true) parent ++ [B"TERM=" ++ childTerm] ++
  match sessionKey with [] => [] | _ => [hootSessionEnv ++ B"=" ++ sessionKey] end.

(** ** [Runner.Run] *)

(** What [Runner.Run] acquires, and gives back in the opposite order. *)
Inductive resource := RWriter | RSocket | RBus | RContext | RSignals.

Inductive runner_event := Acquired (r : resource) | Released (r : resource) | ServiceRan.
Inductive runner_error := RnConfig | RnWriter | RnSocket | RnService.

(** The answers: the configuration is complete; the lock and [state.json]; the
    socket; the service. *)
Definition Runner_Run (config writer socket service : bool) : list runner_event * res runner_error unit :=
  if negb config then ([], Err RnConfig)
  else if negb writer then ([], Err RnWriter)
  else if negb socket then ([Acquired RWriter; Released RWriter], Err RnSocket)
  else
    (([Acquired RWriter; Acquired RSocket; Acquired RBus; Acquired RContext; Acquired RSignals; ServiceRan] ++
      [Released RSignals; Released RContext; Released RBus; Released RSocket; Released RWriter]),
     if service then Ok tt else Err RnService).

(** [causeForSignal]: why the service's context ends. *)
Inductive run_cause := ErrSIGTERM | ErrSIGINT | ErrSIGHUP | ErrReceived (sig : Z).

Definition causeForSignal (sig : Z) : run_cause :=
  if sig =? 15 then ErrSIGTERM else if sig =? 2 then ErrSIGINT else if sig =? 1 then ErrSIGHUP else ErrReceived sig.

(** The first [state.json] of a session. *)
Definition initial_state (key : gostring) (pid : Z) (now : time) (argv : list gostring) (cwd : gostring)
    (size : PTYSize) (noHistory : bool) : StateFile :=
  mkStateFile (mkSessionState key pid now argv cwd size noHistory []) [].

(** ** Life cycle *)

Inductive life := Before | Starting | Running (pid : Z) | Exited.

(** What a reader of [state.json] can rely on. *)
Inductive life_step (cmd : gostring) : life → runState → life → Prop :=
| life_start s : rs_State s = B"starting" → rs_Cmd s = cmd → rs_PID s = 0 → rs_ExitedAt s = [] →
    life_step cmd Before s Starting
| life_run s : rs_State s = B"running" → rs_Cmd s = cmd → rs_ExitedAt s = [] →
    life_step cmd Starting s (Running (rs_PID s))
| life_fail s : rs_State s = B"exited" → rs_Cmd s = cmd → rs_PID s = 0 → rs_ExitCode s = -1 →
    life_step cmd Starting s Exited
| life_exit pid s : rs_State s = B"exited" → rs_Cmd s = cmd → rs_PID s = pid → life_step cmd (Running pid) s Exited.

Inductive lives (cmd : gostring) : life → list runState → life → Prop :=
| lives_nil l : lives cmd l [] l
| lives_cons l s l1 ss l2 : life_step cmd l s l1 → lives cmd l1 ss l2 → lives cmd l (s :: ss) l2.

(** The published life of a session.  Whatever the clock, the disk and the
    child do, the states [Run] publishes are a path of the life cycle: starting,
    then running with the child's pid, then exited with the same pid; or
    starting, then exited with status -1 when the child cannot be started.
    [Run] returns nil exactly when the path is complete and the child was waited
    for, and then the last state carries the child's exit status. *)
Theorem run_life_cycle s a :
  let '(states, r) := Run s a in
  ∃ l, lives (cmdString s) Before states l ∧
    Forall (λ st, rs_StartedAt st = ra_started a) states ∧
    match r with
    | Ok _ => l = Exited ∧ ∃ pid st, ra_start a = Some pid ∧ last states = Some st ∧
                rs_PID st = pid ∧ rs_ExitCode st = exit_of (ra_wait a) ∧ rs_ExitedAt st = ra_exited a
    | Err RunStart => l = Exited ∧ ra_start a = None
    | Err RunNoCmd => states = []
    | Err RunPublishStarting => l = Starting
    | Err RunPublishRunning => ∃ pid, l = Running pid ∧ ra_start a = Some pid
    end.
Proof.
  unfold Run. destruct (svc_Cmd s) as [|c cmd]; [exists Before; repeat constructor|].
  destruct (ra_publish a _); cbn [negb].
  2:{ exists Starting. split; [|by repeat constructor]. econstructor; [by constructor|constructor]. }
  destruct (ra_start a) as [pid|] eqn:E.
  2:{ exists Exited. split; [|by repeat constructor]. econstructor; [by constructor|].
      econstructor; [by apply life_fail|constructor]. }
  destruct (ra_publish a _); cbn [negb].
  2:{ exists (Running pid). split; [|split; [by repeat constructor|by exists pid]]. econstructor; [by constructor|].
      set (r := mkRunState B"running" _ _ _ _ _). change pid with (rs_PID r).
      econstructor; [by apply life_run|constructor]. }
  exists Exited. split; [|split; [by repeat constructor|split; [done|by do 2 eexists]]].
  econstructor; [by constructor|]. econstructor; [by apply life_run|]. econstructor; [by apply life_exit|constructor].
Qed.

(** Delivering to the child: one signal, or none and an error status. *)
Lemma signal_child_spec child sig :
  signal_child child sig =
  match child with
  | Some (pid, SignalSent) => (204, [ToChild pid sig])
  | Some (_, SignalFailed) => (500, [])
  | _ => (409, [])
  end.
Proof. by destruct child as [[pid []]|]. Qed.

Lemma requested_name ToUpper signum name :
  requested ToUpper signum (Some (Some name)) = Some (parseSignal ToUpper signum (match name with [] => B"TERM" | _ => name end)).
Proof. by destruct name. Qed.

(** What a correct answer is. *)
Definition signal_answered (req : option (res signal_error Z)) (pty : option (res io_error Z * (Z → res io_error unit)))
    (child : option (Z * signal_answer)) (r : response) : Prop :=
  match r.2 with
  | [] => r.1 ∈ [400; 405; 409; 500]
  | [ToGroup g sig] => r.1 = 204 ∧ 1 < g ∧ req = Some (Ok sig) ∧ ∃ kill, pty = Some (Ok g, kill) ∧ kill (- g) = Ok tt
  | [ToChild pid sig] =>
      r.1 = 204 ∧ child = Some (pid, SignalSent) ∧ req = Some (Ok sig) ∧
      (pty = None ∨ ∃ g kill, pty = Some (Ok g, kill) ∧ g <= 1)
  | _ => False
  end.

Lemma signal_child_answered req pty child sig :
  req = Some (Ok sig) → (pty = None ∨ ∃ g kill, pty = Some (Ok g, kill) ∧ g <= 1) →
  signal_answered req pty child (signal_child child sig).
Proof. intros ??. rewrite signal_child_spec. destruct child as [[pid []]|]; cbn; [done|set_solver..]. Qed.

(** A signal is delivered once, to the right process.  Either no signal
    goes out and the status says why (400, 405, 409 or 500); or exactly one
    does, the one the request names (TERM when it names none), the status is
    204, and it went to the terminal's foreground process group, or to the child
    where there is no terminal or no foreground group. *)
Lemma handleSignal_answered ToUpper signum post body pty child :
  signal_answered (requested ToUpper signum body) pty child (handleSignal ToUpper signum post body pty child).
Proof.
  unfold handleSignal. destruct post; cbn [negb]; [|cbn; set_solver].
  destruct (requested ToUpper signum body) as [[sig|e]|] eqn:R; [|cbn; set_solver..].
  destruct pty as [[pgid kill]|]; [|apply signal_child_answered; [done|by left]].
  unfold SignalForeground. destruct pgid as [g|e]; [|cbn; set_solver].
  destruct (g <=? 1) eqn:L.
  - apply signal_child_answered; [done|]. right. exists g, kill. split; [done|lia].
  - destruct (kill (- g)) as [[]|e] eqn:K; cbn; [|set_solver]. repeat split; [lia|]. by exists kill.
Qed.

(** ** The child's environment *)

(** The values an environment gives a name, in order. *)
Definition values_of (name : gostring) (env : list gostring) : list gostring :=
  omap (λ kv, '(n, v) ← cut_at (chr "=") kv; if decide (n = name) then Some v else None) env.

Lemma values_of_app name e1 e2 : values_of name (e1 ++ e2) = values_of name e1 ++ values_of name e2.
Proof. apply omap_app. Qed.

Lemma values_of_cons name kv env :
  values_of name (kv :: env) =
  match cut_at (chr "=") kv with
  | Some (n, v) => if decide (n = name) then v :: values_of name env else values_of name env
  | None => values_of name env
  end.
Proof.
  unfold values_of at 1. cbn [omap list_omap].
  destruct (cut_at (chr "=") kv) as [[n v]|]; cbn; [|done]. by destruct (decide _).
Qed.

Lemma values_of_kept name env :
  values_of name (filter (λ kv, kept_entry kv = true) env) = if decide (name ∈ dropped_names) then [] else values_of name env.
Proof.
  induction env as [|kv env IH]; [by destruct (decide _)|].
  rewrite filter_cons, values_of_cons. unfold kept_entry, entry_name in *.
  destruct (cut_at (chr "=") kv) as [[n v]|] eqn:E; cbn [fmap option_fmap option_map fst].
  2:{ rewrite decide_True by done. by rewrite values_of_cons, E, IH. }
  case_bool_decide as D; cbn [negb].
  - rewrite decide_False by done. rewrite IH. destruct (decide (n = name)) as [->|]; [by rewrite !decide_True by done|done].
  - rewrite decide_True by done. rewrite values_of_cons, E, IH.
    destruct (decide (n = name)) as [->|]; [by rewrite !decide_False by done|done].
Qed.

Lemma cut_at_entry name v : chr "=" ∉ name → cut_at (chr "=") (name ++ B"=" ++ v) = Some (name, v).
Proof. intros ?. by apply cut_at_Some. Qed.

Lemma values_of_entry n name v :
  chr "=" ∉ n → values_of name [n ++ B"=" ++ v] = if decide (n = name) then [v] else [].
Proof. intros H. by rewrite values_of_cons, (cut_at_entry n v H). Qed.

(** The environment of a session's child.  TERM has the one value
    xterm-256color, TMUX and TMUX_PANE have none, HOOT_SESSION has the
    session's key and nothing else, whatever the parent's environment says
    about them; and every other variable has the values it had, in the order
    it had them. *)
Lemma sanitizeChildEnv_values parent key name :
  values_of name (sanitizeChildEnv parent key) =
  if decide (name = B"TERM") then [childTerm]
  else if decide (name = hootSessionEnv) then match key with [] => [] | _ => [key] end
  else if decide (name = B"TMUX" ∨ name = B"TMUX_PANE") then []
  else values_of name parent.
Proof.
  assert ((chr "=" ∉ B"TERM") ∧ (chr "=" ∉ hootSessionEnv)) as [HT HS]
    by (split; apply (bool_decide_unpack _); vm_compute; done).
  assert (values_of name [B"TERM=" ++ childTerm] = if decide (B"TERM" = name) then [childTerm] else []) as ET
    by exact (values_of_entry B"TERM" name childTerm HT).
  assert (values_of name (match key with [] => [] | _ => [hootSessionEnv ++ B"=" ++ key] end) =
          if decide (hootSessionEnv = name) then match key with [] => [] | _ => [key] end else []) as EK.
  { destruct key as [|k key]; [destruct (decide (hootSessionEnv = name)); reflexivity|]. by rewrite values_of_entry. }
  unfold sanitizeChildEnv. rewrite !values_of_app, values_of_kept, ET, EK.
  destruct (decide (name = B"TERM")) as [->|NT]; [done|]. rewrite (decide_False (P := B"TERM" = name)) by congruence.
  destruct (decide (name = hootSessionEnv)) as [->|NS]; [by destruct key|].
  rewrite (decide_False (P := hootSessionEnv = name)) by congruence. rewrite !app_nil_r.
  unfold dropped_names. repeat case_decide; set_solver.
Qed.
