(* ===== verification/Main.v ===== *)
(** * [cmd/hoot/main.go], [version.go]: from the command line to a subcommand

    [dispatchTopLevel] and the exit status of [main].  A subcommand's error is
    an [exitError] with its code, or another error. *)
From S2P Require Import Prelude GoBase State GoStrings.
Open Scope Z_scope.

Definition knownSubcommands : list gostring :=
  [B"run"; B"list"; B"ls"; B"log"; B"resolve"; B"attach"; B"clone"; B"kill"; B"detach"; B"write"; B"serve";
   B"version"; B"install-remote"; B"__session"; B"-h"; B"--help"; B"help"].

Definition has_prefix (s pre : gostring) : bool := match strip_prefix pre s with Some _ => true | None => false end.

Definition remote_shell (host : gostring) (rest : list gostring) : gostring * list gostring * bool :=
  (B"shell", [B"--remote"; B"ssh://" ++ host] ++ rest, true).

Definition dispatchTopLevel (args : list gostring) : gostring * list gostring * bool :=
  match args with
  | [] => (B"shell", [], true)
  | first :: rest =>
      if bool_decide (first = B"-h") || bool_decide (first = B"--help") then (B"help", [], true)
      else if has_prefix first B"@" && (1 <? length first)%nat then remote_shell (drop 1 first) rest
      else if bool_decide (first ∈ knownSubcommands) then (first, rest, true)
      else if has_prefix first B"-" then (B"shell", args, true)
      else remote_shell first rest
  end.

(** The subcommands [main] has a case for. *)
Inductive subcommand :=
| CShell | CRun | CList | CLog | CResolve | CAttach | CClone | CKill | CDetach | CWrite | CServe | CVersion
| CInstallRemote | CSession | CHelp.

Definition main_case (cmd : gostring) : option subcommand :=
  if bool_decide (cmd = B"shell") then Some CShell
  else if bool_decide (cmd = B"run") then Some CRun
  else if bool_decide (cmd = B"list") || bool_decide (cmd = B"ls") then Some CList
  else if bool_decide (cmd = B"log") then Some CLog
  else if bool_decide (cmd = B"resolve") then Some CResolve
  else if bool_decide (cmd = B"attach") then Some CAttach
  else if bool_decide (cmd = B"clone") then Some CClone
  else if bool_decide (cmd = B"kill") then Some CKill
  else if bool_decide (cmd = B"detach") then Some CDetach
  else if bool_decide (cmd = B"write") then Some CWrite
  else if bool_decide (cmd = B"serve") then Some CServe
  else if bool_decide (cmd = B"version") then Some CVersion
  else if bool_decide (cmd = B"install-remote") then Some CInstallRemote
  else if bool_decide (cmd = B"__session") then Some CSession
  else if bool_decide (cmd = B"help") then Some CHelp
  else None.

(** What a subcommand returns: nil, an [exitError], another error. *)
Inductive cmd_result := CmdOk | CmdExit (code : Z) | CmdError.

(** The exit status of [main]; [cmdAttach] returns its own. *)
Definition exit_status (r : cmd_result) : Z := match r with CmdOk => 0 | CmdExit code => code | CmdError => 1 end.

Definition main_exit (args : list gostring) (run : subcommand → list gostring → cmd_result)
    (cmdAttach : list gostring → Z) : Z :=
  let '(cmd, shellArgs, ok) := dispatchTopLevel args in
  if negb ok then 2
  else match main_case cmd with
       | None => 2
       | Some CHelp => 0
       | Some CAttach => cmdAttach shellArgs
       | Some c => exit_status (run c shellArgs)
       end.

(** [runVersion] *)
Definition runVersion (Version : gostring) (args : list gostring) : gostring * cmd_result :=
  match args with [] => (Version ++ [10], CmdOk) | _ => ([], CmdError) end.

(** ** Every command line is some command's *)

Lemma has_prefix_spec s pre : has_prefix s pre = true ↔ ∃ t, s = pre ++ t.
Proof.
  unfold has_prefix. destruct (strip_prefix pre s) as [t|] eqn:E.
  - apply strip_prefix_spec in E. split; [by exists t|done].
  - split; [done|]. intros [t Ht]. apply strip_prefix_spec in Ht. congruence.
Qed.

Lemma known_cases cmd : cmd ∈ knownSubcommands → cmd ≠ B"-h" → cmd ≠ B"--help" → is_Some (main_case cmd).
Proof.
  unfold knownSubcommands. rewrite !elem_of_cons.
  intros H ??. repeat (destruct H as [->|H]; [done || (vm_compute; by eexists)|]). by apply elem_of_nil in H.
Qed.

(** Dispatch is total: whatever is typed, [main] has a case for it. *)
Lemma dispatch_total args : let '(cmd, _, ok) := dispatchTopLevel args in ok = true ∧ is_Some (main_case cmd).
Proof.
  destruct args as [|first rest]; [by repeat split|]. unfold dispatchTopLevel, remote_shell.
  case_bool_decide as H1; [by repeat split|]. case_bool_decide as H2; [by repeat split|]. cbn [orb].
  destruct (has_prefix first B"@" && _); [by repeat split|].
  case_bool_decide as H3; [split; [done|by apply known_cases]|].
  destruct (has_prefix first B"-"); by repeat split.
Qed.
