(* ===== verification/Flags.v ===== *)
(** * Command lines: Go's [flag.FlagSet]

    Every subcommand of [cmd/hoot] declares its flags and calls [fs.Parse]:
    [Parse] is that loop ([parseOne]), over the flags a set declares.  What it
    leaves is the values set, in order, and the positional arguments. *)
From S2P Require Import Prelude GoBase QueryStripper State.
Open Scope Z_scope.

(** [fs.Bool]; [fs.String] and [fs.Var] (a [stringListFlag] keeps every value). *)
Inductive flag_kind := FBool | FValue.

#[export] Instance flag_kind_eq_dec : EqDecision flag_kind.
Proof. solve_decision. Defined.

Definition flagset : Type := list (gostring * flag_kind).

Inductive flag_error :=
| FlagSyntax (s : gostring) | FlagUndefined (name : gostring) | FlagHelp
| FlagBool (name value : gostring) | FlagNoArg (name : gostring).

#[export] Instance flag_error_eq_dec : EqDecision flag_error.
Proof. solve_decision. Defined.

Fixpoint formal (fs : flagset) (name : gostring) : option flag_kind :=
  match fs with
  | [] => None
  | (n, k) :: fs' => if bool_decide (n = name) then Some k else formal fs' name
  end.

(** [strconv.ParseBool] *)
Definition ParseBool (s : gostring) : option bool :=
  if bool_decide (s ∈ [B"1"; B"t"; B"T"; B"true"; B"TRUE"; B"True"]) then Some true
  else if bool_decide (s ∈ [B"0"; B"f"; B"F"; B"false"; B"FALSE"; B"False"]) then Some false
  else None.

(** How [parseOne] reads one argument. *)
Inductive flag_token :=
| TokArg                                               (** not a flag: the end *)
| TokEnd                                               (** ["--"] *)
| TokBad                                               (** bad syntax *)
| TokFlag (name : gostring) (value : option gostring).

(** The value after the first ["="] that is not the first byte. *)
Definition split_value (name : gostring) : gostring * option gostring :=
  match name with
  | [] => ([], None)
  | c :: rest => match cut_at (chr "=") rest with
                 | Some (n, v) => (c :: n, Some v)
                 | None => (name, None)
                 end
  end.

Definition flag_token_of (s : gostring) : flag_token :=
  match s with
  | 45 :: ((c :: _) as name) =>
      if bool_decide (s = B"--") then TokEnd
      else
        let name := if c =? 45 then drop 1 name else name in
        match name with
        | [] => TokBad
        | d :: _ => if (d =? 45) || (d =? chr "=") then TokBad
                    else let '(n, v) := split_value name in TokFlag n v
        end
  | _ => TokArg
  end.

Definition parsed : Type := list (gostring * gostring) * list gostring.

Definition set_flag (name value : gostring) (r : res flag_error parsed) : res flag_error parsed :=
  match r with Ok (sets, rest) => Ok ((name, value) :: sets, rest) | Err e => Err e end.

(** [Parse] *)
Fixpoint Parse (fs : flagset) (args : list gostring) : res flag_error parsed :=
  match args with
  | [] => Ok ([], [])
  | s :: args' =>
      match flag_token_of s with
      | TokArg => Ok ([], args)
      | TokEnd => Ok ([], args')
      | TokBad => Err (FlagSyntax s)
      | TokFlag name value =>
          match formal fs name with
          | None =>
              if bool_decide (name = B"help") || bool_decide (name = B"h") then Err FlagHelp
              else Err (FlagUndefined name)
          | Some FBool =>
              match value with
              | None => set_flag name B"true" (Parse fs args')
              | Some v => match ParseBool v with
                          | None => Err (FlagBool name v)
                          | Some b => set_flag name (if b then B"true" else B"false") (Parse fs args')
                          end
              end
          | Some FValue =>
              match value with
              | Some v => set_flag name v (Parse fs args')
              | None => match args' with
                        | [] => Err (FlagNoArg name)
                        | v :: args'' => set_flag name v (Parse fs args'')
                        end
              end
          end
      end
  end.

(** The values a flag was given; [*fs.String(...)] is the last one, or the
    default. *)
Definition values (name : gostring) (p : parsed) : list gostring :=
  (filter (λ nv, nv.1 = name) p.1).*2.
Definition string_flag (name def : gostring) (p : parsed) : gostring := default def (last (values name p)).
Definition bool_flag (name : gostring) (p : parsed) : bool :=
  bool_decide (last (values name p) = Some B"true").

(** ** Reading back *)

(** A flag name as the program declares them: it starts with a byte other than
    a minus or an equals sign and has no equals sign. *)
Definition flag_name (n : gostring) : Prop :=
  match n with [] => False | c :: _ => c ≠ 45 ∧ chr "=" ∉ n end.

#[export] Instance flag_name_dec n : Decision (flag_name n).
Proof. destruct n; simpl; apply _. Defined.

Lemma split_value_name n : flag_name n → split_value n = (n, None).
Proof.
  destruct n as [|c n]; [done|]. intros [_ H]. cbn [split_value].
  apply not_elem_of_cons in H as [_ H].
  destruct (cut_at (chr "=") n) as [[a b]|] eqn:E; [|done].
  apply cut_at_Some in E as [-> _]. set_solver.
Qed.

Lemma flag_token_long n : flag_name n → flag_token_of (B"--" ++ n) = TokFlag n None.
Proof.
  intros H. destruct n as [|c n]; [done|]. pose proof (split_value_name _ H) as E. destruct H as [H1 H2].
  apply not_elem_of_cons in H2 as [H2 _].
  change (B"--" ++ c :: n) with (45 :: 45 :: c :: n). unfold flag_token_of.
  rewrite bool_decide_eq_false_2 by done.
  change (if 45 =? 45 then drop 1 (45 :: c :: n) else 45 :: c :: n) with (c :: n). cbn iota zeta.
  rewrite (proj2 (Z.eqb_neq c 45)), (proj2 (Z.eqb_neq c (chr "="))) by congruence.
  cbn [orb]. by rewrite E.
Qed.

(** A value flag takes the next argument whatever it looks like. *)
Lemma Parse_value fs n v args :
  flag_name n → formal fs n = Some FValue →
  Parse fs ((B"--" ++ n) :: v :: args) = set_flag n v (Parse fs args).
Proof. intros H E. cbn [Parse]. by rewrite flag_token_long, E. Qed.

Lemma Parse_bool fs n args :
  flag_name n → formal fs n = Some FBool →
  Parse fs ((B"--" ++ n) :: args) = set_flag n B"true" (Parse fs args).
Proof. intros H E. cbn [Parse]. by rewrite flag_token_long, E. Qed.

(** Discharges the side conditions of the two for a concrete flag. *)
Ltac flag_ok := first [reflexivity | apply (bool_decide_unpack _); vm_compute; exact I].

(** Whatever follows ["--"] is positional. *)
Lemma Parse_end fs args : Parse fs (B"--" :: args) = Ok ([], args).
Proof. done. Qed.
