(* ===== verification/Tunnel.v ===== *)
(** * [internal/sshtransport]: opening and closing a tunnel

    [Open] runs [ssh] with the plan of [Ssh] and waits until [hoot serve] answers
    through it; [Close] stops it.  The file system, [ssh] and the clock are
    answers; what is done is a list of events. *)
From S2P Require Import Prelude GoBase State Paths GoStrings Ssh.
Open Scope Z_scope.

(** ** [waitHTTPReady] *)

(** What its [select] takes, turn by turn: a tick with the status of [/healthz],
    if any. *)
Inductive ready_event := RdCancelled | RdDone | RdDeadline | RdTick (status : option Z).
Inductive ready_error := ReadyCancelled | ReadyExited | ReadyTimeout.

(** [None]: still waiting after these events. *)
Fixpoint waitHTTPReady (evs : list ready_event) : option (res ready_error unit) :=
  match evs with
  | [] => None
  | RdCancelled :: _ => Some (Err ReadyCancelled)
  | RdDone :: _ => Some (Err ReadyExited)
  | RdDeadline :: _ => Some (Err ReadyTimeout)
  | RdTick status :: evs' => if bool_decide (status = Some 200) then Some (Ok tt) else waitHTTPReady evs'
  end.

(** ** [Close] *)

Inductive tunnel_event :=
| TMkdir (dir : gostring) | TRemove (path : gostring) | TSsh (args : list gostring) | TStart (pid : Z) (args : list gostring)
| TKillGroup (pid : Z) | TKill (pid : Z).

(** When the end of the process comes through [done]: within a second of the
    signal, of the kill, or not. *)
Inductive tunnel_exit := AfterTerm | AfterKill | NeverDone.

(** [tn_taken]: the end of the process has been received already. *)
Record Tunnel := mkTunnel {
  tn_pid : Z; tn_localSocket : gostring; tn_cleanupArgs : list gostring; tn_taken : bool; tn_closed : option bool
}.

(** The result is whether there is no error; the second time it is the first one's. *)
Definition Close (x : tunnel_exit) (t : Tunnel) : list tunnel_event * bool * Tunnel :=
  match tn_closed t with
  | Some ok => ([], ok, t)
  | None =>
      let x := if tn_taken t then NeverDone else x in
      let ok := match x with NeverDone => false | _ => true end in
      ([TKillGroup (tn_pid t)] ++
       match tn_cleanupArgs t with [] => [] | args => [TSsh args] end ++
       match x with AfterTerm => [] | _ => [TKill (tn_pid t)] end ++ [TRemove (tn_localSocket t)],
       ok, mkTunnel (tn_pid t) (tn_localSocket t) (tn_cleanupArgs t) (tn_taken t) (Some ok))
  end.

(** ** [Open] *)

Inductive open_error := OpNoHost | OpMkdir | OpHome | OpRandom | OpRemove | OpStart | OpReady (e : ready_error).

(** The answers: the three [MkdirAll], [ssh]'s standard output for [$HOME], the
    random bytes, [os.Remove] (a missing file is no error), the pid, the events
    of the wait (its result when they are too few), the end of the process if it
    has to be closed. *)
Record open_answers := mkOpenAnswers {
  oa_mkdir_state : bool; oa_mkdir_control : bool; oa_home : option gostring; oa_id : option (list byte);
  oa_mkdir_forward : bool; oa_removed : bool; oa_pid : option Z; oa_ready : list ready_event; oa_exit : tunnel_exit
}.

Section open.
Context (Sum256 : list byte → list byte) (uid pid : Z) (cacheDir : option gostring) (tempDir : gostring).

Abbreviation plan_of := (BuildPlan Sum256 uid pid cacheDir tempDir).
Abbreviation control_path cfg := (ControlPath Sum256 uid cacheDir tempDir (cfg_StateDir cfg) (cfg_User cfg) (cfg_Host cfg) (cfg_Port cfg)).

(** [remoteHome]: the command asked, and the home directory. *)
Definition remoteHome_args (cfg : Config) : list gostring :=
  let plan := plan_of cfg B"probe" [] in
  baseArgs cfg (pl_ControlPath plan) ++ [Target plan; B"sh -lc 'printf %s " ++ dq B"$HOME" ++ B"'"].

Definition remoteHome (out : option gostring) : option gostring :=
  match out with
  | None => None
  | Some out => match TrimSpace out with [] => None | home => Some home end
  end.

Definition randomID (bytes : option (list byte)) : option gostring := EncodeToString <$> bytes.

Definition Open (cfg : Config) (a : open_answers) : list tunnel_event * res open_error Tunnel :=
  match cfg_Host cfg with
  | [] => ([], Err OpNoHost)
  | _ =>
      if negb (oa_mkdir_state a) then ([TMkdir (cfg_StateDir cfg)], Err OpMkdir)
      else
        let evs := [TMkdir (cfg_StateDir cfg); TMkdir (path_Dir (control_path cfg))] in
        if negb (oa_mkdir_control a) then (evs, Err OpMkdir)
        else
          let evs := evs ++ [TSsh (remoteHome_args cfg)] in
          match remoteHome (oa_home a) with
          | None => (evs, Err OpHome)
          | Some home =>
              match randomID (oa_id a) with
              | None => (evs, Err OpRandom)
              | Some id =>
                  let plan := plan_of cfg id home in
                  let evs := evs ++ [TMkdir (path_Dir (LocalSocket plan))] in
                  if negb (oa_mkdir_forward a) then (evs, Err OpMkdir)
                  else
                    let evs := evs ++ [TRemove (LocalSocket plan)] in
                    if negb (oa_removed a) then (evs, Err OpRemove)
                    else match oa_pid a with
                         | None => (evs, Err OpStart)
                         | Some p =>
                             let evs := evs ++ [TStart p (TunnelArgs cfg plan)] in
                             let t taken := mkTunnel p (LocalSocket plan) (CleanupArgs cfg plan) taken None in
                             match default (Err ReadyTimeout) (waitHTTPReady (oa_ready a)) with
                             | Ok _ => (evs, Ok (t false))
                             | Err e =>
                                 let '(close, _, _) := Close (oa_exit a) (t (match e with ReadyExited => true | _ => false end)) in
                                 (evs ++ close, Err (OpReady e))
                             end
                         end
              end
          end
  end.
End open.

(** ** Nothing is left behind *)

Definition starts (evs : list tunnel_event) : list Z := omap (λ e, match e with TStart p _ => Some p | _ => None end) evs.
Definition stops (evs : list tunnel_event) : list Z := omap (λ e, match e with TKillGroup p => Some p | _ => None end) evs.

Lemma starts_app a b : starts (a ++ b) = starts a ++ starts b.
Proof. apply omap_app. Qed.
Lemma stops_app a b : stops (a ++ b) = stops a ++ stops b.
Proof. apply omap_app. Qed.

Lemma Close_once x t evs ok t' x' : Close x t = (evs, ok, t') → Close x' t' = ([], ok, t').
Proof. unfold Close. destruct (tn_closed t) eqn:E; intros [= <- <- <-]; cbn; by rewrite ?E. Qed.

Lemma Close_stops x t : tn_closed t = None →
  starts (Close x t).1.1 = [] ∧ stops (Close x t).1.1 = [tn_pid t] ∧ last (Close x t).1.1 = Some (TRemove (tn_localSocket t)).
Proof.
  intros E. unfold Close. rewrite E. cbn [fst]. rewrite !starts_app, !stops_app, !app_assoc, last_snoc.
  split_and!; [| |done]; destruct (tn_cleanupArgs t), (if tn_taken t then NeverDone else x); reflexivity.
Qed.

(** Ready means that something answered 200 before the process ended. *)
Lemma waitHTTPReady_spec evs :
  match waitHTTPReady evs with
  | Some (Ok _) => ∃ pre, pre ++ [RdTick (Some 200)] `prefix_of` evs ∧ Forall (λ e, ∃ s, e = RdTick s) pre
  | Some (Err _) => True
  | None => Forall (λ e, ∃ s, e = RdTick s ∧ s ≠ Some 200) evs
  end.
Proof.
  induction evs as [|e evs IH]; [constructor|]. destruct e as [| | |s]; try done. cbn [waitHTTPReady].
  case_bool_decide as Hs.
  - subst s. exists []. split; [by eexists|constructor].
  - destruct (waitHTTPReady evs) as [[[]|e]|]; [|done|by constructor; [eexists|]].
    destruct IH as (pre & [l ->] & Hp). exists (RdTick s :: pre). split; [by eexists|]. constructor; [by eexists|done].
Qed.

Section owned.
Context (Sum256 : list byte → list byte) (uid pid : Z) (cacheDir : option gostring) (tempDir : gostring).

(** [Open] owns its process.  When it succeeds, exactly one [ssh] was started,
    with the command line of the plan, nothing was killed, and the tunnel names
    that process, the plan's socket and its clean-up; when it fails, whatever the
    reason, every [ssh] it started was killed, and its socket removed last. *)
Lemma Open_owns cfg a :
  let '(evs, r) := Open Sum256 uid pid cacheDir tempDir cfg a in
  match r with
  | Ok t => ∃ home id, let plan := BuildPlan Sum256 uid pid cacheDir tempDir cfg id home in
      starts evs = [tn_pid t] ∧ stops evs = [] ∧ TStart (tn_pid t) (TunnelArgs cfg plan) ∈ evs ∧
      tn_localSocket t = LocalSocket plan ∧ tn_cleanupArgs t = CleanupArgs cfg plan ∧ tn_closed t = None
  | Err e => starts evs = stops evs ∧ (∀ p args, TStart p args ∈ evs → ∃ sock, last evs = Some (TRemove sock))
  end.
Proof.
  unfold Open. destruct (cfg_Host cfg); [split; [done|set_solver]|].
  destruct (oa_mkdir_state a); [|split; [done|set_solver]]. destruct (oa_mkdir_control a); [|split; [done|set_solver]].
  cbn [negb]. destruct (remoteHome _) as [home|]; [|split; [done|set_solver]].
  destruct (randomID _) as [id|]; [|split; [done|set_solver]]. destruct (oa_mkdir_forward a); [|split; [done|set_solver]].
  destruct (oa_removed a); [|split; [done|set_solver]]. destruct (oa_pid a) as [p|]; [|split; [done|set_solver]].
  cbn [negb]. destruct (default _ _) as [[]|e].
  - exists home, id. cbn. split_and!; try done. set_solver.
  - set (t := mkTunnel _ _ _ _ _). pose proof (Close_stops (oa_exit a) t eq_refl) as (H1 & H2 & H3).
    destruct (Close (oa_exit a) t) as [[close ok] t']. cbn [fst] in *.
    rewrite !starts_app, !stops_app, H1, H2. split; [done|]. intros _ _ _. exists (tn_localSocket t).
    rewrite last_app, H3. done.
Qed.
End owned.

(** An [ssh] that ends before the tunnel is ready: its end was received by
    [waitHTTPReady], so [Close] waits for it in vain, twice, and reports an
    error. *)
Lemma early_exit_close x p sock args : (Close x (mkTunnel p sock args true None)).1.2 = false.
Proof. reflexivity. Qed.

(** Two tunnels to one host ask for the same port there when their random ids
    agree in the first two bytes. *)
Lemma remotePort_collides a b : take 4 a = take 4 b → (4 <= length a)%nat → (4 <= length b)%nat → remotePort a = remotePort b.
Proof.
  intros H Ha Hb. unfold remotePort. destruct a as [|a1 [|a2 [|a3 [|a4 a]]]], b as [|b1 [|b2 [|b3 [|b4 b]]]]; cbn in *; try lia.
  by simplify_eq.
Qed.
