(* ===== verification/Bootstrap.v ===== *)
(** * [internal/bootstrap/bootstrap.go], [cmd/hoot/remote.go]: remote hosts

    What installing [hoot] on a remote host asks of its shell and of the cached
    release (two files, the tarball and its checksums), the version check
    before a tunnel, and the tunnel a [Remote] keeps.  [ssh], [scp] and [curl]
    are their answers; [sha256.Sum256] and [url.Parse] are parameters. *)
From S2P Require Import Prelude GoBase QueryStripper State GoStrings Ssh.
Open Scope Z_scope.

Inductive bootstrap_error :=
| NoHost | NoVersion | NoTarball | UnknownMode (m : Z) | SshFailed (stderr : gostring)
| BadUname (out : gostring) | UnsupportedOS (os : gostring) | UnsupportedArch (arch : gostring) | NoDarwinAmd64
| CacheDir | MkdirCache | Download (file : gostring) | NoEntry | ReadSums | ReadTarball | Mismatch | RunFailed.

#[export] Instance bootstrap_error_eq_dec : EqDecision bootstrap_error.
Proof. solve_decision. Defined.

(** ** Command lines *)

Definition sshArgs (user host port : gostring) : list gostring :=
  [B"-o"; B"BatchMode=yes"] ++ match port with [] => [] | _ => [B"-p"; port] end ++
  [match user with [] => host | _ => user ++ B"@" ++ host end].

Record Options := mkInstall {
  in_User : gostring; in_Host : gostring; in_Port : gostring; in_Mode : Z;
  in_Version : gostring; in_Tarball : gostring; in_InstallDir : gostring
}.

Definition ModeAuto : Z := 0.
Definition ModeUpload : Z := 1.
Definition ModeFromFile : Z := 2.

Definition install_dir_arg (dir : gostring) : gostring :=
  match dir with [] => [] | _ => B" --install-dir " ++ shellQuote dir end.

(** The command line of [installAuto]. *)
Definition auto_cmdline (o : Options) : gostring :=
  B"sh -s -- --version " ++ shellQuote (in_Version o) ++ install_dir_arg (in_InstallDir o).

(** The remote path and the command line of [uploadAndInstall]. *)
Definition staged_path (pid : Z) : gostring := B"/tmp/hoot-install-" ++ Itoa pid ++ B".tar.gz".

Definition upload_cmdline (pid : Z) (o : Options) : gostring :=
  B"(" ++ (B"sh -s -- --from-file " ++ shellQuote (staged_path pid) ++ install_dir_arg (in_InstallDir o)) ++
  B"); rc=$?; rm -f " ++ shellQuote (staged_path pid) ++ B"; exit $rc".

Definition scpUp_args (o : Options) (local remote : gostring) : list gostring :=
  [B"-o"; B"BatchMode=yes"] ++ match in_Port o with [] => [] | p => [B"-P"; p] end ++
  [local; match in_User o with [] => in_Host o | u => u ++ B"@" ++ in_Host o end ++ B":" ++ remote].

(** ** [Probe], [detectRemoteTarget] *)

(** [ssh]'s answer: its standard output, or the error and its standard error. *)
Definition ssh_answer : Type := res gostring gostring.

Definition Probe (host : gostring) (a : ssh_answer) : res bootstrap_error gostring :=
  match host with
  | [] => Err NoHost
  | _ =>
      match a with
      | Err stderr => Err (SshFailed (TrimSpace stderr))
      | Ok out =>
          let line := TrimSpace out in
          if bool_decide (line = []) || bool_decide (line = B"__MISSING__") then Ok [] else Ok line
      end
  end.

Definition detectRemoteTarget (a : ssh_answer) : res bootstrap_error gostring :=
  match a with
  | Err stderr => Err (SshFailed (TrimSpace stderr))
  | Ok out =>
      match Fields (TrimSpace out) with
      | [osPart; archPart] =>
          os ← (if bool_decide (osPart = B"Darwin") then Ok B"darwin"
                else if bool_decide (osPart = B"Linux") then Ok B"linux" else Err (UnsupportedOS osPart));
          arch ← (if bool_decide (archPart = B"x86_64") || bool_decide (archPart = B"amd64") then Ok B"amd64"
                  else if bool_decide (archPart = B"aarch64") || bool_decide (archPart = B"arm64") then Ok B"arm64"
                  else Err (UnsupportedArch archPart));
          if bool_decide (os = B"darwin") && bool_decide (arch = B"amd64") then Err NoDarwinAmd64
          else Ok (os ++ B"-" ++ arch)
      | _ => Err (BadUname out)
      end
  end.

(** ** [downloadTarball] *)

(** The release's cache directory: the tarball and [checksums.txt]. *)
Record cache := mkCache { c_local : option (list byte); c_sums : option (list byte) }.

(** What a [curl] leaves at its destination ([None]: what was there), and how it exits. *)
Record curl := mkCurl { cu_left : option (list byte); cu_ok : bool }.

Definition curl_file (a : curl) (old : option (list byte)) : option (list byte) :=
  match cu_left a with Some bs => Some bs | None => old end.

Section sums.
Context (Sum256 : list byte → list byte).

(** The checksum of [archive] in the lines of [checksums.txt]. *)
Fixpoint find_sum (archive : gostring) (lines : list gostring) : option gostring :=
  match lines with
  | [] => None
  | line :: rest =>
      match Fields line with
      | (want :: _ :: _) as fields =>
          if bool_decide (last fields = Some archive) then Some want else find_sum archive rest
      | _ => find_sum archive rest
      end
  end.

Definition verifySHA (c : cache) (archive : gostring) : res bootstrap_error bool :=
  match c_sums c with
  | None => Err ReadSums
  | Some body =>
      match find_sum archive (split_on 10 body) with
      | None => Err NoEntry
      | Some want =>
          match c_local c with
          | None => Err ReadTarball
          | Some bs => Ok (bool_decide (EncodeToString (Sum256 bs) = want))
          end
      end
  end.

(** After a download: verified, or discarded when the sums differ. *)
Definition check_download (archive : gostring) (c : cache) : res bootstrap_error unit * cache :=
  match verifySHA c archive with
  | Err e => (Err e, c)
  | Ok true => (Ok tt, c)
  | Ok false => (Err Mismatch, mkCache None None)
  end.

Definition fetch (archive : gostring) (tar sums : curl) (c : cache) : res bootstrap_error unit * cache :=
  let c := mkCache (curl_file tar (c_local c)) (c_sums c) in
  if negb (cu_ok tar) then (Err (Download archive), mkCache None (c_sums c))
  else
    let c := mkCache (c_local c) (curl_file sums (c_sums c)) in
    if negb (cu_ok sums) then (Err (Download B"checksums.txt"), mkCache None None)
    else check_download archive c.

(** The path returned is that of the cached tarball. *)
Definition downloadTarball (cacheDir mkdir : bool) (target : gostring) (tar sums : curl) (c : cache)
  : res bootstrap_error unit * cache :=
  let archive := B"hoot-" ++ target ++ B".tar.gz" in
  if negb cacheDir then (Err CacheDir, c)
  else if negb mkdir then (Err MkdirCache, c)
  else
    match c_local c, c_sums c with
    | Some _, Some _ =>
        match verifySHA c archive with
        | Ok true => (Ok tt, c)
        | _ => fetch archive tar sums (mkCache None None)
        end
    | _, _ => fetch archive tar sums c
    end.
End sums.

(** ** [Install] *)

Inductive install_action := RunAuto (cmdline : gostring) | RunUpload | RunFromFile.

(** The checks, and what is run. *)
Definition Install (o : Options) : res bootstrap_error install_action :=
  match in_Host o with
  | [] => Err NoHost
  | _ =>
      if in_Mode o =? ModeAuto then
        match in_Version o with [] => Err NoVersion | _ => Ok (RunAuto (auto_cmdline o)) end
      else if in_Mode o =? ModeUpload then
        match in_Version o with [] => Err NoVersion | _ => Ok RunUpload end
      else if in_Mode o =? ModeFromFile then
        match in_Tarball o with [] => Err NoTarball | _ => Ok RunFromFile end
      else Err (UnknownMode (in_Mode o))
  end.

(** ** [ensureRemoteHoot] *)

Inductive ensure_error := EnProbe (e : bootstrap_error) | EnInstall (e : bootstrap_error)
| EnPostProbe (e : bootstrap_error) | EnVersion (got : gostring).

(** With the answers of the two probes and of the installation. *)
Definition ensureRemoteHoot (Version noBootstrap : gostring) (probe1 : res bootstrap_error gostring)
    (install : res bootstrap_error unit) (probe2 : res bootstrap_error gostring) : res ensure_error unit :=
  if bool_decide (Version = B"dev") then Ok tt
  else if negb (bool_decide (noBootstrap = [])) then Ok tt
  else
    match probe1 with
    | Err e => Err (EnProbe e)
    | Ok remoteVer =>
        if bool_decide (remoteVer = Version) then Ok tt
        else match install with
             | Err e => Err (EnInstall e)
             | Ok _ =>
                 match probe2 with
                 | Err e => Err (EnPostProbe e)
                 | Ok remoteVer => if bool_decide (remoteVer = Version) then Ok tt else Err (EnVersion remoteVer)
                 end
             end
    end.

(** ** The tunnel of a [Remote] *)

Inductive remote_error := ReEnsure (e : ensure_error) | ReOpen | ReReopen (e : remote_error) | ReDial.

Record ssh_remote := mkRemote { r_tunnel : option nat; r_bootstrapped : bool }.

(** The calls made: an open tunnel is known by a number. *)
Inductive remote_call := CallEnsure (ok : bool) | CallOpen (t : option nat) | CallDial (t : nat) (ok : bool) | CallClose (t : nat).

(** What the outside answers to one [openTunnel]. *)
Record open_answer := mkOpen { oa_ensure : res ensure_error unit; oa_open : option nat }.

Definition openTunnel (a : open_answer) (r : ssh_remote) : res remote_error nat * ssh_remote * list remote_call :=
  let open_ r log :=
    match oa_open a with
    | None => (Err ReOpen, r, log ++ [CallOpen None])
    | Some t => (Ok t, r, log ++ [CallOpen (Some t)])
    end in
  if r_bootstrapped r then open_ r []
  else match oa_ensure a with
       | Err e => (Err (ReEnsure e), r, [CallEnsure false])
       | Ok _ => open_ (mkRemote (r_tunnel r) true) [CallEnsure true]
       end.

Definition set_tunnel (t : option nat) (r : ssh_remote) : ssh_remote := mkRemote t (r_bootstrapped r).

(** [Dial]: with a tunnel, one attempt; a failed one drops the tunnel and makes
    another.  [dial1] and [dial2] say whether the local socket answers. *)
Definition Dial (a1 a2 : open_answer) (dial1 dial2 : bool) (r : ssh_remote)
  : res remote_error nat * ssh_remote * list remote_call :=
  let redial t r log :=
    if dial1 then (Ok t, r, log ++ [CallDial t true])
    else
      let log := log ++ [CallDial t false; CallClose t] in
      match openTunnel a2 (set_tunnel None r) with
      | (Err e, r, l) => (Err (ReReopen e), r, log ++ l)
      | (Ok t2, r, l) =>
          (if dial2 then Ok t2 else Err ReDial, set_tunnel (Some t2) r, log ++ l ++ [CallDial t2 dial2])
      end in
  match r_tunnel r with
  | Some t => redial t r []
  | None =>
      match openTunnel a1 r with
      | (Err e, r, l) => (Err e, r, l)
      | (Ok t, r, l) => redial t (set_tunnel (Some t) r) l
      end
  end.

Definition Remote_Close (r : ssh_remote) : ssh_remote * list remote_call :=
  match r_tunnel r with
  | None => (r, [])
  | Some t => (set_tunnel None r, [CallClose t])
  end.

(** ** [parseRemoteFlag] *)

Record url := mkUrl { u_Scheme : gostring; u_Host : gostring; u_User : option gostring; u_Hostname : gostring; u_Port : gostring }.

Inductive remote := RemoteHTTP (u : url) | RemoteSSH (cfg : Config) (display : gostring).
Inductive remote_flag_error := RfParse | RfMissingHost | RfScheme (s : gostring).

Definition newSSHRemote (u : url) (tunnels : gostring) : remote :=
  let user := default [] (u_User u) in
  RemoteSSH (mkConfig user (u_Hostname u) (u_Port u) tunnels)
    (B"ssh://" ++ (match user with [] => [] | _ => user ++ B"@" end) ++ u_Hostname u ++
     (match u_Port u with [] => [] | p => B":" ++ p end)).

(** [strings.Contains(raw, "://")] *)
Fixpoint has_scheme (raw : gostring) : bool :=
  match raw with
  | [] => false
  | _ :: raw' => match strip_prefix B"://" raw with Some _ => true | None => has_scheme raw' end
  end.

(** [tunnels] is [filepath.Join(stateDir, ".tunnels")]. *)
Definition parseRemoteFlag (Parse : gostring → option url) (raw tunnels : gostring)
  : res remote_flag_error (option remote) :=
  match raw with
  | [] => Ok None
  | _ =>
      let raw := if has_scheme raw then raw else B"ssh://" ++ raw in
      match Parse raw with
      | None => Err RfParse
      | Some u =>
          if bool_decide (u_Scheme u = B"http") || bool_decide (u_Scheme u = B"https") then
            if bool_decide (u_Host u = []) then Err RfMissingHost else Ok (Some (RemoteHTTP u))
          else if bool_decide (u_Scheme u = B"ssh") then
            if bool_decide (u_Host u = []) then Err RfMissingHost else Ok (Some (newSSHRemote u tunnels))
          else Err (RfScheme (u_Scheme u))
      end
  end.

(** ** The installed release is a verified one *)

Section verified.
Context (Sum256 : list byte → list byte).

Lemma check_download_spec archive c :
  match check_download Sum256 archive c with
  | (Ok _, c') => verifySHA Sum256 c' archive = Ok true
  | (Err Mismatch, c') => c' = mkCache None None
  | _ => True
  end.
Proof.
  unfold check_download. destruct (verifySHA Sum256 c archive) as [[|]|e] eqn:E; [done|done|].
  destruct e; try done. exfalso. unfold verifySHA in E. by repeat case_match.
Qed.

Lemma verifySHA_true archive c :
  verifySHA Sum256 c archive = Ok true → ∃ bs body, c_local c = Some bs ∧ c_sums c = Some body ∧
    find_sum archive (split_on 10 body) = Some (EncodeToString (Sum256 bs)).
Proof.
  unfold verifySHA. destruct (c_sums c) as [body|]; [|done].
  destruct (find_sum archive (split_on 10 body)) as [want|] eqn:E; [|done].
  destruct (c_local c) as [bs|]; [|done]. intros [= H%bool_decide_eq_true].
  exists bs, body. by rewrite E, H.
Qed.

(** What a download may end with. *)
Definition sound (archive : gostring) (r : res bootstrap_error unit) (c : cache) : Prop :=
  (r = Ok tt → ∃ bs body, c_local c = Some bs ∧ c_sums c = Some body ∧
     find_sum archive (split_on 10 body) = Some (EncodeToString (Sum256 bs))) ∧
  (r = Err Mismatch → c = mkCache None None).

Lemma fetch_sound archive tar sums c :
  sound archive (fetch Sum256 archive tar sums c).1 (fetch Sum256 archive tar sums c).2.
Proof.
  unfold fetch. destruct (negb _); [by split|]. destruct (negb _); [by split|].
  set (c1 := mkCache _ _). pose proof (check_download_spec archive c1) as H.
  destruct (check_download Sum256 archive c1) as [[[]|e] c2]; split; cbn [fst snd]; try done.
  - intros _. by apply verifySHA_true.
  - by intros [= ->].
Qed.

(** Only a verified tarball is installed.  Whatever was cached and whatever
    the downloads leave, the tarball [downloadTarball] returns is one whose
    SHA-256 is the entry of its name in [checksums.txt]; after a mismatch neither
    file stays in the cache; and a cached pair that verifies is used as it is. *)
Lemma downloadTarball_verified cacheDir mkdir target tar sums c :
  let archive := B"hoot-" ++ target ++ B".tar.gz" in
  let '(r, c') := downloadTarball Sum256 cacheDir mkdir target tar sums c in
  (r = Ok tt → ∃ bs body, c_local c' = Some bs ∧ c_sums c' = Some body ∧
     find_sum archive (split_on 10 body) = Some (EncodeToString (Sum256 bs))) ∧
  (r = Err Mismatch → c' = mkCache None None) ∧
  (cacheDir = true → mkdir = true → verifySHA Sum256 c archive = Ok true → r = Ok tt ∧ c' = c).
Proof.
  intros archive. unfold downloadTarball. fold archive.
  destruct cacheDir; [|by repeat split]. destruct mkdir; [|by repeat split]. cbn [negb].
  destruct (decide (verifySHA Sum256 c archive = Ok true)) as [Hv|Hv].
  - destruct (verifySHA_true archive c Hv) as (bs & body & E1 & E2 & E3). rewrite E1, E2, Hv.
    split; [intros _; by exists bs, body|]. by split.
  - assert (∀ d, let '(r, c') := fetch Sum256 archive tar sums d in
      sound archive r c' ∧ (true = true → true = true → verifySHA Sum256 c archive = Ok true → r = Ok tt ∧ c' = c)) as H.
    { intros d. pose proof (fetch_sound archive tar sums d) as H. by destruct (fetch _ _ _ _ _). }
    assert (match c_local c, c_sums c with
            | Some _, Some _ => match verifySHA Sum256 c archive with
                                | Ok true => (Ok tt, c) | _ => fetch Sum256 archive tar sums (mkCache None None) end
            | _, _ => fetch Sum256 archive tar sums c end =
            fetch Sum256 archive tar sums (match c_local c, c_sums c with Some _, Some _ => mkCache None None | _, _ => c end)) as ->
      by (destruct (c_local c), (c_sums c); try done; by destruct (verifySHA Sum256 c archive) as [[|]|]).
    match goal with |- context [fetch _ _ _ _ ?d] => specialize (H d) end.
    destruct (fetch _ _ _ _ _) as [r c']. destruct H as [[H1 H2] H3]. by repeat split.
Qed.
End verified.

(** ** The install commands *)

Definition dir_tokens (dir : gostring) : list shtoken :=
  match dir with [] => [] | _ => [W B"--install-dir"; Q dir] end.

Definition dir_segs (dir : gostring) : list seg :=
  match dir with [] => [] | _ => [Text B" --install-dir "; Quoted dir] end.

Lemma dir_segs_bytes dir : install_dir_arg dir = concat (seg_bytes <$> dir_segs dir).
Proof. destruct dir; [done|]. cbn [concat seg_bytes fmap list_fmap dir_segs]. by rewrite app_nil_r. Qed.

Lemma dir_segs_ok dir : Forall seg_ok (dir_segs dir).
Proof. destruct dir; by repeat constructor. Qed.

(** The remote shell reads the version, the directory and the staged path as
    one literal word each, whatever they contain. *)
Lemma install_commands_read pid o :
  lex (auto_cmdline o) = Some ([W B"sh"; W B"-s"; W B"--"; W B"--version"; Q (in_Version o)] ++ dir_tokens (in_InstallDir o)) ∧
  lex (upload_cmdline pid o) = Some ([TOp (chr "("); W B"sh"; W B"-s"; W B"--"; W B"--from-file"; Q (staged_path pid)] ++
    dir_tokens (in_InstallDir o) ++ [TOp (chr ")"); TOp (chr ";"); W B"rc=$?"; TOp (chr ";");
    W B"rm"; W B"-f"; Q (staged_path pid); TOp (chr ";"); W B"exit"; W B"$rc"]).
Proof.
  split.
  - eassert (auto_cmdline o = concat (seg_bytes <$> [Text B"sh -s -- --version "; Quoted (in_Version o)] ++
      dir_segs (in_InstallDir o))) as E.
    { unfold auto_cmdline. rewrite fmap_app, concat_app, <- dir_segs_bytes.
      cbn [concat seg_bytes fmap list_fmap]. by rewrite app_nil_r, app_assoc. }
    destruct (in_InstallDir o) as [|c d]; (etrans; [eapply (lex_segs_lex _ _ _ E);
      [by repeat constructor|vm_compute; reflexivity|reflexivity]|vm_compute; reflexivity]).
  - set (p := staged_path pid).
    assert (upload_cmdline pid o = concat (seg_bytes <$> [Text B"(sh -s -- --from-file "; Quoted p] ++
      dir_segs (in_InstallDir o) ++ [Text B"); rc=$?; rm -f "; Quoted p; Text B"; exit $rc"])) as E.
    { unfold upload_cmdline. fold p. rewrite !fmap_app, !concat_app, <- dir_segs_bytes.
      cbn [concat seg_bytes fmap list_fmap]. rewrite !app_nil_r, <- !app_assoc. reflexivity. }
    clearbody p.
    destruct (in_InstallDir o) as [|c d]; (etrans; [eapply (lex_segs_lex _ _ _ E);
      [by repeat constructor|vm_compute; reflexivity|reflexivity]|vm_compute; reflexivity]).
Qed.

(** ** The version check *)

Lemma ensureRemoteHoot_ok Version noBootstrap probe1 install probe2 :
  ensureRemoteHoot Version noBootstrap probe1 install probe2 = Ok tt ↔
  Version = B"dev" ∨ noBootstrap ≠ [] ∨ probe1 = Ok Version ∨
  (is_ok probe1 = true ∧ install = Ok tt ∧ probe2 = Ok Version).
Proof.
  unfold ensureRemoteHoot. destruct (bool_decide (Version = B"dev")) eqn:E1; bools; [split; [by left|done]|].
  destruct (bool_decide (noBootstrap = [])) eqn:E2; bools; cbn [negb]; [|split; [by right; left|done]].
  destruct probe1 as [v|e]; [|split; [done|by intros [?|[?|[?|[? _]]]]]].
  destruct (bool_decide (v = Version)) eqn:E3; bools.
  { split; [intros _; right; right; left; by subst|done]. }
  destruct install as [[]|e]; [|split; [done|intros [?|[?|[[= ?]|(_ & ? & _)]]]; done]].
  destruct probe2 as [v2|e]; [|split; [done|intros [?|[?|[[= ?]|(_ & _ & ?)]]]; done]].
  destruct (bool_decide (v2 = Version)) eqn:E4; bools.
  - split; [intros _|done]. right; right; right. by subst.
  - split; [done|]. intros [?|[?|[[= ?]|(_ & _ & [= ?])]]]; done.
Qed.

(** ** The tunnel's protocol *)

(** What the calls of a [Remote] must look like: the remote host is prepared
    until that succeeded once and never again; a tunnel is opened only on a
    prepared host and while there is none; only the live tunnel is dialled, and
    only it is closed. *)
Definition spec_step (s : ssh_remote) (c : remote_call) : option ssh_remote :=
  match c with
  | CallEnsure ok =>
      if r_bootstrapped s then None
      else match r_tunnel s with Some _ => None | None => Some (mkRemote None ok) end
  | CallOpen t =>
      if r_bootstrapped s then match r_tunnel s with Some _ => None | None => Some (mkRemote t true) end else None
  | CallDial t _ => if bool_decide (r_tunnel s = Some t) then Some s else None
  | CallClose t => if bool_decide (r_tunnel s = Some t) then Some (set_tunnel None s) else None
  end.

Fixpoint spec_run (s : ssh_remote) (log : list remote_call) : option ssh_remote :=
  match log with
  | [] => Some s
  | c :: log' => match spec_step s c with None => None | Some s' => spec_run s' log' end
  end.

Inductive remote_op := RDial (a1 a2 : open_answer) (dial1 dial2 : bool) | RClose.

(** The connection made, if any, the state and the calls. *)
Definition remote_step (op : remote_op) (r : ssh_remote) : option nat * ssh_remote * list remote_call :=
  match op with
  | RDial a1 a2 d1 d2 =>
      let '(x, r, l) := Dial a1 a2 d1 d2 r in (match x with Ok t => Some t | Err _ => None end, r, l)
  | RClose => let '(r, l) := Remote_Close r in (None, r, l)
  end.

Fixpoint remote_run (ops : list remote_op) (r : ssh_remote) : ssh_remote * list remote_call :=
  match ops with
  | [] => (r, [])
  | op :: ops' =>
      let '(_, r, l) := remote_step op r in let '(r, l') := remote_run ops' r in (r, l ++ l')
  end.

Lemma spec_run_app s l1 l2 :
  spec_run s (l1 ++ l2) = match spec_run s l1 with None => None | Some s' => spec_run s' l2 end.
Proof. revert s. induction l1 as [|c l1 IH]; intros s; cbn; [done|]. by destruct (spec_step s c). Qed.

Lemma openTunnel_spec a r :
  r_tunnel r = None →
  let '(x, r', l) := openTunnel a r in
  spec_run r l = Some (set_tunnel (match x with Ok t => Some t | Err _ => None end) r') ∧
  r_tunnel r' = None ∧ (is_ok x = true → r_bootstrapped r' = true).
Proof.
  destruct r as [t b]. cbn [r_tunnel]. intros ->. unfold openTunnel. cbn [r_bootstrapped r_tunnel].
  destruct b; [destruct (oa_open a); by repeat split|].
  destruct (oa_ensure a); [destruct (oa_open a)|]; by repeat split.
Qed.

Lemma set_tunnel_id r : set_tunnel (r_tunnel r) r = r.
Proof. by destruct r. Qed.

Lemma spec_drop t r :
  r_tunnel r = Some t → spec_run r [CallDial t false; CallClose t] = Some (set_tunnel None r).
Proof. intros Ht. cbn. rewrite Ht. by rewrite !bool_decide_eq_true_2. Qed.

Lemma Dial_spec a1 a2 d1 d2 r :
  let '(x, r', l) := Dial a1 a2 d1 d2 r in
  spec_run r l = Some r' ∧ ∀ t, x = Ok t → r_tunnel r' = Some t.
Proof.
  assert (∀ t log r0, r_tunnel r0 = Some t → spec_run r log = Some r0 →
    let '(x, r', l) :=
      if d1 then (Ok t, r0, log ++ [CallDial t true])
      else let log := log ++ [CallDial t false; CallClose t] in
           match openTunnel a2 (set_tunnel None r0) with
           | (Err e, r, l) => (Err (ReReopen e), r, log ++ l)
           | (Ok t2, r, l) =>
               (if d2 then Ok t2 else Err ReDial, set_tunnel (Some t2) r, log ++ l ++ [CallDial t2 d2])
           end in
    spec_run r l = Some r' ∧ ∀ t, x = Ok t → r_tunnel r' = Some t) as H.
  { intros t log r0 Ht Hlog. destruct d1.
    - rewrite spec_run_app, Hlog. cbn. rewrite bool_decide_eq_true_2 by done. split; [done|by intros ? [= <-]].
    - pose proof (openTunnel_spec a2 (set_tunnel None r0) eq_refl) as Ho.
      destruct (openTunnel a2 (set_tunnel None r0)) as [[[t2|e] r1] l]; destruct Ho as (Ho & Hn & _);
        cbv zeta; rewrite <- app_assoc, spec_run_app, Hlog, spec_run_app, (spec_drop t) by done.
      + rewrite spec_run_app, Ho. cbn. rewrite bool_decide_eq_true_2 by done. split; [done|].
        by destruct d2; intros ? [= <-].
      + rewrite Ho, <- Hn, set_tunnel_id. by split. }
  unfold Dial. destruct (r_tunnel r) as [t|] eqn:Et; [by apply (H t [] r)|].
  pose proof (openTunnel_spec a1 r Et) as Ho. destruct (openTunnel a1 r) as [[[t|e] r1] l]; destruct Ho as (Ho & Hn & _).
  - apply (H t l (set_tunnel (Some t) r1)); done.
  - rewrite Ho, <- Hn, set_tunnel_id. by split.
Qed.

(** The tunnel protocol.  Over any sequence of [Dial] and [Close], however
    the remote host, [ssh] and the local socket answer: the host is prepared
    until it worked and then never again, no tunnel is opened while one is
    live, only the live one is dialled and closed (so none leaks), and a
    connection [Dial] returns is to the live tunnel. *)
Theorem remote_protocol ops op :
  let '(r, log) := remote_run ops (mkRemote None false) in
  spec_run (mkRemote None false) log = Some r ∧
  let '(conn, r', l) := remote_step op r in
  spec_run r l = Some r' ∧ ∀ t, conn = Some t → r_tunnel r' = Some t.
Proof.
  assert (∀ op r, let '(conn, r', l) := remote_step op r in
    spec_run r l = Some r' ∧ ∀ t, conn = Some t → r_tunnel r' = Some t) as Hstep.
  { intros [a1 a2 d1 d2|] r; cbn [remote_step].
    - pose proof (Dial_spec a1 a2 d1 d2 r) as H. destruct (Dial a1 a2 d1 d2 r) as [[x r'] l].
      destruct H as [H1 H2]. split; [done|]. destruct x; [|done]. intros t' [= <-]. by apply H2.
    - unfold Remote_Close. destruct r as [[t|] b]; cbn; [|done].
      rewrite bool_decide_eq_true_2 by done. by split. }
  assert (∀ r0, let '(r, log) := remote_run ops r0 in spec_run r0 log = Some r) as Hrun.
  { induction ops as [|o ops IH]; intros r0; [done|]. cbn [remote_run].
    specialize (Hstep o r0). destruct (remote_step o r0) as [[c r1] l]. destruct Hstep as [H1 _].
    specialize (IH r1). destruct (remote_run ops r1) as [r2 l2]. by rewrite spec_run_app, H1. }
  specialize (Hrun (mkRemote None false)). destruct (remote_run ops _) as [r log].
  split; [done|]. apply Hstep.
Qed.

Lemma downloadTarball_verified_witness :
  let entry := EncodeToString (replicate 32 0) ++ B"  hoot-linux-arm64.tar.gz" ++ [10] in
  let '(r, c') := downloadTarball zero_sum true true B"linux-arm64" (mkCurl (Some [1]) true) (mkCurl (Some entry) true)
                    (mkCache None None) in
  r = Ok tt ∧ ∃ bs body, c_local c' = Some bs ∧ c_sums c' = Some body ∧
    find_sum B"hoot-linux-arm64.tar.gz" (split_on 10 body) = Some (EncodeToString (zero_sum bs)).
Proof.
  intros entry.
  pose proof (downloadTarball_verified zero_sum true true B"linux-arm64" (mkCurl (Some [1]) true)
    (mkCurl (Some entry) true) (mkCache None None)) as H. cbv zeta in H.
  assert ((downloadTarball zero_sum true true B"linux-arm64" (mkCurl (Some [1]) true) (mkCurl (Some entry) true)
    (mkCache None None)).1 = Ok tt) as E by (vm_compute; reflexivity).
  destruct (downloadTarball _ _ _ _ _ _ _) as [r c']. cbn [fst] in E. destruct H as (H & _).
  split; [exact E|]. exact (H E).
Defined.
