(* ===== verification/Installer.v ===== *)
(** * [internal/bootstrap/bootstrap.go]: what an installation runs

    [Install] down to the commands: [installAuto] has the remote download its
    own release, [installUpload] downloads it here, for the remote's platform,
    and ships it, [installFromFile] ships a given tarball.  The commands are
    events with what they were given on standard input; [ssh], [scp] and [curl]
    are their answers. *)
From S2P Require Import Prelude GoBase QueryStripper State GoStrings Paths Ssh Bootstrap.
Open Scope Z_scope.

(** A command: [ssh] with [install.sh] on its standard input, [ssh uname], or [scp]. *)
Inductive install_command := SshScript (args : list gostring) | SshUname (args : list gostring) | Scp (args : list gostring).

Inductive install_error :=
| InRefused (e : bootstrap_error) | InDetect (e : bootstrap_error) | InDownload (e : bootstrap_error)
| InNoFile | InScp | InRun.

(** What the outside answers: the process id, [uname], the cache directory
    and whether it can be made, the downloads, whether the tarball of
    [--from-file] is there, and how [scp] and [ssh] end. *)
Record install_os := mkInstallOS {
  io_pid : Z; io_uname : ssh_answer; io_cacheDir : option gostring; io_mkdir : bool;
  io_tar : curl; io_sums : curl; io_stat : bool; io_scp : bool; io_ssh : bool
}.

Section install.
Context (Sum256 : list byte → list byte) (os : install_os).

Definition ssh_script (o : Options) (cmdline : gostring) : install_command :=
  SshScript (sshArgs (in_User o) (in_Host o) (in_Port o) ++ [cmdline]).

Definition run_script (before : list install_command) (o : Options) (cmdline : gostring) : list install_command * res install_error unit :=
  (before ++ [ssh_script o cmdline], if io_ssh os then Ok tt else Err InRun).

Definition installAuto (o : Options) : list install_command * res install_error unit := run_script [] o (auto_cmdline o).

(** [uploadAndInstall] *)
Definition uploadAndInstall (before : list install_command) (o : Options) (localTarball : gostring)
  : list install_command * res install_error unit :=
  let before := before ++ [Scp (scpUp_args o localTarball (staged_path (io_pid os)))] in
  if negb (io_scp os) then (before, Err InScp) else run_script before o (upload_cmdline (io_pid os) o).

(** The cached tarball of a release. *)
Definition release_dir (cacheDir version : gostring) : gostring := path_Join [cacheDir; B"hoot-bootstrap"; version].
Definition archive_name (target : gostring) : gostring := B"hoot-" ++ target ++ B".tar.gz".

(** [c] is the cache directory of the release, before and after. *)
Definition installUpload (o : Options) (c : cache) : list install_command * res install_error unit * cache :=
  let probe := [SshUname (sshArgs (in_User o) (in_Host o) (in_Port o) ++ [B"uname -sm"])] in
  match detectRemoteTarget (io_uname os) with
  | Err e => (probe, Err (InDetect e), c)
  | Ok target =>
      match downloadTarball Sum256 (bool_decide (is_Some (io_cacheDir os))) (io_mkdir os) target (io_tar os) (io_sums os) c with
      | (Err e, c) => (probe, Err (InDownload e), c)
      | (Ok _, c) =>
          (uploadAndInstall probe o (path_Join [release_dir (default [] (io_cacheDir os)) (in_Version o); archive_name target]), c)
      end
  end.

Definition installFromFile (o : Options) : list install_command * res install_error unit :=
  if negb (io_stat os) then ([], Err InNoFile) else uploadAndInstall [] o (in_Tarball o).

Definition install_run (o : Options) (c : cache) : list install_command * res install_error unit * cache :=
  match Install o with
  | Err e => ([], Err (InRefused e), c)
  | Ok (RunAuto _) => (installAuto o, c)
  | Ok RunUpload => installUpload o c
  | Ok RunFromFile => (installFromFile o, c)
  end.

(** ** What a successful installation was *)

(** The words the remote shell runs [install.sh] with. *)
Definition script_words (o : Options) (staged : option gostring) : list shtoken :=
  match staged with
  | None => [W B"sh"; W B"-s"; W B"--"; W B"--version"; Q (in_Version o)] ++ dir_tokens (in_InstallDir o)
  | Some path =>
      [TOp (chr "("); W B"sh"; W B"-s"; W B"--"; W B"--from-file"; Q path] ++ dir_tokens (in_InstallDir o) ++
      [TOp (chr ")"); TOp (chr ";"); W B"rc=$?"; TOp (chr ";"); W B"rm"; W B"-f"; Q path; TOp (chr ";"); W B"exit"; W B"$rc"]
  end.

(** The last command: [install.sh] on the host, with those words. *)
Definition runs_script (o : Options) (staged : option gostring) (cmd : install_command) : Prop :=
  ∃ cmdline, cmd = ssh_script o cmdline ∧ lex cmdline = Some (script_words o staged).

Definition shipped (o : Options) (local : gostring) (l : list install_command) : Prop :=
  ∃ cmd, l = [Scp (scpUp_args o local (staged_path (io_pid os))); cmd] ∧ runs_script o (Some (staged_path (io_pid os))) cmd.

Lemma uploadAndInstall_ok before o local cmds :
  uploadAndInstall before o local = (cmds, Ok tt) → ∃ l, cmds = before ++ l ∧ shipped o local l.
Proof.
  unfold uploadAndInstall, run_script. destruct (io_scp os); [|done]. destruct (io_ssh os); intros [= <-].
  eexists. split; [by rewrite <- app_assoc|]. eexists. split; [done|]. eexists. split; [done|].
  apply (install_commands_read (io_pid os) o).
Qed.

(** What [Install] lets through. *)
Lemma Install_modes o a :
  Install o = Ok a →
  in_Mode o = ModeAuto ∧ in_Version o ≠ [] ∧ a = RunAuto (auto_cmdline o) ∨
  in_Mode o = ModeUpload ∧ a = RunUpload ∨ in_Mode o = ModeFromFile ∧ a = RunFromFile.
Proof.
  unfold Install. destruct (in_Host o); [done|].
  destruct (Z.eqb_spec (in_Mode o) ModeAuto) as [E|_]; [destruct (in_Version o) eqn:Ev; [done|]; intros [= <-]; left; by split|].
  destruct (Z.eqb_spec (in_Mode o) ModeUpload) as [E|_]; [destruct (in_Version o); [done|]; intros [= <-]; right; left; by split|].
  destruct (Z.eqb_spec (in_Mode o) ModeFromFile) as [E|_]; [|done]. destruct (in_Tarball o); [done|].
  intros [= <-]. right; right; by split.
Qed.

Lemma installUpload_ok o c cmds c' :
  installUpload o c = (cmds, Ok tt, c') → ∃ target dir bs body probe l,
     detectRemoteTarget (io_uname os) = Ok target ∧ io_cacheDir os = Some dir ∧ cmds = SshUname probe :: l ∧
     shipped o (path_Join [release_dir dir (in_Version o); archive_name target]) l ∧
     c_local c' = Some bs ∧ c_sums c' = Some body ∧
     find_sum (archive_name target) (split_on 10 body) = Some (EncodeToString (Sum256 bs)).
Proof.
  unfold installUpload. destruct (detectRemoteTarget _) as [target|e] eqn:Et; [|done].
  pose proof (downloadTarball_verified Sum256 (bool_decide (is_Some (io_cacheDir os))) (io_mkdir os) target (io_tar os) (io_sums os) c) as H.
  cbv zeta in H. destruct (io_cacheDir os) as [dir|] eqn:Ed; [|done].
  destruct (downloadTarball _ _ _ _ _ _ _) as [[[]|e] c1]; [|done]. destruct H as [H _].
  destruct (H eq_refl) as (bs & body & B1 & B2 & B3). intros E.
  injection E as E <-. apply uploadAndInstall_ok in E as (l & -> & Hl). cbn [app].
  exists target, dir, bs, body. eexists _, l. by repeat split.
Qed.

(** C37: What a successful installation did.  By default the remote itself was
    asked for the release of the version named; with [--upload] the tarball shipped
    is the cached one of the release and of the remote's own platform, and its
    SHA-256 is the entry of its name in the release's checksums; with
    [--from-file] it is the file named, which exists.  In each mode the remote shell
    ran [install.sh], last, with the version, the staged tarball and the directory
    as one literal word each, and with a staged tarball it removes it whatever
    happens. *)
Theorem install_ships o c cmds c' :
  install_run o c = (cmds, Ok tt, c') →
  (in_Mode o = ModeAuto → in_Version o ≠ [] ∧ ∃ cmd, cmds = [cmd] ∧ runs_script o None cmd) ∧
  (in_Mode o = ModeUpload → ∃ target dir bs body probe l,
     detectRemoteTarget (io_uname os) = Ok target ∧ io_cacheDir os = Some dir ∧ cmds = SshUname probe :: l ∧
     shipped o (path_Join [release_dir dir (in_Version o); archive_name target]) l ∧
     c_local c' = Some bs ∧ c_sums c' = Some body ∧
     find_sum (archive_name target) (split_on 10 body) = Some (EncodeToString (Sum256 bs))) ∧
  (in_Mode o = ModeFromFile → io_stat os = true ∧ shipped o (in_Tarball o) cmds) ∧
  (in_Mode o = ModeAuto ∨ in_Mode o = ModeUpload ∨ in_Mode o = ModeFromFile).
Proof.
  unfold install_run. destruct (Install o) as [a|e] eqn:Ei; [|done].
  apply Install_modes in Ei as [(E0 & Ev & ->)|[[E0 ->]|[E0 ->]]]; rewrite E0; intros E; (split; [try done|split; [try done|split; [try done|by auto]]]).
  - intros _. injection E as <- _ _. split; [done|]. eexists. split; [done|]. eexists. split; [done|]. apply (install_commands_read 0 o).
  - intros _. by apply (installUpload_ok o c).
  - intros _. unfold installFromFile in E. destruct (io_stat os); [|done]. split; [done|]. cbn [negb] in E.
    injection E as E _. by apply uploadAndInstall_ok in E as (l & -> & Hl).
Qed.
End install.

Definition ex_release : gostring := EncodeToString (replicate 32 0) ++ B"  hoot-linux-arm64.tar.gz" ++ [10].

Definition ex_install_os : install_os :=
  mkInstallOS 42 (Ok B"Linux aarch64") (Some B"/home/al/.cache") true (mkCurl (Some [1]) true) (mkCurl (Some ex_release) true) true true true.

Lemma install_ships_witness :
  let o := mkInstall B"al" B"box" [] ModeUpload B"v1.2.3" [] B"/opt/my bin" in
  let '(cmds, r, c') := install_run zero_sum ex_install_os o (mkCache None None) in
  r = Ok tt ∧ ∃ probe l, cmds = SshUname probe :: l ∧
    shipped ex_install_os o B"/home/al/.cache/hoot-bootstrap/v1.2.3/hoot-linux-arm64.tar.gz" l.
Proof.
  intros o. destruct (install_run zero_sum ex_install_os o (mkCache None None)) as [[cmds r] c'] eqn:E.
  assert ((install_run zero_sum ex_install_os o (mkCache None None)).1.2 = Ok tt) as Er by (vm_compute; reflexivity).
  rewrite E in Er. cbn [fst snd] in Er. subst r. split; [reflexivity|].
  destruct (install_ships zero_sum ex_install_os o (mkCache None None) cmds c' E) as (_ & H & _).
  destruct (H eq_refl) as (target & dir & bs & body & probe & l & Ht & Hd & -> & Hl & _).
  exists probe, l. split; [reflexivity|].
  injection Hd as <-. assert (target = B"linux-arm64") as -> by (vm_compute in Ht; injection Ht as <-; reflexivity).
  exact Hl.
Defined.
