(* ===== verification/Remotes.v ===== *)
(** * [cmd/hoot/remote.go]: the address an HTTP remote dials

    [newHTTPRemote]: the connection, with or without TLS, and the host name the
    certificate is checked against ([hostFromHostport], over [net.SplitHostPort]
    written out); and [remoteResponseError]. *)
From S2P Require Import Prelude GoBase QueryStripper State GoStrings Ssh Bootstrap.
Open Scope Z_scope.

(** [strings.IndexByte], [strings.LastIndexByte] *)
Fixpoint index_byte (c : byte) (s : gostring) : option nat :=
  match s with [] => None | b :: s' => if b =? c then Some 0%nat else S <$> index_byte c s' end.

Fixpoint last_index_byte (c : byte) (s : gostring) : option nat :=
  match s with
  | [] => None
  | b :: s' => match last_index_byte c s' with Some i => Some (S i) | None => if b =? c then Some 0%nat else None end
  end.

(** The host of [net.SplitHostPort]; [None] is its error. *)
Definition split_host (hp : gostring) : option gostring :=
  match last_index_byte (chr ":") hp with
  | None => None
  | Some i =>
      match hp with
      | b :: _ =>
          if b =? chr "[" then
            match index_byte (chr "]") hp with
            | None => None
            | Some e =>
                if negb (S e =? i)%nat then None
                else if bool_decide (chr "[" ∈ drop 1 hp) || bool_decide (chr "]" ∈ drop (S e) hp) then None
                else Some (take (e - 1) (drop 1 hp))
            end
          else
            let host := take i hp in
            if bool_decide (chr ":" ∈ host) || bool_decide (chr "[" ∈ hp) || bool_decide (chr "]" ∈ hp) then None else Some host
      | [] => None
      end
  end.

Definition hostFromHostport (hp : gostring) : gostring := default hp (split_host hp).

(** What [Dial] does: the TCP address, and the TLS server name with [https]. *)
Inductive dial_call := DialTCP (addr : gostring) | DialTLS (addr serverName : gostring).

Definition http_dial (u : url) : option dial_call :=
  if bool_decide (u_Scheme u = B"http") then Some (DialTCP (u_Host u))
  else if bool_decide (u_Scheme u = B"https") then Some (DialTLS (u_Host u) (hostFromHostport (u_Host u)))
  else None.

(** [remoteResponseError]: the body, or the status line if there is none. *)
Definition remoteResponseError (status body : gostring) : gostring :=
  let msg := TrimSpace body in
  B"remote: " ++ status ++ B": " ++ match msg with [] => status | _ => msg end.

(** ** What it dials *)

Definition plain_host (h : gostring) : Prop := (chr ":" ∉ h) ∧ (chr "[" ∉ h) ∧ (chr "]" ∉ h).

Lemma last_index_none c s : (c ∉ s) → last_index_byte c s = None.
Proof.
  induction s as [|b s IH]; [done|]. intros [Hc Hs]%not_elem_of_cons. cbn [last_index_byte]. rewrite IH by done.
  by rewrite (proj2 (Z.eqb_neq b c)) by congruence.
Qed.

Lemma last_index_app c a b : (c ∉ b) → last_index_byte c (a ++ c :: b) = Some (length a).
Proof.
  intros Hb. induction a as [|x a IH]; cbn [app last_index_byte length].
  - by rewrite last_index_none, Z.eqb_refl.
  - by rewrite IH.
Qed.

Lemma index_app c a b : (c ∉ a) → index_byte c (a ++ c :: b) = Some (length a).
Proof.
  induction a as [|x a IH]; cbn [app index_byte length]; [by rewrite Z.eqb_refl|].
  intros [Hx Ha]%not_elem_of_cons. rewrite (proj2 (Z.eqb_neq x c)) by congruence. by rewrite IH.
Qed.

(** The host of [host:port], of [[v6]:port], and a host alone, is itself. *)
Lemma hostFromHostport_spec h v6 port :
  plain_host h → plain_host port → h ≠ [] → (chr "[" ∉ v6) → (chr "]" ∉ v6) →
  hostFromHostport (h ++ chr ":" :: port) = h ∧
  hostFromHostport (chr "[" :: v6 ++ chr "]" :: chr ":" :: port) = v6 ∧
  hostFromHostport h = h.
Proof.
  intros (H1 & H2 & H3) (P1 & P2 & P3) Hne V1 V2. unfold hostFromHostport, split_host.
  assert (chr "[" ≠ chr ":" ∧ chr "]" ≠ chr ":" ∧ chr "[" ≠ chr "]") as (N1 & N2 & N3) by (vm_compute; repeat split; discriminate).
  split; [|split].
  - rewrite last_index_app by done. destruct h as [|b h]; [done|]. cbn [app].
    rewrite (proj2 (Z.eqb_neq b (chr "["))) by (intros ->; apply H2; left). cbv zeta.
    rewrite (app_comm_cons h), take_app_length.
    rewrite (bool_decide_eq_false_2 (chr ":" ∈ _)) by done.
    rewrite (bool_decide_eq_false_2 (chr "[" ∈ _)) by set_solver. by rewrite (bool_decide_eq_false_2 (chr "]" ∈ _)) by set_solver.
  - replace (chr "[" :: v6 ++ chr "]" :: chr ":" :: port) with ((chr "[" :: v6 ++ [chr "]"]) ++ chr ":" :: port)
      by (cbn; by rewrite <- app_assoc).
    rewrite last_index_app by done. cbn [app]. rewrite Z.eqb_refl.
    replace (chr "[" :: (v6 ++ [chr "]"]) ++ chr ":" :: port) with ((chr "[" :: v6) ++ chr "]" :: chr ":" :: port)
      by (cbn; by rewrite <- app_assoc).
    rewrite index_app by set_solver.
    cbn [length]. rewrite length_app. cbn [length]. replace (S (S (length v6)) =? S (length v6 + 1))%nat with true by (symmetry; apply Nat.eqb_eq; lia).
    cbn [negb app drop]. assert (drop (S (length v6)) (v6 ++ chr "]" :: chr ":" :: port) = chr ":" :: port) as ->.
    { change (chr "]" :: chr ":" :: port) with ([chr "]"] ++ chr ":" :: port). rewrite app_assoc. apply drop_app_length'. rewrite length_app. cbn. lia. }
    rewrite (bool_decide_eq_false_2 (chr "[" ∈ _)) by set_solver.
    rewrite (bool_decide_eq_false_2 (chr "]" ∈ _)) by set_solver.
    cbn [orb default]. replace (S (length v6) - 1)%nat with (length v6) by lia. rewrite drop_0. exact (take_app_length v6 _).
  - by rewrite last_index_none.
Qed.
