(* ===== verification/ChordFsm.v ===== *)
(** * [cmd/hoot/attach_fsm.go]: the detach chord

    The keys typed in [hoot attach] are forwarded to the session except the
    prefix key and what follows it.  A key is a byte, an escape sequence, or a
    kitty [CSI u] report.  The input is the list of bytes the terminal sends
    before the end of the stream; the side effects ([fsmActions]) are a trace. *)
From S2P Require Import Prelude GoBase StreamFilter QueryStripper.
Open Scope Z_scope.

Inductive chordCmd := chordNone | chordDetach | chordLiteral | chordSuspend | chordClone.

Record keyEvent := mkKey {
  raw : list byte; csiU : bool; cp : Z; altCp : Z; mod_ : Z; event_ : Z
}.

Definition raw_key (bs : list byte) : keyEvent := mkKey bs false 0 0 0 0.

Definition splitByte (b : list byte) (sep : byte) : list (list byte) := split_on sep b.

(** A [uint] is 64 bits wide and wraps. *)
Fixpoint parseUint_loop (b : list byte) (n : Z) : Z :=
  match b with
  | [] => n
  | c :: b' => if (c <? 48) || (57 <? c) then 0 else parseUint_loop b' (u64 (n * 10 + (c - 48)))
  end.

Definition parseUint (b : list byte) : Z := parseUint_loop b 0.

(** A group [x:y]: both numbers, 0 when absent. *)
Definition parse_group (g : list byte) : Z * Z :=
  match splitByte g (chr ":") with
  | [] => (0, 0)
  | [x] => (parseUint x, 0)
  | x :: y :: _ => (parseUint x, parseUint y)
  end.

Definition parseCSIuParams (params : list byte) : Z * Z * Z * Z :=
  match splitByte params (chr ";") with
  | [] => (0, 0, 0, 0)
  | [g] => (parse_group g, 0, 0)
  | g :: h :: _ => (parse_group g, (parse_group h).1, (parse_group h).2)
  end.

Definition csi_final (b : byte) : bool := (64 <=? b) && (b <=? 126).

(** The loop after [ESC \[]. *)
Fixpoint read_csi (inp params : list byte) : keyEvent * list byte :=
  match inp with
  | [] => (raw_key (ESC :: chr "[" :: params), [])
  | nb :: inp' =>
      if csi_final nb then
        let raw := ESC :: chr "[" :: params ++ [nb] in
        if nb =? chr "u" then
          let '(cp, altCp, mod_, event_) := parseCSIuParams params in
          (mkKey raw true cp altCp mod_ event_, inp')
        else (raw_key raw, inp')
      else read_csi inp' (params ++ [nb])
  end.

(** [None] at the end of the stream. *)
Definition readKeyEvent (inp : list byte) : option (keyEvent * list byte) :=
  match inp with
  | [] => None
  | b :: inp1 =>
      if negb (b =? ESC) then Some (raw_key [b], inp1)
      else match inp1 with
           | [] => Some (raw_key [ESC], [])
           | b2 :: inp2 =>
               if negb (b2 =? chr "[") then Some (raw_key [ESC; b2], inp2)
               else Some (read_csi inp2 [])
           end
  end.

Definition modBits (m : Z) : Z := if m =? 0 then 0 else m - 1.
Definition hasCtrl (m : Z) : bool := negb (Z.land (modBits m) 4 =? 0).

Definition isCSIuPress (ev : keyEvent) : bool :=
  negb (csiU ev) || (event_ ev =? 0) || (event_ ev =? 1).
Definition isCSIuRepeatOrRelease (ev : keyEvent) : bool :=
  csiU ev && ((event_ ev =? 2) || (event_ ev =? 3)).

Definition prefixCodepoints (prefix : byte) : list Z :=
  if (1 <=? prefix) && (prefix <=? 26)
  then [97 + (prefix - 1); 97 + (prefix - 1) - 32]
  else if prefix =? 0 then [chr "@"; chr "2"; chr " "]
  else if prefix =? 28 then [chr "\"]
  else if prefix =? 29 then [chr "]"]
  else if prefix =? 30 then [chr "^"; chr "6"]
  else if prefix =? 31 then [chr "_"; chr "-"]
  else [].

Definition isPrefixKey (prefix : byte) (ev : keyEvent) : bool :=
  if negb (csiU ev) then bool_decide (raw ev = [prefix])
  else if negb (isCSIuPress ev) then false
  else if negb (hasCtrl (mod_ ev)) then false
  else
    let cps := prefixCodepoints prefix in
    bool_decide (cp ev ∈ cps) || (negb (altCp ev =? 0) && bool_decide (altCp ev ∈ cps)).

(** [any(want...)] *)
Definition any_cp (ev : keyEvent) (want : list Z) : bool :=
  existsb (λ w, (cp ev =? w) || (negb (altCp ev =? 0) && (altCp ev =? w))) want.

Definition matchChord (ev : keyEvent) : chordCmd :=
  if negb (csiU ev) then
    match raw ev with
    | [b] =>
        if b =? chr "." then chordDetach
        else if b =? chr "^" then chordLiteral
        else if b =? 26 then chordSuspend
        else if b =? chr "c" then chordClone
        else chordNone
    | _ => chordNone
    end
  else if negb (isCSIuPress ev) then chordNone
  else
    let ctrl := hasCtrl (mod_ ev) in
    if any_cp ev [46] && negb ctrl then chordDetach
    else if any_cp ev [94; 54] && ctrl then chordLiteral
    else if any_cp ev [122; 90] && ctrl then chordSuspend
    else if any_cp ev [99; 67] && negb ctrl then chordClone
    else chordNone.

(** What the loop does, in order; [clones] says which clone calls fail. *)
Inductive fsm_act :=
| ForwardBytes (bs : list byte)
| ActLiteral | ActDetach | ActSuspend
| ActClone (failed : bool).      (** a failure also prints a line on stderr *)

Inductive fsm_state := stateNormal | stateAfterPref.

Fixpoint chord_loop (fuel : nat) (prefix : byte) (s : fsm_state) (clones : list bool)
    (inp : list byte) : list fsm_act :=
  match fuel with
  | O => []
  | S fuel' =>
      match readKeyEvent inp with
      | None => []
      | Some (ev, inp') =>
          match s with
          | stateNormal =>
              if isPrefixKey prefix ev then chord_loop fuel' prefix stateAfterPref clones inp'
              else ForwardBytes (raw ev) :: chord_loop fuel' prefix stateNormal clones inp'
          | stateAfterPref =>
              if isCSIuRepeatOrRelease ev then chord_loop fuel' prefix stateAfterPref clones inp'
              else match matchChord ev with
                   | chordDetach => [ActDetach]
                   | chordLiteral => ActLiteral :: chord_loop fuel' prefix stateNormal clones inp'
                   | chordSuspend => ActSuspend :: chord_loop fuel' prefix stateNormal clones inp'
                   | chordClone =>
                       ActClone (hd false clones) ::
                         chord_loop fuel' prefix stateNormal (tl clones) inp'
                   | chordNone => chord_loop fuel' prefix stateNormal clones inp'
                   end
          end
      end
  end.

(** Every key is a byte at least: one turn per byte is enough. *)
Definition runChordFSM (prefix : byte) (clones : list bool) (inp : list byte) : list fsm_act :=
  chord_loop (S (length inp)) prefix stateNormal clones inp.

(** ** Keys partition the input *)

Lemma read_csi_raw inp params ev rest :
  read_csi inp params = (ev, rest) →
  ESC :: chr "[" :: params ++ inp = raw ev ++ rest ∧ raw ev ≠ [].
Proof.
  revert params. induction inp as [|nb inp IH]; intros params; cbn [read_csi].
  { intros [= <- <-]. by rewrite !app_nil_r. }
  destruct (csi_final nb); [|intros H%IH; by rewrite <- app_assoc in H].
  destruct (nb =? chr "u").
  - destruct (parseCSIuParams params) as [[[? ?] ?] ?]. intros [= <- <-].
    simpl. by rewrite <- app_assoc.
  - intros [= <- <-]. simpl. by rewrite <- app_assoc.
Qed.

Lemma readKeyEvent_raw inp ev rest :
  readKeyEvent inp = Some (ev, rest) → inp = raw ev ++ rest ∧ raw ev ≠ [].
Proof.
  destruct inp as [|b inp1]; [done|]. cbn [readKeyEvent].
  destruct (Z.eqb_spec b ESC) as [->|Hb]; cbn [negb]; [|by intros [= <- <-]].
  destruct inp1 as [|b2 inp2]; [by intros [= <- <-]|].
  destruct (Z.eqb_spec b2 (chr "[")) as [->|Hb2]; cbn [negb]; [|by intros [= <- <-]].
  destruct (read_csi inp2 []) as [ev' rest'] eqn:E. intros [= <- <-].
  by apply read_csi_raw in E.
Qed.

Lemma readKeyEvent_shrinks inp ev rest :
  readKeyEvent inp = Some (ev, rest) → (length rest < length inp)%nat.
Proof.
  intros [E Hne]%readKeyEvent_raw. rewrite E, length_app. destruct (raw ev); [done|simpl; lia].
Qed.

Lemma readKeyEvent_none inp : readKeyEvent inp = None → inp = [].
Proof.
  destruct inp as [|b [|b2 inp]]; [done| |]; cbn [readKeyEvent];
    repeat (destruct (negb _)); done.
Qed.

Lemma chord_loop_fuel f1 f2 prefix s clones inp :
  (length inp < f1)%nat → (length inp < f2)%nat →
  chord_loop f1 prefix s clones inp = chord_loop f2 prefix s clones inp.
Proof.
  revert f2 s clones inp. induction f1 as [|f1 IH]; intros f2 s clones inp H1 H2; [lia|].
  destruct f2 as [|f2]; [lia|]. cbn [chord_loop].
  destruct (readKeyEvent inp) as [[ev inp']|] eqn:E; [|done]. apply readKeyEvent_shrinks in E.
  destruct s; [destruct (isPrefixKey prefix ev)|destruct (isCSIuRepeatOrRelease ev);
    [|destruct (matchChord ev)]]; rewrite ?(IH f2) by lia; done.
Qed.

(** The keys of an input, in order. *)
Fixpoint keys_loop (fuel : nat) (inp : list byte) : list keyEvent :=
  match fuel with
  | O => []
  | S fuel' =>
      match readKeyEvent inp with
      | None => []
      | Some (ev, inp') => ev :: keys_loop fuel' inp'
      end
  end.

Definition keys (inp : list byte) : list keyEvent := keys_loop (S (length inp)) inp.

Lemma keys_loop_concat fuel inp :
  (length inp < fuel)%nat → concat (raw <$> keys_loop fuel inp) = inp.
Proof.
  revert inp. induction fuel as [|fuel IH]; intros inp Hl; [lia|]. cbn [keys_loop].
  destruct (readKeyEvent inp) as [[ev inp']|] eqn:E.
  - pose proof (readKeyEvent_shrinks _ _ _ E). apply readKeyEvent_raw in E as [-> _].
    rewrite fmap_cons. cbn [concat]. by rewrite IH by (rewrite length_app in *; lia).
  - by apply readKeyEvent_none in E as ->.
Qed.

(** Everything forwarded to the session. *)
Definition forwarded (acts : list fsm_act) : list byte :=
  acts ≫= λ a, match a with ForwardBytes bs => bs | _ => [] end.

(** Without the prefix key, each key is forwarded. *)
Lemma run_no_prefix prefix clones inp :
  Forall (λ ev, isPrefixKey prefix ev = false) (keys inp) →
  runChordFSM prefix clones inp = (ForwardBytes ∘ raw <$> keys inp).
Proof.
  unfold runChordFSM, keys. generalize (S (length inp)). intros fuel. revert inp.
  induction fuel as [|fuel IH]; intros inp; [done|]. cbn [keys_loop chord_loop].
  destruct (readKeyEvent inp) as [[ev inp']|]; [|done]. intros [-> H]%Forall_cons. by rewrite (IH inp' H).
Qed.

Lemma keys_concat inp : concat (raw <$> keys inp) = inp.
Proof. apply keys_loop_concat. lia. Qed.

Lemma forwarded_keys (evs : list keyEvent) : forwarded (ForwardBytes ∘ raw <$> evs) = concat (raw <$> evs).
Proof. induction evs as [|ev evs IH]; [done|]. rewrite !fmap_cons. unfold forwarded in *. by rewrite bind_cons, IH. Qed.

(** Typing is transparent.  As long as no key is the prefix key, every byte
    of the input reaches the session, in order and nothing else happens,
    whatever escape sequences, kitty reports or truncated sequences it holds. *)
Theorem chord_transparent prefix clones inp :
  Forall (λ ev, isPrefixKey prefix ev = false) (keys inp) →
  runChordFSM prefix clones inp = (ForwardBytes ∘ raw <$> keys inp) ∧
  forwarded (runChordFSM prefix clones inp) = inp.
Proof. intros H. by rewrite (run_no_prefix _ _ _ H), forwarded_keys, keys_concat. Qed.

Lemma chord_transparent_witness :
  runChordFSM 30 [] (B"ls" ++ [27; 91; 65; 27; 91; 57; 55; 117; 27]) =
    (ForwardBytes ∘ raw <$> keys (B"ls" ++ [27; 91; 65; 27; 91; 57; 55; 117; 27])) ∧
  forwarded (runChordFSM 30 [] (B"ls" ++ [27; 91; 65; 27; 91; 57; 55; 117; 27])) =
    B"ls" ++ [27; 91; 65; 27; 91; 57; 55; 117; 27].
Proof. apply chord_transparent. vm_compute. repeat constructor. Defined.

(** ** Chords *)

(** Typing before the prefix: bytes that are neither ESC nor the prefix. *)
Definition plain (prefix b : byte) : Prop := b ≠ ESC ∧ b ≠ prefix.

Lemma run_cons prefix clones inp ev inp' :
  readKeyEvent inp = Some (ev, inp') → isPrefixKey prefix ev = false →
  runChordFSM prefix clones inp = ForwardBytes (raw ev) :: runChordFSM prefix clones inp'.
Proof.
  intros E Hp. unfold runChordFSM at 1. cbn [chord_loop]. rewrite E, Hp. f_equal.
  apply readKeyEvent_shrinks in E. apply chord_loop_fuel; lia.
Qed.

Lemma readKeyEvent_byte b rest : b ≠ ESC → readKeyEvent (b :: rest) = Some (raw_key [b], rest).
Proof. intros H. cbn [readKeyEvent]. by rewrite (proj2 (Z.eqb_neq b ESC)). Qed.

Lemma run_plain prefix clones a rest :
  Forall (plain prefix) a →
  runChordFSM prefix clones (a ++ rest) =
    ((λ b, ForwardBytes [b]) <$> a) ++ runChordFSM prefix clones rest.
Proof.
  induction 1 as [|b a [Hb1 Hb2] _ IH]; [done|]. rewrite <- app_comm_cons.
  rewrite (run_cons _ _ _ (raw_key [b]) (a ++ rest)).
  - by rewrite IH.
  - by apply readKeyEvent_byte.
  - unfold isPrefixKey. simpl. apply bool_decide_eq_false. congruence.
Qed.

(** *** Key reports

    What the kitty keyboard protocol sends for a key: [CSI key:alternates ;
    modifiers:event ; text u], where everything after the key may be absent or
    empty.  A report is its groups, a group its fields, a field its digits. *)
Definition digits (b : list byte) : Prop := Forall (λ c, 48 <= c <= 57) b.

Fixpoint joined (sep : byte) (l : list (list byte)) : list byte :=
  match l with
  | [] => []
  | [x] => x
  | x :: l' => x ++ sep :: joined sep l'
  end.

Definition report (gs : list (list (list byte))) : list byte :=
  ESC :: chr "[" :: joined (chr ";") (joined (chr ":") <$> gs) ++ [chr "u"].

(** The number some digits write. *)
Definition number (f : list byte) : Z := foldl (λ n c, n * 10 + (c - 48)) 0 f.

(** The [j]th field of the [i]th group; an absent or empty one is 0. *)
Definition field (gs : list (list (list byte))) (i j : nat) : Z :=
  default 0 (number <$> (gs !! i ≫= λ g, g !! j)).

(** A key code, and groups of fields that fit 64 bits. *)
Definition report_ok (gs : list (list (list byte))) : Prop :=
  gs ≠ [] ∧ Forall (λ g, g ≠ [] ∧ Forall (λ f, digits f ∧ number f < 2 ^ 64) g) gs.

(** The key or its alternate (the first one) is one of [want]. *)
Definition key_of (gs : list (list (list byte))) (want : list Z) : Prop :=
  field gs 0 0 ∈ want ∨ field gs 0 1 ≠ 0 ∧ field gs 0 1 ∈ want.

(** Bit 2 of the modifiers, which are sent with 1 added. *)
Definition ctrl_held (gs : list (list (list byte))) : bool :=
  (0 <? field gs 1 0) && Z.testbit (field gs 1 0 - 1) 2.

Definition pressed (gs : list (list (list byte))) : Prop := field gs 1 1 = 0 ∨ field gs 1 1 = 1.
Definition held_or_released (gs : list (list (list byte))) : Prop := field gs 1 1 = 2 ∨ field gs 1 1 = 3.

Lemma digits_ne sep b : digits b → (sep < 48 ∨ 57 < sep) → Forall (λ c, c ≠ sep) b.
Proof. intros H Hs. eapply Forall_impl; [exact H|]. simpl. lia. Qed.

Lemma joined_forall (P : byte → Prop) sep l : P sep → Forall (Forall P) l → Forall P (joined sep l).
Proof.
  intros Hs H. induction H as [|x l Hx Hl IH]; [constructor|]. cbn [joined]. destruct l as [|y l]; [done|].
  apply Forall_app. split; [done|by constructor].
Qed.

Lemma split_joined sep l : l ≠ [] → Forall (Forall (λ c, c ≠ sep)) l → split_on sep (joined sep l) = l.
Proof.
  intros Hne H. induction H as [|x l Hx Hl IH]; [done|]. cbn [joined]. destruct l as [|y l]; [by apply split_on_none|].
  rewrite split_on_one by done. by rewrite IH.
Qed.

Lemma parseUint_number f : digits f → number f < 2 ^ 64 → parseUint f = number f.
Proof.
  unfold parseUint, number. intros Hd. assert (∀ n, 0 <= n → n <= foldl (λ n c, n * 10 + (c - 48)) n f) as Hmono.
  { induction Hd as [|c f Hc _ IH]; intros n Hn; [done|]. cbn [foldl]. specialize (IH (n * 10 + (c - 48))). lia. }
  assert (∀ n, 0 <= n → foldl (λ n c, n * 10 + (c - 48)) n f < 2 ^ 64 →
    parseUint_loop f n = foldl (λ n c, n * 10 + (c - 48)) n f) as H; [|apply H; lia].
  clear Hmono. induction Hd as [|c f Hc Hd IH]; intros n Hn Hl; [done|]. cbn [parseUint_loop foldl] in *.
  destruct (Z.ltb_spec c 48), (Z.ltb_spec 57 c); try lia. cbn [orb].
  assert (∀ m, 0 <= m → m <= foldl (λ n c, n * 10 + (c - 48)) m f) as Hmono.
  { clear -Hd. induction Hd as [|d f Hc _ IH]; intros n Hn; [done|]. cbn [foldl]. specialize (IH (n * 10 + (d - 48))). lia. }
  specialize (Hmono (n * 10 + (c - 48)) ltac:(lia)). rewrite u64_small by lia. apply IH; lia.
Qed.

Lemma number_nonneg f : digits f → 0 <= number f.
Proof.
  unfold number. intros Hd. assert (∀ n, 0 <= n → 0 <= foldl (λ n c, n * 10 + (c - 48)) n f) as H; [|by apply H].
  induction Hd as [|c f Hc _ IH]; intros n Hn; [done|]. cbn [foldl]. apply IH. lia.
Qed.

Lemma parse_group_fields g :
  g ≠ [] → Forall (λ f, digits f ∧ number f < 2 ^ 64) g →
  parse_group (joined (chr ":") g) = (default 0 (number <$> g !! 0%nat), default 0 (number <$> g !! 1%nat)).
Proof.
  intros Hne H. unfold parse_group, splitByte. rewrite split_joined; [|done|].
  2:{ eapply Forall_impl; [exact H|]. intros f [Hf _]. apply digits_ne; [done|right; reflexivity]. }
  destruct H as [|x g [Hx Nx] H]; [done|]. destruct H as [|y g [Hy Ny] H]; cbn.
  - by rewrite parseUint_number.
  - by rewrite !parseUint_number.
Qed.

Lemma params_fields gs :
  report_ok gs →
  parseCSIuParams (joined (chr ";") (joined (chr ":") <$> gs)) = (field gs 0 0, field gs 0 1, field gs 1 0, field gs 1 1).
Proof.
  intros [Hne H]. unfold parseCSIuParams, splitByte. rewrite split_joined; [|by destruct gs|].
  2:{ apply Forall_fmap. eapply Forall_impl; [exact H|]. intros g [_ Hg]. apply joined_forall; [done|].
      eapply Forall_impl; [exact Hg|]. intros f [Hf _]. apply digits_ne; [done|right; reflexivity]. }
  destruct H as [|g gs [Hg1 Hg2] H]; [done|]. unfold field. rewrite fmap_cons.
  destruct H as [|h gs [Hh1 Hh2] H]; cbn [fmap list_fmap]; by rewrite !parse_group_fields.
Qed.

Lemma read_csi_params params rest acc :
  Forall (λ c, csi_final c = false) params →
  read_csi (params ++ chr "u" :: rest) acc =
    let '(cp, altCp, mod_, event_) := parseCSIuParams (acc ++ params) in
    (mkKey (ESC :: chr "[" :: acc ++ params ++ [chr "u"]) true cp altCp mod_ event_, rest).
Proof.
  intros H. revert acc. induction H as [|c params Hc _ IH]; intros acc; cbn [app read_csi].
  - rewrite app_nil_r. done.
  - rewrite Hc, IH, <- !app_assoc. done.
Qed.

(** The key a report is read as. *)
Definition report_key (gs : list (list (list byte))) : keyEvent :=
  mkKey (report gs) true (field gs 0 0) (field gs 0 1) (field gs 1 0) (field gs 1 1).

Lemma readKeyEvent_report gs rest :
  report_ok gs → readKeyEvent (report gs ++ rest) = Some (report_key gs, rest).
Proof.
  intros Hok. unfold report. cbn [app readKeyEvent].
  change (negb (ESC =? ESC)) with false. change (negb (chr "[" =? chr "[")) with false. cbv iota.
  rewrite <- app_assoc. cbn [app]. rewrite read_csi_params; [cbn [app]; by rewrite params_fields|].
  destruct Hok as [_ H]. apply joined_forall; [done|]. apply Forall_fmap. eapply Forall_impl; [exact H|]. intros g [_ Hg].
  apply joined_forall; [done|]. eapply Forall_impl; [exact Hg|]. intros f [Hf _]. eapply Forall_impl; [exact Hf|].
  unfold csi_final. simpl. intros. lia.
Qed.

Lemma field_nonneg gs i j : report_ok gs → 0 <= field gs i j.
Proof.
  intros [_ H]. unfold field. destruct (gs !! i) as [g|] eqn:Eg; cbn [mbind option_bind]; [|done].
  destruct (g !! j) as [f|] eqn:Ef; cbn; [|done]. rewrite Forall_forall in H.
  destruct (H g (list_elem_of_lookup_2 _ _ _ Eg)) as [_ Hg]. rewrite Forall_forall in Hg.
  by apply number_nonneg, (Hg f (list_elem_of_lookup_2 _ _ _ Ef)).
Qed.

Lemma hasCtrl_held gs : report_ok gs → hasCtrl (field gs 1 0) = ctrl_held gs.
Proof.
  intros Hok. pose proof (field_nonneg gs 1 0 Hok) as H0. unfold hasCtrl, modBits, ctrl_held.
  generalize dependent (field gs 1 0). intros m Hm. destruct (Z.eqb_spec m 0) as [->|Hne]; [done|].
  rewrite (proj2 (Z.ltb_lt 0 m)) by lia. cbn [andb].
  assert (Z.land (m - 1) 4 = if Z.testbit (m - 1) 2 then 4 else 0) as ->; [|by destruct (Z.testbit _ _)].
  apply Z.bits_inj'. intros k Hk. rewrite Z.land_spec. change 4 with (2 ^ 2). rewrite Z.pow2_bits_eqb by lia.
  destruct (Z.eqb_spec 2 k) as [<-|Hk2].
  - rewrite andb_true_r. destruct (Z.testbit (m - 1) 2); [by rewrite Z.pow2_bits_true|by rewrite Z.bits_0].
  - rewrite andb_false_r. destruct (Z.testbit (m - 1) 2); [by rewrite Z.pow2_bits_false|by rewrite Z.bits_0].
Qed.

Lemma pressed_press gs : pressed gs → isCSIuPress (report_key gs) = true ∧ isCSIuRepeatOrRelease (report_key gs) = false.
Proof. unfold isCSIuPress, isCSIuRepeatOrRelease. cbn. by intros [-> | ->]. Qed.

(** The encodings of the prefix key and of the dot: the legacy byte, or the
    report that a key that gives it was pressed. *)
Inductive prefix_press (prefix : byte) : list byte → Prop :=
| prefix_byte : prefix ≠ ESC → prefix_press prefix [prefix]
| prefix_kitty gs :
    report_ok gs → pressed gs → key_of gs (prefixCodepoints prefix) → ctrl_held gs = true → prefix_press prefix (report gs).

Inductive dot_press : list byte → Prop :=
| dot_byte : dot_press [chr "."]
| dot_kitty gs : report_ok gs → pressed gs → key_of gs [46] → ctrl_held gs = false → dot_press (report gs).

(** A key held or let go. *)
Inductive key_up : list byte → Prop :=
| up_kitty gs : report_ok gs → held_or_released gs → key_up (report gs).

Lemma prefix_press_read prefix p rest :
  prefix_press prefix p → ∃ ev, readKeyEvent (p ++ rest) = Some (ev, rest) ∧ isPrefixKey prefix ev = true.
Proof.
  intros [Hne|gs Hok Hp Hk Hc].
  - eexists. split; [by apply readKeyEvent_byte|]. unfold isPrefixKey. simpl. by apply bool_decide_eq_true.
  - eexists. split; [by apply readKeyEvent_report|]. unfold isPrefixKey. rewrite (proj1 (pressed_press gs Hp)). cbn.
    rewrite hasCtrl_held, Hc by done. cbn. apply orb_true_iff. destruct Hk as [Hk|[Hn Hk]]; [left|right].
    + by apply bool_decide_eq_true.
    + rewrite (proj2 (Z.eqb_neq _ _) Hn). by apply bool_decide_eq_true.
Qed.

Lemma dot_press_read d rest :
  dot_press d →
  ∃ ev, readKeyEvent (d ++ rest) = Some (ev, rest) ∧ isCSIuRepeatOrRelease ev = false ∧ matchChord ev = chordDetach.
Proof.
  intros [|gs Hok Hp Hk Hc].
  - eexists. split; [by apply readKeyEvent_byte|]. done.
  - eexists. split; [by apply readKeyEvent_report|]. destruct (pressed_press gs Hp) as [H1 H2]. split; [done|].
    unfold matchChord. rewrite H1. cbn [negb report_key csiU mod_]. rewrite hasCtrl_held, Hc by done.
    assert (any_cp (report_key gs) [46] = true) as ->; [|done]. unfold any_cp. cbn. rewrite orb_false_r.
    destruct Hk as [H%list_elem_of_singleton|[Hn H%list_elem_of_singleton]]; rewrite H; [done|by rewrite orb_true_r].
Qed.

(** Releases and repeats do not use up the prefix. *)
Lemma chord_loop_ups fuel prefix clones us inp :
  Forall key_up us → (length (concat us ++ inp) < fuel)%nat →
  chord_loop fuel prefix stateAfterPref clones (concat us ++ inp) =
    chord_loop (S (length inp)) prefix stateAfterPref clones inp.
Proof.
  intros H. revert fuel. induction H as [|u us Hu _ IH]; intros fuel Hl; cbn [concat app] in *.
  { apply chord_loop_fuel; lia. }
  rewrite <- app_assoc in *. destruct fuel as [|fuel]; [lia|]. cbn [chord_loop]. destruct Hu as [gs Hok Hr].
  rewrite readKeyEvent_report by done.
  assert (isCSIuRepeatOrRelease (report_key gs) = true) as -> by (unfold isCSIuRepeatOrRelease; cbn; by destruct Hr as [-> | ->]).
  apply IH. rewrite length_app in Hl. unfold report in Hl. cbn [length app] in Hl. lia.
Qed.


Definition report_okb (gs : list (list (list byte))) : bool :=
  bool_decide (gs ≠ []) &&
  forallb (λ g, bool_decide (g ≠ []) && forallb (λ f, forallb (λ c, (48 <=? c) && (c <=? 57)) f && (number f <? 2 ^ 64)) g) gs.

Lemma report_okb_ok gs : report_okb gs = true → report_ok gs.
Proof.
  intros [Hne H]%andb_true_iff. split; [by apply bool_decide_eq_true in Hne|]. rewrite forallb_forall in H.
  apply Forall_forall. intros g Hg%list_elem_of_In%H. apply andb_true_iff in Hg as [Hg Hf]. split; [by apply bool_decide_eq_true in Hg|].
  rewrite forallb_forall in Hf. apply Forall_forall. intros f Hi%list_elem_of_In%Hf. apply andb_true_iff in Hi as [Hi Hn].
  split; [|by apply Z.ltb_lt]. rewrite forallb_forall in Hi. apply Forall_forall. intros c Hc%list_elem_of_In%Hi. lia.
Qed.


(** The reports of the source and its tests. *)
Example report_dot : report [[B"46"]] = ESC :: B"[46u" := eq_refl.
Example report_prefix : report [[B"54"; B"94"]; [B"6"; B"1"]] = ESC :: B"[54:94;6:1u" := eq_refl.

(** The FSM reads the byte after an ESC before it does anything with it.  So
    a lone ESC key reaches the session only together with the next key, and when
    that key is the prefix the two are forwarded as one: after ESC, prefix and
    dot do not detach. *)
Theorem esc_hides_prefix prefix clones a rest :
  Forall (plain prefix) a → prefix ≠ chr "[" →
  runChordFSM prefix clones (a ++ ESC :: prefix :: rest) =
    ((λ b, ForwardBytes [b]) <$> a) ++ ForwardBytes [ESC; prefix] ::
      runChordFSM prefix clones rest.
Proof.
  intros Ha Hne. rewrite run_plain by done. f_equal.
  apply (run_cons _ _ _ (raw_key [ESC; prefix])); [|by apply bool_decide_eq_false].
  cbn [readKeyEvent]. change (negb (ESC =? ESC)) with false. cbv iota.
  by rewrite (proj2 (Z.eqb_neq prefix (chr "["))).
Qed.

Lemma esc_hides_prefix_witness :
  runChordFSM 30 [] (B"i" ++ ESC :: 30 :: B".") =
    ((λ b, ForwardBytes [b]) <$> B"i") ++ ForwardBytes [ESC; 30] :: runChordFSM 30 [] B".".
Proof.
  apply esc_hides_prefix; [|vm_compute; discriminate].
  repeat constructor; vm_compute; discriminate.
Defined.
