(* ===== verification/Restorer.v ===== *)
(** * [cmd/hoot/attach_restorer.go]: giving the local terminal back

    [hootRestorer] watches the remote output for the keyboard state the inner
    program sets up in the user's terminal, and on detach undoes it; the
    [dtachRestorer] is the plain alternative.  The control sequences are the
    constants of the source. *)
From S2P Require Import Prelude GoBase QueryStripper.
Open Scope Z_scope.

Definition seqKittyKbdPop : list byte := [ESC] ++ B"[<u".
Definition seqKittyKbdPushEmpty : list byte := [ESC] ++ B"[>u".
Definition seqModifyOtherKeysOff : list byte := [ESC] ++ B"[>4;0m".
Definition seqOSCProgressClear : list byte := [ESC] ++ B"]9;4;0;" ++ [7].
Definition seqMouseX10Off : list byte := [ESC] ++ B"[?9l".
Definition seqMouseNormalOff : list byte := [ESC] ++ B"[?1000l".
Definition seqMouseButtonOff : list byte := [ESC] ++ B"[?1002l".
Definition seqMouseAnyOff : list byte := [ESC] ++ B"[?1003l".
Definition seqMouseFmtUTF8Off : list byte := [ESC] ++ B"[?1005l".
Definition seqMouseFmtSGROff : list byte := [ESC] ++ B"[?1006l".
Definition seqMouseFmtUrxvtOff : list byte := [ESC] ++ B"[?1015l".
Definition seqMouseFmtSGRPixelsOff : list byte := [ESC] ++ B"[?1016l".
Definition seqAppCursorKeysOff : list byte := [ESC] ++ B"[?1l".
Definition seqAppKeypadDECOff : list byte := [ESC] ++ B"[?66l".
Definition seqAppKeypadESCOff : list byte := [ESC] ++ B">".
Definition seqBackarrowOff : list byte := [ESC] ++ B"[?67l".
Definition seqFocusEventsOff : list byte := [ESC] ++ B"[?1004l".
Definition seqBracketedPasteOff : list byte := [ESC] ++ B"[?2004l".
Definition seqAltSendsEscapeOff : list byte := [ESC] ++ B"[?1039l".
Definition seqDisableKeyboardOff : list byte := [ESC] ++ B"[2l".
Definition seqInsertModeOff : list byte := [ESC] ++ B"[4l".
Definition seqLinefeedModeOff : list byte := [ESC] ++ B"[20l".
Definition seqReverseColorsOff : list byte := [ESC] ++ B"[?5l".
Definition seqOriginModeOff : list byte := [ESC] ++ B"[?6l".
Definition seqWraparoundOn : list byte := [ESC] ++ B"[?7h".
Definition seqSlowScrollOff : list byte := [ESC] ++ B"[?4l".
Definition seqReverseWrapOff : list byte := [ESC] ++ B"[?45l".
Definition seqReverseWrapExtOff : list byte := [ESC] ++ B"[?1045l".
Definition seq132ColumnOff : list byte := [ESC] ++ B"[?3l".
Definition seqSyncOutputOff : list byte := [ESC] ++ B"[?2026l".
Definition seqGraphemeClusterOff : list byte := [ESC] ++ B"[?2027l".
Definition seqReportColorSchemeOff : list byte := [ESC] ++ B"[?2031l".
Definition seqInBandSizeReportsOff : list byte := [ESC] ++ B"[?2048l".
Definition seqLeftRightMarginOff : list byte := [ESC] ++ B"[?69l".
Definition seqScrollRegionReset : list byte := [ESC] ++ B"[r".
Definition seqCursorShapeDefault : list byte := [ESC] ++ B"[0 q".
Definition seqCharsetG0Ascii : list byte := [15] ++ [ESC] ++ B"(B".
Definition seqAltScreen47Off : list byte := [ESC] ++ B"[?47l".
Definition seqAltScreen1047Off : list byte := [ESC] ++ B"[?1047l".
Definition seqAltScreen1049Off : list byte := [ESC] ++ B"[?1049l".
Definition seqSGRReset : list byte := [ESC] ++ B"[0m".
Definition seqCursorShow : list byte := [ESC] ++ B"[?25h".
Definition seqClearScreen : list byte := [ESC] ++ B"[H" ++ [ESC] ++ B"[2J".

Definition hootCleanupSequence : list (list byte) := [
  seqOSCProgressClear; seqMouseX10Off; seqMouseNormalOff; seqMouseButtonOff; 
  seqMouseAnyOff; seqMouseFmtUTF8Off; seqMouseFmtSGROff; seqMouseFmtUrxvtOff; 
  seqMouseFmtSGRPixelsOff; seqAppCursorKeysOff; seqAppKeypadDECOff; seqAppKeypadESCOff; 
  seqBackarrowOff; seqFocusEventsOff; seqBracketedPasteOff; seqAltSendsEscapeOff; 
  seqDisableKeyboardOff; seqInsertModeOff; seqLinefeedModeOff; seqReverseColorsOff; 
  seqOriginModeOff; seqWraparoundOn; seqSlowScrollOff; seqReverseWrapOff; 
  seqReverseWrapExtOff; seq132ColumnOff; seqSyncOutputOff; seqGraphemeClusterOff; 
  seqReportColorSchemeOff; seqInBandSizeReportsOff; seqLeftRightMarginOff; 
  seqScrollRegionReset; seqCursorShapeDefault; seqCharsetG0Ascii; seqAltScreen47Off; 
  seqAltScreen1047Off; seqAltScreen1049Off; seqSGRReset; seqCursorShow; seqClearScreen
].

(** [strconv.Atoi]: a sign, digits, and a value that fits an [int] (64 bits). *)
Fixpoint atoi_digits (s : list byte) (acc : Z) : option Z :=
  match s with
  | [] => Some acc
  | c :: s' => if is_digit c then atoi_digits s' (acc * 10 + (c - 48)) else None
  end.

Definition Atoi (s : list byte) : option Z :=
  let '(neg, ds) := match s with
                    | c :: s' => if c =? chr "-" then (true, s')
                                 else if c =? chr "+" then (false, s') else (false, s)
                    | [] => (false, [])
                    end in
  match ds with
  | [] => None
  | _ =>
      match atoi_digits ds 0 with
      | None => None
      | Some v =>
          let v := if neg then - v else v in
          if (- 2 ^ 63 <=? v) && (v <? 2 ^ 63) then Some v else None
      end
  end.

Definition parseCSIParamDefault (params : list byte) (def : Z) : Z :=
  match params with
  | [] => def
  | _ => match Atoi params with None => def | Some n => if n <=? 0 then def else n end
  end.

(** [fmt.Sprintf] of a positive number in decimal. *)
Fixpoint dec_loop (fuel : nat) (n : Z) (acc : list byte) : list byte :=
  match fuel with
  | O => acc
  | S fuel' =>
      let acc := (48 + n mod 10) :: acc in
      if n / 10 =? 0 then acc else dec_loop fuel' (n / 10) acc
  end.

(** Twenty digits are enough for 64 bits. *)
Definition decimal (n : Z) : list byte := dec_loop 20 n [].

Record hootRestorer := mkRestorer {
  kittyPops : Z;            (** an [int32] *)
  modifyOtherKeys : bool;
  csiBuf : list byte
}.

Definition new_hootRestorer : hootRestorer := mkRestorer 0 false [].

Definition set_pops (n : Z) (r : hootRestorer) : hootRestorer :=
  mkRestorer n (modifyOtherKeys r) (csiBuf r).
Definition set_mok (b : bool) (r : hootRestorer) : hootRestorer :=
  mkRestorer (kittyPops r) b (csiBuf r).
Definition set_csiBuf (b : list byte) (r : hootRestorer) : hootRestorer :=
  mkRestorer (kittyPops r) (modifyOtherKeys r) b.

Definition hoot_Attach (r : hootRestorer) (w : writer) : res io_error unit * hootRestorer * writer :=
  match Write seqKittyKbdPushEmpty w with
  | (Err e, w') => (Err e, r, w')
  | (Ok _, w') => (Ok tt, set_pops (i32 (kittyPops r + 1)) r, w')
  end.

(** The compare-and-swap loop of [removeKittyKbdPop]: [Observe] is its only
    caller, on one goroutine, so the swap succeeds. *)
Definition removeKittyKbdPop (n : Z) (r : hootRestorer) : hootRestorer :=
  if n <=? 0 then r
  else
    let next := i32 (kittyPops r - i32 n) in
    set_pops (if next <? 0 then 0 else next) r.

Definition observeModifyOtherKeys (params : list byte) (r : hootRestorer) : hootRestorer :=
  match params with
  | [] => set_mok false r
  | _ =>
      match split_on (chr ";") params with
      | p0 :: rest =>
          if negb (bool_decide (p0 = B"4")) then r
          else set_mok (match rest with p1 :: _ => bool_decide (p1 = B"2") | [] => false end) r
      | [] => r
      end
  end.

Definition observeCSI (seq : list byte) (r : hootRestorer) : hootRestorer :=
  match seq with
  | private :: ((_ :: _) as rest) =>
      let final := List.last rest 0 in
      let params := removelast rest in
      if (private =? chr ">") && (final =? chr "u") then set_pops (i32 (kittyPops r + 1)) r
      else if (private =? chr "<") && (final =? chr "u")
      then removeKittyKbdPop (parseCSIParamDefault params 1) r
      else if (private =? chr ">") && (final =? chr "m") then observeModifyOtherKeys params r
      else r
  | _ => r
  end.

(** One byte of [Observe]. *)
Definition observe_byte (r : hootRestorer) (b : byte) : hootRestorer :=
  match csiBuf r with
  | [] => if b =? ESC then set_csiBuf [b] r else r
  | [e] =>
      if b =? chr "[" then set_csiBuf [e; b] r
      else if b =? ESC then set_csiBuf [e] r
      else set_csiBuf [] r
  | buf =>
      let buf := buf ++ [b] in
      if (32 <? length buf)%nat then set_csiBuf [] r
      else if (64 <=? b) && (b <=? 126) then set_csiBuf [] (observeCSI (drop 2 buf) r)
      else set_csiBuf buf r
  end.

Definition Observe (payload : list byte) (r : hootRestorer) : hootRestorer :=
  foldl observe_byte r payload.

Fixpoint write_all (ss : list (list byte)) : st writer io_error unit :=
  match ss with
  | [] => mret tt
  | s :: ss' => _ ← Write s; write_all ss'
  end.

Definition hoot_Cleanup (r : hootRestorer) : st writer io_error unit :=
  _ ← (if 0 <? kittyPops r
       then Write (if kittyPops r =? 1 then seqKittyKbdPop
                   else [ESC] ++ B"[<" ++ decimal (kittyPops r) ++ B"u")
       else mret tt);
  _ ← (if modifyOtherKeys r then Write seqModifyOtherKeysOff else mret tt);
  write_all hootCleanupSequence.

(** ** The interface both restorers implement *)

Inductive TerminalRestorer := RDtach | RHoot (r : hootRestorer).

Definition newRestorer (name : list byte) : option TerminalRestorer :=
  if bool_decide (name = B"dtach") then Some RDtach
  else if bool_decide (name = []) || bool_decide (name = B"hoot")
  then Some (RHoot new_hootRestorer)
  else None.

Definition Attach (t : TerminalRestorer) (w : writer) : res io_error unit * TerminalRestorer * writer :=
  match t with
  | RDtach => let '(x, w') := Write seqClearScreen w in (x, RDtach, w')
  | RHoot r => let '(x, r', w') := hoot_Attach r w in (x, RHoot r', w')
  end.

Definition ObserveR (payload : list byte) (t : TerminalRestorer) : TerminalRestorer :=
  match t with RDtach => RDtach | RHoot r => RHoot (Observe payload r) end.

Definition Cleanup (t : TerminalRestorer) : st writer io_error unit :=
  match t with RDtach => Write seqCursorShow | RHoot r => hoot_Cleanup r end.

(** ** What the inner program does to the keyboard *)

Inductive key_tok :=
| KText (b : byte)
| KEsc (b : byte)                               (** [ESC b] *)
| KPush (flags : list byte)                     (** [CSI > flags u] *)
| KPop (n : list byte)                          (** [CSI < n u] *)
| KMod (res : list byte) (vals : list (list byte))  (** [CSI > res ; v ; ... m] *)
| KModReset                                     (** [CSI > m]: every resource *)
| KOther (params : list byte) (final : byte).   (** any other CSI *)

Definition csi (body : list byte) : list byte := ESC :: chr "[" :: body.

Definition mod_params (res : list byte) (vals : list (list byte)) : list byte := res ++ (vals ≫= λ v, chr ";" :: v).

Definition ktok_bytes (t : key_tok) : list byte :=
  match t with
  | KText b => [b]
  | KEsc b => [ESC; b]
  | KPush flags => csi (chr ">" :: flags ++ [chr "u"])
  | KPop n => csi (chr "<" :: n ++ [chr "u"])
  | KMod res vals => csi (chr ">" :: mod_params res vals ++ [chr "m"])
  | KModReset => csi B">m"
  | KOther params final => csi (params ++ [final])
  end.

Definition is_csi_final (b : byte) : bool := (64 <=? b) && (b <=? 126).

Definition param_bytes (ps : list byte) : Prop := Forall (λ b, is_csi_final b = false) ps.

(** A pop count: absent, or a positive 31-bit decimal. *)
Definition pop_count (n : list byte) : option Z :=
  match n with [] => Some 1 | _ => Atoi n end.

Definition no_semicolon (v : list byte) : Prop := Forall (λ b, b ≠ chr ";") v.

(** A sequence fits the buffer of [Observe]: 32 bytes with its [ESC \[]. *)
Definition ktok_ok (t : key_tok) : Prop :=
  match t with
  | KText b => b ≠ ESC
  | KEsc b => b ≠ chr "[" ∧ b ≠ ESC
  | KPush flags => param_bytes flags ∧ (length flags <= 28)%nat
  | KPop n => param_bytes n ∧ (length n <= 28)%nat ∧
      ∃ v, pop_count n = Some v ∧ 0 < v < 2 ^ 31
  | KMod res vals =>
      param_bytes (mod_params res vals) ∧ (length (mod_params res vals) <= 28)%nat ∧ mod_params res vals ≠ [] ∧
      no_semicolon res ∧ Forall no_semicolon vals
  | KModReset => True
  | KOther params final =>
      param_bytes params ∧ is_csi_final final = true ∧ (length params <= 29)%nat ∧
      (hd 0 params = chr ">" → final ≠ chr "u" ∧ final ≠ chr "m") ∧ (hd 0 params = chr "<" → final ≠ chr "u")
  end.

(** The depth of the terminal's keyboard-mode stack, with the frame [Attach]
    pushed, and the level of modifyOtherKeys (resource 4) as it was last set; the
    empty one after a reset. *)
Definition keyboard (s : Z * list byte) (t : key_tok) : Z * list byte :=
  let '(depth, level) := s in
  match t with
  | KPush _ => (depth + 1, level)
  | KPop n => (Z.max 0 (depth - default 1 (pop_count n)), level)
  | KMod res vals => (depth, if bool_decide (res = B"4") then hd [] vals else level)
  | KModReset => (depth, [])
  | _ => s
  end.

(** The level that [Cleanup] undoes. *)
Definition level2 (level : list byte) : bool := bool_decide (level = B"2").

Lemma split_mod_params res vals :
  no_semicolon res → Forall no_semicolon vals → split_on (chr ";") (mod_params res vals) = res :: vals.
Proof.
  intros Hr Hv. revert res Hr. induction Hv as [|v vals Hv _ IH]; intros res Hr; unfold mod_params.
  - cbn. rewrite app_nil_r. by apply split_on_none.
  - change ((v :: vals) ≫= λ v, chr ";" :: v) with (chr ";" :: v ++ (vals ≫= λ v, chr ";" :: v)).
    rewrite split_on_one by done. f_equal. by apply IH.
Qed.

Lemma observe_mod res vals r :
  no_semicolon res → Forall no_semicolon vals → mod_params res vals ≠ [] →
  observeModifyOtherKeys (mod_params res vals) r =
  if bool_decide (res = B"4") then set_mok (level2 (hd [] vals)) r else r.
Proof.
  intros Hr Hv Hn. pose proof (split_mod_params res vals Hr Hv) as E. unfold observeModifyOtherKeys, level2.
  destruct (mod_params res vals); [done|]. rewrite E. case_bool_decide; [|done]. cbn [negb]. by destruct vals.
Qed.

Lemma Observe_app a b r : Observe (a ++ b) r = Observe b (Observe a r).
Proof. unfold Observe. by rewrite foldl_app. Qed.

Abbreviation rst pops mok := (mkRestorer pops mok []).

Lemma observe_params pops mok e c acc ps :
  param_bytes ps → (length acc + length ps <= 30)%nat →
  Observe ps (mkRestorer pops mok (e :: c :: acc)) = mkRestorer pops mok (e :: c :: acc ++ ps).
Proof.
  intros H. revert acc. induction H as [|b ps Hb _ IH]; intros acc Hl; [by rewrite app_nil_r|].
  cbn [length] in Hl. unfold Observe in *. cbn [foldl].
  assert (observe_byte (mkRestorer pops mok (e :: c :: acc)) b =
    mkRestorer pops mok (e :: c :: acc ++ [b])) as ->.
  { unfold observe_byte. cbn [csiBuf]. cbn [app].
    assert ((32 <? length (e :: c :: acc ++ [b]))%nat = false) as ->
      by (apply Nat.ltb_ge; cbn [length]; rewrite length_app; simpl; lia).
    unfold is_csi_final in Hb. rewrite Hb. by destruct acc. }
  rewrite IH by (rewrite length_app; simpl; lia). by rewrite <- app_assoc.
Qed.

(** A whole CSI sequence, short enough for the buffer. *)
Lemma observe_csi pops mok ps final :
  param_bytes ps → is_csi_final final = true → (length ps <= 29)%nat →
  Observe (csi (ps ++ [final])) (rst pops mok) = set_csiBuf [] (observeCSI (ps ++ [final])
    (mkRestorer pops mok (csi ps))).
Proof.
  intros Hp Hf Hl. unfold csi. change (ESC :: chr "[" :: ps ++ [final])
    with ([ESC; chr "["] ++ ps ++ [final]).
  rewrite !Observe_app. change (Observe [ESC; chr "["] (rst pops mok))
    with (mkRestorer pops mok (ESC :: chr "[" :: [])).
  rewrite observe_params by (simpl; done || lia). cbn [app].
  unfold Observe. cbn [foldl]. unfold observe_byte. cbn [csiBuf app].
  assert ((32 <? length (ESC :: chr "[" :: ps ++ [final]))%nat = false) as ->
    by (apply Nat.ltb_ge; cbn [length]; rewrite length_app; simpl; lia).
  unfold is_csi_final in Hf. rewrite Hf. cbn [skipn]. by destruct ps.
Qed.

Lemma observeCSI_private p ps final r :
  observeCSI (p :: ps ++ [final]) r =
    (if (p =? chr ">") && (final =? chr "u") then set_pops (i32 (kittyPops r + 1)) r
     else if (p =? chr "<") && (final =? chr "u")
     then removeKittyKbdPop (parseCSIParamDefault ps 1) r
     else if (p =? chr ">") && (final =? chr "m") then observeModifyOtherKeys ps r
     else r).
Proof.
  unfold observeCSI. destruct (ps ++ [final]) as [|x l] eqn:E; [by destruct ps|].
  rewrite <- E, List.last_last, removelast_last. done.
Qed.

Lemma parse_pop n v : pop_count n = Some v → 0 < v → parseCSIParamDefault n 1 = v.
Proof.
  unfold pop_count, parseCSIParamDefault. destruct n; [by intros [= <-]|].
  intros -> Hv. destruct (Z.leb_spec v 0); [lia|done].
Qed.

Lemma observe_ktok depth level t :
  ktok_ok t → 0 <= depth < 2 ^ 31 - 1 →
  Observe (ktok_bytes t) (rst depth (level2 level)) =
    rst (keyboard (depth, level) t).1 (level2 (keyboard (depth, level) t).2).
Proof.
  intros Ht Hd. destruct t as [b|b|flags|n|res vals| |params final]; cbn [ktok_bytes keyboard fst snd].
  - unfold Observe. cbn [foldl]. unfold observe_byte. cbn [csiBuf].
    by rewrite (proj2 (Z.eqb_neq b ESC)).
  - destruct Ht as [H1 H2]. unfold Observe. cbn [foldl]. unfold observe_byte at 2. cbn [csiBuf].
    rewrite Z.eqb_refl. unfold observe_byte. cbn [csiBuf set_csiBuf].
    rewrite (proj2 (Z.eqb_neq b (chr "["))), (proj2 (Z.eqb_neq b ESC)) by done. done.
  - destruct Ht as [Hp Hl]. rewrite app_comm_cons, observe_csi;
      [|by constructor|done|simpl; lia].
    rewrite <- app_comm_cons, observeCSI_private. cbn [Z.eqb chr].
    change (chr ">" =? chr ">") with true. change (chr "u" =? chr "u") with true.
    cbn [andb set_pops set_csiBuf kittyPops modifyOtherKeys]. by rewrite i32_small by lia.
  - destruct Ht as (Hp & Hl & v & Hv & Hr). rewrite app_comm_cons, observe_csi;
      [|by constructor|done|simpl; lia].
    rewrite <- app_comm_cons, observeCSI_private.
    change (chr "<" =? chr ">") with false. change (chr "<" =? chr "<") with true.
    change (chr "u" =? chr "u") with true. cbn [andb].
    rewrite (parse_pop n v), Hv by (done || lia). unfold removeKittyKbdPop. cbn [default from_option].
    rewrite (proj2 (Z.leb_gt v 0)) by lia. cbn [kittyPops].
    rewrite (i32_small v), i32_small by lia. unfold set_csiBuf, set_pops. simpl.
    f_equal. destruct (Z.ltb_spec (depth - v) 0); lia.
  - destruct Ht as (Hp & Hl & Hn & Hr & Hv). rewrite app_comm_cons, observe_csi; [|by constructor|done|simpl; lia].
    rewrite <- app_comm_cons, observeCSI_private. change (chr ">" =? chr ">") with true.
    change (chr "m" =? chr "u") with false. change (chr "m" =? chr "m") with true. rewrite !andb_false_r. cbn [andb].
    rewrite observe_mod by done. by case_bool_decide.
  - done.
  - destruct Ht as (Hp & Hf & Hl & H1 & H2). rewrite observe_csi by done.
    destruct params as [|p params]; [done|]. cbn [app hd] in *. rewrite observeCSI_private.
    destruct (Z.eqb_spec p (chr ">")) as [E|_].
    + destruct (H1 E) as [Hu Hm]. rewrite (proj2 (Z.eqb_neq final (chr "u"))), (proj2 (Z.eqb_neq final (chr "m"))) by done.
      by rewrite !andb_false_r.
    + destruct (Z.eqb_spec p (chr "<")) as [E|_]; [|done].
      by rewrite (proj2 (Z.eqb_neq final (chr "u"))) by auto.
Qed.

Lemma keyboard_bound t s :
  ktok_ok t → 0 <= s.1 → 0 <= (keyboard s t).1 <= s.1 + 1.
Proof.
  destruct s as [d m], t; simpl; try lia. intros (_ & _ & v & -> & Hv). simpl. lia.
Qed.

Definition ktoks_bytes (ts : list key_tok) : list byte := concat (ktok_bytes <$> ts).

Lemma observe_ktoks ts s :
  Forall ktok_ok ts → 0 <= s.1 → s.1 + Z.of_nat (length ts) < 2 ^ 31 →
  Observe (ktoks_bytes ts) (rst s.1 (level2 s.2)) =
    rst (foldl keyboard s ts).1 (level2 (foldl keyboard s ts).2) ∧ 0 <= (foldl keyboard s ts).1.
Proof.
  intros H. revert s. induction H as [|t ts Ht _ IH]; intros s Hs Hl; [done|].
  unfold ktoks_bytes in *. rewrite fmap_cons. cbn [concat length foldl] in *.
  rewrite Observe_app. destruct s as [d m]. cbn [fst snd] in *.
  rewrite observe_ktok by (done || lia).
  pose proof (keyboard_bound t (d, m) Ht Hs). cbn [fst] in *. apply IH; lia.
Qed.

(** What undoes a keyboard stack of [depth] frames. *)
Definition pop_frames (depth : Z) : list byte :=
  if depth <=? 0 then []
  else if depth =? 1 then seqKittyKbdPop else [ESC] ++ B"[<" ++ decimal depth ++ B"u".

Lemma write_all_sink ss out : write_all ss (sink out) = (Ok tt, sink (out ++ concat ss)).
Proof.
  revert out. induction ss as [|s ss IH]; intros out; cbn [write_all concat].
  - by rewrite app_nil_r.
  - unfold mbind, st_bind. by rewrite Write_sink, IH, <- app_assoc.
Qed.

(** C33: The user's terminal is given back balanced.  [Attach] pushes one
    keyboard frame; the inner program then sends fewer than 2^31 - 1 pieces of
    text, escapes (no ESC doubled) and CSI sequences in any order and in whatever
    chunks, each whole, each sequence short enough for the parser's 32 bytes and each pop count a positive
    31-bit number (larger ones the code truncates, [removeKittyKbdPop_truncates]).
    [Cleanup] pops exactly the frames that are still on the stack, turns
    modifyOtherKeys off if it was last set to level 2 (a level 1 it leaves on),
    and sends every sequence of the reset catalogue, in order. *)
Theorem restorer_balances ts chunks out :
  Forall ktok_ok ts → Z.of_nat (length ts) < 2 ^ 31 - 1 →
  concat chunks = ktoks_bytes ts →
  ∃ r, hoot_Attach new_hootRestorer (sink out) = (Ok tt, r, sink (out ++ seqKittyKbdPushEmpty)) ∧
    let '(depth, level) := foldl keyboard (1, []) ts in
    hoot_Cleanup (foldl (λ r c, Observe c r) r chunks) (sink out) =
      (Ok tt, sink (out ++ pop_frames depth ++ (if level2 level then seqModifyOtherKeysOff else []) ++
                    concat hootCleanupSequence)).
Proof.
  intros Hok Hl Hc. eexists. split; [done|].
  destruct (observe_ktoks ts (1, []) Hok) as [E H0]; [simpl; lia|simpl; lia|].
  assert (∀ r, foldl (λ r c, Observe c r) r chunks = Observe (concat chunks) r) as ->.
  { clear. induction chunks as [|c cs IH]; intros r; [done|]. cbn [foldl concat].
    by rewrite IH, Observe_app. }
  rewrite Hc. change (set_pops (i32 (kittyPops new_hootRestorer + 1)) new_hootRestorer)
    with (rst (1, @nil byte).1 (level2 (1, []).2)). rewrite E.
  destruct (foldl keyboard (1, []) ts) as [depth level]. cbn [fst snd] in *.
  unfold hoot_Cleanup, pop_frames, mbind, st_bind. cbn [kittyPops modifyOtherKeys].
  destruct (Z.ltb_spec 0 depth) as [Hd|Hd], (Z.leb_spec depth 0); try lia; cbv iota;
    rewrite ?Write_sink; destruct (level2 level); unfold mret, st_ret; cbv beta iota;
    rewrite ?Write_sink; cbv beta iota; rewrite write_all_sink;
    by rewrite ?app_nil_l, <- ?app_assoc.
Qed.

Lemma restorer_balances_witness :
  let ts := [KPush B"1"; KText 65; KPush B"5"; KPop B"2"; KMod B"4" [B"2"]; KOther B"?25" (chr "l"); KOther B">0" (chr "c")] in
  let chunks := [[27]; B"[>1uA" ++ [27]; B"[>5u" ++ [27] ++ B"[<2" ; B"u" ++ [27] ++ B"[>4;2m" ++ [27] ++ B"[?25l" ++ [27] ++ B"[>0c"] in
  ∃ r, hoot_Attach new_hootRestorer (sink []) = (Ok tt, r, sink ([] ++ seqKittyKbdPushEmpty)) ∧
    let '(depth, level) := foldl keyboard (1, []) ts in
    hoot_Cleanup (foldl (λ r c, Observe c r) r chunks) (sink []) =
      (Ok tt, sink ([] ++ pop_frames depth ++ (if level2 level then seqModifyOtherKeysOff else []) ++
                    concat hootCleanupSequence)).
Proof.
  intros ts chunks. apply restorer_balances; [|simpl; lia|reflexivity].
  apply List.Forall_cons; [split; [by repeat constructor|simpl; lia]|].
  apply List.Forall_cons; [discriminate|].
  apply List.Forall_cons; [split; [by repeat constructor|simpl; lia]|].
  apply List.Forall_cons; [split; [by repeat constructor|split; [simpl; lia|]]|].
  { exists 2. split; [reflexivity|lia]. }
  apply List.Forall_cons.
  { split; [by repeat constructor|]. split; [simpl; lia|]. split; [discriminate|]. split; repeat constructor; discriminate. }
  do 2 (apply List.Forall_cons; [split; [by repeat constructor|split; [reflexivity|split; [simpl; lia|split; [|discriminate]]]]; try discriminate; split; discriminate|]).
  apply List.Forall_nil.
Defined.

(** Level 1 of modifyOtherKeys stays on: [CSI > 4 ; 1 m] leaves no trace. *)
Example modify_level1_left :
  (hoot_Cleanup (Observe (ktok_bytes (KMod B"4" [B"1"])) new_hootRestorer) (sink [])).2 = sink (concat hootCleanupSequence).
Proof. vm_compute. reflexivity. Qed.

(** A pop count beyond 31 bits is truncated to an [int32]: [CSI < 4294967295 u]
    raises the count by one instead of emptying it. *)
Lemma removeKittyKbdPop_truncates r :
  0 <= kittyPops r < 2 ^ 31 - 1 →
  kittyPops (removeKittyKbdPop 4294967295 r) = kittyPops r + 1.
Proof.
  intros H. unfold removeKittyKbdPop. change (4294967295 <=? 0) with false. cbv iota.
  change (i32 4294967295) with (-1). rewrite i32_small by lia.
  destruct (Z.ltb_spec (kittyPops r - -1) 0); simpl; lia.
Qed.

(** The parser's buffer is bounded. *)
Lemma observe_bounded payload r :
  (length (csiBuf r) <= 32)%nat → (length (csiBuf (Observe payload r)) <= 32)%nat.
Proof.
  unfold Observe. revert r. induction payload as [|b payload IH]; intros r Hr; [done|].
  cbn [foldl]. apply IH. unfold observe_byte.
  destruct (csiBuf r) as [|e [|c l]] eqn:E; split_ifs; simpl; rewrite ?E; simpl; try lia.
  match goal with H : (32 <? _)%nat = false |- _ => apply Nat.ltb_ge in H; simpl in H; lia end.
Qed.
