(* ===== verification/AttachSet.v ===== *)
(** * [attach.go]: min-wins window size negotiation

    [AttachSet] keeps the size every attached client declared and gives the PTY
    the smallest columns and the smallest rows.  An operation returns the new
    set, the effective size, the size handed to [sizeApplier] (when it changed)
    and the connections whose [sendSize] is called once the lock is released. *)
From S2P Require Import Prelude GoBase Wire.
Open Scope Z_scope.

Abbreviation conn := nat.   (** an [*attachConn] *)
Abbreviation attachWinsize := PTYSize.

Record AttachSet := mkSet {
  set_members : gmap conn attachWinsize;
  set_current : attachWinsize;
  set_nextID : Z
}.

Definition NewAttachSet : AttachSet := mkSet ∅ (mkSize 0 0) 0.

(** The body of the loop of [recomputeLocked] after the first member. *)
Definition shrink (eff ws : attachWinsize) : attachWinsize :=
  let eff := if Cols ws <? Cols eff then mkSize (Cols ws) (Rows eff) else eff in
  if Rows ws <? Rows eff then mkSize (Cols eff) (Rows ws) else eff.

Definition min_loop (l : list attachWinsize) : option attachWinsize :=
  match l with [] => None | ws :: l' => Some (foldl shrink ws l') end.

(** [(eff, changed)] and the set after it. *)
Definition recomputeLocked (a : AttachSet) : attachWinsize * bool * AttachSet :=
  match min_loop (map_to_list (set_members a)).*2 with
  | None => (set_current a, false, a)
  | Some eff =>
      if bool_decide (eff = set_current a) then (eff, false, a)
      else (eff, true, mkSet (set_members a) eff (set_nextID a))
  end.

Record set_result := mkRes {
  res_set : AttachSet;
  res_eff : attachWinsize;
  res_apply : option attachWinsize;    (** [sizeApplier(eff)], under the lock *)
  res_receivers : list conn            (** [m.sendSize(eff)], after it *)
}.

Definition finish_op (receivers : gmap conn attachWinsize → list conn)
    (a : AttachSet) : set_result :=
  let '(eff, changed, a') := recomputeLocked a in
  mkRes a' eff (if changed then Some eff else None)
    (if changed then receivers (set_members a') else []).

Definition all_members (m : gmap conn attachWinsize) : list conn := (map_to_list m).*1.

Definition Add (c : conn) (ws : attachWinsize) (a : AttachSet) : set_result :=
  finish_op (λ m, filter (λ x, x ≠ c) (all_members m))
    (mkSet (<[c := ws]> (set_members a)) (set_current a) (u64 (set_nextID a + 1))).

Definition Update (c : conn) (ws : attachWinsize) (a : AttachSet) : set_result :=
  match set_members a !! c with
  | None => mkRes a (set_current a) None []
  | Some _ =>
      finish_op all_members (mkSet (<[c := ws]> (set_members a)) (set_current a) (set_nextID a))
  end.

Definition Remove (c : conn) (a : AttachSet) : set_result :=
  match set_members a !! c with
  | None => mkRes a (set_current a) None []
  | Some _ =>
      finish_op all_members (mkSet (delete c (set_members a)) (set_current a) (set_nextID a))
  end.

Definition Effective (a : AttachSet) : attachWinsize := set_current a.

(** ** The specification *)

(** [eff] is the componentwise minimum of the declared sizes. *)
Definition is_min (m : gmap conn attachWinsize) (eff : attachWinsize) : Prop :=
  (∀ c ws, m !! c = Some ws → Cols eff <= Cols ws ∧ Rows eff <= Rows ws) ∧
  (∃ c ws, m !! c = Some ws ∧ Cols ws = Cols eff) ∧
  (∃ c ws, m !! c = Some ws ∧ Rows ws = Rows eff).

Definition set_inv (a : AttachSet) : Prop :=
  set_members a = ∅ ∨ is_min (set_members a) (set_current a).

Definition list_min (l : list attachWinsize) (eff : attachWinsize) : Prop :=
  Forall (λ ws, Cols eff <= Cols ws ∧ Rows eff <= Rows ws) l ∧
  Exists (λ ws, Cols ws = Cols eff) l ∧ Exists (λ ws, Rows ws = Rows eff) l.

Lemma shrink_spec eff ws :
  Cols (shrink eff ws) = Z.min (Cols eff) (Cols ws) ∧
  Rows (shrink eff ws) = Z.min (Rows eff) (Rows ws).
Proof.
  unfold shrink. destruct (Z.ltb_spec (Cols ws) (Cols eff)); cbn [Cols Rows];
    destruct (Z.ltb_spec (Rows ws) (Rows eff)); cbn [Cols Rows]; lia.
Qed.

Lemma foldl_shrink l ws : list_min (ws :: l) (foldl shrink ws l).
Proof.
  revert ws. induction l as [|x l IH]; intros ws; cbn [foldl].
  - split; [by repeat constructor|]. split; by constructor.
  - destruct (IH (shrink ws x)) as (F & C & R). destruct (shrink_spec ws x) as [Ec Er].
    apply Forall_cons in F as [[F1 F2] F]. split; [|split].
    + constructor; [lia|]. constructor; [lia|done].
    + apply Exists_cons in C as [C|C]; [|by right; right].
      destruct (Z.min_spec (Cols ws) (Cols x)) as [[_ E]|[_ E]]; [left|right; left]; lia.
    + apply Exists_cons in R as [R|R]; [|by right; right].
      destruct (Z.min_spec (Rows ws) (Rows x)) as [[_ E]|[_ E]]; [left|right; left]; lia.
Qed.

Lemma list_min_map (m : gmap conn attachWinsize) eff : list_min (map_to_list m).*2 eff ↔ is_min m eff.
Proof.
  assert (∀ (P : attachWinsize → Prop), Exists P (map_to_list m).*2 ↔
    ∃ c ws, m !! c = Some ws ∧ P ws) as He.
  { intros P. rewrite Exists_exists. setoid_rewrite list_elem_of_fmap. split.
    - intros (ws & ([c ws'] & -> & Hin) & HP). apply elem_of_map_to_list in Hin. eauto.
    - intros (c & ws & Hin & HP). exists ws. split; [|done]. exists (c, ws).
      split; [done|]. by apply elem_of_map_to_list. }
  unfold list_min, is_min. rewrite !He. rewrite Forall_forall. split.
  - intros (F & H). split; [|done]. intros c ws Hc. apply F. apply list_elem_of_fmap.
    exists (c, ws). split; [done|]. by apply elem_of_map_to_list.
  - intros (F & H). split; [|done]. intros ws Hin.
    apply list_elem_of_fmap in Hin as ([c ws'] & -> & Hin). apply elem_of_map_to_list in Hin.
    by apply (F c).
Qed.

(** The minimum is one value: the order a Go map is ranged over does not matter. *)
Lemma is_min_unique (m : gmap conn attachWinsize) e1 e2 : is_min m e1 → is_min m e2 → e1 = e2.
Proof.
  intros (F1 & (c1 & w1 & H1 & E1) & (d1 & v1 & G1 & K1)) (F2 & (c2 & w2 & H2 & E2) & (d2 & v2 & G2 & K2)).
  pose proof (F1 _ _ H2). pose proof (F2 _ _ H1). pose proof (F1 _ _ G2). pose proof (F2 _ _ G1).
  destruct e1, e2. simpl in *. f_equal; lia.
Qed.

Lemma min_loop_any_order l (m : gmap conn attachWinsize) :
  l ≡ₚ (map_to_list m).*2 → min_loop l = min_loop (map_to_list m).*2.
Proof.
  intros Hp. assert (∀ e, list_min l e ↔ is_min m e) as E.
  { intros e. rewrite <- list_min_map. unfold list_min. by rewrite Hp. }
  destruct l as [|ws l]; [by apply Permutation_nil_l in Hp as ->|].
  destruct ((map_to_list m).*2) as [|ws' l'] eqn:El.
  { symmetry in Hp. by apply Permutation_nil_l in Hp. }
  cbn [min_loop]. f_equal. apply (is_min_unique m).
  - apply E, foldl_shrink.
  - apply list_min_map. rewrite El. apply foldl_shrink.
Qed.

(** What every operation does once the members are changed. *)
Lemma finish_op_spec receivers a :
  let r := finish_op receivers a in
  set_inv (res_set r) ∧ set_members (res_set r) = set_members a ∧
  res_eff r = set_current (res_set r) ∧
  res_apply r = (if bool_decide (set_current (res_set r) = set_current a) then None
                 else Some (set_current (res_set r))) ∧
  res_receivers r = (if bool_decide (set_current (res_set r) = set_current a) then []
                     else receivers (set_members a)) ∧
  (set_members a = ∅ → set_current (res_set r) = set_current a).
Proof.
  cbn zeta. unfold finish_op, recomputeLocked.
  destruct (min_loop (map_to_list (set_members a)).*2) as [eff|] eqn:E.
  - assert (is_min (set_members a) eff) as Hm.
    { apply list_min_map. destruct ((map_to_list (set_members a)).*2) as [|ws l]; [done|].
      injection E as <-. apply foldl_shrink. }
    assert (set_members a ≠ ∅) as Hne.
    { intros Hem. destruct Hm as (_ & (c & ws & Hc & _) & _). by rewrite Hem in Hc. }
    destruct (bool_decide_reflect (eff = set_current a)) as [Ec|Ec]; cbn [res_set res_eff res_apply
      res_receivers set_members set_current].
    + rewrite bool_decide_eq_true_2 by done. subst eff. split; [by right|]. done.
    + rewrite bool_decide_eq_false_2 by done. split; [by right|]. done.
  - assert (set_members a = ∅) as Hem.
    { apply map_to_list_empty_iff. destruct (map_to_list (set_members a)); [done|by simpl in E]. }
    cbn. rewrite bool_decide_eq_true_2 by done. split; [by left|]. done.
Qed.

(** An operation, as the handler calls them. *)
Inductive set_op := SAdd (c : conn) (ws : attachWinsize) | SUpdate (c : conn) (ws : attachWinsize)
                  | SRemove (c : conn).

Definition set_step (op : set_op) (a : AttachSet) : set_result :=
  match op with
  | SAdd c ws => Add c ws a
  | SUpdate c ws => Update c ws a
  | SRemove c => Remove c a
  end.

(** The connections told of a new size: everyone, except the one [Add] adds (it
    gets its first [Size] frame from the handler). *)
Definition told (op : set_op) (m : gmap conn attachWinsize) (c : conn) : Prop :=
  is_Some (m !! c) ∧ match op with SAdd c' _ => c ≠ c' | _ => True end.

Lemma elem_of_members (m : gmap conn attachWinsize) c : c ∈ all_members m ↔ is_Some (m !! c).
Proof.
  unfold all_members. rewrite list_elem_of_fmap. split.
  - intros ([c' ws] & -> & Hin). apply elem_of_map_to_list in Hin. by exists ws.
  - intros [ws Hc]. exists (c, ws). split; [done|]. by apply elem_of_map_to_list.
Qed.

Definition step_receivers (op : set_op) : gmap conn attachWinsize → list conn :=
  match op with SAdd c _ => λ m, filter (λ x, x ≠ c) (all_members m) | _ => all_members end.

Lemma elem_of_receivers op m c : c ∈ step_receivers op m ↔ told op m c.
Proof.
  unfold told. destruct op; cbn [step_receivers];
    rewrite ?list_elem_of_filter, elem_of_members; tauto.
Qed.

(** An operation on an unknown connection does nothing. *)
Lemma set_step_cases op a :
  set_step op a = mkRes a (set_current a) None [] ∨
  ∃ a1, set_step op a = finish_op (step_receivers op) a1 ∧ set_current a1 = set_current a.
Proof.
  destruct op as [c ws|c ws|c]; cbn [set_step].
  - right. by eexists.
  - unfold Update. destruct (set_members a !! c); [right; by eexists|by left].
  - unfold Remove. destruct (set_members a !! c); [right; by eexists|by left].
Qed.

Lemma set_step_inv op a : set_inv a → set_inv (res_set (set_step op a)).
Proof.
  intros H. destruct (set_step_cases op a) as [->|(a1 & -> & _)]; [done|apply finish_op_spec].
Qed.

(** C23: Min-wins.  After any sequence of joins, resizes and departures the
    effective size is the componentwise minimum of the declared sizes, or, with
    nobody left, the last one.  An operation resizes the PTY exactly when the
    effective size changes, and then tells exactly the attached clients (a
    joining one excepted). *)
Theorem attach_set_min_wins ops op a' :
  a' = foldl (λ a op, res_set (set_step op a)) NewAttachSet ops →
  let r := set_step op a' in
  set_inv (res_set r) ∧ res_eff r = set_current (res_set r) ∧
  (set_members (res_set r) = ∅ → set_current (res_set r) = set_current a') ∧
  res_apply r = (if bool_decide (set_current (res_set r) = set_current a') then None
                 else Some (set_current (res_set r))) ∧
  (set_current (res_set r) ≠ set_current a' →
     ∀ c, c ∈ res_receivers r ↔ told op (set_members (res_set r)) c).
Proof.
  intros Ha r. assert (set_inv a') as Hinv.
  { subst a'. assert (set_inv NewAttachSet) as H0 by by left.
    clear r. revert H0. generalize NewAttachSet. induction ops as [|o ops IH]; intros a H0; [done|].
    cbn [foldl]. by apply IH, set_step_inv. }
  split; [by apply set_step_inv|]. subst r.
  destruct (set_step_cases op a') as [->|(a1 & -> & Ec)]; cbn [res_set res_eff res_apply res_receivers].
  { rewrite bool_decide_eq_true_2 by done. done. }
  destruct (finish_op_spec (step_receivers op) a1) as (_ & E1 & E2 & E3 & E4 & E5).
  rewrite Ec in *. split; [done|]. split; [by rewrite E1|]. split; [done|]. intros Hne c.
  by rewrite E4, bool_decide_eq_false_2, E1, elem_of_receivers by done.
Qed.

Lemma attach_set_min_wins_witness :
  let a := foldl (λ a op, res_set (set_step op a)) NewAttachSet
    [SAdd 1 (mkSize 100 40); SAdd 2 (mkSize 80 50)] in
  let r := set_step (SRemove 2) a in
  set_inv (res_set r) ∧ res_eff r = set_current (res_set r) ∧
  (set_members (res_set r) = ∅ → set_current (res_set r) = set_current a) ∧
  res_apply r = (if bool_decide (set_current (res_set r) = set_current a) then None
                 else Some (set_current (res_set r))) ∧
  (set_current (res_set r) ≠ set_current a →
     ∀ c, c ∈ res_receivers r ↔ told (SRemove 2) (set_members (res_set r)) c).
Proof.
  apply (attach_set_min_wins [SAdd 1 (mkSize 100 40); SAdd 2 (mkSize 80 50)] (SRemove 2)).
  reflexivity.
Defined.
