(* ===== verification/ShortId.v ===== *)
(** * [internal/shortid]: short ids

    [Generate] over an oracle for [crypto/rand], [Resolve] over [strings.ToLower]
    as an argument (its Unicode tables are not the program's).  [IdGen] is the
    interface the attachment registry and the session store use. *)
From S2P Require Import Prelude GoBase State.
Open Scope Z_scope.

Definition IDAlphabet : list byte := B"0123456789abcdefghijkmnpqrstuvwxyz".
Definition minQueryLen : nat := 3.
Definition minIDLen : nat := 3.
Definition maxIDLen : nat := 8.
Definition maxRetries : nat := 10.

Inductive gen_error := GenRand (e : io_error) | GenExhausted.

(** [IDAlphabet\[buf\[j\] % byte(alphabetLen)\]] *)
Definition id_char (b : byte) : byte :=
  nth (Z.to_nat (b mod Z.of_nat (length IDAlphabet))) IDAlphabet 0.

Section generate.
(** [rand_Read k n]: the [k]-th call of [rand.Read], for [n] bytes. *)
Context (rand_Read : nat → nat → res io_error (list byte)).

Inductive draw := Found (id : gostring) | Taken | DrawErr (e : io_error).

Definition draw_id (existing : gset gostring) (k len : nat) : draw :=
  match rand_Read k len with
  | Err e => DrawErr e
  | Ok buf =>
      let s := id_char <$> take len buf in
      if bool_decide (s ∈ existing) then Taken else Found s
  end.

(** The inner loop: [n] retries at one length, from call [k] on. *)
Fixpoint gen_retry (existing : gset gostring) (n k len : nat) : draw :=
  match n with
  | O => Taken
  | S n' =>
      match draw_id existing k len with
      | Taken => gen_retry existing n' (S k) len
      | d => d
      end
  end.

(** The outer loop, [n] more lengths starting at [len]. *)
Fixpoint gen_lengths (existing : gset gostring) (n k len : nat) : res gen_error gostring :=
  match n with
  | O => Err GenExhausted
  | S n' =>
      match gen_retry existing maxRetries k len with
      | Found s => Ok s
      | DrawErr e => Err (GenRand e)
      | Taken => gen_lengths existing n' (k + maxRetries) (S len)
      end
  end.

Definition Generate (existing : gset gostring) : res gen_error gostring :=
  gen_lengths existing (S (maxIDLen - minIDLen)) 0 minIDLen.

(** [rand.Read] fills its buffer. *)
Hypothesis rand_fills : ∀ k n bs, rand_Read k n = Ok bs → length bs = n ∧ bytes_ok bs.

Definition id_ok (s : gostring) : Prop :=
  (minIDLen <= length s <= maxIDLen)%nat ∧ Forall (λ c, c ∈ IDAlphabet) s.

Lemma id_char_in b : 0 <= b → id_char b ∈ IDAlphabet.
Proof.
  intros Hb. unfold id_char. apply list_elem_of_In, nth_In.
  assert (0 < Z.of_nat (length IDAlphabet)) by done. lia.
Qed.

Lemma draw_id_found existing k len s :
  draw_id existing k len = Found s →
  (s ∉ existing) ∧ length s = len ∧ Forall (λ c, c ∈ IDAlphabet) s.
Proof.
  unfold draw_id. destruct (rand_Read k len) as [bs|e] eqn:E; [|done].
  apply rand_fills in E as [El Eb]. case_bool_decide as Hin; [done|]. intros [= <-].
  split; [done|]. rewrite length_fmap, take_ge by lia. split; [done|].
  apply Forall_fmap. eapply Forall_impl; [exact Eb|]. intros b [Hb _]. by apply id_char_in.
Qed.

Lemma gen_retry_found existing n k len s :
  gen_retry existing n k len = Found s →
  (s ∉ existing) ∧ length s = len ∧ Forall (λ c, c ∈ IDAlphabet) s.
Proof.
  revert k. induction n as [|n IH]; intros k; cbn [gen_retry]; [done|].
  destruct (draw_id existing k len) eqn:E; [|apply IH|done].
  intros [= <-]. by apply (draw_id_found existing k len).
Qed.

Lemma gen_retry_taken existing n k len :
  gen_retry existing n k len = Taken →
  ∀ j, (j < n)%nat → draw_id existing (k + j) len = Taken.
Proof.
  revert k. induction n as [|n IH]; intros k; cbn [gen_retry]; [lia|].
  destruct (draw_id existing k len) eqn:E; [done| |done]. intros H j Hj.
  destruct j as [|j]; [by rewrite Nat.add_0_r|].
  rewrite <- Nat.add_succ_comm. apply IH; [done|lia].
Qed.

Lemma gen_lengths_ok existing n k len s :
  gen_lengths existing n k len = Ok s →
  (s ∉ existing) ∧ (len <= length s < len + n)%nat ∧ Forall (λ c, c ∈ IDAlphabet) s.
Proof.
  revert k len. induction n as [|n IH]; intros k len; cbn [gen_lengths]; [done|].
  destruct (gen_retry existing maxRetries k len) eqn:E; [|intros H%IH|done].
  - intros [= <-]. apply gen_retry_found in E as (H1 & <- & H3).
    split; [done|]. split; [lia|done].
  - destruct H as (H1 & H2 & H3). split; [done|]. split; [lia|done].
Qed.

Lemma gen_lengths_exhausted existing n k len :
  gen_lengths existing n k len = Err GenExhausted →
  ∀ i j, (i < n)%nat → (j < maxRetries)%nat →
    draw_id existing (k + maxRetries * i + j) (len + i) = Taken.
Proof.
  revert k len. induction n as [|n IH]; intros k len; cbn [gen_lengths]; [lia|].
  destruct (gen_retry existing maxRetries k len) eqn:E; [done| |done]. intros H i j Hi Hj.
  destruct i as [|i].
  - rewrite Nat.mul_0_r, !Nat.add_0_r. by apply (gen_retry_taken _ _ _ _ E).
  - replace (k + maxRetries * S i + j)%nat with (k + maxRetries + maxRetries * i + j)%nat by lia.
    replace (len + S i)%nat with (S len + i)%nat by lia. apply IH; [done|lia|done].
Qed.

(** A generated id is new, three to eight characters long and over the id
    alphabet; [Generate] gives up only after ten draws at each of the six
    lengths have all hit existing ids. *)
Theorem Generate_spec existing :
  match Generate existing with
  | Ok s => (s ∉ existing) ∧ id_ok s
  | Err GenExhausted =>
      ∀ i j, (i < 6)%nat → (j < 10)%nat → draw_id existing (10 * i + j) (3 + i) = Taken
  | Err (GenRand _) => True
  end.
Proof.
  destruct (Generate existing) as [s|[e|]] eqn:E; [|done|].
  - apply gen_lengths_ok in E as (H1 & H2 & H3). split; [done|]. split; [|done].
    unfold minIDLen, maxIDLen in *. lia.
  - intros i j Hi Hj. by apply (gen_lengths_exhausted _ _ _ _ E i j).
Qed.
End generate.

(** A generator for examples: call [k] fills the buffer with [k]. *)
Definition count_rand (k n : nat) : res io_error (list byte) :=
  Ok (replicate n (Z.of_nat k mod 256)).

Lemma Generate_spec_witness :
  let existing : gset gostring := {[B"000"]} in
  match Generate count_rand existing with
  | Ok s => (s ∉ existing) ∧ id_ok s
  | Err GenExhausted =>
      ∀ i j, (i < 6)%nat → (j < 10)%nat → draw_id count_rand existing (10 * i + j) (3 + i) = Taken
  | Err (GenRand _) => True
  end.
Proof.
  apply Generate_spec. intros k n bs [= <-]. rewrite length_replicate. split; [done|].
  apply Forall_replicate. unfold is_byte. lia.
Defined.

(** ** Resolution *)

Inductive resolve_error :=
| IDTooShort (query : gostring)
| AmbiguousID (query : gostring) (matches : list gostring)
| IDNotFound (query : gostring).

(** [strings.HasPrefix] *)
Fixpoint HasPrefix (s prefix : gostring) {struct prefix} : bool :=
  match prefix, s with
  | [], _ => true
  | _, [] => false
  | p :: prefix', c :: s' => (c =? p) && HasPrefix s' prefix'
  end.

Section resolve.
Context (ToLower : gostring → gostring).

(** The candidate loop; [matches] are the prefix matches so far. *)
Fixpoint resolve_loop (q : gostring) (candidates matches : list gostring)
  : gostring + list gostring :=
  match candidates with
  | [] => inr matches
  | c :: cs =>
      if bool_decide (ToLower c = q) then inl c
      else if HasPrefix (ToLower c) q then resolve_loop q cs (matches ++ [c])
      else resolve_loop q cs matches
  end.

Definition Resolve (query : gostring) (candidates : list gostring) : res resolve_error gostring :=
  if (length query <? minQueryLen)%nat then Err (IDTooShort query)
  else match resolve_loop (ToLower query) candidates [] with
       | inl c => Ok c
       | inr [m] => Ok m
       | inr [] => Err (IDNotFound query)
       | inr matches => Err (AmbiguousID query matches)
       end.

Lemma HasPrefix_spec s p : HasPrefix s p = true ↔ p `prefix_of` s.
Proof.
  revert s. induction p as [|x p IH]; intros s; [split; [by exists s|done]|].
  destruct s as [|c s]; simpl.
  - split; [done|]. intros [k Hk]. done.
  - rewrite andb_true_iff, Z.eqb_eq, IH. split.
    + intros [-> [k ->]]. by exists k.
    + intros [k Hk]. injection Hk as -> ->. split; [done|]. by exists k.
Qed.

Definition matches_of (q : gostring) (candidates : list gostring) : list gostring :=
  List.filter (λ c, HasPrefix (ToLower c) q) candidates.

Lemma resolve_loop_spec q cands ms :
  match resolve_loop q cands ms with
  | inl c => ∃ l r, cands = l ++ c :: r ∧ ToLower c = q ∧ Forall (λ x, ToLower x ≠ q) l
  | inr ms' => ms' = ms ++ matches_of q cands ∧ Forall (λ x, ToLower x ≠ q) cands
  end.
Proof.
  revert ms. induction cands as [|c cands IH]; intros ms; cbn [resolve_loop matches_of List.filter].
  { split; [by rewrite app_nil_r|constructor]. }
  case_bool_decide as Hc; [by exists [], cands|].
  destruct (HasPrefix (ToLower c) q).
  - specialize (IH (ms ++ [c])). destruct (resolve_loop q cands (ms ++ [c])) as [x|ms'].
    + destruct IH as (l & r & -> & H1 & H2). exists (c :: l), r. split; [done|]. by split; [|constructor].
    + destruct IH as [-> H]. rewrite <- app_assoc. split; [done|by constructor].
  - specialize (IH ms). destruct (resolve_loop q cands ms) as [x|ms'].
    + destruct IH as (l & r & -> & H1 & H2). exists (c :: l), r. split; [done|]. by split; [|constructor].
    + destruct IH as [-> H]. split; [done|by constructor].
Qed.

(** [Resolve] is exact.  A result is the first candidate equal to the query,
    ignoring case, or else the only candidate it is a prefix of; an ambiguous
    query reports all candidates it is a prefix of, at least two; a query is not
    found only when it is a prefix of none; fewer than three bytes are refused. *)
Theorem Resolve_spec query candidates :
  let q := ToLower query in
  match Resolve query candidates with
  | Ok c => (minQueryLen <= length query)%nat ∧
      ((∃ l r, candidates = l ++ c :: r ∧ ToLower c = q ∧ Forall (λ x, ToLower x ≠ q) l) ∨
       (matches_of q candidates = [c] ∧ Forall (λ x, ToLower x ≠ q) candidates))
  | Err (IDTooShort q') => q' = query ∧ (length query < minQueryLen)%nat
  | Err (AmbiguousID q' ms) => q' = query ∧ ms = matches_of q candidates ∧ (2 <= length ms)%nat ∧
      Forall (λ x, ToLower x ≠ q) candidates
  | Err (IDNotFound q') => q' = query ∧ ∀ c, c ∈ candidates → ¬ q `prefix_of` ToLower c
  end.
Proof.
  cbn zeta. unfold Resolve. destruct (Nat.ltb_spec (length query) minQueryLen) as [Hl|Hl]; [done|].
  pose proof (resolve_loop_spec (ToLower query) candidates []) as H.
  destruct (resolve_loop _ _ _) as [c|[|m [|m2 ms]]].
  - split; [done|by left].
  - destruct H as [Hm _]. split; [done|]. intros c Hc Hp. symmetry in Hm. cbn [app] in Hm.
    assert (c ∈ matches_of (ToLower query) candidates) as Hin.
    { apply list_elem_of_In, filter_In. split; [by apply list_elem_of_In|by apply HasPrefix_spec]. }
    rewrite Hm in Hin. by apply elem_of_nil in Hin.
  - destruct H as [Hm Hn]. split; [done|]. right. by split.
  - destruct H as [Hm Hn]. do 2 (split; [done|]). split; [simpl; lia|done].
Qed.
End resolve.

(** ** The interface *)

(** What the registry relies on: ids that are not in use. *)
Class IdGen (R : Type) := {
  gen_id : gset gostring → R → res gen_error gostring * R;
  gen_id_fresh : ∀ existing r s r', gen_id existing r = (Ok s, r') → s ∉ existing
}.

(** [Generate] over a stream of random bytes is one; the state counts calls of
    [Generate], each of which makes at most sixty draws. *)
Program Definition shortid_gen (rand_Read : nat → nat → res io_error (list byte))
    (Hfill : ∀ k n bs, rand_Read k n = Ok bs → length bs = n ∧ bytes_ok bs) : IdGen nat := {|
  gen_id existing k := (Generate (λ j, rand_Read (60 * k + j)%nat) existing, S k)
|}.
Next Obligation.
  intros rand_Read Hfill existing k s k' [= E <-].
  apply (gen_lengths_ok (λ j, rand_Read (60 * k + j)%nat)) in E as [H _]; [done|].
  intros j n bs. apply Hfill.
Qed.
