(* ===== verification/Store.v ===== *)
(** * [atomic.go], [flock.go], [store.go]: state on disk

    A small file system: files by path, existing directories, directory locks.
    [AtomicWriteJSON] also returns every file system state a reader or a crash
    could see on the way.  [encoding/json] is the pair [marshal]/[unmarshal]. *)
From S2P Require Import Prelude GoBase Wire State ShortId.
Open Scope Z_scope.

(** A path as its components; [filepath.Join] appends. *)
Abbreviation path := (list gostring).

Abbreviation fs := (gmap path (list byte)).

(** ** [AtomicWriteJSON] *)

(** What the system calls of one [AtomicWriteJSON] answer: the name
    [os.CreateTemp] picks, and the failures. *)
Record write_plan := mkPlan {
  wp_tmp : path;
  wp_create : option io_error;
  wp_write : option (nat * io_error);   (** bytes written before the failure *)
  wp_close : option io_error;
  wp_rename : option io_error;
  wp_remove : option io_error           (** of the [os.Remove] after a failure *)
}.

(** [os.Remove(tmpName)]; its error is dropped. *)
Definition remove_tmp (plan : write_plan) (f : fs) : fs :=
  match wp_remove plan with None => delete (wp_tmp plan) f | Some _ => f end.

Inductive store_error :=
| ErrMarshal | ErrUnmarshal | ErrCreate (e : io_error) | ErrWriteTmp (e : io_error)
| ErrCloseTmp (e : io_error) | ErrRename (e : io_error)
| ErrMkdir (e : io_error) | ErrLockHeld | ErrReadState | ErrReadDir (e : io_error)
| ErrResolve (e : resolve_error) | ErrMarshalState.

Section json.
Context (marshal : StateFile → option (list byte)).
Context (unmarshal : list byte → option StateFile).

(** The file system after each system call, and the result. *)
Definition AtomicWriteJSON (p : path) (data : StateFile) (plan : write_plan) (f : fs)
  : list fs * res store_error unit :=
  match marshal data with
  | None => ([f], Err ErrMarshal)
  | Some b =>
      let b := b ++ [10] in
      match wp_create plan with
      | Some e => ([f], Err (ErrCreate e))
      | None =>
          let tmp := wp_tmp plan in
          let f1 := <[tmp := []]> f in
          match wp_write plan with
          | Some (k, e) =>
              let f2 := <[tmp := take k b]> f in
              ([f; f1; f2; remove_tmp plan f2], Err (ErrWriteTmp e))
          | None =>
              let f2 := <[tmp := b]> f in
              match wp_close plan with
              | Some e => ([f; f1; f2; remove_tmp plan f2], Err (ErrCloseTmp e))
              | None =>
                  match wp_rename plan with
                  | Some e => ([f; f1; f2; remove_tmp plan f2], Err (ErrRename e))
                  | None => ([f; f1; f2; <[p := b]> (delete tmp f2)], Ok tt)
                  end
              end
          end
      end
  end.

Definition final (x : list fs * res store_error unit) (f : fs) : fs := List.last x.1 f.

(** ** Directory locks *)

Record world := mkWorld { w_files : fs; w_dirs : gset path; w_locks : gset path }.

(** [AcquireFlock]: the directory must exist and nobody else hold its lock. *)
Definition AcquireFlock (dir : path) (w : world) : res store_error unit * world :=
  if negb (bool_decide (dir ∈ w_dirs w)) then (Err (ErrMkdir (ErrIO 2)), w)
  else if bool_decide (dir ∈ w_locks w) then (Err ErrLockHeld, w)
  else (Ok tt, mkWorld (w_files w) (w_dirs w) ({[dir]} ∪ w_locks w)).

Definition ReleaseFlock (dir : path) (w : world) : world :=
  mkWorld (w_files w) (w_dirs w) (w_locks w ∖ {[dir]}).

(** [ProbeFlock]: whether somebody holds the lock; it is taken and released
    when nobody does. *)
Definition ProbeFlock (dir : path) (w : world) : bool * world :=
  match AcquireFlock dir w with
  | (Ok _, w') => (false, ReleaseFlock dir w')
  | (Err ErrLockHeld, w') => (true, w')
  | (Err _, w') => (false, w')
  end.

(** ** [Writer] *)

Record Writer := mkWriter { wr_dir : path; wr_state : StateFile }.

Definition state_json (dir : path) : path := dir ++ [B"state.json"].

Definition flush (plan : write_plan) (wr : Writer) (w : world) : res store_error unit * world :=
  let x := AtomicWriteJSON (state_json (wr_dir wr)) (wr_state wr) plan (w_files w) in
  (x.2, mkWorld (final x (w_files w)) (w_dirs w) (w_locks w)).

Definition OpenWriter (mkdir : option io_error) (plan : write_plan) (dir : path)
    (initial : StateFile) (w : world) : res store_error Writer * world :=
  match mkdir with
  | Some e => (Err (ErrMkdir e), w)
  | None =>
      let w := mkWorld (w_files w) ({[dir]} ∪ w_dirs w) (w_locks w) in
      match AcquireFlock dir w with
      | (Err e, w) => (Err e, w)
      | (Ok _, w) =>
          let wr := mkWriter dir initial in
          match flush plan wr w with
          | (Err e, w) => (Err e, ReleaseFlock dir w)
          | (Ok _, w) => (Ok wr, w)
          end
      end
  end.

(** [Update]: the in-memory state changes even when the flush fails. *)
Definition Update (plan : write_plan) (fn : StateFile → StateFile) (wr : Writer) (w : world)
  : res store_error unit * Writer * world :=
  let wr := mkWriter (wr_dir wr) (fn (wr_state wr)) in
  let '(x, w) := flush plan wr w in (x, wr, w).

(** [UpdateState]; [state] is the marshaled value, [None] if it failed. *)
Definition UpdateState (plan : write_plan) (state : option gostring) (wr : Writer) (w : world)
  : res store_error unit * Writer * world :=
  Update plan (λ s, match state with
                    | None => s
                    | Some data => mkStateFile (sf_Session s) data
                    end) wr w.

Definition Writer_Snapshot (wr : Writer) : StateFile := wr_state wr.

Definition Writer_Close (wr : Writer) (w : world) : world := ReleaseFlock (wr_dir wr) w.

(** ** [Store] *)

Definition Load (dir : path) (key : gostring) (w : world) : res store_error StateFile :=
  match w_files w !! state_json (dir ++ [key]) with
  | None => Err ErrReadState
  | Some data =>
      match unmarshal data with
      | None => Err ErrUnmarshal
      | Some st => Ok st
      end
  end.

(** A directory entry: its name and [IsDir()]. *)
Inductive readdir := DirNotExist | DirErr (e : io_error) | DirEntries (l : list (gostring * bool)).

(** [Before]; the zero time is before every other. *)
Definition Before (a b : time) : bool :=
  match a, b with
  | None, None => false
  | None, Some _ => true
  | Some _, None => false
  | Some x, Some y => x <? y
  end.

(** [sort.Slice] by creation time (which is free to order equal times in any
    way; insertion keeps them as they were). *)
Fixpoint insert_by_time (s : StateFile) (l : list StateFile) : list StateFile :=
  match l with
  | [] => [s]
  | x :: l' =>
      if Before (ss_CreatedAt (sf_Session s)) (ss_CreatedAt (sf_Session x)) then s :: l
      else x :: insert_by_time s l'
  end.

Definition sort_by_time (l : list StateFile) : list StateFile :=
  foldl (λ acc s, insert_by_time s acc) [] l.

Definition List_ (dir : path) (entries : readdir) (w : world) : res store_error (list StateFile) :=
  match entries with
  | DirNotExist => Ok []
  | DirErr e => Err (ErrReadDir e)
  | DirEntries l =>
      let states := l ≫= λ '(name, isdir),
        if negb isdir then []
        else match Load dir name w with Err _ => [] | Ok s => [s] end in
      Ok (sort_by_time states)
  end.

Definition IsAlive (dir : path) (key : gostring) (w : world) : bool :=
  (ProbeFlock (dir ++ [key]) w).1.

(** [Delete]: [os.RemoveAll] of the session's directory.  When it fails ([Some]),
    only the paths it got to are gone. *)
Definition Store_Delete (dir : path) (key : gostring) (a : option (io_error * gset path)) (w : world)
  : res io_error unit * world :=
  let gone p := bool_decide ((dir ++ [key]) `prefix_of` p) && match a with None => true | Some (_, got) => bool_decide (p ∈ got) end in
  (match a with None => Ok tt | Some (e, _) => Err e end,
   mkWorld (filter (λ pb, gone pb.1 = false) (w_files w)) (filter (λ p, gone p = false) (w_dirs w))
     (filter (λ p, gone p = false) (w_locks w))).

(** After a deletion the session is not there, and the others are. *)
Lemma Delete_gone dir key w :
  let w' := (Store_Delete dir key None w).2 in
  Load dir key w' = Err ErrReadState ∧ IsAlive dir key w' = false ∧
  ∀ key', key' ≠ key → Load dir key' w' = Load dir key' w.
Proof.
  cbn [Store_Delete snd]. split; [|split].
  - unfold Load. cbn [w_files]. destruct (filter _ (w_files w) !! _) as [b|] eqn:E; [|done].
    apply map_lookup_filter_Some in E as [_ E]. rewrite bool_decide_eq_true_2 in E by (exists [B"state.json"]; done). done.
  - unfold IsAlive, ProbeFlock, AcquireFlock. cbn [w_dirs]. rewrite bool_decide_eq_false_2; [done|].
    rewrite elem_of_filter. rewrite bool_decide_eq_true_2 by done. by intros [? _].
  - intros key' Hk. unfold Load. cbn [w_files].
    assert (filter (λ pb : path * list byte, bool_decide ((dir ++ [key]) `prefix_of` pb.1) && true = false) (w_files w)
      !! state_json (dir ++ [key']) = w_files w !! state_json (dir ++ [key'])) as ->; [|done].
    destruct (w_files w !! _) as [b|] eqn:E.
    + apply map_lookup_filter_Some. split; [done|]. rewrite bool_decide_eq_false_2; [done|]. cbn [fst].
      unfold state_json. rewrite <- app_assoc. intros [l El]. rewrite <- app_assoc in El. apply app_inv_head in El. injection El as El _. done.
    + apply map_lookup_filter_None. by left.
Qed.

Definition Store_Resolve (ToLower : gostring → gostring) (dir : path) (entries : readdir)
    (query : gostring) (w : world) : res store_error StateFile :=
  match entries with
  | DirNotExist => Err (ErrReadDir (ErrIO 2))
  | DirErr e => Err (ErrReadDir e)
  | DirEntries l =>
      let candidates := l ≫= λ '(name, isdir), if (isdir : bool) then [name] else [] in
      match ShortId.Resolve ToLower query candidates with
      | Err e => Err (ErrResolve e)
      | Ok m => Load dir m w
      end
  end.

(** ** Properties *)

(** The temporary file is new: [O_EXCL], and not the target. *)
Definition plan_ok (p : path) (plan : write_plan) (f : fs) : Prop :=
  wp_tmp plan ≠ p ∧ f !! wp_tmp plan = None.

(** What a failed write leaves: nothing, or the temporary file when it could not
    be removed either. *)
Definition left_over (plan : write_plan) (f g : fs) : Prop :=
  g = f ∨ ∃ part e, wp_remove plan = Some e ∧ wp_create plan = None ∧ g = <[wp_tmp plan := part]> f.

Lemma remove_tmp_left c plan f :
  f !! wp_tmp plan = None → wp_create plan = None → left_over plan f (remove_tmp plan (<[wp_tmp plan := c]> f)).
Proof.
  intros Hnew Hc. unfold remove_tmp. destruct (wp_remove plan) as [e|] eqn:E; [right; by exists c, e|left].
  by rewrite delete_insert_id.
Qed.

Lemma atomic_write_safe p data plan f :
  plan_ok p plan f →
  let x := AtomicWriteJSON p data plan f in
  Forall (λ g, (g !! p = f !! p ∨ ∃ b, marshal data = Some b ∧ g !! p = Some (b ++ [10])) ∧
               ∀ q, q ≠ p → q ≠ wp_tmp plan → g !! q = f !! q) x.1 ∧
  match x.2 with
  | Ok _ => ∃ b, marshal data = Some b ∧ final x f = <[p := b ++ [10]]> f
  | Err _ => left_over plan f (final x f)
  end.
Proof.
  intros [Hne Hnew]. cbn zeta. unfold AtomicWriteJSON, final.
  destruct (marshal data) as [b|]; [|split; [by repeat constructor; auto|by left]].
  destruct (wp_create plan) as [e|] eqn:Ecr; [split; [by repeat constructor; auto|by left]|].
  assert (p ≠ wp_tmp plan) as Hne' by congruence.
  assert (∀ c, delete (wp_tmp plan) (<[wp_tmp plan := c]> f) = f) as Hdel by (intros; by apply delete_insert_id).
  assert (∀ c q, q ≠ wp_tmp plan → <[wp_tmp plan := c]> f !! q = f !! q) as Hins
    by (intros; by apply lookup_insert_ne).
  assert (∀ c q, q ≠ wp_tmp plan → remove_tmp plan (<[wp_tmp plan := c]> f) !! q = f !! q) as Hrem
    by (intros c q Hq; unfold remove_tmp; destruct (wp_remove plan); [by apply Hins|by rewrite Hdel]).
  assert (∀ c q, q ≠ p → <[p := c]> f !! q = f !! q) as Hinsp
    by (intros; by apply lookup_insert_ne).
  destruct (wp_write plan) as [[k e]|]; [|destruct (wp_close plan) as [e|];
    [|destruct (wp_rename plan) as [e|]]]; cbn [fst snd List.last]; rewrite ?Hdel;
    (split; [|try (by apply remove_tmp_left); by eauto]); repeat (apply List.Forall_cons); try apply List.Forall_nil;
    (split; [|intros q Hq1 Hq2; rewrite ?Hins, ?Hinsp, ?Hrem by done; done]);
    try (left; by rewrite ?Hins, ?Hrem by done).
  right. exists b. split; [done|]. by rewrite lookup_insert_eq.
Qed.

Lemma AtomicWriteJSON_ok p data plan f :
  plan_ok p plan f →
  match (AtomicWriteJSON p data plan f).2 with
  | Ok _ => ∃ b, marshal data = Some b ∧ final (AtomicWriteJSON p data plan f) f = <[p := b ++ [10]]> f
  | Err _ => ∀ q, q ≠ wp_tmp plan → final (AtomicWriteJSON p data plan f) f !! q = f !! q
  end.
Proof.
  intros H. destruct (atomic_write_safe p data plan f H) as [_ Hx]. destruct (AtomicWriteJSON p data plan f).2; [done|].
  intros q Hq. destruct Hx as [-> |(part & e' & _ & _ & ->)]; [done|]. by apply lookup_insert_ne.
Qed.

(** C21: Crash safety of state.json.  Whatever system call fails and whenever the
    process dies, a reader of the path finds the old file or the complete new
    one, never a partial one, and no other file changes.  On success the file is
    the new document and the temporary file is gone; on failure everything is as
    it was, except that the temporary file stays behind when removing it fails
    too (the code drops that error). *)
Theorem AtomicWriteJSON_safe p data plan f :
  plan_ok p plan f →
  let x := AtomicWriteJSON p data plan f in
  Forall (λ g, (g !! p = f !! p ∨ ∃ b, marshal data = Some b ∧ g !! p = Some (b ++ [10])) ∧
               ∀ q, q ≠ p → q ≠ wp_tmp plan → g !! q = f !! q) x.1 ∧
  match x.2 with
  | Ok _ => ∃ b, marshal data = Some b ∧ final x f = <[p := b ++ [10]]> f
  | Err _ => final x f = f ∨
      ∃ part e, wp_remove plan = Some e ∧ wp_create plan = None ∧ final x f = <[wp_tmp plan := part]> f
  end.
Proof. exact (atomic_write_safe p data plan f). Qed.

(** What [Load] makes of a document that [AtomicWriteJSON] wrote. *)
Definition read_back (b : list byte) : res store_error StateFile :=
  match unmarshal (b ++ [10]) with None => Err ErrUnmarshal | Some st => Ok st end.

(** C34: One writer per session, and its updates are what others read.  While a
    writer is open, opening another for the same directory fails and changes no
    file; the session is alive exactly until the writer is closed; and after a
    successful [Update], the bytes [Load] decodes are those the updated state was
    encoded to, all of them and no others (whatever the JSON codec makes of
    them). *)
Theorem writer_exclusive_and_visible base key mkdir plan initial w wr w1 plan2 initial2 plan3 fn :
  let dir := base ++ [key] in
  OpenWriter mkdir plan dir initial w = (Ok wr, w1) →
  plan_ok (state_json dir) plan3 (w_files w1) →
  (OpenWriter None plan2 dir initial2 w1).1 = Err ErrLockHeld ∧
  w_files (OpenWriter None plan2 dir initial2 w1).2 = w_files w1 ∧
  IsAlive base key w1 = true ∧
  IsAlive base key (Writer_Close wr w1) = false ∧
  (∀ wr' w2, Update plan3 fn wr w1 = (Ok tt, wr', w2) →
     (∃ b, marshal (fn initial) = Some b ∧ Load base key w2 = read_back b) ∧ IsAlive base key w2 = true).
Proof.
  intros dir Hopen Hplan. unfold OpenWriter in Hopen. destruct mkdir; [done|].
  unfold AcquireFlock in Hopen. cbn [w_dirs w_locks w_files] in Hopen.
  rewrite (bool_decide_eq_true_2 (dir ∈ {[dir]} ∪ w_dirs w)) in Hopen by set_solver.
  cbn [negb] in Hopen. destruct (bool_decide_reflect (dir ∈ w_locks w)) as [|Hfree]; [done|].
  destruct (flush plan (mkWriter dir initial) _) as [[[]|e] w'] eqn:Ef; [|done].
  injection Hopen as <- <-.
  assert (w_dirs w' = {[dir]} ∪ w_dirs w ∧ w_locks w' = {[dir]} ∪ w_locks w) as [Ed El]
    by (unfold flush in Ef; by injection Ef as _ <-).
  assert (∀ u, w_dirs u = w_dirs w' → dir ∈ w_locks u → AcquireFlock dir u = (Err ErrLockHeld, u)) as Hheld.
  { intros u Hu Hl. unfold AcquireFlock. rewrite Hu, Ed.
    rewrite (bool_decide_eq_true_2 (dir ∈ {[dir]} ∪ w_dirs w)) by set_solver.
    by rewrite (bool_decide_eq_true_2 (dir ∈ w_locks u)). }
  assert (∀ u, w_dirs u = w_dirs w' → dir ∈ w_locks u → IsAlive base key u = true) as Halive.
  { intros u Hu Hl. unfold IsAlive, ProbeFlock. fold dir. by rewrite Hheld. }
  assert (dir ∈ w_locks w') as Hin by (rewrite El; set_solver).
  split; [|split; [|split; [by apply Halive|split]]].
  - unfold OpenWriter. rewrite Hheld; [done| |done]. cbn [w_dirs]. rewrite Ed. set_solver.
  - unfold OpenWriter. rewrite Hheld; [done| |done]. cbn [w_dirs]. rewrite Ed. set_solver.
  - unfold IsAlive, ProbeFlock, AcquireFlock, Writer_Close, ReleaseFlock. fold dir.
    cbn [w_dirs w_locks wr_dir w_files]. rewrite Ed, El.
    rewrite (bool_decide_eq_true_2 (dir ∈ {[dir]} ∪ w_dirs w)) by set_solver.
    rewrite (bool_decide_eq_false_2 (dir ∈ ({[dir]} ∪ w_locks w) ∖ {[dir]})) by set_solver. done.
  - intros wr' w2 Hup. unfold Update, flush in Hup. cbn [wr_dir wr_state] in Hup.
    pose proof (AtomicWriteJSON_ok (state_json dir) (fn initial) plan3 (w_files w') Hplan) as Hsafe.
    destruct (AtomicWriteJSON _ _ plan3 _) as [tr x] eqn:Ex. cbn [snd] in Hup.
    injection Hup as -> <- <-. destruct Hsafe as (b & Hb & Hfin). cbn [w_files].
    split; [|by apply Halive]. exists b. split; [done|]. unfold Load. cbn [w_files]. fold dir.
    by rewrite Hfin, lookup_insert_eq.
Qed.
End json.

(** A codec for examples: two documents. *)
Definition doc1 : StateFile := empty_state.
Definition doc2 : StateFile := mkStateFile empty_session [123; 125].

Definition two_marshal (s : StateFile) : option (list byte) :=
  if bool_decide (s = doc1) then Some [1] else if bool_decide (s = doc2) then Some [2] else None.
Definition two_unmarshal (b : list byte) : option StateFile :=
  match b with 1 :: _ => Some doc1 | 2 :: _ => Some doc2 | _ => None end.

Definition good_plan (tmp : path) : write_plan := mkPlan tmp None None None None None.

Lemma AtomicWriteJSON_safe_witness :
  let p := [B"s"; B"state.json"] in
  let plan := mkPlan [B"s"; B"tmp"] None (Some (1%nat, ErrIO 28)) None None (Some (ErrIO 30)) in
  let f : fs := {[p := [7]]} in
  let x := AtomicWriteJSON two_marshal p doc1 plan f in
  Forall (λ g, (g !! p = f !! p ∨ ∃ b, two_marshal doc1 = Some b ∧ g !! p = Some (b ++ [10])) ∧
               ∀ q, q ≠ p → q ≠ wp_tmp plan → g !! q = f !! q) x.1 ∧
  match x.2 with
  | Ok _ => ∃ b, two_marshal doc1 = Some b ∧ final x f = <[p := b ++ [10]]> f
  | Err _ => final x f = f ∨
      ∃ part e, wp_remove plan = Some e ∧ wp_create plan = None ∧ final x f = <[wp_tmp plan := part]> f
  end.
Proof. intros p plan f. apply (AtomicWriteJSON_safe two_marshal p doc1 plan f). by split. Defined.

Lemma writer_exclusive_and_visible_witness :
  ∃ wr w1 wr' w2,
    OpenWriter two_marshal None (good_plan [B"t1"]) [B"s"; B"k1"] doc1 (mkWorld ∅ ∅ ∅) = (Ok wr, w1) ∧
    (OpenWriter two_marshal None (good_plan [B"t2"]) [B"s"; B"k1"] doc2 w1).1 = Err ErrLockHeld ∧
    Update two_marshal (good_plan [B"t3"]) (λ _, doc2) wr w1 = (Ok tt, wr', w2) ∧
    Load two_unmarshal [B"s"] B"k1" w2 = Ok doc2.
Proof.
  assert (∃ wr w1, OpenWriter two_marshal None (good_plan [B"t1"]) ([B"s"] ++ [B"k1"]) doc1
    (mkWorld ∅ ∅ ∅) = (Ok wr, w1) ∧ plan_ok (state_json ([B"s"] ++ [B"k1"])) (good_plan [B"t3"]) (w_files w1) ∧
    ∃ wr' w2, Update two_marshal (good_plan [B"t3"]) (λ _, doc2) wr w1 = (Ok tt, wr', w2))
    as (wr & w1 & E1 & Hp & wr' & w2 & E2).
  { eexists _, _. split; [vm_compute; reflexivity|]. split; [by split|].
    eexists _, _. vm_compute. reflexivity. }
  destruct (writer_exclusive_and_visible two_marshal two_unmarshal [B"s"] B"k1" None
    (good_plan [B"t1"]) doc1 (mkWorld ∅ ∅ ∅) wr w1 (good_plan [B"t2"]) doc2 (good_plan [B"t3"])
    (λ _, doc2) E1 Hp) as (H1 & _ & _ & _ & H2).
  exists wr, w1, wr', w2. split; [exact E1|]. split; [exact H1|]. split; [exact E2|].
  destruct (proj1 (H2 wr' w2 E2)) as (b & Hb & ->). vm_compute in Hb. injection Hb as <-. reflexivity.
Defined.
