(* ===== verification/Hud.v ===== *)
(** * [title.go], [internal/sessionpick]: the session's one-line summary

    The line of the picker, the HUD line and the terminal-title sequences.
    [$HOME] and whether stdout is a terminal are arguments. *)
From S2P Require Import Prelude GoBase Utf8 Wire State ShortId.
Open Scope Z_scope.

(** ** [internal/sessionpick] *)

Record SessionWithMeta := mkMeta { sm_State : option StateFile; sm_Alive : bool; sm_Host : gostring }.

Definition HUDMaxCmdLen : Z := 60.

Definition ellipsis : gostring := [226; 128; 166].
Definition owl : gostring := [240; 159; 166; 137].

Definition truncateRunes (s : gostring) (max : Z) : gostring :=
  if max <=? 0 then []
  else
    let rs := runes s in
    if Z.of_nat (length rs) <=? max then s
    else of_runes (take (Z.to_nat (max - 1)) rs) ++ ellipsis.

Definition tildify (home p : gostring) : gostring :=
  if empty home || empty p then p
  else if bool_decide (p = home) then B"~"
  else if HasPrefix p (home ++ B"/") then B"~" ++ drop (length home) p
  else p.

(** A tab. *)
Definition tab : gostring := [9].

Definition Format (home : gostring) (sm : SessionWithMeta) : gostring :=
  match sm_State sm with
  | None => []
  | Some f =>
      let st := sf_Session f in
      let host := if empty (sm_Host sm) then B"local" else sm_Host sm in
      let tag := if negb (sm_Alive sm) then B"(dead)"
                 else match ss_Attachments st with [] => [] | _ => B"*attached" end in
      Join [B"[" ++ ss_Key st ++ B"]"; B"@" ++ host; tildify home (ss_CWD st);
            Join (ss_Argv st) B" "; tag] tab
  end.

Definition FormatHUD (home : gostring) (sm : SessionWithMeta) : gostring :=
  match sm_State sm with
  | None => []
  | Some f =>
      let st := sf_Session f in
      let parts := [owl; ss_Key st] in
      let host := sm_Host sm in
      let parts := if negb (empty host) && negb (bool_decide (host = B"local"))
                   then parts ++ [B"@" ++ host] else parts in
      let cwd := tildify home (ss_CWD st) in
      let parts := if negb (empty cwd) then parts ++ [cwd] else parts in
      let cmd := truncateRunes (Join (ss_Argv st) B" ") HUDMaxCmdLen in
      let parts := if negb (empty cmd) then parts ++ [cmd] else parts in
      Join parts B" "
  end.

Section idresolve.
Context (ToLower : gostring → gostring).

(** [IDResolve] *)
Definition session_keys (states : list SessionWithMeta) : list gostring :=
  states ≫= λ sm, match sm_State sm with None => [] | Some f => [ss_Key (sf_Session f)] end.

Definition has_key (k : gostring) (sm : SessionWithMeta) : bool :=
  match sm_State sm with None => false | Some f => bool_decide (ss_Key (sf_Session f) = k) end.

Definition IDResolve (states : list SessionWithMeta) (arg : gostring)
  : res resolve_error SessionWithMeta :=
  match Resolve ToLower arg (session_keys states) with
  | Err e => Err e
  | Ok m => match List.find (has_key m) states with
            | Some sm => Ok sm
            | None => Err (IDNotFound arg)
            end
  end.
End idresolve.

(** ** The title *)

Definition hudTitlePushBytes : gostring := ESC :: B"[22;2t".
Definition hudTitlePopBytes : gostring := ESC :: B"[23;2t".

Definition control_byte (c : Z) : bool := (c <? 32) || (c =? 127).

Definition needsSanitize (s : gostring) : bool := existsb control_byte s.

Definition sanitizeTitle (s : gostring) : gostring :=
  if negb (needsSanitize s) then s
  else runes s ≫= λ r, if r =? 127 then [] else if r <? 32 then [] else EncodeRune r.

Definition hudTitleSetBytes (s : gostring) : gostring :=
  ESC :: B"]2;" ++ sanitizeTitle s ++ [7].

Record hudState := mkHud { hud_line : gostring; hud_isTTY : bool; hud_pushed : bool }.

Definition newHUDState (stdoutIsTTY : bool) (line : gostring) : hudState :=
  mkHud line stdoutIsTTY false.

(** A nil [*hudState] is [None]; write errors are ignored. *)
Definition onAttach (o : option hudState) (w : writer) : option hudState * writer :=
  match o with
  | None => (None, w)
  | Some h =>
      if negb (hud_isTTY h) || empty (hud_line h) then (Some h, w)
      else
        let w := if hud_pushed h then w else (GoBase.Write hudTitlePushBytes w).2 in
        (Some (mkHud (hud_line h) (hud_isTTY h) true),
         (GoBase.Write (hudTitleSetBytes (hud_line h)) w).2)
  end.

Definition onDetach (o : option hudState) (w : writer) : writer :=
  match o with
  | None => w
  | Some h => if negb (hud_isTTY h) then w
              else if hud_pushed h then (GoBase.Write hudTitlePopBytes w).2 else w
  end.

Definition Line (o : option hudState) : gostring :=
  match o with None => [] | Some h => hud_line h end.

(** ** The title is inert *)

(** A byte that can neither end an OSC string nor start a sequence. *)
Definition inert (b : byte) : Prop := 32 <= b ∧ b ≠ 127.

Lemma control_byte_false c : control_byte c = false ↔ 32 <= c ∧ c ≠ 127.
Proof.
  unfold control_byte. rewrite orb_false_iff, Z.ltb_ge, Z.eqb_neq. done.
Qed.

Lemma needsSanitize_false s : needsSanitize s = false → Forall inert s.
Proof.
  intros H. apply Forall_forall. intros b Hb. apply control_byte_false.
  destruct (control_byte b) eqn:E; [|done]. assert (needsSanitize s = true) as H2; [|congruence].
  apply existsb_exists. exists b. split; [by apply list_elem_of_In|done].
Qed.

Lemma inert_needs_not s : Forall inert s → needsSanitize s = false.
Proof.
  induction 1 as [|b s Hb Hs IH]; [done|]. cbn. apply orb_false_iff. split; [|done].
  by apply control_byte_false.
Qed.

(** What [sanitizeTitle] keeps of a rune. *)
Definition kept (r : rune) : gostring := if r =? 127 then [] else if r <? 32 then [] else EncodeRune r.

Lemma kept_inert r : Forall inert (kept r).
Proof.
  unfold kept. destruct (r =? 127) eqn:E1; rng; [constructor|].
  destruct (r <? 32) eqn:E2; rng; [constructor|]. destruct (Z_lt_ge_dec r 128).
  - rewrite EncodeRune_ascii by lia. by repeat constructor.
  - apply Forall_forall. intros b Hb. apply EncodeRune_high in Hb; [|lia]. unfold inert. lia.
Qed.

Lemma sanitizeTitle_inert s : Forall inert (sanitizeTitle s).
Proof.
  unfold sanitizeTitle. destruct (needsSanitize s) eqn:E; cbn [negb]; [|by apply needsSanitize_false].
  generalize (runes s). intros rs. induction rs as [|r rs IH]; [constructor|].
  cbn [mbind list_bind]. apply Forall_app. split; [apply kept_inert|done].
Qed.

Lemma truncateRunes_length s max :
  bytes_ok s → Z.of_nat (length (runes (truncateRunes s max))) <= Z.max 0 max.
Proof.
  intros Hb. unfold truncateRunes. destruct (max <=? 0) eqn:E1; [apply Z.leb_le in E1; cbn; lia|].
  apply Z.leb_gt in E1. destruct (Z.of_nat (length (runes s)) <=? max) eqn:E2.
  - apply Z.leb_le in E2. lia.
  - assert (Forall (λ r, scalar r = true) (runes s)) as Hs.
    { clear E2. revert Hb. apply (decode_ind (λ s, bytes_ok s → Forall (λ r, scalar r = true) (runes s))).
      - intros _. constructor.
      - intros s' r w E IH Hb. rewrite (runes_step _ _ _ E). constructor.
        + by eapply DecodeRune_scalar.
        + by apply IH, Forall_drop. }
    assert (of_runes (take (Z.to_nat (max - 1)) (runes s)) ++ ellipsis =
      of_runes (take (Z.to_nat (max - 1)) (runes s) ++ [8230])) as ->
      by (unfold of_runes; by rewrite bind_app).
    rewrite runes_of_runes.
    + rewrite length_app, length_take. cbn. lia.
    + apply Forall_app. split; [by apply Forall_take|]. by repeat constructor.
Qed.

(** The title escape carries text only.  Whatever a session's key, directory
    and command hold, the OSC 2 sequence [hoot attach] writes ends at its own
    BEL: nothing between contains a control byte.  A line without control bytes
    is shown as it is; from well-formed text exactly the control characters
    disappear; and the command part of the line has at most sixty characters. *)
Theorem hud_title_safe s rs cmd :
  bytes_ok cmd →
  (∃ body, hudTitleSetBytes s = ESC :: B"]2;" ++ body ++ [7] ∧ Forall inert body) ∧
  (Forall inert s → sanitizeTitle s = s) ∧
  (Forall (λ r, scalar r = true) rs →
     sanitizeTitle (of_runes rs) = of_runes (filter (λ r, 32 <= r ∧ r ≠ 127) rs)) ∧
  Z.of_nat (length (runes (truncateRunes cmd HUDMaxCmdLen))) <= 60.
Proof.
  intros Hb. split; [|split; [|split]].
  - exists (sanitizeTitle s). split; [done|apply sanitizeTitle_inert].
  - intros H. unfold sanitizeTitle. by rewrite inert_needs_not.
  - intros Hs. assert (∀ rs, Forall (λ r, scalar r = true) rs →
      (rs ≫= kept) = of_runes (filter (λ r, 32 <= r ∧ r ≠ 127) rs)) as Hk.
    { clear. induction 1 as [|r rs Hr Hrs IH]; [done|]. cbn [mbind list_bind]. rewrite IH. unfold kept.
      destruct (r =? 127) eqn:E1; rng; [by rewrite filter_cons_False by lia|].
      destruct (r <? 32) eqn:E2; rng; [by rewrite filter_cons_False by lia|].
      by rewrite filter_cons_True by lia. }
    unfold sanitizeTitle. rewrite runes_of_runes by done. fold kept. rewrite <- Hk by done.
    destruct (needsSanitize (of_runes rs)) eqn:E; cbn [negb]; [done|].
    apply needsSanitize_false in E. clear Hk. induction Hs as [|r rs Hr Hrs IH]; [done|].
    unfold of_runes in *. cbn [mbind list_bind] in *. apply Forall_app in E as [E1 E2].
    rewrite <- IH by done. f_equal. unfold kept.
    destruct (r =? 127) eqn:F1; rng; [subst r; by apply Forall_inv in E1 as [_ E1]|].
    destruct (r <? 32) eqn:F2; rng; [|done]. assert (0 <= r) by
      (unfold scalar in Hr; apply orb_prop in Hr as [Hr|Hr]; rng; lia).
    rewrite EncodeRune_ascii in E1 by lia. apply Forall_inv in E1 as [E1 _]. lia.
  - pose proof (truncateRunes_length cmd HUDMaxCmdLen Hb). unfold HUDMaxCmdLen in *. lia.
Qed.

Lemma hud_title_safe_witness :
  Z.of_nat (length (runes (truncateRunes [104; 105; 27] HUDMaxCmdLen))) <= 60 ∧
  hudTitleSetBytes [104; 7; 27; 105] = ESC :: B"]2;" ++ [104; 105] ++ [7].
Proof.
  split; [|reflexivity]. refine (proj2 (proj2 (proj2 (hud_title_safe [] [] [104; 105; 27] _)))).
  repeat (apply Forall_cons; split; [split; lia|]). constructor.
Defined.
