(* ===== verification/Events.v ===== *)
(** * [eventbus.go] and the /events route of [session.go]

    The in-memory pub/sub of a session: one buffered channel of sixteen events
    per subscriber, the publisher never blocks.  [UpdateState] and
    [handleEvents] are the two ends of it. *)
From S2P Require Import Prelude GoBase Wire State Channel Store.
Open Scope Z_scope.

Record Event := mkEv { ev_Type : gostring; ev_Data : list byte }.

Record eventBus := mkBus { bus_subs : gset nat; bus_chans : gmap nat (chan Event) }.

Inductive bus_error := BusPanic | NotRunning | BusStore (e : store_error).

Abbreviation bus_st := (st eventBus bus_error).

Definition newEventBus : eventBus := mkBus ∅ ∅.

(** [Subscribe]; [id] is the channel it makes. *)
Definition Subscribe (id : nat) : bus_st unit :=
  st_modify (λ b, mkBus ({[id]} ∪ bus_subs b) (<[id := make_chan 16]> (bus_chans b))).

Definition bus_close (id : nat) : bus_st unit := λ b,
  match bus_chans b !! id with
  | None => (Err BusPanic, b)
  | Some c =>
      match close_chan c with
      | None => (Err BusPanic, b)
      | Some c' => (Ok tt, mkBus (bus_subs b ∖ {[id]}) (<[id := c']> (bus_chans b)))
      end
  end.

(** The [cancel] closure of [Subscribe]. *)
Definition bus_cancel (id : nat) : bus_st unit := λ b,
  if bool_decide (id ∈ bus_subs b) then bus_close id b else (Ok tt, b).

Definition publish_to (ev : Event) (id : nat) : bus_st unit := λ b,
  match bus_chans b !! id with
  | None => (Err BusPanic, b)
  | Some c =>
      match try_send ev c with
      | None => (Err BusPanic, b)
      | Some c' => (Ok tt, mkBus (bus_subs b) (<[id := c']> (bus_chans b)))
      end
  end.

Fixpoint for_subs (f : nat → bus_st unit) (ids : list nat) : bus_st unit :=
  match ids with
  | [] => mret tt
  | id :: ids' => _ ← f id; for_subs f ids'
  end.

Definition Publish (ev : Event) : bus_st unit := λ b,
  for_subs (publish_to ev) (elements (bus_subs b)) b.

Definition closeAll : bus_st unit := λ b, for_subs bus_close (elements (bus_subs b)) b.

(** ** No panic, and what a subscriber gets *)

Definition bus_inv (b : eventBus) : Prop :=
  (∀ id, id ∈ bus_subs b → ∃ c, bus_chans b !! id = Some c ∧ ch_closed c = false) ∧
  (∀ id c, bus_chans b !! id = Some c → chan_ok c).

Definition pushed (ev : Event) (c : chan Event) : chan Event :=
  mkChan (if (length (ch_buf c) <? ch_cap c)%nat then ch_buf c ++ [ev] else ch_buf c)
    (ch_cap c) (ch_closed c).

Lemma publish_to_ok ev id c b :
  bus_chans b !! id = Some c → ch_closed c = false →
  publish_to ev id b = (Ok tt, mkBus (bus_subs b) (<[id := pushed ev c]> (bus_chans b))).
Proof.
  intros Hc Ho. unfold publish_to, pushed, try_send. rewrite Hc, Ho.
  destruct c as [buf cap cl]. simpl in *. subst cl. by destruct (length buf <? cap)%nat.
Qed.

Lemma for_publish_ok ev ids b :
  NoDup ids →
  (∀ id, id ∈ ids → ∃ c, bus_chans b !! id = Some c ∧ ch_closed c = false) →
  ∃ chans, for_subs (publish_to ev) ids b = (Ok tt, mkBus (bus_subs b) chans) ∧
    ∀ id, chans !! id = (if bool_decide (id ∈ ids) then pushed ev <$> bus_chans b !! id
                         else bus_chans b !! id).
Proof.
  revert b. induction ids as [|i ids IH]; intros b Hnd Hopen.
  { exists (bus_chans b). split; [by destruct b|]. intros id.
    by rewrite bool_decide_eq_false_2 by apply not_elem_of_nil. }
  apply NoDup_cons in Hnd as [Hi Hnd]. destruct (Hopen i) as (c & Hc & Ho); [by left|].
  cbn [for_subs]. unfold mbind, st_bind. rewrite (publish_to_ok ev i c) by done.
  destruct (IH (mkBus (bus_subs b) (<[i := pushed ev c]> (bus_chans b))) Hnd) as (chans & E & Hch).
  { intros j Hj. simpl. rewrite lookup_insert_ne by (intros ->; done). apply Hopen. by right. }
  exists chans. split; [done|]. intros j. rewrite Hch. simpl.
  destruct (decide (j = i)) as [->|Hji].
  - rewrite (bool_decide_eq_false_2 (i ∈ ids)), (bool_decide_eq_true_2 (i ∈ i :: ids)) by (done || by left).
    by rewrite lookup_insert_eq, Hc.
  - rewrite lookup_insert_ne by done. destruct (decide (j ∈ ids)).
    + by rewrite !bool_decide_eq_true_2 by (done || by right).
    + by rewrite !bool_decide_eq_false_2 by (rewrite ?elem_of_cons; naive_solver).
Qed.

Lemma Publish_ok ev b :
  bus_inv b →
  ∃ b', Publish ev b = (Ok tt, b') ∧ bus_inv b' ∧ bus_subs b' = bus_subs b ∧
    ∀ id, bus_chans b' !! id =
      (if bool_decide (id ∈ bus_subs b) then pushed ev <$> bus_chans b !! id
       else bus_chans b !! id).
Proof.
  intros [H1 H2]. destruct (for_publish_ok ev (elements (bus_subs b)) b) as (chans & E & Hch).
  { apply NoDup_elements. }
  { intros id Hid. apply H1. by apply elem_of_elements in Hid. }
  setoid_rewrite (bool_decide_ext _ _ (elem_of_elements (bus_subs b) _)) in Hch.
  eexists. split; [exact E|]. split; [|by split]. split; simpl.
  - intros id Hid. rewrite Hch, bool_decide_eq_true_2 by done.
    destruct (H1 id Hid) as (c & -> & Ho). by eexists.
  - intros id c. rewrite Hch. case_bool_decide; [|apply H2].
    destruct (bus_chans b !! id) as [c0|] eqn:Ec; [|done]. intros [= <-].
    specialize (H2 id c0 Ec). unfold chan_ok, pushed in *. simpl.
    destruct (Nat.ltb_spec (length (ch_buf c0)) (ch_cap c0)); [|done].
    rewrite length_app. simpl. lia.
Qed.

Fixpoint publishes (evs : list Event) : bus_st unit :=
  match evs with [] => mret tt | ev :: evs' => _ ← Publish ev; publishes evs' end.

(** A subscriber that does not read keeps the oldest events: of the events
    published, its channel holds what was there and then the first ones that
    fit in its sixteen places, in order; the newest are the ones lost, and the
    publisher neither blocks nor panics. *)
Theorem bus_keeps_oldest id c b evs :
  bus_inv b → id ∈ bus_subs b → bus_chans b !! id = Some c →
  ∃ b' c', publishes evs b = (Ok tt, b') ∧ bus_chans b' !! id = Some c' ∧
    ch_buf c' = take (ch_cap c) (ch_buf c ++ evs).
Proof.
  revert b c. induction evs as [|ev evs IH]; intros b c Hinv Hid Hc.
  - exists b, c. do 2 (split; [done|]). rewrite app_nil_r, take_ge; [done|]. by apply Hinv in Hc.
  - destruct (Publish_ok ev b Hinv) as (b1 & E & Hinv1 & Hs & Hch).
    assert (bus_chans b1 !! id = Some (pushed ev c)) as Hc1
      by (by rewrite Hch, bool_decide_eq_true_2, Hc by done).
    destruct (IH b1 (pushed ev c) Hinv1) as (b' & c' & E' & Hc' & Hb); [by rewrite Hs|done|].
    exists b', c'. cbn [publishes]. unfold mbind, st_bind. rewrite E. do 2 (split; [done|]).
    rewrite Hb. unfold pushed. cbn [ch_cap ch_buf].
    destruct (Nat.ltb_spec (length (ch_buf c)) (ch_cap c)) as [Hl|Hl].
    + by rewrite <- app_assoc.
    + by rewrite !take_app_le by lia.
Qed.

Definition ev_n (n : Z) : Event := mkEv B"state" [n].

Lemma bus_keeps_oldest_witness :
  let b := (Subscribe 0 newEventBus).2 in
  ∃ b' c', publishes (ev_n <$> seqZ 0 20) b = (Ok tt, b') ∧ bus_chans b' !! 0%nat = Some c' ∧
    ch_buf c' = take 16 ([] ++ (ev_n <$> seqZ 0 20)).
Proof.
  intros b. apply (bus_keeps_oldest 0 (make_chan 16)).
  - split; simpl.
    + intros id Hid. assert (id = 0%nat) as -> by set_solver. by eexists.
    + intros id c. rewrite insert_empty, lookup_singleton_Some. intros [_ <-].
      unfold chan_ok. simpl. lia.
  - simpl. set_solver.
  - reflexivity.
Defined.

(** ** [Runner.UpdateState] and [handleEvents] *)

Section routes.
Context (marshal : StateFile → option (list byte)).

Record runner := mkRunner { rn_writer : option Writer; rn_bus : eventBus; rn_world : world }.

(** [state]: the marshaled value, [None] when marshaling fails (twice). *)
Definition Runner_UpdateState (plan : write_plan) (state : option gostring)
  : st runner bus_error unit := λ r,
  match rn_writer r with
  | None => (Err NotRunning, r)
  | Some wr =>
      let '(x, wr', w') := UpdateState marshal plan state wr (rn_world r) in
      match x with
      | Err e => (Err (BusStore e), mkRunner (Some wr') (rn_bus r) w')
      | Ok _ =>
          match state with
          | None => (Ok tt, mkRunner (Some wr') (rn_bus r) w')
          | Some data =>
              let '(y, b') := Publish (mkEv B"state" data) (rn_bus r) in
              (y, mkRunner (Some wr') b' w')
          end
      end
  end.

(** What an SSE client is sent: the state replayed first, if there is one, then
    the events of its channel.  [between] is what other goroutines do between
    the replay and [Subscribe], [live] what happens afterwards. *)
Definition handleEvents (id : nat) (between live : st runner bus_error unit) (r : runner)
  : list Event :=
  let snap := match rn_writer r with Some wr => sf_State (Writer_Snapshot wr) | None => [] end in
  let r1 := (between r).2 in
  let r2 := mkRunner (rn_writer r1) (Subscribe id (rn_bus r1)).2 (rn_world r1) in
  let r3 := (live r2).2 in
  (match snap with [] => [] | _ => [mkEv B"state" snap] end) ++
  match bus_chans (rn_bus r3) !! id with Some c => ch_buf c | None => [] end.

(** An update can be lost on an SSE stream.  A state written after the
    replay and before the subscription is in neither: the client has been sent
    the old state only, while the writer and every later [/state] request have
    the new one. *)
Theorem events_lost_update id wr b w old new plan r1 :
  sf_State (wr_state wr) = old → old ≠ [] → bus_inv b →
  let r := mkRunner (Some wr) b w in
  Runner_UpdateState plan (Some new) r = (Ok tt, r1) →
  handleEvents id (Runner_UpdateState plan (Some new)) (mret tt) r = [mkEv B"state" old] ∧
  ∃ wr', rn_writer r1 = Some wr' ∧ sf_State (Writer_Snapshot wr') = new.
Proof.
  intros Hold Hne Hb r Hup. unfold handleEvents. rewrite Hup. cbn [snd mret st_ret].
  unfold mret, st_ret. cbn [snd rn_bus Subscribe st_modify bus_chans].
  rewrite lookup_insert_eq. cbn [ch_buf make_chan]. unfold Writer_Snapshot.
  cbn [rn_writer r]. rewrite Hold. split; [by destruct old|].
  unfold Runner_UpdateState in Hup. cbn [rn_writer r] in Hup.
  unfold UpdateState, Update in Hup.
  destruct (flush _ _ _ _) as [[[]|e] w']; [|done].
  destruct (Publish _ _) as [y b']. injection Hup as -> <-. eexists. split; [done|]. done.
Qed.
End routes.

Lemma events_lost_update_witness :
  ∃ r1, let r := mkRunner (Some (mkWriter [B"s"] (mkStateFile empty_session [49]))) newEventBus
          (mkWorld ∅ ∅ ∅) in
  Runner_UpdateState (λ _, Some []) (good_plan [B"t"]) (Some [50]) r = (Ok tt, r1) ∧
  handleEvents 0 (Runner_UpdateState (λ _, Some []) (good_plan [B"t"]) (Some [50])) (mret tt) r =
    [mkEv B"state" [49]] ∧
  ∃ wr', rn_writer r1 = Some wr' ∧ sf_State (Writer_Snapshot wr') = [50].
Proof.
  eexists. intros r.
  match goal with |- ?P = (Ok tt, ?x) ∧ _ => assert (P = (Ok tt, (P).2)) as E by reflexivity end.
  split; [exact E|].
  apply (events_lost_update (λ _, Some []) 0 _ _ _ [49] [50] (good_plan [B"t"])).
  - reflexivity.
  - discriminate.
  - split; simpl; [set_solver|]. intros id c. by rewrite lookup_empty.
  - exact E.
Defined.
