(* ===== verification/Registry.v ===== *)
(** * [attach_registry.go] and the /attachments routes of [session.go]

    The registry of connected attachments and its mirror in state.json.  [Add]
    and [Remove] are two steps each: the change and the snapshot under [r.mu],
    then [writer.Update] outside of it; in sequence they keep the mirror exact
    ([registry_mirrors]), interleaved they do not ([registry_race]).  The ids
    come from any [IdGen]. *)
From S2P Require Import Prelude GoBase Wire State ShortId Store.
From stdpp Require Import sorting.
Open Scope Z_scope.

Record registeredAttach := mkReg {
  reg_record : AttachmentRecord;
  reg_close : nat                  (** the connection its [closeFunc] closes *)
}.

Section registry.
Context {R : Type} {IG : IdGen R} (marshal : StateFile → option (list byte)).

Record attachRegistry := mkRegistry {
  rg_members : gmap gostring registeredAttach;
  rg_gen : R                       (** the generator behind [shortid.Generate] *)
}.

(** [a.After(b)] *)
Definition After (a b : AttachmentRecord) : bool := Before (ar_StartedAt b) (ar_StartedAt a).

(** The inner loop of the insertion sort: [x] moves left past the records that
    are after it; [p] is the prefix, from right to left. *)
Fixpoint sift (x : AttachmentRecord) (p : list AttachmentRecord) : list AttachmentRecord :=
  match p with
  | [] => [x]
  | y :: p' => if After y x then y :: sift x p' else x :: p
  end.

Definition insertion_sort (l : list AttachmentRecord) : list AttachmentRecord :=
  reverse (foldl (λ p x, sift x p) [] l).

(** [snapshotLocked]; the map is ranged over in some order. *)
Definition snapshotLocked (r : attachRegistry) : list AttachmentRecord :=
  insertion_sort (reg_record <$> (map_to_list (rg_members r)).*2).

(** [Add], under the lock. *)
Definition add_locked (now : time) (size : PTYSize) (origin : Origin) (close : nat)
    (r : attachRegistry) : res gen_error (gostring * list AttachmentRecord) * attachRegistry :=
  let '(x, g) := gen_id (dom (rg_members r)) (rg_gen r) in
  match x with
  | Err e => (Err e, mkRegistry (rg_members r) g)
  | Ok id =>
      let rec := mkAttRec id now size (if Origin_IsZero origin then None else Some origin) in
      let r := mkRegistry (<[id := mkReg rec close]> (rg_members r)) g in
      (Ok (id, snapshotLocked r), r)
  end.

(** [Remove], under the lock. *)
Definition remove_locked (id : gostring) (r : attachRegistry)
  : option (list AttachmentRecord) * attachRegistry :=
  match rg_members r !! id with
  | None => (None, r)
  | Some _ =>
      let r := mkRegistry (delete id (rg_members r)) (rg_gen r) in (Some (snapshotLocked r), r)
  end.

(** The update function both hand to [writer.Update]. *)
Definition set_attachments (snap : list AttachmentRecord) (s : StateFile) : StateFile :=
  let ss := sf_Session s in
  mkStateFile (mkSessionState (ss_Key ss) (ss_PID ss) (ss_CreatedAt ss) (ss_Argv ss) (ss_CWD ss)
    (ss_Size ss) (ss_NoHistory ss) snap) (sf_State s).

Definition set_size (size : PTYSize) (s : StateFile) : StateFile :=
  let ss := sf_Session s in
  mkStateFile (mkSessionState (ss_Key ss) (ss_PID ss) (ss_CreatedAt ss) (ss_Argv ss) (ss_CWD ss)
    size (ss_NoHistory ss) (ss_Attachments ss)) (sf_State s).

(** The writer and the disk, threaded by the second step. *)
Definition disk : Type := Writer * world.

(** [_ = r.writer.Update(...)]: the error is dropped. *)
Definition persist (plan : write_plan) (fn : StateFile → StateFile) (d : disk) : disk :=
  let '(_, wr, w) := Update marshal plan fn d.1 d.2 in (wr, w).

Definition Add (plan : write_plan) (now : time) (size : PTYSize) (origin : Origin) (close : nat)
    (r : attachRegistry) (d : disk) : res gen_error gostring * attachRegistry * disk :=
  match add_locked now size origin close r with
  | (Err e, r) => (Err e, r, d)
  | (Ok (id, snap), r) => (Ok id, r, persist plan (set_attachments snap) d)
  end.

Definition Remove (plan : write_plan) (id : gostring) (r : attachRegistry) (d : disk)
  : attachRegistry * disk :=
  match remove_locked id r with
  | (None, r) => (r, d)
  | (Some snap, r) => (r, persist plan (set_attachments snap) d)
  end.

(** [Close]: the connection to close, [None] for an unknown id. *)
Definition Close (id : gostring) (r : attachRegistry) : option nat :=
  reg_close <$> rg_members r !! id.

(** [CloseAll]: every connection; its length is the count returned. *)
Definition CloseAll (r : attachRegistry) : list nat :=
  reg_close <$> (map_to_list (rg_members r)).*2.

Definition SetEffectiveSize (plan : write_plan) (size : PTYSize) (d : disk) : disk :=
  persist plan (set_size size) d.

Definition Snapshot (r : attachRegistry) : list AttachmentRecord := snapshotLocked r.

(** [handleAttachmentsRoot] and [handleAttachmentByID]: the HTTP status and the
    connections closed. *)
Definition handleAttachmentsRoot (is_delete : bool) (r : attachRegistry) : Z * list nat :=
  if negb is_delete then (405, []) else (204, CloseAll r).

Definition handleAttachmentByID (is_delete : bool) (id : gostring) (r : attachRegistry)
  : Z * list nat :=
  if negb is_delete then (405, [])
  else match id with
       | [] => (400, [])
       | _ => match Close id r with None => (404, []) | Some c => (204, [c]) end
       end.

(** ** The snapshot *)

(** In order of arrival. *)
Definition not_after (a b : AttachmentRecord) : Prop := After a b = false.

Lemma sift_perm x p : sift x p ≡ₚ x :: p.
Proof.
  induction p as [|y p IH]; [done|]. cbn [sift]. destruct (After y x); [|done].
  rewrite IH. apply Permutation_swap.
Qed.

Lemma Before_trans a b c : Before b a = false → Before c b = false → Before c a = false.
Proof. destruct a, b, c; simpl; try done. intros. lia. Qed.

Lemma Before_asym a b : Before a b = true → Before b a = false.
Proof. destruct a, b; simpl; try done. intros. lia. Qed.

(** The prefix, right to left, never has a later record after an earlier one. *)
Definition desc (p : list AttachmentRecord) : Prop := StronglySorted (λ y x, not_after x y) p.

Lemma sift_desc x p : desc p → desc (sift x p).
Proof.
  unfold desc. induction 1 as [|y p Hs IH Hy]; cbn [sift]; [by repeat constructor|].
  destruct (After y x) eqn:E.
  - constructor; [done|]. rewrite sift_perm. constructor; [|done].
    unfold not_after, After in *. by apply Before_asym.
  - constructor; [by constructor|]. constructor; [done|].
    eapply Forall_impl; [exact Hy|]. intros z Hz. unfold not_after, After in *.
    by apply (Before_trans _ (ar_StartedAt y)).
Qed.

Lemma StronglySorted_reverse (P : relation AttachmentRecord) p :
  StronglySorted (λ y x, P x y) p → StronglySorted P (reverse p).
Proof.
  induction 1 as [|y p Hs IH Hy]; [constructor|]. rewrite reverse_cons.
  apply StronglySorted_app_2; [|done|by repeat constructor].
  intros a b Ha ->%list_elem_of_singleton. rewrite elem_of_reverse in Ha.
  by apply (proj1 (Forall_forall _ _) Hy).
Qed.

Lemma insertion_sort_spec l :
  insertion_sort l ≡ₚ l ∧ StronglySorted not_after (insertion_sort l).
Proof.
  unfold insertion_sort. assert (∀ p, desc p →
    foldl (λ p x, sift x p) p l ≡ₚ p ++ l ∧ desc (foldl (λ p x, sift x p) p l)) as H.
  { induction l as [|x l IH]; intros p Hp; cbn [foldl]; [by rewrite app_nil_r|].
    destruct (IH (sift x p) (sift_desc x p Hp)) as [H1 H2]. split; [|done].
    rewrite H1, sift_perm. simpl. by rewrite Permutation_middle. }
  destruct (H [] ltac:(constructor)) as [H1 H2]. split.
  - by rewrite reverse_Permutation.
  - by apply StronglySorted_reverse.
Qed.

(** ** The mirror *)

Inductive reg_op :=
| RAdd (plan : write_plan) (now : time) (size : PTYSize) (origin : Origin) (close : nat)
| RRemove (plan : write_plan) (id : gostring)
| RSize (plan : write_plan) (size : PTYSize).

Definition reg_step (op : reg_op) (s : attachRegistry * disk) : attachRegistry * disk :=
  match op with
  | RAdd plan now size origin close =>
      let '(_, r, d) := Add plan now size origin close s.1 s.2 in (r, d)
  | RRemove plan id => Remove plan id s.1 s.2
  | RSize plan size => (s.1, SetEffectiveSize plan size s.2)
  end.

Definition attachments (d : disk) : list AttachmentRecord :=
  ss_Attachments (sf_Session (wr_state d.1)).

Lemma persist_state plan fn d : wr_state (persist plan fn d).1 = fn (wr_state d.1).
Proof. unfold persist, Update. by destruct (flush _ _ _ _) as [x w]. Qed.

Lemma reg_step_mirror op s :
  attachments s.2 = snapshotLocked s.1 → attachments (reg_step op s).2 = snapshotLocked (reg_step op s).1.
Proof.
  destruct s as [r d]. cbn [fst snd]. intros H. destruct op as [plan now size origin close|plan id|plan size];
    cbn [reg_step fst snd].
  - unfold Add, add_locked. destruct (gen_id _ _) as [[id|e] g]; cbn [fst snd]; [|done].
    unfold attachments. by rewrite persist_state.
  - unfold Remove, remove_locked. destruct (rg_members r !! id); [|done]. cbn [fst snd].
    unfold attachments. by rewrite persist_state.
  - unfold SetEffectiveSize, attachments in *. by rewrite persist_state.
Qed.

(** C35: The mirror.  As long as joins, departures and size changes do not
    overlap, the attachments the writer holds are, after each of them, one
    record per connected attachment, in order of arrival; a new attachment has
    an id nobody else has. *)
Theorem registry_mirrors ops g d plan now size origin close :
  attachments d = [] →
  let s := foldl (λ s op, reg_step op s) (mkRegistry ∅ g, d) ops in
  attachments s.2 ≡ₚ reg_record <$> (map_to_list (rg_members s.1)).*2 ∧
  StronglySorted not_after (attachments s.2) ∧
  ∀ id r' d', Add plan now size origin close s.1 s.2 = (Ok id, r', d') →
    rg_members s.1 !! id = None ∧
    ∃ m, rg_members r' = <[id := m]> (rg_members s.1) ∧ ar_ID (reg_record m) = id.
Proof.
  intros H0 s.
  assert (attachments s.2 = snapshotLocked s.1) as E.
  { subst s. assert (attachments (mkRegistry ∅ g, d).2 = snapshotLocked (mkRegistry ∅ g, d).1) as Hs
      by (cbn [snd fst]; rewrite H0; reflexivity).
    revert Hs. generalize (mkRegistry ∅ g, d). induction ops as [|op ops IH]; intros s Hs; [done|].
    cbn [foldl]. by apply IH, reg_step_mirror. }
  rewrite E. destruct (insertion_sort_spec (reg_record <$> (map_to_list (rg_members s.1)).*2)).
  split; [done|]. split; [done|]. intros id r' d'. unfold Add, add_locked.
  destruct (gen_id _ _) as [[i|e] g'] eqn:Eg; [|done]. intros [= -> <- _].
  apply gen_id_fresh in Eg. split; [by apply not_elem_of_dom|]. eexists. by split.
Qed.

(** The mirror can be left stale.  Two attachments join at the same time;
    each takes its snapshot under the lock, and the second to take it is the
    first to write.  state.json ends up without the second attachment, which is
    connected, until some later join or departure. *)
Theorem registry_race r d plan1 plan2 now1 now2 size1 size2 o1 o2 c1 c2 id1 id2 snap1 snap2 r1 r2 :
  add_locked now1 size1 o1 c1 r = (Ok (id1, snap1), r1) →
  add_locked now2 size2 o2 c2 r1 = (Ok (id2, snap2), r2) →
  (∀ id m, rg_members r !! id = Some m → ar_ID (reg_record m) = id) →
  let d' := persist plan1 (set_attachments snap1) (persist plan2 (set_attachments snap2) d) in
  is_Some (rg_members r2 !! id2) ∧
  ¬ ∃ a, a ∈ attachments d' ∧ ar_ID a = id2.
Proof.
  intros H1 H2 Hids d'. unfold add_locked in H1, H2.
  destruct (gen_id (dom (rg_members r)) _) as [[i1|e] g1] eqn:E1; [|done]. injection H1 as -> <- <-.
  cbn [rg_members rg_gen] in H2.
  destruct (gen_id (dom (<[id1 := _]> _)) _) as [[i2|e] g2] eqn:E2; [|done]. injection H2 as -> <- <-.
  split; [cbn; rewrite lookup_insert_eq; by eexists|]. intros (a & Ha & Hid).
  unfold attachments, d' in Ha. rewrite persist_state in Ha. cbn [set_attachments sf_Session ss_Attachments] in Ha.
  unfold snapshotLocked in Ha. rewrite (proj1 (insertion_sort_spec _)) in Ha. cbn [rg_members] in Ha.
  apply list_elem_of_fmap in Ha as (m & -> & Hm).
  apply list_elem_of_fmap in Hm as ([id m'] & -> & Hm). apply elem_of_map_to_list in Hm.
  cbn [snd] in Hid. apply gen_id_fresh in E2. rewrite not_elem_of_dom in E2.
  apply lookup_insert_Some in Hm as [[<- <-]|[Hne Hm]].
  - cbn in Hid. subst id2. by rewrite lookup_insert_eq in E2.
  - apply Hids in Hm as Hid'. rewrite Hid in Hid'. subst id.
    by rewrite lookup_insert_ne, Hm in E2 by done.
Qed.
End registry.

Arguments attachRegistry R : clear implicits.

(** An id generator for examples: the numbers, one byte each. *)
Program Definition counter_gen : IdGen Z := {|
  gen_id existing n := if bool_decide ([n] ∈ existing) then (Err GenExhausted, n) else (Ok [n], n + 1)
|}.
Next Obligation. intros ex n s n' H. cbn in H. case_bool_decide; [done|]. by injection H as <- <-. Qed.

(** A disk nobody else uses, for examples. *)
Definition example_plan : write_plan := mkPlan [B"tmp"] None None None None None.
Definition example_disk : disk :=
  (mkWriter [B"k"] empty_state, mkWorld ∅ {[[B"k"]]} {[[B"k"]]}).

Lemma registry_mirrors_witness :
  attachments example_disk = [] ∧
  let s := foldl (λ s op, reg_step (IG := counter_gen) (λ _, Some []) op s) (mkRegistry ∅ 1, example_disk)
             [RAdd example_plan (Some 5) (mkSize 24 80) (mkOrigin [] [] [] [] []) 7] in
  attachments s.2 ≡ₚ reg_record <$> (map_to_list (rg_members s.1)).*2 ∧ attachments s.2 ≠ [].
Proof.
  split; [reflexivity|]. split.
  - apply (registry_mirrors (IG := counter_gen) (λ _, Some []) _ 1 example_disk example_plan None
      (mkSize 1 1) (mkOrigin [] [] [] [] []) 0). reflexivity.
  - vm_compute. discriminate.
Defined.

Lemma registry_race_witness :
  let r := mkRegistry ∅ 1 in
  ∃ id1 snap1 r1 id2 snap2 r2,
    add_locked (IG := counter_gen) (Some 5) (mkSize 24 80) (mkOrigin [] [] [] [] []) 7 r = (Ok (id1, snap1), r1) ∧
    add_locked (IG := counter_gen) (Some 6) (mkSize 24 80) (mkOrigin [] [] [] [] []) 8 r1 = (Ok (id2, snap2), r2) ∧
    is_Some (rg_members r2 !! id2).
Proof.
  intros r.
  assert (∃ id1 snap1 r1, add_locked (IG := counter_gen) (Some 5) (mkSize 24 80) (mkOrigin [] [] [] [] []) 7 r
    = (Ok (id1, snap1), r1) ∧ ∃ id2 snap2 r2,
    add_locked (IG := counter_gen) (Some 6) (mkSize 24 80) (mkOrigin [] [] [] [] []) 8 r1
    = (Ok (id2, snap2), r2)) as (id1 & snap1 & r1 & E1 & id2 & snap2 & r2 & E2).
  { do 3 eexists. split; [vm_compute; reflexivity|]. do 3 eexists. vm_compute. reflexivity. }
  exists id1, snap1, r1, id2, snap2, r2. split; [done|]. split; [done|].
  apply (registry_race (IG := counter_gen) (λ _, Some []) r example_disk example_plan example_plan
    _ _ _ _ _ _ _ _ _ _ _ _ _ _ E1 E2).
  intros id m H. exact (False_ind _ (eq_ind None (λ o, match o with None => True | Some _ => False end) I _ H)).
Defined.
