(* ===== verification/AttachHandler.v ===== *)
(** * [attach_handler.go]: one attachment, from upgrade to teardown

    [serveOne] is three goroutines: the main one, the writer that empties
    [outCh] onto the connection, and the live one that moves PTY output into
    [outCh].  A state is the server they share (PTY, [AttachSet], registry) and
    this attachment's program counters and channels; an event is one step of one
    goroutine, of another client, or of the PTY; a step may be taken, block, or
    panic.  Frames are not cut into bytes here ([Wire] does): a frame whose
    write failed is kept as [WFailed].  The registry's two halves run as one
    step ([Registry.registry_race] is about them apart).  JSON decoding is a
    parameter. *)
From S2P Require Import Prelude GoBase StreamFilter QueryStripper PrimaryFilter Recorder Recording Terminal Channel Wire State ShortId Store Pty PtySafety AttachSet Registry.
Open Scope Z_scope.

Inductive attach_error :=
| AeReadHello (e : wire_error) | AeExpectedHello (typ : Z) | AeDecodeHello | AeHelloSize
| AeRegistryAdd (e : gen_error) | AeSnapshot (e : pty_error)
| AeRead (e : wire_error) | AeMasterWrite (e : pty_error) | AeDecodeSize
| AeUnexpectedHello | AeUnexpectedFrame (typ : Z) | AeUnknownFrame (typ : Z)
| AePanicked.                                       (** it does not return: [net/http] recovers the panic *)

(** ** [ServeHTTP] *)

(** What the request and the connection offer. *)
Record upgrade := mkUpgrade {
  up_get : bool; up_header : list byte; up_hijacker : bool;
  up_hijack : option io_error; up_write : option io_error; up_flush : option io_error
}.

Inductive upgrade_result := Refused (status : Z) | Dropped | Upgraded (reply : list byte).

Definition crlf : list byte := [13; 10].

Definition switching : list byte :=
  B"HTTP/1.1 101 Switching Protocols" ++ crlf ++ B"Upgrade: hoot-attach/1" ++ crlf ++
  B"Connection: Upgrade" ++ crlf ++ crlf.

Definition ServeHTTP (u : upgrade) : upgrade_result :=
  if negb (up_get u) then Refused 405
  else match up_header u with
       | [] => Refused 400
       | _ =>
           if negb (up_hijacker u) then Refused 500
           else match up_hijack u with
                | Some _ => Refused 500
                | None =>
                    match up_write u, up_flush u with
                    | None, None => Upgraded switching
                    | _, _ => Dropped
                    end
                end
       end.

(** [errors.Is(err, io.EOF)]; [%w] keeps the cause. *)
Definition is_io_eof (e : attach_error) : bool :=
  match e with
  | AeReadHello (WireIO EOF) | AeRead (WireIO EOF)
  | AeMasterWrite (PtyIO EOF) => true
  | _ => false
  end.

(** The message for an error; [text] is [err.Error()]. *)
Definition error_notice (text : attach_error → list byte) (e : attach_error) : list byte :=
  crlf ++ ESC :: B"[31m[attach detached: " ++ text e ++ B"]" ++ ESC :: B"[0m" ++ crlf.

(** The frame pushed after a failed [serveOne].  None
    after a panic, which leaves [ServeHTTP] too. *)
Definition final_notice (text : attach_error → list byte) (r : res attach_error unit) : option wframe :=
  match r with
  | Err AePanicked => None
  | Err e =>
      if is_io_eof e then None
      else Some (MsgOutput, error_notice text e)
  | Ok _ => None
  end.

Definition detachReason : list byte :=
  crlf ++ ESC :: B"[33m[detached by hoot detach]" ++ ESC :: B"[0m" ++ crlf.

(** A JSON string without characters to escape. *)
Definition quoted (s : list byte) : list byte := 34 :: s ++ [34].

(** [json.Marshal(attachwire.Size{...})] *)
Definition marshal_size (ws : PTYSize) : list byte :=
  [123] ++ quoted B"cols" ++ [58] ++ Itoa (Cols ws) ++ [44] ++ quoted B"rows" ++ [58] ++ Itoa (Rows ws) ++ [125].

(** ** The goroutines *)

(** The program counter of [serveOne]; [r] is what it will return. *)
Inductive pc :=
| PcHello
| PcFirstSize (hello : Hello) (eff : PTYSize)      (** in [set]; the first [Size] to send *)
| PcRegister (hello : Hello)
| PcSubscribe
| PcScrollback (scrollback screen : list byte)
| PcScreen (screen : list byte)
| PcLoop                                            (** [clientReadLoop] *)
| PcPong
| PcSendSize (eff : PTYSize)                        (** [Update] tells its own client *)
| PcCancelSub (r : attach_error)
| PcJoinLive (r : attach_error)                     (** [<-liveDone] *)
| PcCloseOut (r : attach_error)
| PcJoinWriter (r : attach_error)                   (** [<-writerDone] *)
| PcUnregister (r : res attach_error unit)          (** the deferred calls *)
| PcRemove (r : res attach_error unit)
| PcDone (r : res attach_error unit)
| PcLost.                                           (** unwound inside [set.Add]: no [Remove] was deferred yet *)

Inductive writer_st := WRunning | WFailed (lost : wframe) (e : wire_error) | WDone.
Inductive live_st := LNone | LRunning | LHolding (chunk : list byte) | LDone.

(** [forcedDetach]: not called; the notice written (or its write failed); the
    connection closed.  [writeMu] is free in between. *)
Inductive forced_st := FIdle | FNoticed | FClosed.

Record attach := mkAttach {
  at_pc : pc;
  at_out : chan wframe;                  (** [outCh] *)
  at_writer : writer_st;
  at_live : live_st;
  at_wire : list wframe;                 (** written by the writer goroutine *)
  at_forced : forced_st;
  at_id : option gostring;               (** [attachID] *)
  at_pending : list PTYSize;             (** [sendSize] calls other goroutines are in *)
  at_parts : option (list byte * list byte);  (** history: the snapshot sent *)
  at_recv : list (list byte)             (** history: the chunks taken from [liveCh] *)
}.

Definition with_pc (x : pc) (a : attach) : attach :=
  mkAttach x (at_out a) (at_writer a) (at_live a) (at_wire a) (at_forced a) (at_id a)
    (at_pending a) (at_parts a) (at_recv a).
Definition with_out (c : chan wframe) (a : attach) : attach :=
  mkAttach (at_pc a) c (at_writer a) (at_live a) (at_wire a) (at_forced a) (at_id a)
    (at_pending a) (at_parts a) (at_recv a).
Definition with_writer (c : chan wframe) (w : writer_st) (wire : list wframe) (a : attach) : attach :=
  mkAttach (at_pc a) c w (at_live a) wire (at_forced a) (at_id a)
    (at_pending a) (at_parts a) (at_recv a).
Definition with_live (l : live_st) (recv : list (list byte)) (a : attach) : attach :=
  mkAttach (at_pc a) (at_out a) (at_writer a) l (at_wire a) (at_forced a) (at_id a)
    (at_pending a) (at_parts a) recv.
Definition with_pending (l : list PTYSize) (a : attach) : attach :=
  mkAttach (at_pc a) (at_out a) (at_writer a) (at_live a) (at_wire a) (at_forced a) (at_id a)
    l (at_parts a) (at_recv a).
Definition with_id (i : option gostring) (a : attach) : attach :=
  mkAttach (at_pc a) (at_out a) (at_writer a) (at_live a) (at_wire a) (at_forced a) i
    (at_pending a) (at_parts a) (at_recv a).
Definition with_forced (x : forced_st) (a : attach) : attach :=
  mkAttach (at_pc a) (at_out a) (at_writer a) (at_live a) (at_wire a) x (at_id a)
    (at_pending a) (at_parts a) (at_recv a).
Definition with_parts (p : list byte * list byte) (a : attach) : attach :=
  mkAttach (at_pc a) (at_out a) (at_writer a) (at_live a) (at_wire a) (at_forced a) (at_id a)
    (at_pending a) (Some p) (at_recv a).

Definition new_attach : attach :=
  mkAttach PcHello (make_chan 256) WRunning LNone [] FIdle None [] None [].

(** What a step comes to. *)
Inductive outcome (A : Type) := Blocked | Panicked | Stepped (a : A).
Arguments Blocked {A}.
Arguments Panicked {A}.
Arguments Stepped {A} a.

(** [outCh <- m]: blocks while the channel is full, panics once it is closed. *)
Definition send (f : wframe) (a : attach) : outcome attach :=
  if ch_closed (at_out a) then Panicked
  else if (length (ch_buf (at_out a)) <? ch_cap (at_out a))%nat
  then Stepped (with_out (mkChan (ch_buf (at_out a) ++ [f]) (ch_cap (at_out a)) false) a)
  else Blocked.

(** [sendSize] *)
Definition size_frame (ws : PTYSize) : wframe := (MsgSize, marshal_size ws).

(** One turn of the writer goroutine; [werr] is what the connection answers. *)
Definition writer_step (werr : option io_error) (a : attach) : outcome attach :=
  match at_writer a with
  | WRunning =>
      match recv (at_out a) with
      | (RecvBlocks, _) => Blocked
      | (RecvClosed, c) => Stepped (with_writer c WDone (at_wire a) a)
      | (Received f, c) =>
          if MaxPayload <? Z.of_nat (length f.2)
          then Stepped (with_writer c (WFailed f (ErrPayloadMax (Z.of_nat (length f.2)))) (at_wire a) a)
          else match werr, at_forced a with
               | Some e, _ => Stepped (with_writer c (WFailed f (WireIO e)) (at_wire a) a)
               | None, FClosed => Stepped (with_writer c (WFailed f (WireIO (ErrIO 9))) (at_wire a) a)
               | None, _ => Stepped (with_writer c WRunning (at_wire a ++ [f]) a)
               end
      end
  | _ => Blocked
  end.

(** [closeOnce.Do]'s function, one call at a time: the notice, then [Close]. *)
Definition forcedDetach (a : attach) : outcome attach :=
  match at_forced a with
  | FIdle => Stepped (with_forced FNoticed a)
  | FNoticed => Stepped (with_forced FClosed a)
  | FClosed => Blocked
  end.

Definition writer_done (w : writer_st) : bool := match w with WRunning => false | _ => true end.

Section handler.
Context {T : Type} {TO : TermOps T} {R : Type} {IG : IdGen R}.
Context (marshal : StateFile → option (list byte)).
Context (unmarshal_hello : list byte → option Hello) (unmarshal_size : list byte → option PTYSize).
Context (noHistory : bool).

(** What all attachments share. *)
Record server := mkServer {
  sv_pty : LibghosttyPTY T;
  sv_set : AttachSet;
  sv_reg : option (attachRegistry R * disk)
}.

(** What the world answers while an [AttachSet] operation applies a size. *)
Record size_answers := mkAnswers {
  an_setsize : res io_error unit; an_now : Z; an_plan : write_plan
}.

(** The [sizeApplier] of [newAttachHandler]. *)
Definition size_applier (an : size_answers) (ws : option PTYSize) (sv : server) : server :=
  match ws with
  | None => sv
  | Some ws =>
      mkServer (Resize (an_setsize an) (an_now an) (Cols ws) (Rows ws) (sv_pty sv)).2 (sv_set sv)
        (match sv_reg sv with
         | None => None
         | Some (r, d) => Some (r, SetEffectiveSize marshal (an_plan an) ws d)
         end)
  end.

Definition set_call (an : size_answers) (op : set_op) (sv : server) : set_result * server :=
  let r := set_step op (sv_set sv) in
  (r, size_applier an (res_apply r) (mkServer (sv_pty sv) (res_set r) (sv_reg sv))).

Definition with_pty (p : LibghosttyPTY T) (sv : server) : server :=
  mkServer p (sv_set sv) (sv_reg sv).

Definition with_reg (g : option (attachRegistry R * disk)) (sv : server) : server :=
  mkServer (sv_pty sv) (sv_set sv) g.

(** This attachment: its connection in the set and its live channel. *)
Context (self : conn) (liveCh : chan_id).

Definition sys : Type := attach * server.

(** A blocking send by the main goroutine, which then goes on at [x]. *)
Definition send_then (f : wframe) (x : pc) (s : sys) : outcome sys :=
  match send f s.1 with
  | Stepped a => Stepped (with_pc x a, s.2)
  | Blocked => Blocked
  | Panicked => Panicked
  end.

Definition goto (x : pc) (s : sys) : outcome sys := Stepped (with_pc x s.1, s.2).

(** The start of [serveOne], up to [set.Add]. *)
Definition hello_step (an : size_answers) (x : res wire_error wframe) (s : sys) : outcome sys :=
  match x with
  | Err e => goto (PcDone (Err (AeReadHello e))) s
  | Ok (typ, payload) =>
      if negb (typ =? MsgHello) then goto (PcDone (Err (AeExpectedHello typ))) s
      else match unmarshal_hello payload with
           | None => goto (PcDone (Err AeDecodeHello)) s
           | Some h =>
               if (Cols (hello_Size h) =? 0) || (Rows (hello_Size h) =? 0)
               then goto (PcDone (Err AeHelloSize)) s
               else
                 let '(r, sv) := set_call an (SAdd self (hello_Size h)) s.2 in
                 Stepped (with_pc (PcFirstSize h (res_eff r)) s.1, sv)
           end
  end.

Definition register_step (plan : write_plan) (now : time) (h : Hello) (s : sys) : outcome sys :=
  match sv_reg s.2 with
  | None => goto PcSubscribe s
  | Some (r, d) =>
      match Add marshal plan now (hello_Size h) (hello_Origin h) self r d with
      | (Err e, r, d) =>
          Stepped (with_pc (PcRemove (Err (AeRegistryAdd e))) s.1, mkServer (sv_pty s.2) (sv_set s.2) (Some (r, d)))
      | (Ok id, r, d) =>
          Stepped (with_id (Some id) (with_pc PcSubscribe s.1), mkServer (sv_pty s.2) (sv_set s.2) (Some (r, d)))
      end
  end.

Definition subscribe_step (s : sys) : outcome sys :=
  match SubscribeWithSnapshotParts liveCh (sv_pty s.2) with
  | (Err e, p) => Stepped (with_pc (PcUnregister (Err (AeSnapshot e))) s.1, with_pty p s.2)
  | (Ok (scrollback, screen), p) =>
      let scrollback := if noHistory then [] else scrollback in
      Stepped (with_parts (scrollback, screen) (with_pc (PcScrollback scrollback screen) s.1), with_pty p s.2)
  end.

(** One turn of [clientReadLoop]. *)
Definition read_step (an : size_answers) (x : res wire_error wframe) (s : sys) : outcome sys :=
  match x with
  | Err e => goto (PcCancelSub (AeRead e)) s
  | Ok (typ, payload) =>
      if typ =? MsgInput then
        match Write payload (sv_pty s.2) with
        | (Err e, p) => Stepped (with_pc (PcCancelSub (AeMasterWrite e)) s.1, with_pty p s.2)
        | (Ok _, p) => Stepped (s.1, with_pty p s.2)
        end
      else if typ =? MsgSize then
        match unmarshal_size payload with
        | None => goto (PcCancelSub AeDecodeSize) s
        | Some ws =>
            if (Cols ws =? 0) || (Rows ws =? 0) then Stepped s
            else
              let '(r, sv) := set_call an (SUpdate self ws) s.2 in
              Stepped (if bool_decide (self ∈ res_receivers r)
                       then with_pc (PcSendSize (res_eff r)) s.1 else s.1, sv)
        end
      else if typ =? MsgPing then goto PcPong s
      else if typ =? MsgHello then goto (PcCancelSub AeUnexpectedHello) s
      else if (typ =? MsgOutput) || (typ =? MsgPong) then goto (PcCancelSub (AeUnexpectedFrame typ)) s
      else goto (PcCancelSub (AeUnknownFrame typ)) s
  end.

(** What [serveOne] returns after a tear-down. *)
Definition serve_result (e : attach_error) : res attach_error unit :=
  if is_io_eof e then Ok tt else Err e.

(** The live goroutine. *)
Definition live_step (s : sys) : outcome sys :=
  let '(a, sv) := s in
  match at_live a with
  | LRunning =>
      match recv_sub liveCh (sv_pty sv) with
      | (Ok (Received chunk), p) =>
          Stepped (with_live (LHolding chunk) (at_recv a ++ [chunk]) a, with_pty p sv)
      | (Ok RecvClosed, p) => Stepped (with_live LDone (at_recv a) a, with_pty p sv)
      | _ => Blocked
      end
  | LHolding chunk =>
      match send (MsgOutput, chunk) a with
      | Stepped a => Stepped (with_live LRunning (at_recv a) a, sv)
      | Blocked => Blocked
      | Panicked => Panicked
      end
  | _ => Blocked
  end.

Definition cancelSub (sv : server) : server := with_pty (cancel liveCh (sv_pty sv)).2 sv.

(** A step of the main goroutine that needs nothing from the connection. *)
Definition main_step (an : size_answers) (s : sys) : outcome sys :=
  let '(a, sv) := s in
  match at_pc a with
  | PcHello | PcLoop | PcDone _ | PcLost => Blocked
  | PcFirstSize h eff => send_then (size_frame eff) (PcRegister h) s
  | PcRegister h => register_step (an_plan an) (Some (an_now an)) h s
  | PcSubscribe => subscribe_step s
  | PcScrollback scrollback screen =>
      send_then (MsgSnapshotScrollback, scrollback) (PcScreen screen) s
  | PcScreen screen =>
      match send_then (MsgSnapshotScreen, screen) PcLoop s with
      | Stepped (a, sv) => Stepped (with_live LRunning (at_recv a) a, sv)
      | x => x
      end
  | PcPong => send_then (MsgPong, []) PcLoop s
  | PcSendSize eff => send_then (size_frame eff) PcLoop s
  | PcCancelSub r => Stepped (with_pc (PcJoinLive r) a, cancelSub sv)
  | PcJoinLive r =>
      match at_live a with LDone => goto (PcCloseOut r) s | _ => Blocked end
  | PcCloseOut r =>
      Stepped (with_pc (PcJoinWriter r)
        (with_out (mkChan (ch_buf (at_out a)) (ch_cap (at_out a)) true) a), sv)
  | PcJoinWriter r =>
      if writer_done (at_writer a)
      then Stepped (with_pc (PcUnregister (serve_result r)) a, cancelSub sv)
      else Blocked
  | PcUnregister r =>
      Stepped (with_pc (PcRemove r) a,
        match sv_reg sv, at_id a with
        | Some (g, d), Some id =>
            let '(g, d) := Registry.Remove marshal (an_plan an) id g d in
            mkServer (sv_pty sv) (sv_set sv) (Some (g, d))
        | _, _ => sv
        end)
  | PcRemove r => Stepped (with_pc (PcDone r) a, (set_call an (SRemove self) sv).2)
  end.

(** A [sendSize] call to another client panics: its queue was closed.  The panic
    unwinds [serveOne] and [ServeHTTP]; [net/http] recovers it.  The deferred calls
    run; in [set.Add] none is deferred yet, in the deferred [set.Remove] none is
    left.  The writer goroutine is not told. *)
Definition unwind_step (s : sys) : outcome sys :=
  let '(a, sv) := s in
  match at_pc a with
  | PcFirstSize _ _ => goto PcLost s
  | PcLoop | PcSendSize _ => Stepped (with_pc (PcUnregister (Err AePanicked)) a, cancelSub sv)
  | PcDone _ => goto (PcDone (Err AePanicked)) s
  | _ => Blocked
  end.

(** ** Events *)

Inductive event :=
| EvHello (an : size_answers) (x : res wire_error wframe)
| EvMain (an : size_answers)
| EvRead (an : size_answers) (x : res wire_error wframe)
| EvWriter (werr : option io_error)
| EvLive
| EvOther (an : size_answers) (op : set_op)   (** another client's [set] operation *)
| EvDeliver (k : nat)                          (** it comes to this client's [sendSize] *)
| EvPty (op : pty_op)
| EvReg (op : reg_op)                          (** another client's registration *)
| EvDetach                                     (** [hoot detach] *)
| EvUnwind.

Definition op_conn (op : set_op) : conn :=
  match op with SAdd c _ | SUpdate c _ | SRemove c => c end.

Definition other_step (an : size_answers) (op : set_op) (s : sys) : outcome sys :=
  if bool_decide (op_conn op = self) then Blocked
  else
    let '(r, sv) := set_call an op s.2 in
    Stepped (if bool_decide (self ∈ res_receivers r)
             then with_pending (at_pending s.1 ++ [res_eff r]) s.1 else s.1, sv).

Definition deliver_step (k : nat) (s : sys) : outcome sys :=
  match at_pending s.1 !! k with
  | None => Blocked
  | Some ws =>
      match send (size_frame ws) s.1 with
      | Stepped a => Stepped (with_pending (delete k (at_pending a)) a, s.2)
      | Blocked => Blocked
      | Panicked => Panicked
      end
  end.

Definition step (ev : event) (s : sys) : outcome sys :=
  match ev with
  | EvHello an x => match at_pc s.1 with PcHello => hello_step an x s | _ => Blocked end
  | EvMain an => main_step an s
  | EvRead an x => match at_pc s.1 with PcLoop => read_step an x s | _ => Blocked end
  | EvWriter werr =>
      match writer_step werr s.1 with
      | Stepped a => Stepped (a, s.2) | Blocked => Blocked | Panicked => Panicked
      end
  | EvLive => live_step s
  | EvOther an op => other_step an op s
  | EvDeliver k => deliver_step k s
  | EvPty op => Stepped (s.1, with_pty (pty_run1 op (sv_pty s.2)).2 s.2)
  | EvReg op => Stepped (s.1, with_reg (reg_step marshal op <$> sv_reg s.2) s.2)
  | EvDetach =>
      match at_id s.1, forcedDetach s.1 with
      | Some _, Stepped a => Stepped (a, s.2)
      | _, _ => Blocked
      end
  | EvUnwind => unwind_step s
  end.

(** A schedule; a blocked event is skipped, a panic ends it. *)
Fixpoint run (evs : list event) (s : sys) : outcome sys :=
  match evs with
  | [] => Stepped s
  | ev :: evs' =>
      match step ev s with
      | Stepped s' => run evs' s'
      | Blocked => run evs' s
      | Panicked => Panicked
      end
  end.

(** ** What the connection carries

    Three goroutines write on it: the writer, [forcedDetach] and, after
    [serveOne], [ServeHTTP]. *)

(** The frame the writer was writing when the connection failed: some, all or
    nothing of it was carried. *)
Definition torn (a : attach) : list wframe :=
  match at_writer a with WFailed f (WireIO _) => [f] | _ => [] end.

Definition forced_notice (a : attach) : list wframe :=
  match at_forced a with FIdle => [] | _ => [(MsgOutput, detachReason)] end.

(** What [ServeHTTP] writes once [serveOne] has returned; [WriteFrame] refuses a
    frame that is too long. *)
Definition http_notice (text : attach_error → list byte) (a : attach) : list wframe :=
  match at_pc a with
  | PcDone r =>
      match final_notice text r with
      | Some f => if MaxPayload <? Z.of_nat (length f.2) then [] else [f]
      | None => []
      end
  | _ => []
  end.

(** Either is best effort: it was carried or it was not. *)
Definition perhaps {A} (x l : list A) : Prop := x = [] ∨ x = l.

Definition put_in {A} (x ws fs : list A) : Prop := ∃ w1 w2, ws = w1 ++ w2 ∧ fs = w1 ++ x ++ w2.

(** What the connection may have carried so far: the writer's frames; the notice
    of [hoot detach] between any two of them (the writer may get a frame in
    before the [Close]); the last frame of [ServeHTTP], after all of the writer's
    when [serveOne] has come as far as its subscription (it then waits for the
    writer, see [served_writer_done]), anywhere when it returned before.  Frames
    are whole: that the last one is written without [writeMu] is not modelled. *)
Definition received (text : attach_error → list byte) (a : attach) (fs : list wframe) : Prop :=
  ∃ t d e ws, perhaps t (torn a) ∧ perhaps d (forced_notice a) ∧ perhaps e (http_notice text a) ∧
    match at_parts a with
    | Some _ => ws = at_wire a ++ t ++ e
    | None => put_in e (at_wire a ++ t) ws
    end ∧ put_in d ws fs.

(** ** Runs *)

Lemma run_inv (P : sys → Prop) evs s s' :
  (∀ ev s s', P s → step ev s = Stepped s' → P s') → P s → run evs s = Stepped s' → P s'.
Proof.
  intros Hstep. revert s. induction evs as [|ev evs IH]; intros s HP; cbn [run].
  - by intros [= <-].
  - destruct (step ev s) as [| |s1] eqn:E; [by apply IH|done|]. apply IH. by eapply Hstep.
Qed.

Lemma send_stepped f a a' :
  send f a = Stepped a' →
  ch_closed (at_out a) = false ∧
  a' = with_out (mkChan (ch_buf (at_out a) ++ [f]) (ch_cap (at_out a)) false) a.
Proof.
  unfold send. destruct (ch_closed (at_out a)); [done|].
  destruct (_ <? _)%nat; [|done]. by intros [= <-].
Qed.

(** Unwinding changes the program counter, and ends the subscription. *)
Lemma unwind_stepped (s s' : sys) :
  unwind_step s = Stepped s' →
  ∃ x, s'.1 = with_pc x s.1 ∧ match x with PcLost | PcDone _ => s'.2 = s.2 | PcUnregister _ => s'.2 = cancelSub s.2 | _ => False end.
Proof.
  destruct s as [a sv]. unfold unwind_step, goto. destruct (at_pc a); try discriminate; intros [= <-]; eexists; (split; [reflexivity|done]).
Qed.

(** ** What the client is sent, in order *)

Definition lost_frame (w : writer_st) : list wframe :=
  match w with WFailed f _ => [f] | _ => [] end.

(** Every frame sent so far: written, lost to a write error, still queued. *)
Definition flow (a : attach) : list wframe :=
  at_wire a ++ lost_frame (at_writer a) ++ ch_buf (at_out a).

Definition control (f : wframe) : Prop := f.1 = MsgSize ∨ f.1 = MsgPong.

#[local] Instance control_dec f : Decision (control f).
Proof. unfold control. apply _. Defined.

(** The frames that carry terminal contents. *)
Definition content (l : list wframe) : list wframe := filter (λ f, ¬ control f) l.

Definition output_frame (c : list byte) : wframe := (MsgOutput, c).

Definition held (l : live_st) : list (list byte) :=
  match l with LHolding c => [c] | _ => [] end.

(** The contents an attachment owes its client. *)
Definition transcript (parts : list byte * list byte) (chunks : list (list byte)) : list wframe :=
  (MsgSnapshotScrollback, parts.1) :: (MsgSnapshotScreen, parts.2) :: (output_frame <$> chunks).

Definition expected (x : pc) (parts : option (list byte * list byte)) (chunks : list (list byte))
  : list wframe :=
  match parts with
  | None => []
  | Some p => match x with
              | PcScrollback _ _ => []
              | PcScreen _ => [(MsgSnapshotScrollback, p.1)]
              | _ => transcript p chunks
              end
  end.

Definition phase (x : pc) (l : live_st) (parts : option (list byte * list byte))
    (chunks : list (list byte)) : Prop :=
  match x with
  | PcHello | PcFirstSize _ _ | PcRegister _ | PcSubscribe => parts = None
  | PcScrollback sb sc => parts = Some (sb, sc) ∧ l = LNone ∧ chunks = []
  | PcScreen sc => (∃ sb, parts = Some (sb, sc)) ∧ l = LNone ∧ chunks = []
  | PcLoop | PcPong | PcSendSize _ => parts ≠ None
  | _ => True
  end ∧ (parts = None → l = LNone ∧ chunks = []).

Definition size_first (x : pc) (parts : option (list byte * list byte)) (fl : list wframe) : Prop :=
  match fl with
  | [] => parts = None ∧ match x with PcRegister _ | PcSubscribe => False | _ => True end
  | f :: _ => f.1 = MsgSize
  end.

Definition ordered (x : pc) (fl : list wframe) (l : live_st)
    (parts : option (list byte * list byte)) (chunks : list (list byte)) : Prop :=
  content fl ++ (output_frame <$> held l) = expected x parts chunks ∧
  phase x l parts chunks ∧ size_first x parts fl.

Definition order_inv (a : attach) : Prop :=
  ordered (at_pc a) (flow a) (at_live a) (at_parts a) (at_recv a).

Lemma content_snoc l f : content (l ++ [f]) = content l ++ (if decide (control f) then [] else [f]).
Proof.
  unfold content. rewrite filter_app. f_equal. destruct (decide (control f)).
  - rewrite filter_cons_False by (intros Hn; by apply Hn). done.
  - by rewrite filter_cons_True.
Qed.

Lemma flow_with_out a f :
  flow (with_out (mkChan (ch_buf (at_out a) ++ [f]) (ch_cap (at_out a)) false) a) = flow a ++ [f].
Proof. unfold flow. cbn. by rewrite !app_assoc. Qed.

Lemma size_first_snoc x y parts parts' fl f :
  size_first x parts fl →
  (f.1 = MsgSize ∨ parts ≠ None) → size_first y parts' (fl ++ [f]).
Proof.
  destruct fl as [|g fl]; cbn [app size_first]; intros H [Hf|Hp]; try done. by destruct H.
Qed.

Lemma writer_step_flow werr a a' :
  writer_step werr a = Stepped a' →
  flow a' = flow a ∧ at_pc a' = at_pc a ∧ at_live a' = at_live a ∧ at_parts a' = at_parts a ∧
  at_recv a' = at_recv a ∧ ch_closed (at_out a') = ch_closed (at_out a).
Proof.
  unfold writer_step, flow. destruct (at_writer a) eqn:Ew; try discriminate.
  unfold recv. destruct (ch_buf (at_out a)) as [|f b] eqn:Eb.
  - destruct (ch_closed (at_out a)) eqn:Ec; [|discriminate]. intros [= <-]. cbn. by rewrite Eb.
  - destruct (MaxPayload <? _); [|destruct werr; [|destruct (at_forced a)]]; intros [= <-]; cbn;
      rewrite ?Eb; try done; by rewrite <- app_assoc.
Qed.

(** A program point where all of the snapshot has been sent, or none of it. *)
Definition settled (x : pc) : Prop :=
  match x with PcScrollback _ _ | PcScreen _ => False | _ => True end.

(** The main goroutine moves without sending. *)
Lemma ordered_move x y fl l parts chunks :
  settled x → settled y →
  (parts = None → match y with
                  | PcLoop | PcPong | PcSendSize _ => False
                  | PcRegister _ | PcSubscribe => match x with PcRegister _ | PcSubscribe => True | _ => False end
                  | _ => True end) →
  (parts ≠ None → match y with PcHello | PcFirstSize _ _ | PcRegister _ | PcSubscribe => False | _ => True end) →
  ordered x fl l parts chunks → ordered y fl l parts chunks.
Proof.
  intros Hx Hy H1 H2 (E & (P1 & P2) & S). destruct parts as [p|].
  - split; [|split; [split|]].
    + rewrite E. by destruct x, y.
    + by destruct y; try destruct (H2 ltac:(done)).
    + done.
    + destruct fl; [by destruct S|done].
  - specialize (H1 eq_refl). split; [|split; [split|]]; [done|by destruct y|done|].
    destruct fl; [|done]. destruct S as [_ S]. split; [done|]. by destruct x, y.
Qed.

(** A [Size] or [Pong] frame is sent. *)
Lemma ordered_control x fl l parts chunks f :
  control f → (f.1 = MsgSize ∨ parts ≠ None) →
  ordered x fl l parts chunks → ordered x (fl ++ [f]) l parts chunks.
Proof.
  intros Hf Hs (E & P & S). split; [|split; [done|by eapply size_first_snoc]].
  rewrite content_snoc, decide_True, app_nil_r by done. done.
Qed.

Lemma ordered_live_recv x fl parts chunks c :
  ordered x fl LRunning parts chunks → ordered x fl (LHolding c) parts (chunks ++ [c]).
Proof.
  intros (E & (P1 & P2) & S). cbn [held] in *. rewrite fmap_nil, app_nil_r in E.
  destruct parts as [p|]; [|by destruct (P2 eq_refl)].
  split; [|split; [split|done]]; [|by destruct x; naive_solver|done].
  rewrite E. cbn [fmap list_fmap]. destruct x; try (destruct P1 as (_ & ? & _); done);
    cbn [expected]; unfold transcript; by rewrite fmap_app.
Qed.

Lemma ordered_live_send x fl parts chunks c :
  ordered x fl (LHolding c) parts chunks → ordered x (fl ++ [output_frame c]) LRunning parts chunks.
Proof.
  intros (E & (P1 & P2) & S). destruct parts as [p|]; [|by destruct (P2 eq_refl)].
  split; [|split; [split|]].
  - rewrite content_snoc, decide_False by (intros [H|H]; discriminate H). cbn [held] in *.
    rewrite fmap_nil, app_nil_r. exact E.
  - destruct x; try done; destruct P1 as (_ & ? & _); done.
  - done.
  - eapply size_first_snoc; [exact S|by right].
Qed.

Lemma ordered_scrollback fl l parts chunks sb sc :
  ordered (PcScrollback sb sc) fl l parts chunks →
  ordered (PcScreen sc) (fl ++ [(MsgSnapshotScrollback, sb)]) l parts chunks.
Proof.
  intros (E & ((-> & -> & ->) & P2) & S). split; [|split; [split; [by eauto|done]|]].
  - rewrite content_snoc, decide_False by (intros [H|H]; discriminate H). cbn in *.
    rewrite app_nil_r in *. by rewrite E.
  - eapply size_first_snoc; [exact S|by right].
Qed.

Lemma ordered_screen fl l parts chunks sc :
  ordered (PcScreen sc) fl l parts chunks →
  ordered PcLoop (fl ++ [(MsgSnapshotScreen, sc)]) LRunning parts chunks.
Proof.
  intros (E & (((sb & ->) & -> & ->) & P2) & S). split; [|split; [split; done|]].
  - rewrite content_snoc, decide_False by (intros [H|H]; discriminate H). cbn in *.
    rewrite app_nil_r in *. by rewrite E.
  - eapply size_first_snoc; [exact S|by right].
Qed.

(** The snapshot is taken. *)
Lemma ordered_snapshot fl l chunks sb sc :
  ordered PcSubscribe fl l None chunks → ordered (PcScrollback sb sc) fl l (Some (sb, sc)) chunks.
Proof.
  intros (E & (P1 & P2) & S). destruct (P2 eq_refl) as [-> ->].
  split; [exact E|]. split; [done|]. destruct fl; [by destruct S|done].
Qed.

Lemma send_then_spec f x s s' :
  send_then f x s = Stepped s' →
  s'.2 = s.2 ∧ at_pc s'.1 = x ∧ flow s'.1 = flow s.1 ++ [f] ∧ at_live s'.1 = at_live s.1 ∧
  at_parts s'.1 = at_parts s.1 ∧ at_recv s'.1 = at_recv s.1.
Proof.
  unfold send_then. destruct (send f s.1) as [| |a1] eqn:Es; try discriminate.
  intros [= <-]. apply send_stepped in Es as [_ ->]. split; [done|]. split; [done|].
  split; [exact (flow_with_out s.1 f)|done].
Qed.

(** The main goroutine sends a [Size] or a [Pong] and moves on. *)
Lemma ordered_send_control f x y s s' :
  at_pc s.1 = x → control f → settled x → settled y → send_then f y s = Stepped s' →
  (f.1 = MsgSize ∨ at_parts s.1 ≠ None) →
  (at_parts s.1 = None → match y with
                  | PcLoop | PcPong | PcSendSize _ => False | _ => True end) →
  (at_parts s.1 ≠ None → match y with PcHello | PcFirstSize _ _ | PcRegister _ | PcSubscribe => False | _ => True end) →
  order_inv s.1 → order_inv s'.1.
Proof.
  intros Hpc Hf Hx Hy (_ & E1 & E2 & E3 & E4 & E5)%send_then_spec Hs H1 H2 H.
  unfold order_inv in *. rewrite E1, E2, E3, E4, E5. rewrite Hpc in H.
  destruct H as (E & (P1 & P2) & S). split; [|split; [split|by eapply size_first_snoc]].
  - rewrite content_snoc, decide_True, app_nil_r by done. rewrite E.
    destruct (at_parts s.1); [|done]. by destruct x, y.
  - destruct (at_parts s.1); [by destruct y; try destruct (H2 ltac:(done))|].
    specialize (H1 eq_refl). by destruct y.
  - done.
Qed.

Lemma order_inv_move a a' :
  at_pc a' = at_pc a → flow a' = flow a → at_live a' = at_live a → at_parts a' = at_parts a →
  at_recv a' = at_recv a → order_inv a → order_inv a'.
Proof. unfold order_inv. by intros -> -> -> -> ->. Qed.

Lemma order_inv_goto x a :
  settled (at_pc a) → settled x →
  (at_parts a = None → match x with
                  | PcLoop | PcPong | PcSendSize _ => False
                  | PcRegister _ | PcSubscribe =>
                      match at_pc a with PcRegister _ | PcSubscribe => True | _ => False end
                  | _ => True end) →
  (at_parts a ≠ None → match x with PcHello | PcFirstSize _ _ | PcRegister _ | PcSubscribe => False | _ => True end) →
  order_inv a → order_inv (with_pc x a).
Proof. unfold order_inv. cbn. intros. by eapply (ordered_move (at_pc a)). Qed.

(** What the invariant says of the snapshot at a program point. *)
Lemma order_parts a :
  order_inv a →
  match at_pc a with
  | PcHello | PcFirstSize _ _ | PcRegister _ | PcSubscribe => at_parts a = None
  | PcScrollback _ _ | PcScreen _ | PcLoop | PcPong | PcSendSize _ => at_parts a ≠ None
  | _ => True
  end.
Proof.
  clear marshal unmarshal_hello unmarshal_size.
  intros (_ & (P & _) & _). destruct (at_pc a); try done; destruct P as (P & _); naive_solver.
Qed.

Ltac move_pc H :=
  pose proof (order_parts _ H) as Hmv; apply order_inv_goto; [| | | |exact H];
  match goal with Epc : at_pc _ = _ |- _ => rewrite ?Epc in *; clear Epc end;
  try done; naive_solver.

Lemma main_step_order an a sv s' :
  order_inv a → main_step an (a, sv) = Stepped s' → order_inv s'.1.
Proof.
  intros H. pose proof (order_parts a H) as Hparts. unfold main_step.
  destruct (at_pc a) as [|h eff|h| |sb sc|sc| | |eff|r|r|r|r|r|r|r|] eqn:Epc; try discriminate.
  - intros Hs. apply (ordered_send_control (size_frame eff) _ (PcRegister h) (a, sv) s' Epc); try done; [by left|by left].
  - unfold register_step, goto. cbn [fst snd]. destruct (sv_reg sv) as [[g d]|].
    + destruct (Add _ _ _ _ _ _ _ _) as [[[id|e] g'] d']; intros [= <-]; cbn [fst].
      * apply (order_inv_move (with_pc PcSubscribe a)); try done. move_pc H.
      * move_pc H.
    + intros [= <-]. cbn [fst]. move_pc H.
  - unfold subscribe_step. cbn [fst snd].
    destruct (SubscribeWithSnapshotParts _ _) as [[[sb sc]|e] p]; intros [= <-]; cbn [fst]; [|move_pc H].
    unfold order_inv in *. cbn. rewrite Epc, Hparts in H. by apply ordered_snapshot.
  - intros (_ & E1 & E2 & E3 & E4 & E5)%send_then_spec. unfold order_inv in *.
    rewrite E1, E2, E3, E4, E5. rewrite Epc in H. by apply ordered_scrollback.
  - destruct (send_then _ _ _) as [| |[a1 sv1]] eqn:Es; try discriminate. intros [= <-].
    apply send_then_spec in Es as (_ & E1 & E2 & E3 & E4 & E5). cbn [fst] in *.
    unfold order_inv in *. cbn [fst]. cbn [with_live at_pc at_live at_parts at_recv].
    rewrite E1, E4, E5. rewrite Epc in H.
    change (flow (with_live LRunning (at_recv a) a1)) with (flow a1). rewrite E2.
    by eapply ordered_screen.
  - intros Hs. apply (ordered_send_control (MsgPong, []) _ PcLoop (a, sv) s' Epc); try done; by right.
  - intros Hs. apply (ordered_send_control (size_frame eff) _ PcLoop (a, sv) s' Epc); try done; by left.
  - intros [= <-]. move_pc H.
  - destruct (at_live a); try discriminate. intros [= <-]. move_pc H.
  - intros [= <-]. cbn [fst]. apply (order_inv_move (with_pc (PcJoinWriter r) a)); try done. move_pc H.
  - destruct (writer_done _); [|discriminate]. intros [= <-]. move_pc H.
  - intros [= <-]. move_pc H.
  - intros [= <-]. move_pc H.
Qed.

Lemma hello_step_order an x a sv s' :
  at_pc a = PcHello → order_inv a → hello_step an x (a, sv) = Stepped s' → order_inv s'.1.
Proof.
  intros Epc H. pose proof (order_parts a H) as Hparts. unfold hello_step, goto. cbn [fst snd].
  destruct x as [[typ payload]|e]; [|intros [= <-]; move_pc H].
  destruct (negb _); [intros [= <-]; move_pc H|].
  destruct (unmarshal_hello payload) as [h|]; [|intros [= <-]; move_pc H].
  destruct (_ || _); [intros [= <-]; move_pc H|].
  destruct (set_call _ _ _) as [r sv1]. intros [= <-]. move_pc H.
Qed.

Lemma read_step_order an x a sv s' :
  at_pc a = PcLoop → order_inv a → read_step an x (a, sv) = Stepped s' → order_inv s'.1.
Proof.
  intros Epc H. pose proof (order_parts a H) as Hparts. unfold read_step, goto. cbn [fst snd].
  destruct x as [[typ payload]|e]; [|intros [= <-]; move_pc H].
  destruct (typ =? MsgInput).
  { destruct (Write payload _) as [[u|e] p]; intros [= <-]; [done|move_pc H]. }
  destruct (typ =? MsgSize).
  { destruct (unmarshal_size payload) as [ws|]; [|intros [= <-]; move_pc H].
    destruct (_ || _); [by intros [= <-]|].
    destruct (set_call _ _ _) as [r sv1]. intros [= <-]. cbn [fst].
    destruct (bool_decide _); [move_pc H|done]. }
  destruct (typ =? MsgPing); [intros [= <-]; move_pc H|].
  destruct (typ =? MsgHello); [intros [= <-]; move_pc H|].
  destruct (_ || _); intros [= <-]; move_pc H.
Qed.

Lemma live_step_order a sv s' :
  order_inv a → live_step (a, sv) = Stepped s' → order_inv s'.1.
Proof.
  intros H. unfold live_step. destruct (at_live a) as [| |c|] eqn:El; try discriminate.
  - destruct (recv_sub liveCh (sv_pty sv)) as [[[c| |]|e] p]; try discriminate; intros [= <-];
      unfold order_inv in *; cbn; rewrite El in H.
    + by apply ordered_live_recv.
    + destruct H as (E & (P1 & P2) & S). split; [exact E|]. split; [split|exact S].
      * destruct (at_pc a); try done; destruct P1 as (_ & ? & _); done.
      * intros Hn. by destruct (P2 Hn).
  - destruct (send _ a) as [| |a1] eqn:Es; try discriminate. intros [= <-].
    apply send_stepped in Es as [_ ->]. unfold order_inv in *. rewrite El in H.
    apply ordered_live_send in H. rewrite <- (flow_with_out a) in H. exact H.
Qed.

Lemma unwind_step_order a sv s' : order_inv a → unwind_step (a, sv) = Stepped s' → order_inv s'.1.
Proof.
  intros H. unfold unwind_step, goto. cbn [fst snd]. destruct (at_pc a) eqn:Epc; try discriminate; intros [= <-]; move_pc H.
Qed.

Lemma step_order ev s s' : order_inv s.1 → step ev s = Stepped s' → order_inv s'.1.
Proof.
  destruct s as [a sv]. cbn [fst]. intros H. pose proof (order_parts a H) as Hparts.
  destruct ev as [an x|an|an x|werr| |an op|k|op|rop| |]; cbn [step fst snd].
  - destruct (at_pc a) eqn:Epc; try discriminate. by apply hello_step_order.
  - by apply main_step_order.
  - destruct (at_pc a) eqn:Epc; try discriminate. by apply read_step_order.
  - destruct (writer_step werr a) as [| |a1] eqn:Ew; try discriminate. intros [= <-].
    apply writer_step_flow in Ew as (? & ? & ? & ? & ? & _). by apply (order_inv_move a).
  - by apply live_step_order.
  - unfold other_step. destruct (bool_decide (_ = self)); [discriminate|].
    destruct (set_call _ _ _) as [r sv1]. intros [= <-]. cbn [fst]. by destruct (bool_decide _).
  - unfold deliver_step. cbn [fst snd]. destruct (at_pending a !! k) as [ws|]; [|discriminate].
    destruct (send _ a) as [| |a1] eqn:Es; try discriminate. intros [= <-].
    apply send_stepped in Es as [_ ->]. unfold order_inv in *. cbn [fst].
    change (ordered (at_pc a) (flow (with_out (mkChan (ch_buf (at_out a) ++ [size_frame ws])
      (ch_cap (at_out a)) false) a)) (at_live a) (at_parts a) (at_recv a)).
    rewrite flow_with_out. apply ordered_control; [by left|by left|done].
  - by intros [= <-].
  - by intros [= <-].
  - unfold forcedDetach. destruct (at_id a), (at_forced a); try discriminate; by intros [= <-].
  - by apply unwind_step_order.
Qed.

(** The main goroutine is at its subscription, and these are the two parts the
    PTY gives with it. *)
Definition takes (s : sys) (parts : list byte * list byte) : Prop :=
  at_pc s.1 = PcSubscribe ∧
  ∃ sb sc p, SubscribeWithSnapshotParts liveCh (sv_pty s.2) = (Ok (sb, sc), p) ∧
    parts = (if noHistory then [] else sb, sc).

Lemma send_parts f a a' : send f a = Stepped a' → at_parts a' = at_parts a.
Proof. by intros [_ ->]%send_stepped. Qed.

Lemma main_step_parts an s s' :
  main_step an s = Stepped s' → at_parts s'.1 = at_parts s.1 ∨ ∃ p, takes s p ∧ at_parts s'.1 = Some p.
Proof.
  destruct s as [a sv]. unfold main_step, send_then, register_step, goto. cbn [fst snd].
  intros Hs. destruct (at_pc a) eqn:Epc; try discriminate Hs;
    try (destruct (send _ a) eqn:Es; try discriminate Hs; apply send_parts in Es);
    try (injection Hs as <-; left; cbn; try rewrite Es; done).
  - left. destruct (sv_reg sv) as [[g d]|]; [destruct (Add _ _ _ _ _ _ _ _) as [[[i|e] g'] d']|];
      by injection Hs as <-.
  - unfold subscribe_step in Hs. cbn [fst snd] in Hs.
    destruct (SubscribeWithSnapshotParts _ _) as [[[sb sc]|e] p] eqn:E; injection Hs as <-; [right|by left].
    eexists. split; [|reflexivity]. split; [exact Epc|]. by exists sb, sc, p.
  - left. destruct (at_live a); try discriminate Hs. by injection Hs as <-.
  - left. destruct (writer_done _); try discriminate Hs. by injection Hs as <-.
Qed.

Lemma step_parts ev s s' :
  step ev s = Stepped s' →
  at_parts s'.1 = at_parts s.1 ∨ ∃ an p, ev = EvMain an ∧ takes s p ∧ at_parts s'.1 = Some p.
Proof.
  destruct s as [a sv]. destruct ev as [an x|an|an x|werr| |an op|k|op|rop| |]; cbn [step fst snd];
    [|intros [E|(p & H)]%main_step_parts; [by left|right; by exists an, p]|..]; (intros Hs; left; revert Hs).
  - unfold hello_step, goto. intros Hs. repeat (case_match; try discriminate Hs); by injection Hs as <-.
  - unfold read_step, goto. intros Hs. repeat (case_match; try discriminate Hs); by injection Hs as <-.
  - destruct (writer_step werr a) eqn:E; try discriminate. intros [= <-].
    apply writer_step_flow in E as (_ & _ & _ & E & _). cbn [fst]. by rewrite E.
  - unfold live_step. destruct (at_live a); try discriminate.
    + destruct (recv_sub _ _) as [[[c| |]|e] p]; try discriminate; by intros [= <-].
    + destruct (send _ a) eqn:Es; try discriminate. intros [= <-]. by rewrite <- (send_parts _ _ _ Es).
  - unfold other_step. destruct (bool_decide (_ = self)); [discriminate|].
    destruct (set_call _ _ _) as [r sv1]. intros [= <-]. cbn [fst]. by destruct (bool_decide _).
  - unfold deliver_step. cbn [fst snd]. destruct (at_pending a !! k); [|discriminate].
    destruct (send _ a) eqn:Es; try discriminate. intros [= <-]. by rewrite <- (send_parts _ _ _ Es).
  - by intros [= <-].
  - by intros [= <-].
  - unfold forcedDetach. destruct (at_id a), (at_forced a); try discriminate; by intros [= <-].
  - unfold unwind_step, goto. destruct (at_pc a); try discriminate; by intros [= <-].
Qed.

Lemma flow_torn a t : perhaps t (torn a) → ∃ l, flow a = (at_wire a ++ t) ++ l.
Proof.
  clear. unfold flow, torn. intros [-> | ->]; [rewrite app_nil_r; by eexists|].
  destruct (at_writer a) as [|f [x|n|n]|]; cbn [lost_frame]; try (rewrite app_nil_r; by eexists).
  exists (ch_buf (at_out a)). by rewrite <- app_assoc.
Qed.

(** Every frame carried was sent to the writer or is a notice. *)
Lemma received_elem text a fs f : received text a fs → f ∈ fs → f ∈ flow a ∨ f.1 = MsgOutput.
Proof.
  clear. intros (t & d & e & ws & Ht & Hd & He & Hws & w1 & w2 & -> & ->) Hf. destruct (flow_torn a t Ht) as [l Hl].
  assert (f ∈ d ∨ f ∈ w1 ++ w2) as [Hf'|Hf'] by (rewrite !elem_of_app; rewrite !elem_of_app in Hf; tauto).
  { right. destruct Hd as [-> | ->]; [by apply not_elem_of_nil in Hf'|]. unfold forced_notice in Hf'.
    destruct (at_forced a); [by apply not_elem_of_nil in Hf'|..]; by apply list_elem_of_singleton in Hf' as ->. }
  assert (f ∈ at_wire a ++ t ∨ f ∈ e) as [H|H].
  { destruct (at_parts a).
    - rewrite Hws, !elem_of_app in Hf'. rewrite elem_of_app. tauto.
    - destruct Hws as (v1 & v2 & E & Hws). rewrite Hws, !elem_of_app in Hf'. rewrite E, elem_of_app. tauto. }
  - left. rewrite Hl. apply elem_of_app. by left.
  - right. destruct He as [-> | ->]; [by apply not_elem_of_nil in H|]. unfold http_notice in H.
    destruct (at_pc a); try by apply not_elem_of_nil in H.
    destruct (final_notice text r) as [g|] eqn:Eg; [|by apply not_elem_of_nil in H].
    destruct (_ <? _); [by apply not_elem_of_nil in H|]. apply list_elem_of_singleton in H as ->.
    unfold final_notice in Eg. destruct r as [|x]; [done|]. destruct x; try (destruct (is_io_eof _); [done|]); by simplify_eq.
Qed.

Lemma new_attach_order : order_inv new_attach.
Proof. done. Qed.

(** The two parts an attachment sends were taken at one step of its run. *)
Lemma run_parts evs s s' parts :
  run evs s = Stepped s' → order_inv s.1 → at_parts s.1 = None → at_parts s'.1 = Some parts →
  ∃ evs1 an evs2 s1, evs = evs1 ++ EvMain an :: evs2 ∧ run evs1 s = Stepped s1 ∧ takes s1 parts.
Proof.
  revert s. induction evs as [|ev evs IH]; intros s; cbn [run]; [intros [= <-]; congruence|].
  intros Hr Ho Hn Hp.
  destruct (step ev s) as [| |s1] eqn:E; [|done|].
  { destruct (IH s Hr Ho Hn Hp) as (evs1 & an & evs2 & s2 & -> & Hr2 & Ht).
    exists (ev :: evs1), an, evs2, s2. split; [done|]. split; [|done]. cbn [run]. by rewrite E. }
  pose proof (step_order _ _ _ Ho E) as Ho1.
  destruct (step_parts ev s s1 E) as [Hs|(an & p & -> & Ht & Hs)].
  { destruct (IH s1 Hr Ho1 ltac:(congruence) Hp) as (evs1 & an & evs2 & s2 & -> & Hr2 & Ht).
    exists (ev :: evs1), an, evs2, s2. split; [done|]. split; [|done]. cbn [run]. by rewrite E. }
  exists [], an, evs, s. split; [done|]. split; [done|]. replace parts with p; [done|].
  assert (order_inv s'.1 ∧ at_parts s'.1 = Some p) as [_ Hs']; [|congruence].
  apply (run_inv (λ s, order_inv s.1 ∧ at_parts s.1 = Some p) evs s1); [|done|done].
  intros ev x y [Hx Hxp] Exy. split; [by eapply step_order|].
  destruct (step_parts ev x y Exy) as [->|(an' & q & _ & [Hpc _] & _)]; [done|].
  pose proof (order_parts _ Hx) as H. rewrite Hpc in H. congruence.
Qed.

(** Once it has subscribed, [serveOne] only returns when the writer is done, but
    for a panic. *)
Definition served_inv (a : attach) : Prop :=
  match at_pc a with
  | PcUnregister r | PcRemove r | PcDone r => at_parts a = None ∨ writer_done (at_writer a) = true ∨ r = Err AePanicked
  | _ => True
  end.

Lemma send_same f a a' : send f a = Stepped a' → at_pc a' = at_pc a ∧ at_writer a' = at_writer a ∧ at_parts a' = at_parts a.
Proof. by intros [_ ->]%send_stepped. Qed.

Lemma main_step_served an a sv s' :
  order_inv a → served_inv a → main_step an (a, sv) = Stepped s' → served_inv s'.1.
Proof.
  intros Ho Hi Hs. pose proof (order_parts a Ho) as Hp. unfold served_inv in *.
  unfold main_step, send_then, register_step, goto in Hs. cbn [fst snd] in Hs.
  destruct (at_pc a) eqn:Epc; try discriminate Hs;
    try (destruct (send _ a) eqn:Es; try discriminate Hs; by injection Hs as <-);
    try (injection Hs as <-; exact Hi || exact I).
  - destruct (sv_reg sv) as [[g d]|]; [destruct (Add _ _ _ _ _ _ _ _) as [[[i|e] g'] d']|];
      injection Hs as <-; [done|by left|done].
  - unfold subscribe_step in Hs. cbn [fst snd] in Hs.
    destruct (SubscribeWithSnapshotParts _ _) as [[[sb sc]|e] p]; injection Hs as <-; [done|by left].
  - destruct (at_live a); try discriminate Hs. by injection Hs as <-.
  - destruct (writer_done (at_writer a)) eqn:E; [|discriminate Hs]. injection Hs as <-. by right; left.
Qed.

Lemma step_served ev s s' : order_inv s.1 → served_inv s.1 → step ev s = Stepped s' → served_inv s'.1.
Proof.
  destruct s as [a sv]. cbn [fst]. intros Ho Hi. pose proof (order_parts a Ho) as Hp.
  destruct ev as [an x|an|an x|werr| |an op|k|op|rop| |]; cbn [step fst snd].
  - destruct (at_pc a) eqn:Epc; try discriminate. unfold hello_step, goto. intros Hs.
    repeat (case_match; try discriminate Hs); injection Hs as <-; try done; by left.
  - by apply main_step_served.
  - destruct (at_pc a) eqn:Epc; try discriminate. unfold read_step, goto. intros Hs.
    clear Hi Hp. repeat (case_match; try discriminate Hs); injection Hs as <-; unfold served_inv; cbn; by rewrite ?Epc.
  - destruct (writer_step werr a) as [| |a1] eqn:E; try discriminate. intros [= <-].
    pose proof E as (_ & Ep & _ & Ea & _)%writer_step_flow. unfold served_inv in *. cbn [fst]. rewrite Ep, Ea.
    unfold writer_step in E. destruct (at_writer a); try discriminate E.
    destruct (at_pc a); try done; destruct Hi as [?|[?|?]]; auto; done.
  - unfold live_step. destruct (at_live a); try discriminate.
    + destruct (recv_sub _ _) as [[[c| |]|e] p]; try discriminate; by intros [= <-].
    + destruct (send _ a) as [| |a1] eqn:Es; try discriminate. intros [= <-].
      apply send_same in Es as (E1 & E2 & E3). unfold served_inv in *. cbn. by rewrite E1, E2, E3.
  - unfold other_step. destruct (bool_decide (_ = self)); [discriminate|].
    destruct (set_call _ _ _) as [r sv1]. intros [= <-]. cbn [fst]. by destruct (bool_decide _).
  - unfold deliver_step. cbn [fst snd]. destruct (at_pending a !! k); [|discriminate].
    destruct (send _ a) as [| |a1] eqn:Es; try discriminate. intros [= <-].
    apply send_same in Es as (E1 & E2 & E3). unfold served_inv in *. cbn. by rewrite E1, E2, E3.
  - by intros [= <-].
  - by intros [= <-].
  - unfold forcedDetach. destruct (at_id a), (at_forced a); try discriminate; by intros [= <-].
  - unfold unwind_step, goto, served_inv in *. destruct (at_pc a); try discriminate; intros [= <-]; cbn; auto.
Qed.

(** The last frame of [ServeHTTP] comes after all the writer's. *)
Lemma served_writer_done evs sv s r :
  run evs (new_attach, sv) = Stepped s → at_parts s.1 ≠ None → at_pc s.1 = PcDone r →
  writer_done (at_writer s.1) = true ∨ r = Err AePanicked.
Proof.
  intros H Hp Epc. assert (order_inv s.1 ∧ served_inv s.1) as [_ Hi].
  { apply (run_inv (λ s, order_inv s.1 ∧ served_inv s.1) evs (new_attach, sv)); [|done|done].
    intros ev x y [H1 H2] E. split; [by eapply step_order|by eapply step_served]. }
  unfold served_inv in Hi. rewrite Epc in Hi. naive_solver.
Qed.

(** C5: What an attached client is sent.  Whatever the schedule of the three
    goroutines, the other clients, the PTY and the connection's failures: what the
    connection carries is the frames of the writer, in which the notice of
    [hoot detach], if one is under way, can stand between any two, and after
    which, once [serveOne] has failed, the error notice of [ServeHTTP] can come
    (before or between them only if it failed before its subscription).  The
    writer's frames, if there are any, start with a [Size]; leaving the [Size] and
    [Pong] frames out, they are a prefix of: one scrollback frame, one screen
    frame, then the chunks the live goroutine took from its subscription, in
    order, none skipped or repeated.  The two snapshot frames are what the PTY gave
    at the one step of this run that made the subscription, the scrollback empty
    under [--no-history]. *)
Theorem attach_frame_order text evs sv s fs :
  run evs (new_attach, sv) = Stepped s → received text s.1 fs →
  ∃ wire d e ws,
    perhaps d (forced_notice s.1) ∧ perhaps e (http_notice text s.1) ∧
    (ws = wire ++ e ∨ at_parts s.1 = None ∧ put_in e wire ws) ∧ put_in d ws fs ∧
    (wire = [] ∨ ∃ f l, wire = f :: l ∧ f.1 = MsgSize) ∧
    (content wire = [] ∨
     ∃ parts evs1 an evs2 s1, content wire `prefix_of` transcript parts (at_recv s.1) ∧
       evs = evs1 ++ EvMain an :: evs2 ∧ run evs1 (new_attach, sv) = Stepped s1 ∧ takes s1 parts).
Proof.
  intros H (t & d & e & ws & Ht & Hd & He & Hws & Hfs). assert (order_inv s.1) as (E & P & S).
  { apply (run_inv (λ s, order_inv s.1) evs (new_attach, sv)); [|done|done].
    intros ev s1 s2. apply step_order. }
  destruct (flow_torn s.1 t Ht) as [l Hl].
  exists (at_wire s.1 ++ t), d, e, ws. do 2 (split; [done|]). split; [|split; [done|split]].
  - destruct (at_parts s.1); [left; by rewrite <- app_assoc|by right].
  - destruct (at_wire s.1 ++ t) as [|f ws'] eqn:Ew; [by left|right]. exists f, ws'. split; [done|].
    by rewrite Hl in S.
  - rewrite Hl in E. unfold content in *. rewrite filter_app, <- app_assoc in E. destruct (at_parts s.1) as [p|] eqn:Ep.
    + right. destruct (run_parts evs (new_attach, sv) s p H new_attach_order eq_refl Ep) as (evs1 & an & evs2 & s1 & Hev & Hr & Htk).
      exists p, evs1, an, evs2, s1. split; [|done]. eapply prefix_app_l. rewrite E.
      destruct (at_pc s.1); cbn [expected]; try done; [apply prefix_nil|by eexists].
    + left. by apply app_eq_nil in E as [-> _].
Qed.

(** ** Membership *)

(** Between [set.Add] and the deferred [set.Remove]. *)
Definition joined (x : pc) : Prop :=
  match x with PcHello | PcDone _ => False | _ => True end.

Lemma set_step_other op c a :
  op_conn op ≠ c → set_members (res_set (set_step op a)) !! c = set_members a !! c.
Proof.
  destruct op as [d ws|d ws|d]; cbn [op_conn set_step]; intros Hne.
  - unfold AttachSet.Add. rewrite (proj1 (proj2 (finish_op_spec _ _))). cbn.
    by rewrite lookup_insert_ne.
  - unfold AttachSet.Update. destruct (set_members a !! d); [|done].
    rewrite (proj1 (proj2 (finish_op_spec _ _))). cbn. by rewrite lookup_insert_ne.
  - unfold AttachSet.Remove. destruct (set_members a !! d); [|done].
    rewrite (proj1 (proj2 (finish_op_spec _ _))). cbn. by rewrite lookup_delete_ne.
Qed.

Lemma set_step_self op c a :
  op_conn op = c →
  (is_Some (set_members (res_set (set_step op a)) !! c) ↔
   match op with SAdd _ _ => True | SUpdate _ _ => is_Some (set_members a !! c) | SRemove _ => False end).
Proof.
  destruct op as [d ws|d ws|d]; cbn [op_conn set_step]; intros ->.
  - unfold AttachSet.Add. rewrite (proj1 (proj2 (finish_op_spec _ _))). cbn.
    rewrite lookup_insert_eq. split; [done|by eexists].
  - unfold AttachSet.Update. destruct (set_members a !! c) eqn:E; [|cbn [res_set]; by rewrite E].
    rewrite (proj1 (proj2 (finish_op_spec _ _))). cbn. rewrite lookup_insert_eq.
    split; intros _; by eexists.
  - unfold AttachSet.Remove. destruct (set_members a !! c) eqn:E; cbn [res_set]; [|rewrite E; split; [by intros []|done]].
    rewrite (proj1 (proj2 (finish_op_spec _ _))). cbn. rewrite lookup_delete_eq. split; [by intros []|done].
Qed.

Lemma set_call_set an op sv : sv_set (set_call an op sv).2 = res_set (set_step op (sv_set sv)).
Proof. unfold set_call, size_applier. cbn. by destruct (res_apply _). Qed.

Definition member (sv : server) : Prop := is_Some (set_members (sv_set sv) !! self).

Lemma set_call_member an op sv :
  member (set_call an op sv).2 ↔
  if bool_decide (op_conn op = self)
  then match op with SAdd _ _ => True | SUpdate _ _ => member sv | SRemove _ => False end
  else member sv.
Proof.
  unfold member. rewrite set_call_set. case_bool_decide as H.
  - by rewrite set_step_self.
  - by rewrite set_step_other.
Qed.

Definition closing_inv (a : attach) : Prop :=
  match at_pc a with PcJoinWriter _ => ch_closed (at_out a) = true | _ => True end.

Definition member_inv (s : sys) : Prop :=
  (member s.2 ↔ joined (at_pc s.1)) ∧ closing_inv s.1.

Lemma main_step_member an s s' : main_step an s = Stepped s' → member_inv s → member_inv s'.
Proof.
  destruct s as [a sv]. unfold main_step, send_then, register_step, goto, member_inv, closing_inv.
  cbn [fst snd]. intros Hs. destruct (at_pc a) eqn:Epc; try discriminate Hs;
    try (destruct (send _ a) eqn:Es; try discriminate Hs);
    try (injection Hs as <-; cbn; intros [? ?]; by split).
  - destruct (sv_reg sv) as [[g d]|]; [destruct (Add _ _ _ _ _ _ _ _) as [[[i|e] g'] d']|];
      by injection Hs as <-.
  - unfold subscribe_step in Hs. cbn [fst snd] in Hs.
    destruct (SubscribeWithSnapshotParts _ _) as [[[sb sc]|e] p]; by injection Hs as <-.
  - destruct (at_live a); try discriminate Hs. by injection Hs as <-.
  - destruct (writer_done _); [|discriminate Hs]. injection Hs as <-. cbn. intros [? ?]. by split.
  - injection Hs as <-. cbn. destruct (sv_reg sv) as [[g d]|]; [|done]. destruct (at_id a); [|done].
    by destruct (Registry.Remove _ _ _ _ _).
  - injection Hs as <-. cbn [fst snd with_pc at_pc joined]. intros _.
    pose proof (set_call_member an (SRemove self) sv) as E. cbn [op_conn] in E.
    rewrite bool_decide_eq_true_2 in E by done. split; [exact E|done].
Qed.

Lemma self_call_member an op sv r sv' :
  set_call an op sv = (r, sv') → op_conn op = self →
  member sv' ↔ match op with SAdd _ _ => True | SUpdate _ _ => member sv | SRemove _ => False end.
Proof.
  intros H Hop. pose proof (set_call_member an op sv) as E. rewrite H in E.
  by rewrite bool_decide_eq_true_2 in E.
Qed.

Lemma hello_step_member an x a sv s' :
  at_pc a = PcHello → hello_step an x (a, sv) = Stepped s' → member_inv (a, sv) → member_inv s'.
Proof.
  unfold hello_step, goto, member_inv, closing_inv. cbn [fst snd]. intros ->.
  destruct x as [[typ payload]|e]; [|by intros [= <-]].
  destruct (negb _); [by intros [= <-]|].
  destruct (unmarshal_hello payload) as [h|]; [|by intros [= <-]].
  destruct (_ || _); [by intros [= <-]|].
  destruct (set_call _ _ _) as [r sv1] eqn:E. intros [= <-] _.
  split; [|done]. by rewrite (self_call_member _ _ _ _ _ E).
Qed.

Lemma read_step_member an x a sv s' :
  at_pc a = PcLoop → read_step an x (a, sv) = Stepped s' → member_inv (a, sv) → member_inv s'.
Proof.
  unfold read_step, goto, member_inv, closing_inv. cbn [fst snd]. intros Epc. rewrite Epc.
  destruct x as [[typ payload]|e]; [|by intros [= <-]].
  destruct (typ =? MsgInput).
  { destruct (Write payload _) as [[u|e] p]; intros [= <-]; [cbn; by rewrite Epc|done]. }
  destruct (typ =? MsgSize).
  { destruct (unmarshal_size payload) as [ws|]; [|by intros [= <-]].
    destruct (_ || _); [intros [= <-]; cbn; by rewrite Epc|].
    destruct (set_call _ _ _) as [r sv1] eqn:E. intros [= <-] [H _]. cbn [fst snd].
    pose proof (self_call_member _ _ _ _ _ E eq_refl) as E'. cbn in E'.
    destruct (bool_decide _); cbn; rewrite ?Epc; by rewrite E'. }
  destruct (typ =? MsgPing); [by intros [= <-]|].
  destruct (typ =? MsgHello); [by intros [= <-]|].
  destruct (_ || _); by intros [= <-].
Qed.

Lemma step_member ev s s' : step ev s = Stepped s' → member_inv s → member_inv s'.
Proof.
  destruct s as [a sv]. destruct ev as [an x|an|an x|werr| |an op|k|op|rop| |]; cbn [step fst snd].
  - destruct (at_pc a) eqn:Epc; try discriminate. by apply hello_step_member.
  - apply main_step_member.
  - destruct (at_pc a) eqn:Epc; try discriminate. by apply read_step_member.
  - destruct (writer_step werr a) eqn:E; try discriminate. intros [= <-].
    apply writer_step_flow in E as (_ & Ep & _ & _ & _ & Ec). unfold member_inv, closing_inv.
    cbn [fst snd]. by rewrite Ep, Ec.
  - unfold live_step. destruct (at_live a); try discriminate.
    + destruct (recv_sub _ _) as [[[c| |]|e] p]; try discriminate; by intros [= <-].
    + destruct (send _ a) eqn:Es; try discriminate. intros [= <-].
      apply send_stepped in Es as [Ec ->]. unfold member_inv, closing_inv. cbn. rewrite Ec. by destruct (at_pc a).
  - unfold other_step. destruct (bool_decide (_ = self)) eqn:Eb; [discriminate|].
    destruct (set_call _ _ _) as [r sv1] eqn:E. intros [= <-] [H1 H2].
    apply (f_equal snd) in E. cbn [snd fst] in *. unfold member_inv. cbn [fst snd].
    rewrite <- E, set_call_member, Eb. split; destruct (bool_decide (self ∈ _)); done.
  - unfold deliver_step. cbn [fst snd]. destruct (at_pending a !! k); [|discriminate].
    destruct (send _ a) eqn:Es; try discriminate. intros [= <-].
    apply send_stepped in Es as [Ec ->]. unfold member_inv, closing_inv. cbn. rewrite Ec. by destruct (at_pc a).
  - by intros [= <-].
  - by intros [= <-].
  - unfold forcedDetach. destruct (at_id a), (at_forced a); try discriminate; by intros [= <-].
  - unfold unwind_step, goto, member_inv, closing_inv. cbn [fst snd]. destruct (at_pc a) eqn:Epc; try discriminate; intros [= <-] [H1 _]; by split.
Qed.

Lemma run_member evs sv s :
  ¬ member sv → run evs (new_attach, sv) = Stepped s → member_inv s.
Proof.
  intros Hm H. apply (run_inv member_inv evs (new_attach, sv)); [|by split|done].
  intros ev s1 s2 H1 H2. by eapply step_member.
Qed.

(** ** A writer that stopped *)

(** The writer gave up after a write error, [outCh] is full, the live goroutine
    is blocked on it and the main goroutine waits for the live one. *)
Definition wedged (a : attach) : Prop :=
  writer_done (at_writer a) = true ∧ ch_closed (at_out a) = false ∧
  (ch_cap (at_out a) <= length (ch_buf (at_out a)))%nat ∧
  (∃ c, at_live a = LHolding c) ∧ ∃ r, at_pc a = PcJoinLive r.

Lemma wedged_send f a : wedged a → send f a = Blocked.
Proof.
  intros (_ & Hc & Hl & _). unfold send. rewrite Hc.
  by destruct (Nat.ltb_spec (length (ch_buf (at_out a))) (ch_cap (at_out a))); [lia|].
Qed.

Lemma wedged_step ev s :
  wedged s.1 →
  step ev s = Blocked ∨ ∃ s', step ev s = Stepped s' ∧ wedged s'.1 ∧ at_pc s'.1 = at_pc s.1.
Proof.
  destruct s as [a sv]. cbn [fst]. intros W. pose proof W as (Hw & Hc & Hl & (c & El) & r & Epc).
  destruct ev as [an x|an|an x|werr| |an op|k|op|rop| |]; cbn [step fst snd]; rewrite ?Epc; try by left.
  - unfold main_step. rewrite Epc, El. by left.
  - unfold writer_step. destruct (at_writer a); [done|by left|by left].
  - unfold live_step. rewrite El, wedged_send by done. by left.
  - unfold other_step. destruct (bool_decide (_ = self)); [by left|right].
    destruct (set_call _ _ _) as [res sv1]. eexists. split; [done|]. cbn [fst].
    by destruct (bool_decide _).
  - unfold deliver_step. cbn [fst]. destruct (at_pending a !! k); [|by left].
    rewrite wedged_send by done. by left.
  - right. by eexists.
  - right. by eexists.
  - unfold forcedDetach. destruct (at_id a), (at_forced a); try (by left); right; by eexists.
  - unfold unwind_step. rewrite Epc. by left.
Qed.

(** A stopped writer can pin the session.  Once an attachment is wedged
    (its writer failed with [outCh] full, see [wedged]), no schedule, no other client, not even [hoot detach], lets its
    [serveOne] return: its goroutines stay, and the size it declared keeps
    counting in the min-wins negotiation. *)
Theorem attach_can_hang evs sv s evs' :
  ¬ member sv → run evs (new_attach, sv) = Stepped s → wedged s.1 →
  ∃ s', run evs' s = Stepped s' ∧ at_pc s'.1 = at_pc s.1 ∧ member s'.2.
Proof.
  intros Hm Hrun W. assert (member_inv s) as [Hj _] by by eapply run_member.
  assert (∃ s', run evs' s = Stepped s' ∧ wedged s'.1 ∧ at_pc s'.1 = at_pc s.1) as (s' & E & W' & Epc).
  { clear -W. revert s W. induction evs' as [|ev evs' IH]; intros s W; cbn [run]; [by exists s|].
    destruct (wedged_step ev s W) as [->|(s1 & -> & W1 & E1)]; [by apply IH|].
    destruct (IH s1 W1) as (s' & H1 & H2 & H3). exists s'. by rewrite H3. }
  exists s'. split; [done|]. split; [done|].
  assert (member_inv s') as [Hj' _].
  { apply (run_inv member_inv evs' s); [|by eapply run_member|done].
    intros ev s1 s2 H1 H2. by eapply step_member. }
  apply Hj'. destruct W' as (_ & _ & _ & _ & r & ->). done.
Qed.

(** The tear-down race.  [closeOut] runs before the deferred [set.Remove]:
    in between, another client whose join, resize or departure changes the
    effective size sends on the closed channel, and its goroutine panics
    ([RoomPanics] is about what that leaves behind). *)
Theorem attach_teardown_panics evs sv s r an op :
  ¬ member sv → run evs (new_attach, sv) = Stepped s → at_pc s.1 = PcJoinWriter r →
  op_conn op ≠ self →
  set_current (res_set (set_step op (sv_set s.2))) ≠ set_current (sv_set s.2) →
  run [EvOther an op; EvDeliver (length (at_pending s.1))] s = Panicked.
Proof.
  intros Hm Hrun Epc Hop Hchg. destruct (run_member _ _ _ Hm Hrun) as [Hj Hcl].
  unfold closing_inv in Hcl. rewrite Epc in Hj, Hcl.
  assert (self ∈ res_receivers (set_step op (sv_set s.2))) as Hin.
  { destruct (set_step_cases op (sv_set s.2)) as [E|(a1 & E & Ecur)]; rewrite E in *; [done|].
    destruct (finish_op_spec (step_receivers op) a1) as (_ & Em & _ & _ & Er & _).
    rewrite Er, bool_decide_eq_false_2 by (by rewrite Ecur). rewrite elem_of_receivers. split.
    - rewrite <- Em, <- E, set_step_other by done. by apply Hj.
    - by destruct op. }
  destruct s as [a sv1]. cbn [fst snd] in *. cbn [run step]. unfold other_step.
  rewrite bool_decide_eq_false_2 by done.
  destruct (set_call an op (a, sv1).2) as [res sv2] eqn:Ec.
  apply (f_equal fst) in Ec. cbn [fst] in Ec. subst res. cbn [fst snd].
  unfold set_call. cbn [fst snd]. rewrite bool_decide_eq_true_2 by done.
  unfold deliver_step. cbn [fst with_pending at_pending].
  rewrite lookup_app_r, Nat.sub_diag by done. cbn [lookup list_lookup].
  unfold send. cbn [at_out with_pending]. by rewrite Hcl.
Qed.
End handler.

Arguments server T R : clear implicits.

(** ** A server for examples *)

Definition ex_hello (_ : list byte) : option Hello :=
  Some (mkHello (mkSize 80 24) (mkOrigin [] [] [] [] [])).
Definition ex_size (_ : list byte) : option PTYSize := Some (mkSize 70 20).

(** One other client, connection 2, is attached. *)
Definition ex_server : server tape Z :=
  mkServer (mkPty (T := tape) (Some [TapeByte 65]) None (ground false) (sink []) 80 24 ∅ ∅ None false)
    (mkSet {[2%nat := mkSize 100 40]} (mkSize 100 40) 1) None.

Definition ex_answers : size_answers := mkAnswers (Ok tt) 0 (mkPlan [] None None None None None).

Definition ex_run : list event → sys (T := tape) (R := Z) → outcome (sys (T := tape) (R := Z)) :=
  run (IG := counter_gen) (λ _, None) ex_hello ex_size false 1 7.

Definition ex_start : list event :=
  EvHello ex_answers (Ok (MsgHello, [])) :: repeat (EvMain ex_answers) 5.

(** The connection breaks, the PTY keeps printing, the client hangs up. *)
Definition ex_wedge : list event :=
  ex_start ++ EvWriter (Some (ErrIO 32)) ::
  concat (repeat [EvPty (PChunk 0 [65]); EvLive; EvLive] 255) ++
  [EvRead ex_answers (Err (WireIO EOF)); EvMain ex_answers].

(** A client that hangs up, while connection 2 is about to leave. *)
Definition ex_hangup : list event :=
  ex_start ++ EvRead ex_answers (Err (WireIO EOF)) ::
  [EvMain ex_answers; EvLive; EvMain ex_answers; EvMain ex_answers].

Lemma ex_not_member : ¬ member 1 ex_server.
Proof. by intros [ws H]. Qed.

(** The client of [ex_start] sends a frame it may not send, and is told so. *)
Definition ex_text (_ : attach_error) : list byte := B"no".

Definition ex_refused : list event :=
  ex_start ++ [EvWriter None; EvWriter None; EvWriter None; EvRead ex_answers (Ok (MsgHello, [])); EvMain ex_answers; EvLive;
    EvMain ex_answers; EvMain ex_answers; EvWriter None] ++ repeat (EvMain ex_answers) 3.

Lemma attach_frame_order_witness :
  ∃ s, ex_run ex_refused (new_attach, ex_server) = Stepped s ∧
    content (at_wire s.1) = [(MsgSnapshotScrollback, []); (MsgSnapshotScreen, [65])] ∧
    (∃ f, http_notice ex_text s.1 = [f]) ∧
    let fs := at_wire s.1 ++ http_notice ex_text s.1 in
    received ex_text s.1 fs ∧
    ∃ wire d e ws, perhaps d (forced_notice s.1) ∧ perhaps e (http_notice ex_text s.1) ∧
      (ws = wire ++ e ∨ at_parts s.1 = None ∧ put_in e wire ws) ∧ put_in d ws fs ∧
      (wire = [] ∨ ∃ f l, wire = f :: l ∧ f.1 = MsgSize).
Proof.
  assert (∃ s, ex_run ex_refused (new_attach, ex_server) = Stepped s ∧
    content (at_wire s.1) = [(MsgSnapshotScrollback, []); (MsgSnapshotScreen, [65])] ∧
    (∃ f, http_notice ex_text s.1 = [f]) ∧ is_Some (at_parts s.1)) as (s & Hs & Hc & Hf & [p Hp])
    by (eexists; split; [vm_compute; reflexivity|]; split; [reflexivity|]; split; eexists; reflexivity).
  exists s. split; [exact Hs|]. split; [exact Hc|]. split; [exact Hf|]. cbv zeta.
  assert (received ex_text s.1 (at_wire s.1 ++ http_notice ex_text s.1)) as Hr.
  { exists [], [], (http_notice ex_text s.1), (at_wire s.1 ++ http_notice ex_text s.1).
    split; [by left|]. split; [by left|]. split; [by right|]. rewrite Hp. split; [reflexivity|].
    exists [], (at_wire s.1 ++ http_notice ex_text s.1). by split. }
  split; [exact Hr|].
  destruct (attach_frame_order (IG := counter_gen) _ ex_hello ex_size false 1 7 ex_text _ _ s _ Hs Hr)
    as (wire & d & e & ws & H1 & H2 & H3 & H4 & H5 & _).
  exists wire, d, e, ws. split; [exact H1|]. split; [exact H2|]. split; [exact H3|]. split; [exact H4|exact H5].
Defined.

Lemma attach_can_hang_witness :
  ∃ s, ex_run ex_wedge (new_attach, ex_server) = Stepped s ∧
    ∃ s', ex_run [EvDetach; EvMain ex_answers; EvLive] s = Stepped s' ∧
      at_pc s'.1 = at_pc s.1 ∧ member 1 s'.2.
Proof.
  assert (∃ s, ex_run ex_wedge (new_attach, ex_server) = Stepped s ∧ wedged s.1) as (s & Hs & W).
  { eexists. split; [vm_compute; reflexivity|]. split; [reflexivity|]. split; [reflexivity|].
    split; [apply Nat.leb_le; vm_compute; reflexivity|]. split; eexists; reflexivity. }
  exists s. split; [exact Hs|].
  exact (attach_can_hang (IG := counter_gen) _ ex_hello ex_size false 1 7 _ _ s
    [EvDetach; EvMain ex_answers; EvLive] ex_not_member Hs W).
Defined.

Lemma attach_teardown_panics_witness :
  ∃ s, ex_run ex_hangup (new_attach, ex_server) = Stepped s ∧
    ex_run [EvOther ex_answers (SUpdate 2 (mkSize 60 18)); EvDeliver (length (at_pending s.1))] s = Panicked.
Proof.
  assert (∃ s, ex_run ex_hangup (new_attach, ex_server) = Stepped s ∧
    at_pc s.1 = PcJoinWriter (AeRead (WireIO EOF)) ∧
    sv_set s.2 = mkSet (<[1%nat := mkSize 80 24]> {[2%nat := mkSize 100 40]}) (mkSize 80 24) 2)
    as (s & Hs & Epc & Eset) by (eexists; split; [vm_compute; reflexivity|]; split; reflexivity).
  exists s. split; [exact Hs|].
  apply (attach_teardown_panics (IG := counter_gen) (λ _, None) ex_hello ex_size false 1 7 ex_hangup ex_server s
    (AeRead (WireIO EOF)) ex_answers (SUpdate 2 (mkSize 60 18)) ex_not_member Hs Epc).
  - discriminate.
  - rewrite Eset. vm_compute. discriminate.
Defined.
