(* ===== verification/AttachClient.v ===== *)
(** * [cmd/hoot/attach.go]: the attach client

    [runServerLoop] over the bytes of a connection, [runConnectLoop] over a
    script of attempts (what each dial and session met, and how the wait between
    two of them ended), and [runAttachLoop] around it.  A write to stdout can
    fail; writes to stderr are the bytes written.  [sharedSession] and the
    teardown of [runSession] are at the end. *)
From S2P Require Import Prelude GoBase Utf8 Wire State ShortId Hud Restorer.
Open Scope Z_scope.

(** ** [packSize], [unpackSize] *)

Definition packSize (cols rows : Z) : Z := Z.lor (u64 (Z.shiftl (u64 cols) 16)) (u64 rows).
Definition unpackSize (v : Z) : Z * Z := (u16 (Z.shiftr v 16), u16 (Z.land v 65535)).

Lemma unpack_pack c r : 0 <= c < 65536 → 0 <= r < 65536 → unpackSize (packSize c r) = (c, r).
Proof.
  intros Hc Hr. unfold packSize, unpackSize. rewrite (u64_small c), (u64_small r) by lia.
  rewrite u64_small by (rewrite Z.shiftl_mul_pow2 by lia; lia).
  rewrite Z.lor_comm, (lor_shiftl_add r c 16) by lia. change (2 ^ 16) with 65536. f_equal.
  - rewrite Z.shiftr_div_pow2 by lia. change (2 ^ 16) with 65536.
    replace ((r + c * 65536) / 65536) with c by lia. by apply u16_small.
  - change 65535 with (Z.ones 16). rewrite Z.land_ones by lia. change (2 ^ 16) with 65536.
    replace ((r + c * 65536) mod 65536) with r by lia. by apply u16_small.
Qed.

(** [localSize]: [tty] is [IsTerminal], [size] what [GetSize] returns. *)
Definition localSize (tty : bool) (size : option (Z * Z)) : Z * Z :=
  if tty then match size with Some (c, r) => (u16 c, u16 r) | None => (0, 0) end else (0, 0).

(** [localOrigin]; an unset variable or an error is the empty string. *)
Definition localOrigin (hostname : option gostring) (Getenv : gostring → gostring) : Origin :=
  mkOrigin (default [] hostname) (Getenv B"TERM") (Getenv B"TERM_PROGRAM") (Getenv B"TERM_PROGRAM_VERSION")
    (Getenv B"USER").

(** [localOrDefaultSize]; [localSize] is [(0, 0)] without a terminal. *)
Definition localOrDefaultSize (localSize : Z * Z) : Z * Z :=
  if (localSize.1 =? 0) || (localSize.2 =? 0) then (80, 24) else localSize.

(** Whatever the terminal answers, the size that goes into the hello is positive
    and fits its 16 bits. *)
Lemma local_size_typed tty size :
  let s := localOrDefaultSize (localSize tty size) in 0 < s.1 < 65536 ∧ 0 < s.2 < 65536.
Proof.
  assert (H : ∀ z, 0 <= u16 z < 65536) by (intros z; unfold u16; change (2 ^ 16) with 65536; lia).
  unfold localOrDefaultSize, localSize. destruct tty; [|cbn; lia]. destruct size as [[c r]|]; cbn [fst snd]; [|cbn; lia].
  pose proof (H c). pose proof (H r).
  destruct (Z.eqb_spec (u16 c) 0), (Z.eqb_spec (u16 r) 0); cbn; lia.
Qed.

(** ** [attachOptionsFromFlags] *)

Record attachOptions := mkOptions { PrefixByte : byte; NoReconnect : bool; RestorerName : gostring }.

Inductive options_error := OptPrefix (e : prefix_error) | OptRestorer.

Definition attachOptionsFromFlags (prefixSpec : gostring) (noReconnect : bool) (restorer : gostring)
  : res options_error attachOptions :=
  match ParsePrefixKey prefixSpec with
  | Err e => Err (OptPrefix e)
  | Ok b => match newRestorer restorer with
            | None => Err OptRestorer
            | Some _ => Ok (mkOptions b noReconnect restorer)
            end
  end.

(** ** [runServerLoop] *)

Inductive server_error :=
| SlRead (e : wire_error) | SlStdout (e : io_error) | SlUnexpected (typ : Z) | SlUnknown (typ : Z).

Record attachLabel := mkLabel { label_Session : gostring; label_Host : gostring }.

(** What the client process shows and knows. *)
Record client := mkClient {
  cl_stdout : writer;
  cl_stderr : list byte;
  cl_attached : bool;
  cl_restorer : option TerminalRestorer
}.

(** [emitAttachStatus]'s string. *)
Definition attach_status (hud : option hudState) (label : attachLabel) (localRows : Z) : gostring :=
  let line := if empty (Line hud)
              then B"[connected. " ++ label_Session label ++ B" @ " ++ label_Host label ++ B"]"
              else Line hud in
  let rows := Itoa (if localRows =? 0 then 24 else localRows) in
  ESC :: B"[" ++ rows ++ B";1H" ++ ESC :: B"[2K" ++ ESC :: B"[2m" ++ line ++ ESC :: B"[0m" ++
  ESC :: B"[" ++ rows ++ B"S" ++ ESC :: B"[H".

Definition put (bs : list byte) (c : client) : option server_error * client :=
  let '(x, w) := GoBase.Write bs (cl_stdout c) in
  (match x with Ok _ => None | Err e => Some (SlStdout e) end,
   mkClient w (cl_stderr c) (cl_attached c) (cl_restorer c)).

Definition put_nonempty (bs : list byte) (c : client) : option server_error * client :=
  match bs with [] => (None, c) | _ => put bs c end.

Definition observe (bs : list byte) (c : client) : client :=
  mkClient (cl_stdout c) (cl_stderr c) (cl_attached c) (ObserveR bs <$> cl_restorer c).

(** Do [f], then [g] unless [f] failed. *)
Definition then_do (x : option server_error * client) (g : client → option server_error * client)
  : option server_error * client :=
  match x with (Some e, c) => (Some e, c) | (None, c) => g c end.

Section loop.
Context (unmarshal_size : list byte → option PTYSize).
Context (hud : option hudState).

(** The notice about a remote size; the cross is U+00D7. *)
Definition size_notice (sz : PTYSize) (lc lr : Z) : list byte :=
  [13; 10] ++ ESC :: B"[2m[hoot: remote pty " ++ Itoa (Cols sz) ++ [195; 151] ++ Itoa (Rows sz) ++
  B", your terminal " ++ Itoa lc ++ [195; 151] ++ Itoa lr ++ B"]" ++ ESC :: B"[0m" ++ [13; 10].

Definition frame_step (label : attachLabel) (localSize : Z * Z) (localRows : Z) (typ : Z) (payload : list byte) (c : client)
  : option server_error * client :=
  if typ =? MsgSnapshotScrollback then
    then_do (put_nonempty payload c) (λ c, (None, observe payload c))
  else if typ =? MsgSnapshotScreen then
    let c := mkClient (cl_stdout c) (cl_stderr c) true (cl_restorer c) in
    then_do (put (attach_status hud label localRows) c) (λ c,
    then_do (put_nonempty payload c) (λ c, (None, observe payload c)))
  else if typ =? MsgOutput then
    then_do (put payload c) (λ c, (None, observe payload c))
  else if typ =? MsgSize then
    (None,
     match unmarshal_size payload with
     | None => c
     | Some sz =>
         let '(lc, lr) := localSize in
         if negb (lc =? 0) && (negb (Cols sz =? lc) || negb (Rows sz =? lr))
         then mkClient (cl_stdout c) (cl_stderr c ++ size_notice sz lc lr) (cl_attached c) (cl_restorer c)
         else c
     end)
  else if typ =? MsgPong then (None, c)
  else if (typ =? MsgHello) || (typ =? MsgInput) || (typ =? MsgPing) then (Some (SlUnexpected typ), c)
  else (Some (SlUnknown typ), c).

(** [n] frames are handled before [ctx] is found done, which returns nil. *)
Fixpoint runServerLoop (label : attachLabel) (n : nat) (localSize : Z * Z) (localRows : Z) (r : reader) (c : client)
  : option server_error * client :=
  match n with
  | O => (None, c)
  | S n' =>
      match ReadFrame r with
      | (Err e, _) => (Some (SlRead e), c)
      | (Ok (typ, payload), r') =>
          then_do (frame_step label localSize localRows typ payload c)
            (runServerLoop label n' localSize localRows r')
      end
  end.

(** ** [runConnectLoop] *)

Inductive dial_error := DialExit2 (msg : gostring) | DialErr (code : nat).

(** What one turn of the loop meets. *)
Inductive wait_outcome := WaitTimer | WaitWake | WaitCancelled.

Record attempt := mkAttempt {
  a_dial : res dial_error (reader * nat);  (** the connection, and how many frames [ctx] allows *)
  a_cancelled : bool;                      (** [ctx.Err() != nil] once the dial failed or the session ended *)
  a_clones : list attachLabel;             (** [<prefix>c] completed in this turn: the new targets *)
  a_rows : Z;
  a_wait : wait_outcome
}.

(** [sharedSession]'s flags and [attachTargetState], as far as the loop reads
    them; [tier], an [int32], counts the waits since the last connection. *)
Record shared := mkShared { sh_switched : bool; sh_tier : Z; sh_target : attachLabel }.

(** [LoopPanic] is no error value: the process dies of an index out of range. *)
Inductive loop_error := LoopExit2 (msg : gostring) | LoopDial (code : nat) | LoopSession (e : server_error) | LoopPanic.

Definition backoffSchedule : list Z := [1; 2; 4; 8; 16; 30].

(** The wait of a tier, in seconds; a negative index panics. *)
Definition backoff (tier : Z) : option Z :=
  let tier := if 6 <=? tier then 5 else tier in
  if tier <? 0 then None else backoffSchedule !! Z.to_nat tier.

(** [attachTargetState.set], [markSwitched] and [takeSwitched]. *)
Definition set_target (l : attachLabel) (s : shared) : shared := mkShared (sh_switched s) (sh_tier s) l.
Definition markSwitched (s : shared) : shared := mkShared true (sh_tier s) (sh_target s).
Definition takeSwitched (s : shared) : bool * shared := (sh_switched s, mkShared false (sh_tier s) (sh_target s)).

(** What each clone does. *)
Definition apply_clones (ls : list attachLabel) (s : shared) : shared :=
  foldl (λ s l, markSwitched (set_target l s)) s ls.

(** [errors.Is(err, io.EOF) || errors.Is(err, net.ErrClosed)]; [closed] is the
    code of [net.ErrClosed]. *)
Definition closed : io_error := ErrIO 9.
Definition clean_end (e : option server_error) : bool :=
  match e with
  | None => true
  | Some (SlRead (WireIO e)) | Some (SlStdout e) => bool_decide (e = EOF) || bool_decide (e = closed)
  | _ => false
  end.

(** What one turn of the loop comes to. *)
Inductive turn :=
| Return (r : res loop_error unit)
| Again (gotOnce : bool) (waited : option Z).

(** [waitBackoff]: whether to go on and the wait chosen, and the tier moved on;
    the timer, a key or the end of [ctx] ends the wait.  [Add] wraps. *)
Definition waitBackoff (w : wait_outcome) (s : shared) : option (bool * Z) * shared :=
  let next := i32 (sh_tier s + 1) in
  (d ← backoff (i32 (next - 1)); Some (negb match w with WaitCancelled => true | _ => false end, d),
   mkShared (sh_switched s) next (sh_target s)).

(** What the loop does after a wait. *)
Definition after_wait (got : bool) (x : option (bool * Z)) : turn :=
  match x with
  | Some (true, d) => Again got (Some d)
  | Some (false, _) => Return (Ok tt)
  | None => Return (Err LoopPanic)
  end.

Definition disconnected_notice (text : option server_error → gostring) (e : option server_error) : list byte :=
  [13; 10] ++ ESC :: B"[2m[hoot: disconnected: " ++ text e ++ B"]" ++ ESC :: B"[0m" ++ [13; 10].

Context (err_text : option server_error → gostring).

(** One turn: from the dial to the next [continue], [return] or end of body. *)
Definition connect_turn (localSize : Z * Z) (reconnect gotOnce : bool) (a : attempt) (s : shared) (c : client)
  : turn * shared * client :=
  match a_dial a with
  | Err e =>
      let s := apply_clones (a_clones a) s in
      if a_cancelled a then (Return (Ok tt), s, c)
      else match e with
           | DialExit2 msg => (Return (Err (LoopExit2 msg)), s, c)
           | DialErr code =>
               if negb gotOnce || negb reconnect then (Return (Err (LoopDial code)), s, c)
               else let '(x, s) := waitBackoff (a_wait a) s in (after_wait gotOnce x, s, c)
           end
  | Ok (r, n) =>
      let s := mkShared (sh_switched s) 0 (sh_target s) in
      let '(e, c) := runServerLoop (sh_target s) n localSize (a_rows a) r c in
      let s := apply_clones (a_clones a) s in
      if a_cancelled a then (Return (Ok tt), s, c)
      else if (takeSwitched s).1 then (Again false None, (takeSwitched s).2, c)
      else if negb reconnect then
        (Return (if clean_end e then Ok tt
                 else match e with None => Ok tt | Some e => Err (LoopSession e) end), s, c)
      else
        let c := mkClient (cl_stdout c) (cl_stderr c ++ disconnected_notice err_text e)
                   (cl_attached c) (cl_restorer c) in
        let '(x, s) := waitBackoff (a_wait a) s in (after_wait true x, s, c)
  end.

(** The loop over a script, with the waits it made; [None] while it runs. *)
Fixpoint runConnectLoop (localSize : Z * Z) (reconnect gotOnce : bool) (script : list attempt)
    (s : shared) (c : client) : option (res loop_error unit) * list Z * shared * client :=
  match script with
  | [] => (None, [], s, c)
  | a :: script' =>
      match connect_turn localSize reconnect gotOnce a s c with
      | (Return r, s, c) => (Some r, [], s, c)
      | (Again got w, s, c) =>
          let '(r, ws, s, c) := runConnectLoop localSize reconnect got script' s c in
          (r, match w with Some d => d :: ws | None => ws end, s, c)
      end
  end.

(** ** [runAttachLoop] *)

(** [emitDetach]; the error of [Cleanup] is dropped. *)
Definition detach_banner (label : attachLabel) : gostring :=
  [13; 10] ++ B"[disconnected. " ++ label_Session label ++ B" @ " ++ label_Host label ++ B"]" ++ [13; 10].

Definition emitDetach (label : attachLabel) (restorer : option TerminalRestorer) (w : writer) : writer :=
  let w := match restorer with None => w | Some t => (Cleanup t w).2 end in
  (GoBase.Write (detach_banner label) w).2.
End loop.

Section attach_loop.
Context (unmarshal_size : list byte → option PTYSize) (err_text : option server_error → gostring).

(** What [runAttachLoop] returns: the exit code and the error to print. *)
Inductive attach_loop_error := AlRestorer | AlMakeRaw (e : io_error) | AlAttach (e : io_error) | AlLoop (e : loop_error).

(** After a panic the runtime exits with 2, once the deferred calls have run. *)
Definition exit_code (signaled : bool) (r : res loop_error unit) : Z * option attach_loop_error :=
  match r with
  | Err LoopPanic => (2, Some (AlLoop LoopPanic))
  | _ =>
      if signaled then (130, None)
      else match r with
           | Ok _ => (0, None)
           | Err (LoopExit2 _) => (2, None)
           | Err e => (1, Some (AlLoop e))
           end
  end.

(** The deferred function: the title first, the restorer's cleanup if a screen
    was ever shown. *)
Definition on_exit (hud : option hudState) (target : attachLabel) (c : client) : client :=
  let w := onDetach hud (cl_stdout c) in
  mkClient (if cl_attached c then emitDetach target (cl_restorer c) w else w)
    (cl_stderr c) (cl_attached c) (cl_restorer c).

(** [makeRaw]: what [term.MakeRaw] returns when stdin is a terminal. *)
Definition runAttachLoop (initial : attachLabel) (reconnect : bool) (hud : option hudState)
    (restorerName : gostring) (makeRaw : option io_error) (signaled : bool) (localSize : Z * Z)
    (script : list attempt) (stdout : writer) : option (Z * option attach_loop_error) * client :=
  match newRestorer restorerName with
  | None => (Some (2, Some AlRestorer), mkClient stdout [] false None)
  | Some restorer =>
      match makeRaw with
      | Some e => (Some (1, Some (AlMakeRaw e)), on_exit hud initial (mkClient stdout [] false (Some restorer)))
      | None =>
          let '(x, restorer, w) := Attach restorer stdout in
          match x with
          | Err e => (Some (1, Some (AlAttach e)), on_exit hud initial (mkClient w [] false (Some restorer)))
          | Ok _ =>
              let '(hud, w) := onAttach hud w in
              let c := mkClient w [] false (Some restorer) in
              let '(r, _, s, c) := runConnectLoop unmarshal_size hud err_text localSize reconnect false script
                                     (mkShared false 0 initial) c in
              match r with
              | None => (None, c)
              | Some r => (Some (exit_code signaled r), on_exit hud (sh_target s) c)
              end
          end
      end
  end.
End attach_loop.

(** ** The server loop shows the contents, in order *)

(** A frame a server may send. *)
Definition server_frame (f : wframe) : Prop :=
  f.1 = MsgSnapshotScrollback ∨ f.1 = MsgSnapshotScreen ∨ f.1 = MsgOutput ∨ f.1 = MsgSize ∨ f.1 = MsgPong.

(** Frames that carry terminal contents. *)
Definition carries (f : wframe) : bool :=
  (f.1 =? MsgSnapshotScrollback) || (f.1 =? MsgSnapshotScreen) || (f.1 =? MsgOutput).

Definition render (hud : option hudState) (label : attachLabel) (rows : Z) (f : wframe) : list byte :=
  if f.1 =? MsgSnapshotScreen then attach_status hud label rows ++ f.2
  else if carries f then f.2 else [].

Definition rendered hud label rows (fs : list wframe) : list byte := concat (render hud label rows <$> fs).

(** What the restorer sees of the frames. *)
Definition observed (fs : list wframe) (o : option TerminalRestorer) : option TerminalRestorer :=
  foldl (λ o f, if carries f then ObserveR f.2 <$> o else o) o fs.

Definition screen_seen (fs : list wframe) : bool := existsb (λ f, f.1 =? MsgSnapshotScreen) fs.

Section loop_facts.
Context (unmarshal_size : list byte → option PTYSize) (hud : option hudState).

Lemma put_nonempty_sink bs out err att r :
  put_nonempty bs (mkClient (sink out) err att r) = (None, mkClient (sink (out ++ bs)) err att r).
Proof. destruct bs; [by rewrite app_nil_r|done]. Qed.

Lemma frame_step_sink label ls rows f out err att r :
  server_frame f →
  ∃ err', frame_step unmarshal_size hud label ls rows f.1 f.2 (mkClient (sink out) err att r) =
    (None, mkClient (sink (out ++ render hud label rows f)) err'
      (att || (f.1 =? MsgSnapshotScreen)) (if carries f then ObserveR f.2 <$> r else r)).
Proof.
  destruct f as [typ payload]. unfold server_frame, frame_step, render, carries. cbn [fst snd].
  intros [-> | [-> | [-> | [-> | ->]]]]; cbn [Z.eqb MsgSnapshotScrollback MsgSnapshotScreen MsgOutput MsgSize MsgPong
    Pos.eqb orb].
  - exists err. rewrite put_nonempty_sink. cbn [then_do observe cl_stdout cl_stderr cl_attached cl_restorer].
    by rewrite orb_false_r.
  - exists err. cbn [cl_stdout cl_stderr cl_restorer]. unfold put at 1. cbn [cl_stdout].
    rewrite Write_sink. cbn [then_do cl_stderr cl_attached cl_restorer]. rewrite put_nonempty_sink.
    cbn [then_do observe cl_stdout cl_stderr cl_attached cl_restorer]. by rewrite orb_true_r, <- app_assoc.
  - exists err. unfold put. cbn [cl_stdout]. rewrite Write_sink.
    cbn [then_do observe cl_stdout cl_stderr cl_attached cl_restorer]. by rewrite orb_false_r.
  - rewrite app_nil_r, orb_false_r. destruct (unmarshal_size payload) as [sz|]; [|by eexists].
    destruct ls as [lc lr]. destruct (_ && _); by eexists.
  - rewrite app_nil_r, orb_false_r. by eexists.
Qed.

(** The frames of a connection that breaks off, perhaps inside a frame. *)
Lemma runServerLoop_frames label ls rows fs tail fin n out err att r :
  Forall frame_ok fs → Forall server_frame fs → frame_cut tail → (length fs < n)%nat →
  ∃ err', runServerLoop unmarshal_size hud label n ls rows (Reader (enc_frames fs ++ tail) fin)
      (mkClient (sink out) err att r) =
    (Some (SlRead (WireIO (cut_error tail fin))),
     mkClient (sink (out ++ rendered hud label rows fs)) err' (att || screen_seen fs) (observed fs r)).
Proof.
  intros Hok. revert n out err att r. induction Hok as [|f fs Hf Hfs IH]; intros n out err att r Hs Ht Hn.
  - destruct n as [|n]; [cbn in Hn; lia|]. exists err. cbn [runServerLoop enc_frames fmap list_fmap concat app].
    pose proof (ReadFrame_cut tail fin Ht) as E. destruct (ReadFrame (Reader tail fin)) as [[[t pl]|e] r'].
    + discriminate E.
    + cbn [fst] in E. injection E as ->. cbn. by rewrite app_nil_r, orb_false_r.
  - destruct n as [|n]; [cbn in Hn; lia|]. apply Forall_cons in Hs as [Hsf Hs].
    cbn [runServerLoop]. unfold enc_frames. cbn [fmap list_fmap concat].
    rewrite <- app_assoc, ReadFrame_enc by done. destruct f as [typ payload].
    destruct (frame_step_sink label ls rows (typ, payload) out err att r Hsf) as [err1 E1].
    cbn [fst snd] in E1. rewrite E1. cbn [then_do].
    destruct (IH n (out ++ render hud label rows (typ, payload)) err1
      (att || (typ =? MsgSnapshotScreen)) (if carries (typ, payload) then ObserveR payload <$> r else r) Hs Ht)
      as [err2 E2]; [cbn in Hn; lia|].
    exists err2. fold (enc_frames fs). rewrite E2. unfold rendered, observed, screen_seen.
    cbn [fmap list_fmap concat foldl existsb fst snd]. by rewrite <- app_assoc, <- orb_assoc.
Qed.
End loop_facts.

(** ** The connect loop *)

Section connect_facts.
Context (unmarshal_size : list byte → option PTYSize) (err_text : option server_error → gostring).
Context (hud : option hudState) (ls : Z * Z).

#[local] Abbreviation connect_turn := (connect_turn unmarshal_size hud err_text ls).
#[local] Abbreviation runConnectLoop := (runConnectLoop unmarshal_size hud err_text ls).

(** The tiers of fewer than 2^31 waits in a row. *)
Definition tier_ok (n : nat) (s : shared) : Prop := 0 <= sh_tier s ∧ sh_tier s + Z.of_nat n < 2 ^ 31.

Lemma backoff_range tier : 0 <= tier → ∃ d, backoff tier = Some d ∧ 1 <= d <= 30.
Proof.
  intros H. unfold backoff. destruct (6 <=? tier) eqn:E; [by exists 30|].
  apply Z.leb_gt in E. assert (tier = 0 ∨ tier = 1 ∨ tier = 2 ∨ tier = 3 ∨ tier = 4 ∨ tier = 5) by lia.
  destruct_or?; subst; eexists; (split; [reflexivity|lia]).
Qed.

Lemma waitBackoff_ok w n s :
  tier_ok (S n) s → ∃ d, 1 <= d <= 30 ∧
    waitBackoff w s = (Some (negb match w with WaitCancelled => true | _ => false end, d),
                       mkShared (sh_switched s) (sh_tier s + 1) (sh_target s)).
Proof.
  intros [H0 Hn]. unfold waitBackoff. rewrite (i32_small (sh_tier s + 1)), i32_small by lia.
  replace (sh_tier s + 1 - 1) with (sh_tier s) by lia. destruct (backoff_range _ H0) as (d & -> & Hd).
  by exists d.
Qed.

(** The wait that follows 2^31 others in a row kills the client: the tier has
    wrapped to a negative index. *)
Lemma waitBackoff_wraps w switched target :
  let s := (waitBackoff w (mkShared switched (2 ^ 31 - 1) target)).2 in
  (waitBackoff w (mkShared switched (2 ^ 31 - 1) target)).1 ≠ None ∧ (waitBackoff w s).1 = None.
Proof. vm_compute. split; [discriminate|done]. Qed.

(** A wait that ended by itself or by a key. *)
Definition waits (a : attempt) : Prop := a_wait a ≠ WaitCancelled ∧ a_cancelled a = false.

(** A turn in reconnect mode, after a first session, without clones. *)
Lemma steady_turn a n s c :
  a_clones a = [] → sh_switched s = false → tier_ok (S n) s →
  let '(t, s', c') := connect_turn true true a s c in
  sh_switched s' = false ∧
  match t with
  | Return (Ok _) => ¬ waits a
  | Return (Err e) => ∃ msg, e = LoopExit2 msg ∧ a_dial a = Err (DialExit2 msg)
  | Again got w => tier_ok n s' ∧ got = true ∧ ∃ d, w = Some d ∧ 1 <= d <= 30
  end.
Proof.
  intros Hcl Hsw Ht. unfold connect_turn, waits. rewrite Hcl. cbn [apply_clones foldl].
  destruct (a_dial a) as [[r m]|e].
  - destruct (runServerLoop _ _ _ _ _ _ _ _) as [e c1]. unfold takeSwitched. cbn [fst snd sh_switched sh_tier sh_target].
    destruct (a_cancelled a); [split; [done|]; by intros []|]. rewrite Hsw. cbn [negb].
    destruct (waitBackoff_ok (a_wait a) n (mkShared false 0 (sh_target s))) as (d & Hd & ->); [split; cbn; destruct Ht; lia|].
    cbn [sh_switched sh_tier sh_target]. destruct (a_wait a); cbn [negb after_wait]; (split; [done|]); [| |by intros []].
    all: split; [split; cbn; destruct Ht; lia|]; split; [done|]; by exists d.
  - destruct (a_cancelled a); [split; [done|]; by intros []|].
    destruct e as [msg|code]; [split; [done|]; by exists msg|]. cbn [negb orb].
    destruct (waitBackoff_ok (a_wait a) n s Ht) as (d & Hd & ->).
    destruct (a_wait a); cbn [negb after_wait]; (split; [done|]); [| |by intros []].
    all: split; [split; cbn; destruct Ht; lia|]; split; [done|]; by exists d.
Qed.

Lemma steady_loop script s c :
  Forall (λ a, a_clones a = []) script → sh_switched s = false → tier_ok (length script) s →
  let '(r, ws, _, _) := runConnectLoop true true script s c in
  Forall (λ d, 1 <= d <= 30) ws ∧
  match r with
  | None => length ws = length script
  | Some (Ok _) => Exists (λ a, ¬ waits a) script
  | Some (Err e) => ∃ msg, e = LoopExit2 msg ∧ Exists (λ a, a_dial a = Err (DialExit2 msg)) script
  end.
Proof.
  intros Hcl. revert s c. induction Hcl as [|a script Ha Hcl IH]; intros s c Hsw Ht; cbn [AttachClient.runConnectLoop].
  { split; [constructor|done]. }
  pose proof (steady_turn a (length script) s c Ha Hsw Ht) as H.
  destruct (connect_turn true true a s c) as [[t s1] c1]. destruct H as (Hsw1 & H).
  destruct t as [[[]|e]|got w].
  - split; [constructor|by left].
  - destruct H as (msg & -> & Hd). split; [constructor|]. exists msg. split; [done|by left].
  - destruct H as (Ht1 & -> & d & -> & Hd). specialize (IH s1 c1 Hsw1 Ht1).
    destruct (runConnectLoop true true script s1 c1) as [[[r ws] s2] c2]. destruct IH as [IH1 IH2].
    split; [by constructor|]. destruct r as [[[]|e]|].
    + by right.
    + destruct IH2 as (msg & -> & IH2). exists msg. split; [done|by right].
    + cbn. by rewrite IH2.
Qed.

(** C28: Reconnecting.  The first dial fails fast: its error ends the loop at
    once, with or without [reconnect].  After a first session, as long as nothing
    is cloned and for fewer than 2^31 turns (the [int32] that counts the waits
    wraps after that many in a row, and the next wait panics,
    [waitBackoff_wraps]), the loop in reconnect mode only ends because the user
    left (ctx is done after a turn, or during a wait) or because the server no
    longer knows the session; until then every dial error and every dropped
    connection is followed by a wait for a timer of one to thirty seconds, which a
    key cuts short. *)
Theorem connect_loop_persists a script c t reconnect code s :
  a_dial a = Err (DialErr code) → a_cancelled a = false →
  Forall (λ a, a_clones a = []) script → sh_switched s = false → tier_ok (length script) s →
  (∃ s' c', runConnectLoop reconnect false (a :: script) (mkShared false t (sh_target s)) c =
     (Some (Err (LoopDial code)), [], s', c')) ∧
  (let '(r, ws, _, _) := runConnectLoop true true script s c in
   Forall (λ d, 1 <= d <= 30) ws ∧
   match r with
   | None => length ws = length script
   | Some (Ok _) => Exists (λ a, ¬ waits a) script
   | Some (Err e) => ∃ msg, e = LoopExit2 msg ∧ Exists (λ a, a_dial a = Err (DialExit2 msg)) script
   end).
Proof.
  intros Hd Hc Hcl Hsw Ht. split; [|by apply steady_loop].
  cbn [AttachClient.runConnectLoop]. unfold connect_turn. rewrite Hd, Hc. by do 2 eexists.
Qed.

(** A clone made while disconnected cancels reconnecting.  The switch is
    only consumed when a session ends: the next drop, long after, is taken for
    the switch, and the failure of the dial that follows ends the loop as if it
    were the first. *)
Theorem clone_while_offline_gives_up a1 a2 a3 rest s c l code :
  (* dropped; cloned while the redial fails; reconnected; dropped *)
  a_cancelled a1 = false → a_clones a1 = [l] →
  a_dial a1 = Err (DialErr code) → a_wait a1 ≠ WaitCancelled →
  is_ok (a_dial a2) = true → a_cancelled a2 = false → a_clones a2 = [] →
  a_dial a3 = Err (DialErr code) → a_cancelled a3 = false → tier_ok 1 s →
  ∃ ws s' c', runConnectLoop true true (a1 :: a2 :: a3 :: rest) s c =
    (Some (Err (LoopDial code)), ws, s', c').
Proof.
  intros Hc1 Hl1 Hd1 Hw1 Hd2 Hc2 Hl2 Hd3 Hc3 Ht. cbn [AttachClient.runConnectLoop].
  unfold connect_turn at 1. rewrite Hd1, Hc1, Hl1. cbn [apply_clones foldl negb orb].
  destruct (waitBackoff_ok (a_wait a1) 0 (markSwitched (set_target l s)) Ht) as (d & _ & ->).
  cbn [sh_tier sh_switched sh_target markSwitched set_target].
  assert (negb match a_wait a1 with WaitCancelled => true | _ => false end = true) as -> by (by destruct (a_wait a1)).
  cbn [after_wait].
  unfold connect_turn at 1. destruct (a_dial a2) as [[r n]|]; [|done]. rewrite Hc2, Hl2.
  cbn [sh_target sh_tier sh_switched apply_clones foldl].
  destruct (runServerLoop _ _ _ _ _ _ _ c) as [e c2]. cbn [sh_switched].
  unfold connect_turn at 1. rewrite Hd3, Hc3. cbn [negb orb]. by do 3 eexists.
Qed.
End connect_facts.

(** ** What the process leaves in the terminal *)

(** What [runServerLoop] makes of a frame type it does not show: nil for the
    types a server may send. *)
Definition fault (typ : Z) : option server_error :=
  if existsb (Z.eqb typ) [MsgSnapshotScrollback; MsgSnapshotScreen; MsgOutput; MsgSize; MsgPong] then None
  else Some (if existsb (Z.eqb typ) [MsgHello; MsgInput; MsgPing] then SlUnexpected typ else SlUnknown typ).

(** The frames a session handles of a connection, of which [ctx] allows [n],
    and how it ends: at the frame it cannot read, at the first a server may not
    send, or when [ctx] is done. *)
Fixpoint handled (n : nat) (r : reader) : list wframe * option server_error :=
  match n with
  | O => ([], None)
  | S n' =>
      match ReadFrame r with
      | (Err e, _) => ([], Some (SlRead e))
      | (Ok (typ, payload), r') =>
          match fault typ with
          | Some e => ([], Some e)
          | None => let '(fs, e) := handled n' r' in ((typ, payload) :: fs, e)
          end
      end
  end.

(** Of a connection that carries whole frames and then breaks off, those are
    the frames. *)
Lemma handled_frames n fs tail fin :
  Forall frame_ok fs → Forall server_frame fs → frame_cut tail → (length fs < n)%nat →
  handled n (Reader (enc_frames fs ++ tail) fin) = (fs, Some (SlRead (WireIO (cut_error tail fin)))).
Proof.
  intros Hok. revert n. induction Hok as [|[typ payload] fs Hf Hfs IH]; intros [|n] Hs Ht Hn; try (cbn in Hn; lia).
  - cbn [handled enc_frames fmap list_fmap concat app]. pose proof (ReadFrame_cut tail fin Ht) as E.
    destruct (ReadFrame (Reader tail fin)) as [[[t pl]|e] r']; [discriminate E|]. by injection E as ->.
  - apply Forall_cons in Hs as [Hsf Hs]. cbn [handled]. unfold enc_frames. cbn [fmap list_fmap concat].
    rewrite <- app_assoc, ReadFrame_enc by done. fold (enc_frames fs). rewrite IH by (done || (cbn in Hn; lia)).
    assert (fault typ = None) as -> by (by destruct Hsf as [E|[E|[E|[E|E]]]]; cbn in E; rewrite E). done.
Qed.

(** What an attempt shows and how its session ends. *)
Definition frames (a : attempt) : list wframe :=
  match a_dial a with Ok (r, n) => (handled n r).1 | Err _ => [] end.
Definition session_end (a : attempt) : option server_error :=
  match a_dial a with Ok (r, n) => (handled n r).2 | Err _ => None end.

(** The target once these attempts and the clones made in them are over. *)
Definition target_after (l : attachLabel) (script : list attempt) : attachLabel :=
  foldl (λ l a, List.last (a_clones a) l) l script.

(** The bytes the sessions of a script put on the terminal. *)
Fixpoint shown (hud : option hudState) (l : attachLabel) (script : list attempt) : list byte :=
  match script with
  | [] => []
  | a :: script' => rendered hud l (a_rows a) (frames a) ++ shown hud (List.last (a_clones a) l) script'
  end.

(** How the last attempt ends the loop, and with what. *)
Inductive ended (reconnect : bool) (a : attempt) : res loop_error unit → Prop :=
| ended_left : a_cancelled a = true → ended reconnect a (Ok tt)
| ended_wait : reconnect = true → a_wait a = WaitCancelled → ended reconnect a (Ok tt)
| ended_clean : reconnect = false → is_ok (a_dial a) = true → clean_end (session_end a) = true → ended reconnect a (Ok tt)
| ended_unknown msg : a_cancelled a = false → a_dial a = Err (DialExit2 msg) → ended reconnect a (Err (LoopExit2 msg))
| ended_dial code : a_cancelled a = false → a_dial a = Err (DialErr code) → ended reconnect a (Err (LoopDial code))
| ended_session e : a_cancelled a = false → reconnect = false → session_end a = Some e → clean_end (Some e) = false →
    ended reconnect a (Err (LoopSession e)).

Section terminal_facts.
Context (unmarshal_size : list byte → option PTYSize) (err_text : option server_error → gostring).
Context (hud : option hudState) (ls : Z * Z).

Lemma frame_step_fault label rows typ payload c :
  match fault typ with
  | Some e => frame_step unmarshal_size hud label ls rows typ payload c = (Some e, c)
  | None => server_frame (typ, payload)
  end.
Proof.
  unfold fault, frame_step, server_frame. cbn [existsb fst].
  destruct (Z.eqb_spec typ MsgSnapshotScrollback) as [|_]; [by left|].
  destruct (Z.eqb_spec typ MsgSnapshotScreen) as [|_]; [by right; left|].
  destruct (Z.eqb_spec typ MsgOutput) as [|_]; [by do 2 right; left|].
  destruct (Z.eqb_spec typ MsgSize) as [|_]; [by do 3 right; left|].
  destruct (Z.eqb_spec typ MsgPong) as [|_]; [by do 4 right|].
  cbn [orb]. destruct (typ =? MsgHello), (typ =? MsgInput), (typ =? MsgPing); done.
Qed.

Lemma runServerLoop_handled label rows n r out err att o :
  ∃ err', runServerLoop unmarshal_size hud label n ls rows r (mkClient (sink out) err att o) =
    ((handled n r).2,
     mkClient (sink (out ++ rendered hud label rows (handled n r).1)) err'
       (att || screen_seen (handled n r).1) (observed (handled n r).1 o)).
Proof.
  revert r out err att o. induction n as [|n IH]; intros r out err att o; cbn [runServerLoop handled].
  { exists err. cbn. by rewrite app_nil_r, orb_false_r. }
  destruct (ReadFrame r) as [[[typ payload]|e] r'];
    [|exists err; cbn; by rewrite app_nil_r, orb_false_r].
  pose proof (frame_step_fault label rows typ payload (mkClient (sink out) err att o)) as H.
  destruct (fault typ) as [e|].
  { rewrite H. exists err. cbn. by rewrite app_nil_r, orb_false_r. }
  destruct (frame_step_sink unmarshal_size hud label ls rows (typ, payload) out err att o H) as [err1 E1].
  cbn [fst snd] in E1. rewrite E1. cbn [then_do].
  destruct (IH r' (out ++ render hud label rows (typ, payload)) err1 (att || (typ =? MsgSnapshotScreen))
    (if carries (typ, payload) then ObserveR payload <$> o else o)) as [err2 E2].
  exists err2. rewrite E2. destruct (handled n r') as [fs e]. unfold rendered, observed, screen_seen.
  cbn [fmap list_fmap concat foldl existsb fst snd]. by rewrite <- app_assoc, <- orb_assoc.
Qed.

Lemma last_cons_default {A} (x d : A) xs : List.last (x :: xs) d = List.last xs x.
Proof.
  revert x d. induction xs as [|y xs IH]; intros x d; [done|].
  change (List.last (x :: y :: xs) d) with (List.last (y :: xs) d). by rewrite !IH.
Qed.

Lemma apply_clones_target cs s : sh_target (apply_clones cs s) = List.last cs (sh_target s).
Proof.
  unfold apply_clones. revert s. induction cs as [|l cs IH]; intros s; [done|]. cbn [foldl].
  rewrite IH. cbn [sh_target markSwitched set_target]. by rewrite last_cons_default.
Qed.

Lemma apply_clones_tier cs s : sh_tier (apply_clones cs s) = sh_tier s.
Proof. unfold apply_clones. revert s. induction cs as [|l cs IH]; intros s; [done|]. cbn [foldl]. by rewrite IH. Qed.

(** One turn shows the frames of its attempt, and returns only as [ended] says. *)
Lemma connect_turn_shows reconnect got a n s out err att o :
  tier_ok (S n) s →
  ∃ t s' err', connect_turn unmarshal_size hud err_text ls reconnect got a s (mkClient (sink out) err att o) =
    (t, s', mkClient (sink (out ++ rendered hud (sh_target s) (a_rows a) (frames a))) err'
              (att || screen_seen (frames a)) (observed (frames a) o)) ∧
    sh_target s' = List.last (a_clones a) (sh_target s) ∧
    match t with Return r => ended reconnect a r | Again _ _ => tier_ok n s' end.
Proof.
  intros Ht. unfold connect_turn, frames. destruct (a_dial a) as [[r m]|e] eqn:Hd.
  - destruct (runServerLoop_handled (sh_target s) (a_rows a) m r out err att o) as [err1 E]. cbn [sh_target].
    assert (session_end a = (handled m r).2) as He by (unfold session_end; by rewrite Hd). rewrite E, <- He.
    set (s1 := apply_clones (a_clones a) (mkShared (sh_switched s) 0 (sh_target s))).
    assert (Ht1 : sh_target s1 = List.last (a_clones a) (sh_target s)) by (unfold s1; by rewrite apply_clones_target).
    assert (Hz1 : sh_tier s1 = 0) by (unfold s1; by rewrite apply_clones_tier).
    destruct (a_cancelled a) eqn:Hc.
    { do 3 eexists. split; [done|]. split; [done|]. by apply ended_left. }
    unfold takeSwitched. cbn [fst snd]. destruct (sh_switched s1).
    { do 3 eexists. split; [done|]. split; [done|]. split; cbn [sh_tier]; destruct Ht; lia. }
    destruct reconnect; cbn [negb].
    + destruct (waitBackoff_ok (a_wait a) n s1) as (d & _ & ->); [split; destruct Ht; lia|].
      destruct (a_wait a) eqn:Hw; cbn [negb after_wait cl_stdout cl_attached cl_restorer cl_stderr].
      1,2: do 3 eexists; split; [done|]; split; [done|]; split; cbn [sh_tier]; destruct Ht; lia.
      do 3 eexists. split; [done|]. split; [done|]. by apply ended_wait.
    + do 3 eexists. split; [done|]. split; [done|]. destruct (clean_end (session_end a)) eqn:Hce.
      { apply ended_clean; [done|by rewrite Hd|done]. }
      destruct (session_end a) as [e|] eqn:Hse; [by apply ended_session|done].
  - cbn [rendered fmap list_fmap concat screen_seen existsb observed foldl fst snd]. rewrite app_nil_r, orb_false_r.
    set (s1 := apply_clones (a_clones a) s).
    assert (Ht1 : sh_target s1 = List.last (a_clones a) (sh_target s)) by (unfold s1; by rewrite apply_clones_target).
    assert (Hz1 : sh_tier s1 = sh_tier s) by (unfold s1; by rewrite apply_clones_tier).
    destruct (a_cancelled a) eqn:Hc.
    { do 3 eexists. split; [done|]. split; [done|]. by apply ended_left. }
    destruct e as [msg|code].
    { do 3 eexists. split; [done|]. split; [done|]. by apply ended_unknown. }
    destruct got, reconnect; cbn [negb orb].
    2-4: do 3 eexists; split; [done|]; split; [done|]; by apply ended_dial.
    destruct (waitBackoff_ok (a_wait a) n s1) as (d & _ & ->); [unfold tier_ok; by rewrite Hz1|].
    destruct (a_wait a) eqn:Hw; cbn [negb after_wait].
    1,2: do 3 eexists; split; [done|]; split; [done|]; split; cbn [sh_tier]; destruct Ht; lia.
    do 3 eexists. split; [done|]. split; [done|]. by apply ended_wait.
Qed.

Lemma runConnectLoop_shows reconnect got script s out err att o r ws s' c' :
  tier_ok (length script) s →
  runConnectLoop unmarshal_size hud err_text ls reconnect got script s (mkClient (sink out) err att o) =
    (Some r, ws, s', c') →
  ∃ k a err', script !! k = Some a ∧ ended reconnect a r ∧
    let ran := take (S k) script in
    sh_target s' = target_after (sh_target s) ran ∧
    c' = mkClient (sink (out ++ shown hud (sh_target s) ran)) err'
           (att || screen_seen (concat (frames <$> ran))) (observed (concat (frames <$> ran)) o).
Proof.
  revert got s out err att o ws. induction script as [|a script IH]; intros got s out err att o ws Ht; [done|].
  cbn [AttachClient.runConnectLoop].
  destruct (connect_turn_shows reconnect got a (length script) s out err att o Ht) as (t & s1 & err1 & -> & Htg & Hend).
  destruct t as [r1|got' w].
  - intros [= <- <- <- <-]. exists 0%nat, a, err1. split; [done|]. split; [done|].
    cbn [take shown target_after foldl fmap list_fmap concat]. by rewrite !app_nil_r.
  - destruct (runConnectLoop _ _ _ _ _ _ script _ _) as [[[r2 ws2] s2] c2] eqn:E. intros [= -> _ <- <-].
    destruct (IH _ _ _ _ _ _ _ Hend E) as (k & a' & err2 & Hk & Ha & Htg2 & ->).
    exists (S k), a', err2. split; [done|]. split; [done|]. cbn zeta in Htg2. rewrite Htg in Htg2.
    cbn [take]. cbn [shown fmap list_fmap concat]. split; [done|]. rewrite Htg.
    unfold observed, screen_seen. by rewrite <- app_assoc, existsb_app, foldl_app, <- orb_assoc.
Qed.
End terminal_facts.

(** The bytes of [Attach], of the title and of [Cleanup]. *)
Definition attach_bytes (t : TerminalRestorer) : list byte :=
  match t with RDtach => seqClearScreen | RHoot _ => seqKittyKbdPushEmpty end.

Definition title_on (hud : option hudState) : list byte :=
  match hud with
  | None => []
  | Some h => if negb (hud_isTTY h) || empty (hud_line h) then []
              else (if hud_pushed h then [] else hudTitlePushBytes) ++ hudTitleSetBytes (hud_line h)
  end.

Definition cleanup_bytes (t : TerminalRestorer) : list byte :=
  match t with
  | RDtach => seqCursorShow
  | RHoot r => pop_frames (kittyPops r) ++ (if modifyOtherKeys r then seqModifyOtherKeysOff else []) ++
               concat hootCleanupSequence
  end.

Lemma Cleanup_sink t out : Cleanup t (sink out) = (Ok tt, sink (out ++ cleanup_bytes t)).
Proof.
  destruct t as [|r]; [done|]. cbn [Cleanup cleanup_bytes]. unfold hoot_Cleanup, pop_frames, mbind, st_bind.
  destruct (Z.ltb_spec 0 (kittyPops r)), (Z.leb_spec (kittyPops r) 0); try lia; cbv iota;
    rewrite ?Write_sink; destruct (modifyOtherKeys r); unfold mret, st_ret; cbv beta iota;
    rewrite ?Write_sink; cbv beta iota; rewrite write_all_sink; by rewrite ?app_nil_l, <- ?app_assoc.
Qed.

(** The restorer once [Attach] has written its bytes. *)
Definition opened (t : TerminalRestorer) : TerminalRestorer :=
  match t with RDtach => RDtach | RHoot r => RHoot (set_pops (i32 (kittyPops r + 1)) r) end.

Lemma Attach_sink t out : Attach t (sink out) = (Ok tt, opened t, sink (out ++ attach_bytes t)).
Proof. by destruct t. Qed.

Lemma onAttach_sink hud out :
  ∃ hud', onAttach hud (sink out) = (hud', sink (out ++ title_on hud)) ∧ Line hud' = Line hud ∧
    (title_on hud = [] → hud' = hud) ∧
    (title_on hud ≠ [] → ∀ out, onDetach hud' (sink out) = sink (out ++ hudTitlePopBytes)).
Proof.
  destruct hud as [h|]; cbn [onAttach title_on]; [|eexists; by rewrite app_nil_r].
  destruct (negb (hud_isTTY h) || empty (hud_line h)) eqn:E; [eexists; by rewrite app_nil_r|].
  apply orb_false_iff in E as [E1 E2]. apply negb_false_iff in E1.
  exists (Some (mkHud (hud_line h) (hud_isTTY h) true)). split; [|split; [done|split]].
  - destruct (hud_pushed h); rewrite !Write_sink; cbn [snd]; [done|]. by rewrite Write_sink, <- app_assoc.
  - by destruct (hud_pushed h).
  - intros _ o. cbn [onDetach hud_isTTY hud_pushed]. by rewrite E1.
Qed.

(** Only the line of the HUD is shown. *)
Lemma shown_line hud hud' l script : Line hud' = Line hud → shown hud' l script = shown hud l script.
Proof.
  intros E. revert l. induction script as [|a script IH]; intros l; [done|]. cbn [shown]. rewrite IH. f_equal.
  unfold rendered. f_equal. apply list_fmap_ext. intros _ f _. unfold render, attach_status. by rewrite E.
Qed.

Lemma observed_some fs t : ∃ t', observed fs (Some t) = Some t'.
Proof.
  revert t. induction fs as [|f fs IH]; intros t; [by exists t|]. unfold observed. cbn [foldl].
  destruct (carries f); apply IH.
Qed.

(** The title is pushed and popped when the terminal is one and there is a line. *)
Definition titled (tty : bool) (line : gostring) (bytes : list byte) : list byte :=
  if tty && negb (empty line) then bytes else [].

Lemma title_bracket tty line hud' out :
  onAttach (Some (newHUDState tty line)) (sink out) =
    (hud', sink (out ++ title_on (Some (newHUDState tty line)))) →
  title_on (Some (newHUDState tty line)) = titled tty line (hudTitlePushBytes ++ hudTitleSetBytes line) ∧
  ∀ out, onDetach hud' (sink out) = sink (out ++ titled tty line hudTitlePopBytes).
Proof.
  destruct (onAttach_sink (Some (newHUDState tty line)) out) as (hud & -> & _ & Hoff & Hon). intros [= <-].
  cbn [title_on newHUDState hud_isTTY hud_line hud_pushed] in *. unfold titled.
  destruct tty, (empty line); cbn [negb orb andb] in *;
    try (rewrite (Hoff eq_refl); split; [done|]; intros o; cbn [onDetach hud_isTTY hud_pushed negb]; by rewrite app_nil_r).
  split; [done|]. by apply Hon.
Qed.

Section exit_facts.
Context (unmarshal_size : list byte → option PTYSize) (err_text : option server_error → gostring).


(** A failed first dial leaves a keyboard frame behind.  The restorer has
    pushed its kitty frame before dialing, and the deferred function cleans up
    only after a screen was shown: the process exits 1, the title is restored,
    and the frame is still on the terminal's stack. *)
Theorem failed_dial_leaves_keyboard_frame initial reconnect tty line a rest ls code :
  a_dial a = Err (DialErr code) → a_cancelled a = false →
  let '(res, c) := runAttachLoop unmarshal_size err_text initial reconnect (Some (newHUDState tty line))
                     B"hoot" None false ls (a :: rest) (sink []) in
  res = Some (1, Some (AlLoop (LoopDial code))) ∧
  cl_stdout c = sink (seqKittyKbdPushEmpty ++
    if tty && negb (empty line) then hudTitlePushBytes ++ hudTitleSetBytes line ++ hudTitlePopBytes else []).
Proof.
  intros Hd Hc. unfold runAttachLoop. change (newRestorer B"hoot") with (Some (RHoot new_hootRestorer)).
  cbv iota beta. cbn [Attach]. unfold hoot_Attach. rewrite Write_sink.
  cbn [onAttach newHUDState hud_isTTY hud_line hud_pushed].
  destruct tty, (empty line) eqn:El; cbn [negb orb andb runConnectLoop]; rewrite ?Write_sink; cbn [snd];
    rewrite ?Write_sink; cbn [snd runConnectLoop]; unfold connect_turn; rewrite Hd, Hc;
    (split; [done|]); unfold on_exit; cbn [onDetach newHUDState hud_isTTY hud_line hud_pushed negb cl_stdout
      cl_attached]; rewrite ?Write_sink; cbn [snd]; by rewrite ?app_nil_l, ?app_nil_r, <- ?app_assoc.
Qed.
End exit_facts.

(** ** [sharedSession] and the teardown of [runSession] *)

(** What a [send] closure meets: its own channel and the session's context. *)
Record session_bus := mkSBus {
  sb_sendFn : bool;        (** [sendFn] is set *)
  sb_full : bool; sb_closed : bool;   (** [outCh] *)
  sb_done : bool;          (** [sessionCtx] *)
  sb_wake : bool
}.

Inductive send_outcome := Sent | CtxDone | SendBlocks | SendPanic.

(** The [select] of [send]; when both cases are ready the runtime picks one:
    [pick] is true when it picks the send.  A send on a closed channel is ready. *)
Definition session_send (pick : bool) (b : session_bus) : send_outcome :=
  let s := if sb_closed b then SendPanic else Sent in
  match sb_closed b || negb (sb_full b), sb_done b with
  | true, true => if pick then s else CtxDone
  | true, false => s
  | false, true => CtxDone
  | false, false => SendBlocks
  end.

Definition sendInputOrWake (pick : bool) (b : session_bus) : option send_outcome * session_bus :=
  if sb_sendFn b then (Some (session_send pick b), b)
  else (None, mkSBus false (sb_full b) (sb_closed b) (sb_done b) true).

(** [sendIfConnected] drops the frame without a wake. *)
Definition sendIfConnected (pick : bool) (b : session_bus) : option send_outcome :=
  if sb_sendFn b then Some (session_send pick b) else None.

(** The end of [runSession], one call at a time. *)
Inductive teardown := TdCancel | TdCloseOut | TdClearSend.

Definition teardown_step (t : teardown) (b : session_bus) : session_bus :=
  match t with
  | TdCancel => mkSBus (sb_sendFn b) (sb_full b) (sb_closed b) true (sb_wake b)
  | TdCloseOut => mkSBus (sb_sendFn b) (sb_full b) true (sb_done b) (sb_wake b)
  | TdClearSend => mkSBus false (sb_full b) (sb_closed b) (sb_done b) (sb_wake b)
  end.

Definition runSession_end : list teardown := [TdCancel; TdCloseOut; TdClearSend].

(** A key typed while a session is torn down can crash the client.  [outCh]
    is closed before the deferred [clearSend]: a key that comes in between is
    sent on the closed channel whenever the runtime picks that case.  Before the
    close no key does, and after [clearSend] a key is a wake-up. *)
Theorem teardown_key_panics full wake k pick :
  let b := mkSBus true full false false wake in
  let after k := foldl (λ b t, teardown_step t b) b (take k runSession_end) in
  (k < 2)%nat → (sendInputOrWake pick (after k)).1 ≠ Some SendPanic ∧
  sendInputOrWake true (after 2%nat) = (Some SendPanic, after 2%nat) ∧
  (sendInputOrWake pick (after 3%nat)).1 = None ∧ sb_wake (sendInputOrWake pick (after 3%nat)).2 = true.
Proof.
  intros b after Hk. assert (k = 0 ∨ k = 1)%nat as [-> | ->] by lia; destruct full, pick; by repeat split.
Qed.

Lemma teardown_key_panics_witness :
  sendInputOrWake true (mkSBus true false true true false) =
    (Some SendPanic, mkSBus true false true true false).
Proof. exact (proj1 (proj2 (teardown_key_panics false false 0 true ltac:(lia)))). Defined.

(** ** Examples *)

Definition no_size (_ : list byte) : option PTYSize := None.
Definition no_text (_ : option server_error) : gostring := [].
Definition ex_label : attachLabel := mkLabel B"abc" B"local".
Definition lost : attempt := mkAttempt (Err (DialErr 1)) false [] 24 WaitTimer.
Definition gone : attempt := mkAttempt (Err (DialExit2 B"no match")) false [] 24 WaitTimer.
Definition session (fs : list wframe) : attempt :=
  mkAttempt (Ok (Reader (enc_frames fs) EOF, S (length fs))) false [] 24 WaitTimer.

Lemma connect_loop_persists_witness :
  (let '(r, ws, _, _) := runConnectLoop no_size None no_text (80, 24) true true [lost; lost; gone]
     (mkShared false 0 ex_label) (mkClient (sink []) [] false None) in
   r = Some (Err (LoopExit2 B"no match")) ∧ ws = [1; 2]) ∧
  ∃ s' c', runConnectLoop no_size None no_text (80, 24) true false (lost :: [lost; lost; gone])
     (mkShared false 0 ex_label) (mkClient (sink []) [] false None) = (Some (Err (LoopDial 1)), [], s', c').
Proof.
  split; [vm_compute; by split|].
  refine (proj1 (connect_loop_persists no_size no_text None (80, 24) lost [lost; lost; gone]
    (mkClient (sink []) [] false None) 0 true 1 (mkShared false 0 ex_label) eq_refl eq_refl _ eq_refl _)).
  - repeat (apply Forall_cons; split; [reflexivity|]). constructor.
  - by split.
Defined.

Lemma clone_while_offline_gives_up_witness :
  ∃ ws s' c', runConnectLoop no_size None no_text (80, 24) true true
    [mkAttempt (Err (DialErr 1)) false [ex_label] 24 WaitWake; session [(MsgPong, [])]; lost]
    (mkShared false 0 ex_label) (mkClient (sink []) [] false None) = (Some (Err (LoopDial 1)), ws, s', c').
Proof.
  apply (clone_while_offline_gives_up no_size no_text None (80, 24)
    (mkAttempt (Err (DialErr 1)) false [ex_label] 24 WaitWake) (session [(MsgPong, [])]) lost []
    (mkShared false 0 ex_label) (mkClient (sink []) [] false None) ex_label 1); by try split.
Defined.


(** What it prints and the code it exits with, computed. *)
Example attach_loop_example :
  let '(code, c) := runAttachLoop no_size no_text ex_label false (Some (newHUDState true B"hi")) B"hoot" None false
    (80, 24) [session [(MsgSnapshotScreen, [65]); (MsgOutput, ESC :: B"[>1u")]] (sink []) in
  code = Some (0, None) ∧
  cl_stdout c = sink (seqKittyKbdPushEmpty ++ hudTitlePushBytes ++ hudTitleSetBytes B"hi" ++
    attach_status (Some (newHUDState true B"hi")) ex_label 24 ++ [65] ++ ESC :: B"[>1u" ++
    hudTitlePopBytes ++ ESC :: B"[<2u" ++ concat hootCleanupSequence ++ detach_banner ex_label).
Proof. vm_compute. by split. Qed.

Lemma failed_dial_leaves_keyboard_frame_witness :
  ∃ c, runAttachLoop no_size no_text ex_label true (Some (newHUDState false B"hi")) B"hoot" None false
    (80, 24) [lost] (sink []) = (Some (1, Some (AlLoop (LoopDial 1))), c) ∧
    cl_stdout c = sink (seqKittyKbdPushEmpty ++ []).
Proof.
  pose proof (failed_dial_leaves_keyboard_frame no_size no_text ex_label true false B"hi" lost [] (80, 24) 1
    eq_refl eq_refl) as H.
  destruct (runAttachLoop _ _ _ _ _ _ _ _ _ _ _) as [r c]. destruct H as [-> H]. by exists c.
Defined.
