(* ===== verification/EndToEnd.v ===== *)
(** * From the PTY of a session to the terminal of its client

    The server half ([AttachHandler], over [Pty] and [Delivery]), the wire
    ([Wire]) and the client's [runServerLoop] ([AttachClient]) put together:
    what a user sees of a session, through all three. *)
From S2P Require Import Prelude GoBase StreamFilter QueryStripper PrimaryFilter Recorder Recording Terminal Channel Wire State ShortId Pty PtySafety Delivery AttachSet Registry AttachHandler Hud Restorer AttachClient.
Open Scope Z_scope.

Section session.
Context {T : Type} {TO : TermOps T} {R : Type} {IG : IdGen R}.
Context (marshal : StateFile → option (list byte)).
Context (unmarshal_hello : list byte → option Hello) (unmarshal_size : list byte → option PTYSize).
Context (noHistory : bool) (self : conn) (liveCh : chan_id).

#[local] Abbreviation step := (AttachHandler.step marshal unmarshal_hello unmarshal_size noHistory self liveCh).
#[local] Abbreviation run := (AttachHandler.run marshal unmarshal_hello unmarshal_size noHistory self liveCh).
#[local] Abbreviation main_step := (AttachHandler.main_step marshal noHistory self liveCh).

(** ** What a step does to the PTY *)

Definition quiet (op : pty_op) : Prop :=
  match op with PResize _ _ _ _ | PInput _ => True | _ => False end.

(** [own ev op]: the operation an event brings in, or one of the handler's. *)
Definition brings (ev : event) (op : pty_op) : Prop := quiet op ∨ ev = EvPty op.

Inductive pty_effect (ev : event) (s s' : sys (T := T) (R := R)) : Prop :=
| pe_same : sv_pty s'.2 = sv_pty s.2 → at_recv s'.1 = at_recv s.1 →
    (∀ op, ev ≠ EvPty op) → pty_effect ev s s'
| pe_op op : brings ev op → (∀ op', ev = EvPty op' → op' = op) →
    sv_pty s'.2 = (pty_run1 op (sv_pty s.2)).2 → at_recv s'.1 = at_recv s.1 → pty_effect ev s s'
| pe_recv x : recv_sub liveCh (sv_pty s.2) = (Ok x, sv_pty s'.2) →
    at_recv s'.1 = (match x with Received ck => at_recv s.1 ++ [ck] | _ => at_recv s.1 end) →
    (∀ op, ev ≠ EvPty op) → pty_effect ev s s'
| pe_cancel : sv_pty s'.2 = (cancel liveCh (sv_pty s.2)).2 → at_recv s'.1 = at_recv s.1 →
    (∀ op, ev ≠ EvPty op) → pty_effect ev s s'.

(** The effect, and the snapshot stays what it is. *)
Definition effect (ev : event) (s s' : sys (T := T) (R := R)) : Prop :=
  at_parts s'.1 = at_parts s.1 ∧ pty_effect ev s s'.

Lemma set_call_effect ev an op (a a' : attach) (sv : server T R) :
  at_parts a' = at_parts a → at_recv a' = at_recv a → (∀ o, ev ≠ EvPty o) →
  effect ev (a, sv) (a', (set_call marshal an op sv).2).
Proof.
  intros Hp Hr Hev. split; [done|]. unfold set_call, size_applier. cbn [fst snd].
  destruct (res_apply (set_step op (sv_set sv))) as [ws|]; [|by apply pe_same].
  apply (pe_op _ _ _ (PResize (an_setsize an) (an_now an) (Cols ws) (Rows ws))); cbn; try done; [by left|].
  intros op' ->. by destruct (Hev op').
Qed.

Lemma same_effect ev (a a' : attach) (sv sv' : server T R) :
  at_parts a' = at_parts a → at_recv a' = at_recv a → sv_pty sv' = sv_pty sv →
  (∀ op, ev ≠ EvPty op) → effect ev (a, sv) (a', sv').
Proof. intros. split; [done|]. by apply pe_same. Qed.

Lemma send_effect f a a' : send f a = Stepped a' → at_parts a' = at_parts a ∧ at_recv a' = at_recv a.
Proof. intros (_ & ->)%send_stepped. done. Qed.

Lemma main_step_effect an s s' :
  at_pc s.1 ≠ PcSubscribe → main_step an s = Stepped s' → effect (EvMain an) s s'.
Proof.
  destruct s as [a sv]. cbn [fst]. unfold AttachHandler.main_step, send_then, goto. cbn [fst snd].
  intros Hpc Hs. destruct (at_pc a) eqn:Epc; try discriminate Hs; try done;
    try (destruct (send _ a) as [| |a1] eqn:Es; try discriminate Hs; apply send_effect in Es as [? ?];
         injection Hs as <-; by apply same_effect).
  - unfold register_step, goto in Hs. cbn [fst snd] in Hs. destruct (sv_reg sv) as [[g d]|].
    + destruct (Add _ _ _ _ _ _ _ _) as [[[i|e] g'] d']; injection Hs as <-; by apply same_effect.
    + injection Hs as <-. by apply same_effect.
  - injection Hs as <-. split; [done|]. by apply pe_cancel.
  - destruct (at_live a); try discriminate Hs. injection Hs as <-. by apply same_effect.
  - injection Hs as <-. by apply same_effect.
  - destruct (writer_done _); try discriminate Hs. injection Hs as <-. split; [done|]. by apply pe_cancel.
  - injection Hs as <-. destruct (sv_reg sv) as [[g d]|]; [destruct (at_id a)|]; try by apply same_effect.
    destruct (Registry.Remove _ _ _ _ _). by apply same_effect.
  - injection Hs as <-. by apply (set_call_effect _ an (SRemove self)).
Qed.

Lemma hello_step_effect an x s s' :
  hello_step marshal unmarshal_hello self an x s = Stepped s' → effect (EvHello an x) s s'.
Proof.
  destruct s as [a sv]. unfold hello_step, goto. cbn [fst snd].
  destruct x as [[typ payload]|e]; [|intros [= <-]; by apply same_effect].
  destruct (negb _); [intros [= <-]; by apply same_effect|].
  destruct (unmarshal_hello payload) as [h|]; [|intros [= <-]; by apply same_effect].
  destruct (_ || _); [intros [= <-]; by apply same_effect|].
  destruct (set_call _ _ _ _) as [r sv1] eqn:E. intros [= <-].
  apply (f_equal snd) in E. cbn [snd] in E. rewrite <- E. by apply set_call_effect.
Qed.

Lemma read_step_effect an x s s' :
  read_step marshal unmarshal_size self an x s = Stepped s' → effect (EvRead an x) s s'.
Proof.
  destruct s as [a sv]. unfold read_step, goto. cbn [fst snd].
  destruct x as [[typ payload]|e]; [|intros [= <-]; by apply same_effect].
  destruct (typ =? MsgInput).
  { destruct (Write payload _) as [x p] eqn:E. intros Hs.
    assert (∃ a', s' = (a', with_pty p sv) ∧ at_parts a' = at_parts a ∧ at_recv a' = at_recv a)
      as (a' & -> & Hp & Hr) by (destruct x; injection Hs as <-; eauto).
    split; [done|]. apply (pe_op _ _ _ (PInput payload)); try done; [by left|]. cbn. by rewrite E. }
  destruct (typ =? MsgSize).
  { destruct (unmarshal_size payload) as [ws|]; [|intros [= <-]; by apply same_effect].
    destruct (_ || _); [intros [= <-]; by apply same_effect|].
    destruct (set_call _ _ _ _) as [r sv1] eqn:E. intros [= <-].
    apply (f_equal snd) in E. cbn [snd] in E. rewrite <- E.
    apply set_call_effect; try done; by destruct (bool_decide _). }
  destruct (typ =? MsgPing); [intros [= <-]; by apply same_effect|].
  destruct (typ =? MsgHello); [intros [= <-]; by apply same_effect|].
  destruct (_ || _); intros [= <-]; by apply same_effect.
Qed.

Lemma live_step_effect s s' : live_step liveCh s = Stepped s' → effect EvLive s s'.
Proof.
  destruct s as [a sv]. unfold live_step. destruct (at_live a); try discriminate.
  - destruct (recv_sub liveCh (sv_pty sv)) as [[x|e] p] eqn:E; [|discriminate].
    destruct x as [ck| |]; [| |discriminate]; intros [= <-]; (split; [done|]);
      [apply (pe_recv _ (a, sv) (_, with_pty p sv) (Received ck) E)
      |apply (pe_recv _ (a, sv) (_, with_pty p sv) RecvClosed E)]; done.
  - destruct (send _ a) as [| |a1] eqn:Es; try discriminate. intros [= <-].
    apply send_effect in Es as [? ?]. by apply same_effect.
Qed.

Lemma step_effect ev s s' : at_pc s.1 ≠ PcSubscribe → step ev s = Stepped s' → effect ev s s'.
Proof.
  destruct s as [a sv]. cbn [fst]. intros Hpc.
  destruct ev as [an x|an|an x|werr| |an op|k|op|rop| |]; cbn [AttachHandler.step fst snd].
  - destruct (at_pc a); try discriminate. apply hello_step_effect.
  - by apply main_step_effect.
  - destruct (at_pc a); try discriminate. apply read_step_effect.
  - destruct (writer_step werr a) eqn:E; try discriminate. intros [= <-].
    apply writer_step_flow in E as (_ & _ & _ & ? & ? & _). by apply same_effect.
  - apply live_step_effect.
  - unfold other_step. destruct (bool_decide (_ = self)); [discriminate|].
    destruct (set_call _ _ _ _) as [r sv1] eqn:E. intros [= <-].
    apply (f_equal snd) in E. cbn [snd fst] in *. rewrite <- E.
    apply set_call_effect; try done; by destruct (bool_decide _).
  - unfold deliver_step. cbn [fst snd]. destruct (at_pending a !! k); [|discriminate].
    destruct (send _ a) eqn:Es; try discriminate. intros [= <-].
    apply send_effect in Es as [? ?]. by apply same_effect.
  - intros [= <-]. split; [done|]. apply (pe_op _ _ _ op); [by right| |done|done].
    by intros op' [= ->].
  - intros [= <-]. by apply same_effect.
  - unfold forcedDetach. destruct (at_id a), (at_forced a); try discriminate; intros [= <-]; by apply same_effect.
  - unfold unwind_step, goto. destruct (at_pc a); try discriminate; intros [= <-]; try (by apply same_effect); (split; [done|by apply pe_cancel]).
Qed.

(** ** The output delivered over a run *)

(** The PTY output a schedule contains. *)
Definition event_bytes (ev : event) : list byte := match ev with EvPty op => op_bytes op | _ => [] end.
Definition output (evs : list event) : list byte := concat (event_bytes <$> evs).

(** The other users of the PTY keep to channels of their own, and no chunk of
    output finds 256 others still unread on this attachment's channel. *)
Fixpoint keeps_up (evs : list event) (s : sys (T := T) (R := R)) : Prop :=
  match evs with
  | [] => True
  | ev :: evs' =>
      match ev with
      | EvPty op => op_chan op ≠ Some liveCh ∧ fresh_op op (sv_pty s.2) ∧ room_for liveCh op (sv_pty s.2)
      | _ => True
      end ∧
      match step ev s with
      | Stepped s' => keeps_up evs' s'
      | Blocked => keeps_up evs' s
      | Panicked => True
      end
  end.

(** After the snapshot. *)
Definition attached (fed : list byte) (parts : list byte * list byte) (s : sys (T := T) (R := R)) : Prop :=
  order_inv s.1 ∧ at_parts s.1 = Some parts ∧ delivers liveCh fed (at_recv s.1) (sv_pty s.2).

Lemma quiet_delivers fed got op p :
  quiet op → delivers liveCh fed got p → delivers liveCh fed got (pty_run1 op p).2.
Proof.
  intros Hq Hd. rewrite <- (app_nil_r fed).
  assert (op_bytes op = [] ∧ op_chan op = None ∧ fresh_op op p ∧ room_for liveCh op p) as (<- & E & Hf & Hr)
    by by destruct op.
  apply op_delivers; [by rewrite E|done..].
Qed.

Lemma effect_delivers ev fed s s' :
  match ev with
  | EvPty op => op_chan op ≠ Some liveCh ∧ fresh_op op (sv_pty s.2) ∧ room_for liveCh op (sv_pty s.2)
  | _ => True
  end →
  pty_effect ev s s' → delivers liveCh fed (at_recv s.1) (sv_pty s.2) →
  delivers liveCh (fed ++ event_bytes ev) (at_recv s'.1) (sv_pty s'.2).
Proof.
  intros Hok He Hd.
  assert ((∀ op, ev ≠ EvPty op) → event_bytes ev = []) as Hno
    by (intros H; destruct ev; try done; by destruct (H op)).
  destruct He as [Ep Er Hne|op [Hq| ->] Huniq Ep Er|x Ep Er Hne|Ep Er Hne].
  - by rewrite Ep, Er, Hno, app_nil_r.
  - rewrite Ep, Er. assert (event_bytes ev = []) as ->.
    { destruct ev as [| | | | | | |op'| | |]; try done. cbn. rewrite (Huniq op' eq_refl). by destruct op. }
    rewrite app_nil_r. by apply quiet_delivers.
  - rewrite Ep, Er. destruct Hok as (H1 & H2 & H3). by apply op_delivers.
  - rewrite Er, Hno, app_nil_r by done. by apply (recv_delivers _ _ _ x (sv_pty s.2)).
  - rewrite Ep, Er, Hno, app_nil_r by done. by apply cancel_delivers.
Qed.

Lemma run_attached evs fed parts s s' :
  attached fed parts s → keeps_up evs s → run evs s = Stepped s' →
  attached (fed ++ output evs) parts s'.
Proof.
  revert fed s. induction evs as [|ev evs IH]; intros fed s (Ho & Hp & Hd) Hk Hrun.
  { injection Hrun as <-. unfold output. cbn. by rewrite app_nil_r. }
  cbn [AttachHandler.run] in Hrun. destruct Hk as [Hev Hk].
  unfold output. cbn [fmap list_fmap concat]. fold (output evs). rewrite app_assoc.
  destruct (step ev s) as [| |s1] eqn:Es; [|done|].
  - apply (IH _ s); [|done|done]. split; [done|]. split; [done|].
    destruct ev; cbn [event_bytes]; rewrite ?app_nil_r; try done.
  - apply (IH _ s1); [|done|done].
    assert (at_pc s.1 ≠ PcSubscribe) as Hpc.
    { intros E. pose proof (order_parts _ Ho) as H. rewrite E in H. congruence. }
    destruct (step_effect ev s s1 Hpc Es) as [Ep He]. split; [by eapply step_order|].
    split; [congruence|]. by eapply effect_delivers.
Qed.

(** The step that takes the snapshot. *)
Lemma subscribe_attached an s s' :
  order_inv s.1 → at_pc s.1 = PcSubscribe → pty_inv (sv_pty s.2) → p_chans (sv_pty s.2) !! liveCh = None →
  p_closed (sv_pty s.2) = false → is_Some (p_term (sv_pty s.2)) →
  ∀ sb sc, snapshotPartsLocked (sv_pty s.2) = Ok (sb, sc) → step (EvMain an) s = Stepped s' →
  attached [] (if noHistory then [] else sb, sc) s'.
Proof.
  intros Ho Hpc Hi Hf Hcl [t Ht] sb sc Hsn Es. split; [by eapply step_order|].
  destruct s as [a sv]. cbn [fst snd] in *. cbn [AttachHandler.step] in Es.
  unfold AttachHandler.main_step in Es. rewrite Hpc in Es. unfold subscribe_step in Es. cbn [fst snd] in Es.
  assert (∃ p, SubscribeWithSnapshotParts liveCh (sv_pty sv) = (Ok (sb, sc), p)) as [p E].
  { unfold SubscribeWithSnapshotParts, subscribe_snapshot.
    change (p_closed (make_sub_chan liveCh 256 (sv_pty sv))) with (p_closed (sv_pty sv)). rewrite Hcl.
    change (p_term (make_sub_chan liveCh 256 (sv_pty sv))) with (p_term (sv_pty sv)). rewrite Ht.
    set (q := add_sub _ _). change (snapshotPartsLocked q) with (snapshotPartsLocked (sv_pty sv)).
    rewrite Hsn. by eexists. }
  rewrite E in Es. injection Es as <-. cbn.
  destruct (subscribed_delivers _ _ _ _ Hi Hf E) as [Hd _]. split; [done|].
  destruct Ho as (_ & (Hx & Hy) & _). rewrite Hpc in Hx.
  destruct (Hy Hx) as [_ ->]. done.
Qed.

(** ** The frames on the wire *)

(** Written, whole or in part. *)
Definition on_wire (a : attach) : list wframe := at_wire a ++ torn a.
Definition wire_ok (a : attach) : Prop := Forall frame_ok (on_wire a).

Lemma send_wire f a a' : send f a = Stepped a' → on_wire a' = on_wire a.
Proof. by intros (_ & ->)%send_stepped. Qed.

Lemma main_step_wire an s s' : main_step an s = Stepped s' → on_wire s'.1 = on_wire s.1.
Proof.
  destruct s as [a sv]. unfold AttachHandler.main_step, send_then, goto. cbn [fst snd].
  intros Hs. destruct (at_pc a) eqn:Epc; try discriminate Hs;
    try (destruct (send _ a) as [| |a1] eqn:Es; try discriminate Hs; apply send_wire in Es;
         by injection Hs as <-); try (by injection Hs as <-).
  - unfold register_step, goto in Hs. cbn [fst snd] in Hs. destruct (sv_reg sv) as [[g d]|];
      [destruct (Add _ _ _ _ _ _ _ _) as [[[i|e] g'] d']|]; by injection Hs as <-.
  - unfold subscribe_step in Hs. cbn [fst snd] in Hs.
    destruct (SubscribeWithSnapshotParts _ _) as [[[sb sc]|e] p]; by injection Hs as <-.
  - destruct (at_live a); try discriminate Hs. by injection Hs as <-.
  - destruct (writer_done _); try discriminate Hs. by injection Hs as <-.
Qed.

Lemma writer_step_wire werr a a' : writer_step werr a = Stepped a' → wire_ok a → wire_ok a'.
Proof.
  unfold writer_step, wire_ok, on_wire, torn. destruct (at_writer a); try discriminate. rewrite app_nil_r.
  destruct (recv (at_out a)) as [[f| |] c]; try discriminate; [|intros [= <-]; cbn; by rewrite app_nil_r].
  destruct (Z.ltb_spec MaxPayload (Z.of_nat (length f.2))); [intros [= <-]; cbn; by rewrite app_nil_r|].
  intros E H1. assert (Forall frame_ok (at_wire a ++ [f])) as Hf.
  { apply Forall_app. split; [done|]. apply Forall_singleton. unfold frame_ok. lia. }
  destruct werr; [by injection E as <-|]. destruct (at_forced a); injection E as <-; cbn; by rewrite ?app_nil_r.
Qed.

Lemma step_wire ev s s' : step ev s = Stepped s' → wire_ok s.1 → wire_ok s'.1.
Proof.
  destruct s as [a sv]. unfold wire_ok. destruct ev as [an x|an|an x|werr| |an op|k|op|rop| |]; cbn [AttachHandler.step fst snd].
  - destruct (at_pc a); try discriminate. unfold hello_step, goto. intros Hs.
    repeat (case_match; try discriminate Hs); by injection Hs as <-.
  - intros E%main_step_wire. by rewrite E.
  - destruct (at_pc a); try discriminate. unfold read_step, goto. intros Hs.
    repeat (case_match; try discriminate Hs); by injection Hs as <-.
  - destruct (writer_step werr a) eqn:E; try discriminate. intros [= <-]. by apply (writer_step_wire werr).
  - unfold live_step. destruct (at_live a); try discriminate.
    + destruct (recv_sub _ _) as [[[ck| |]|e] p]; try discriminate; by intros [= <-].
    + destruct (send _ a) eqn:Es; try discriminate. intros [= <-]. by rewrite <- (send_wire _ _ _ Es).
  - unfold other_step. destruct (bool_decide (_ = self)); [discriminate|].
    destruct (set_call _ _ _ _) as [r sv1]. intros [= <-]. cbn [fst]. by destruct (bool_decide _).
  - unfold deliver_step. cbn [fst snd]. destruct (at_pending a !! k); [|discriminate].
    destruct (send _ a) eqn:Es; try discriminate. intros [= <-]. cbn. by rewrite <- (send_wire _ _ _ Es).
  - by intros [= <-].
  - by intros [= <-].
  - unfold forcedDetach. destruct (at_id a), (at_forced a); try discriminate; by intros [= <-].
  - intros (x & -> & _)%unwind_stepped. done.
Qed.

Lemma transcript_server (p : list byte * list byte) chunks : Forall server_frame (transcript p chunks).
Proof.
  unfold transcript, server_frame. constructor; [by left|]. constructor; [by right; left|].
  apply Forall_fmap, Forall_true. intros ck. by right; right; left.
Qed.

Lemma expected_prefix x p chunks : expected x (Some p) chunks `prefix_of` transcript p chunks.
Proof. destruct x; cbn [expected]; try done; [apply prefix_nil|by eexists]. Qed.

(** The contents written, against the transcript. *)
Lemma wire_prefix a p :
  order_inv a → at_parts a = Some p → content (on_wire a) `prefix_of` transcript p (at_recv a).
Proof.
  intros (E & _) Hp. rewrite Hp in E. etrans; [|apply (expected_prefix (at_pc a))]. rewrite <- E.
  destruct (flow_torn a (torn a)) as [l ->]; [by right|]. unfold content. rewrite filter_app, <- app_assoc. by eexists.
Qed.

Lemma wire_server a p : order_inv a → at_parts a = Some p → Forall server_frame (on_wire a).
Proof.
  intros Ho Hp. apply Forall_forall. intros f Hf. destruct (decide (control f)) as [[Hc|Hc]|Hc].
  - by do 3 right; left.
  - by do 4 right.
  - pose proof (transcript_server p (at_recv a)) as H. rewrite Forall_forall in H. apply H.
    destruct (wire_prefix a p Ho Hp) as [l ->]. apply elem_of_app. left. apply list_elem_of_filter. by split.
Qed.

(** ** What the client renders *)

Section client.
Context (hud : option hudState) (label : attachLabel) (rows : Z).

Lemma rendered_app fs gs : rendered hud label rows (fs ++ gs) = rendered hud label rows fs ++ rendered hud label rows gs.
Proof. unfold rendered. by rewrite fmap_app, concat_app. Qed.

Lemma rendered_content fs : rendered hud label rows (content fs) = rendered hud label rows fs.
Proof.
  induction fs as [|f fs IH]; [done|]. unfold content. destruct (decide (control f)) as [Hc|Hc].
  - rewrite filter_cons_False by (intros H; by apply H). unfold rendered in *. cbn [fmap list_fmap concat].
    assert (render hud label rows f = []) as -> by (unfold render, carries; by destruct Hc as [-> | ->]).
    exact IH.
  - rewrite filter_cons_True by done. unfold rendered in *. cbn [fmap list_fmap concat]. f_equal. exact IH.
Qed.

Lemma rendered_transcript p chunks :
  rendered hud label rows (transcript p chunks) =
    p.1 ++ attach_status hud label rows ++ p.2 ++ concat chunks.
Proof.
  unfold rendered, transcript. cbn [fmap list_fmap concat]. unfold render at 1 2. cbn [fst snd Z.eqb carries orb
    MsgSnapshotScrollback MsgSnapshotScreen Pos.eqb]. rewrite <- app_assoc. do 3 f_equal.
  induction chunks as [|ck chunks IH]; [done|]. cbn [fmap list_fmap concat]. by f_equal.
Qed.

Lemma rendered_prefix fs gs :
  content fs `prefix_of` gs → rendered hud label rows fs `prefix_of` rendered hud label rows gs.
Proof. intros [l ->]. rewrite <- rendered_content, rendered_app. by eexists. Qed.

Lemma content_prefix fs gs : fs `prefix_of` gs → content fs `prefix_of` content gs.
Proof. intros [l ->]. unfold content. rewrite filter_app. by eexists. Qed.

End client.

(** ** The notices *)

Lemma notice_ok text a d e :
  perhaps d (forced_notice a) → perhaps e (http_notice text a) →
  (Forall frame_ok d ∧ Forall server_frame d) ∧ Forall frame_ok e ∧ Forall server_frame e.
Proof.
  assert (∀ f, f.1 = MsgOutput → Z.of_nat (length f.2) <= MaxPayload → Forall frame_ok [f] ∧ Forall server_frame [f]) as Hone.
  { intros f Hf Hl. split; apply Forall_singleton; [exact Hl|by right; right; left]. }
  intros Hd He. split.
  - destruct Hd as [-> | ->]; [done|]. unfold forced_notice. destruct (at_forced a); [done|..]; by apply Hone.
  - destruct He as [-> | ->]; [done|]. unfold http_notice, final_notice. destruct (at_pc a); try done.
    destruct r as [|x]; [done|]. destruct x; try (destruct (is_io_eof _); [done|]); try done;
      (case_match eqn:E; [done|]; apply Hone; [done|]; lia).
Qed.

Lemma notices_short text a : (length (forced_notice a) <= 1 ∧ length (http_notice text a) <= 1)%nat.
Proof.
  clear. unfold forced_notice, http_notice. split; [destruct (at_forced a); cbn; lia|].
  destruct (at_pc a); cbn; try lia. destruct (final_notice text r); cbn; [destruct (_ <? _); cbn; lia|lia].
Qed.

(** A cut of what the connection of an attachment past its subscription carries:
    a part of what the writer wrote, and the two notices at their places. *)
Lemma received_cut text a p fs got :
  at_parts a = Some p → received text a fs → got `prefix_of` fs →
  ∃ x d y w e, got = x ++ d ++ y ∧ x ++ y = w ++ e ∧ w `prefix_of` on_wire a ∧
    perhaps d (forced_notice a) ∧ perhaps e (http_notice text a) ∧
    (got = fs → torn a = [] → w = at_wire a).
Proof.
  clear. intros Hp (t & d & e & ws & Ht & Hd & He & Hws & w1 & w2 & -> & ->) Hg. rewrite Hp in Hws.
  destruct (notices_short text a) as [Hsd Hse].
  assert (∃ x d' y, got = x ++ d' ++ y ∧ perhaps d' (forced_notice a) ∧ x ++ y `prefix_of` w1 ++ w2 ∧
    (got = w1 ++ d ++ w2 → x ++ y = w1 ++ w2)) as (x & d' & y & -> & Hd' & Hpre & Hall).
  { destruct (decide (got = w1 ++ d ++ w2)) as [->|Hne]; [by exists w1, d, w2|].
    destruct (prefix_app_cases _ _ _ Hg) as [H|(g & -> & H)].
    - exists got, [], []. rewrite !app_nil_r. split; [done|]. split; [by left|]. split; [by apply prefix_app_r|done].
    - destruct (prefix_app_cases _ _ _ H) as [H'|(y & -> & H')].
      + exists w1, g, []. rewrite !app_nil_r. split; [done|]. split; [|split; [by apply prefix_app_r|]].
        * destruct Hd as [-> | ->]; [left; by apply prefix_nil_inv in H'|by apply prefix_one].
        * intros E. by destruct Hne.
      + exists w1, d, y. split; [done|]. split; [done|]. split; [by apply prefix_app|]. intros E. by destruct Hne. }
  assert (∃ w e', x ++ y = w ++ e' ∧ w `prefix_of` on_wire a ∧ perhaps e' (http_notice text a) ∧
    (x ++ y = w1 ++ w2 → torn a = [] → w = at_wire a)) as (w & e' & Exy & Hw & He' & Hw').
  { assert (at_wire a ++ t `prefix_of` on_wire a) as Hon
      by (destruct Ht as [-> | ->]; [rewrite app_nil_r; by eexists|done]).
    rewrite Hws in Hpre |- *. rewrite app_assoc in Hpre |- *.
    destruct (decide (x ++ y = (at_wire a ++ t) ++ e)) as [E|Hne].
    - exists (at_wire a ++ t), e. split; [done|]. split; [done|]. split; [done|]. intros _ Hto.
      destruct Ht as [-> | ->]; by rewrite ?Hto, app_nil_r.
    - destruct (prefix_app_cases _ _ _ Hpre) as [H|(g & E & H)].
      + exists (x ++ y), []. rewrite app_nil_r. split; [done|]. split; [by etrans|]. split; [by left|]. intros E. by destruct Hne.
      + exists (at_wire a ++ t), g. split; [done|]. split; [done|]. split; [|intros E'; by destruct Hne].
        destruct He as [-> | ->]; [left; by apply prefix_nil_inv in H|by apply prefix_one]. }
  exists x, d', y, w, e'. do 5 (split; [done|]). intros E. by apply Hw', Hall.
Qed.

(** All of it is frames a client knows. *)
Lemma received_ok text a p fs :
  order_inv a → wire_ok a → at_parts a = Some p → received text a fs → Forall frame_ok fs ∧ Forall server_frame fs.
Proof.
  intros Ho Hw Hp (t & d & e & ws & Ht & Hd & He & Hws & w1 & w2 & -> & ->). rewrite Hp in Hws.
  destruct (notice_ok text a d e Hd He) as [[D1 D2] [E1 E2]]. pose proof (wire_server a p Ho Hp) as Hs.
  assert (Forall frame_ok (w1 ++ w2) ∧ Forall server_frame (w1 ++ w2)) as [F1 F2].
  { rewrite Hws. unfold wire_ok, on_wire in *. rewrite !Forall_app. rewrite !Forall_app in Hw, Hs. destruct Hw, Hs.
    by destruct Ht as [-> | ->]. }
  rewrite !Forall_app. rewrite !Forall_app in F1, F2. by destruct F1, F2.
Qed.

(** What a client makes of the bytes it gets: [shown], with the notice of [hoot
    detach] put in somewhere and the error notice behind it, each only when the
    server had reason to send it. *)
Definition noticed (text : attach_error → list byte) (a : attach) (shown body : list byte) : Prop :=
  ∃ x d y e, body = x ++ d ++ y ∧ x ++ y = shown ++ e ∧
    (d = [] ∨ d = detachReason ∧ at_forced a ≠ FIdle) ∧
    (e = [] ∨ ∃ err, at_pc a = PcDone (Err err) ∧ err ≠ AePanicked ∧ is_io_eof err = false ∧ e = error_notice text err).

(** Nobody detached it and [serveOne] has not returned: nothing else is shown. *)
Lemma noticed_plain text a shown body :
  at_forced a = FIdle → (∀ r, at_pc a ≠ PcDone r) → noticed text a shown body → body = shown.
Proof.
  intros Hf Hpc (x & d & y & e & -> & E & [-> |[_ Hd]] & [-> |(err & He & _)]); [|by destruct (Hpc (Err err))|done..].
  by rewrite app_nil_r in E.
Qed.

(** The notices of a stream through a function that keeps the text of output frames. *)
Lemma notices_seen text a d e (f : list wframe → list byte) :
  f [] = [] → (∀ bs, f [(MsgOutput, bs)] = bs) → perhaps d (forced_notice a) → perhaps e (http_notice text a) →
  (f d = [] ∨ f d = detachReason ∧ at_forced a ≠ FIdle) ∧
  (f e = [] ∨ ∃ err, at_pc a = PcDone (Err err) ∧ err ≠ AePanicked ∧ is_io_eof err = false ∧ f e = error_notice text err).
Proof.
  intros H0 H1 Hd He. split.
  - destruct Hd as [-> | ->]; [by left|]. unfold forced_notice. destruct (at_forced a); [by left|right|right]; by rewrite H1.
  - destruct He as [-> | ->]; [by left|]. unfold http_notice. destruct (at_pc a) as [| | | | | | | | | | | | | | |r|] eqn:Epc; try (by left).
    destruct r as [|err]; [by left|]. destruct (final_notice text (Err err)) as [g|] eqn:Eg; [|by left].
    destruct (_ <? _); [by left|]. right. exists err. unfold final_notice in Eg.
    split; [done|]. split; [by intros ->|].
    destruct (is_io_eof err) eqn:Ee; [by destruct err|]. split; [done|].
    assert (g = (MsgOutput, error_notice text err)) as -> by (destruct err; congruence). by rewrite H1.
Qed.

(** ** The whole path *)

(** A PTY on which the attachment's channel is new. *)
Definition ready (p : LibghosttyPTY T) : Prop :=
  pty_inv p ∧ p_chans p !! liveCh = None ∧ p_closed p = false ∧ is_Some (p_term p).

(** Nothing is on its way: the queue and the subscription are empty, the writer
    and the subscription are alive. *)
Definition caught_up (s : sys (T := T) (R := R)) : Prop :=
  at_pc s.1 = PcLoop ∧ at_writer s.1 = WRunning ∧ ch_buf (at_out s.1) = [] ∧ held (at_live s.1) = [] ∧
  p_closed (sv_pty s.2) = false ∧ is_Some (p_subs (sv_pty s.2) !! liveCh) ∧
  ch_buf <$> p_chans (sv_pty s.2) !! liveCh = Some [].

(** What a client that missed nothing shows: the scrollback, its status line,
    the screen, and the output since. *)
Definition full_view (hud : option hudState) (label : attachLabel) (rows : Z)
    (parts : list byte * list byte) (live : list byte) : list byte :=
  parts.1 ++ attach_status hud label rows ++ parts.2 ++ live.

Lemma attached_view hud label rows fed parts s ws :
  attached fed parts s → ws `prefix_of` on_wire s.1 →
  rendered hud label rows ws `prefix_of` full_view hud label rows parts (Filter fed newStripper).1.
Proof.
  intros (Ho & Hp & _ & c & _ & Hd & _) Hw.
  etrans; [apply rendered_prefix|].
  { etrans; [by apply content_prefix|by apply (wire_prefix _ parts)]. }
  rewrite rendered_transcript. unfold full_view. do 3 apply prefix_app.
  etrans; [|exact Hd]. by eexists.
Qed.

Lemma caught_up_transcript fed parts s :
  attached fed parts s → caught_up s →
  content (at_wire s.1) = transcript parts (at_recv s.1) ∧ concat (at_recv s.1) = (Filter fed newStripper).1.
Proof.
  intros (Ho & Hp & _ & c & Hc & _ & Hd) (Epc & Ew & Eb & Eh & Hcl & [st Hst] & Ec).
  destruct Ho as (E & _). unfold flow in E. rewrite Epc, Ew, Eb, Eh, Hp in E. cbn in E. rewrite !app_nil_r in E.
  split; [done|]. destruct (Hd Hcl st Hst) as [_ <-]. rewrite Hc in Ec. injection Ec as ->. cbn. by rewrite app_nil_r.
Qed.

Lemma caught_up_view hud label rows fed parts s :
  attached fed parts s → caught_up s →
  rendered hud label rows (at_wire s.1) = full_view hud label rows parts (Filter fed newStripper).1.
Proof.
  intros Ha Hc. rewrite <- rendered_content.
  destruct (caught_up_transcript fed parts s Ha Hc) as [-> <-]. by rewrite rendered_transcript.
Qed.

Lemma caught_up_torn s : caught_up s → torn s.1 = [].
Proof. intros (_ & Ew & _). unfold torn. by rewrite Ew. Qed.

(** The client's side: whatever part of the stream it gets. *)
Lemma client_view text fs fed parts s size_of hud label ls rows k fin n out err att r :
  attached fed parts s → wire_ok s.1 → received text s.1 fs → (length fs < n)%nat →
  let view := full_view hud label rows parts (Filter fed newStripper).1 in
  let '(e, c) := runServerLoop size_of hud label n ls rows
      (Reader (take k (enc_frames fs)) fin) (mkClient (sink out) err att r) in
  (∃ cause, e = Some (SlRead (WireIO cause))) ∧
  ∃ shown body, cl_stdout c = sink (out ++ body) ∧ noticed text s.1 shown body ∧ shown `prefix_of` view ∧
    (caught_up s → (length (enc_frames fs) <= k)%nat → shown = view).
Proof.
  clear unmarshal_hello unmarshal_size. intros Ha Hw Hrc Hn view. pose proof Ha as (Ho & Hp & _).
  destruct (received_ok text s.1 parts fs Ho Hw Hp Hrc) as [Hok Hsv].
  destruct (enc_frames_cut k fs Hok) as (got & tail & Ek & Hgot & Htail & Hwhole).
  destruct (received_cut text s.1 parts fs got Hp Hrc Hgot) as (x & d & y & ws & e & Eg & Exy & Hws & Hd & He & Hall).
  assert (Forall frame_ok got ∧ Forall server_frame got ∧ (length got < n)%nat) as (Hok' & Hsv' & Hl).
  { pose proof (prefix_length _ _ Hgot). destruct Hgot as [l ->]. rewrite Forall_app in Hok, Hsv.
    destruct Hok, Hsv. split; [done|]. split; [done|lia]. }
  destruct (runServerLoop_frames size_of hud label ls rows got tail fin n out err att r Hok' Hsv' Htail Hl) as [err' E].
  rewrite Ek, E. split; [by eexists|].
  exists (rendered hud label rows ws), (rendered hud label rows got). cbn [cl_stdout]. split; [done|]. split; [|split].
  - exists (rendered hud label rows x), (rendered hud label rows d), (rendered hud label rows y), (rendered hud label rows e).
    split; [by rewrite Eg, !rendered_app|]. split; [by rewrite <- !rendered_app, Exy|].
    apply notices_seen; [done| |done|done]. intros bs. unfold rendered. cbn. apply app_nil_r.
  - by eapply attached_view.
  - intros Hcu Hlen. rewrite Hall; [by apply caught_up_view| |by apply caught_up_torn]. by apply Hwhole.
Qed.

(** An attachment that passes its snapshot on a live PTY, then any schedule. *)
Lemma session_attached evs1 an evs2 sv s1 s sb sc :
  run evs1 (new_attach, sv) = Stepped s1 → at_pc s1.1 = PcSubscribe → ready (sv_pty s1.2) →
  snapshotPartsLocked (sv_pty s1.2) = Ok (sb, sc) →
  run (EvMain an :: evs2) s1 = Stepped s → keeps_up (EvMain an :: evs2) s1 →
  attached (output evs2) (if noHistory then [] else sb, sc) s ∧ wire_ok s.1.
Proof.
  intros Hrun1 Hpc (Hi & Hf & Hcl & Ht) Hsn Hrun [_ Hk].
  assert (order_inv s1.1 ∧ wire_ok s1.1) as [Ho1 Hw1].
  { apply (run_inv marshal unmarshal_hello unmarshal_size noHistory self liveCh
      (λ s, order_inv s.1 ∧ wire_ok s.1) evs1 (new_attach, sv)); [|split; [done|by constructor]|done].
    intros ev x y [H1 H2] E. split; [by eapply step_order|by eapply step_wire]. }
  cbn [AttachHandler.run] in Hrun. destruct (step (EvMain an) s1) as [| |s2] eqn:Es; [|done|].
  { exfalso. cbn [AttachHandler.step] in Es. unfold AttachHandler.main_step in Es.
    destruct s1 as [a1 sv1]. cbn [fst] in Hpc. rewrite Hpc in Es. unfold subscribe_step in Es.
    by destruct (SubscribeWithSnapshotParts _ _) as [[[]|] ?]. }
  pose proof (subscribe_attached an s1 s2 Ho1 Hpc Hi Hf Hcl Ht sb sc Hsn Es) as Ha.
  apply (run_attached evs2 [] _ s2 s) in Ha; [|done|done].
  split; [done|].
  apply (run_inv marshal unmarshal_hello unmarshal_size noHistory self liveCh (λ s, wire_ok s.1) evs2 s2);
    [intros ev x y H E; by eapply step_wire|by eapply step_wire|done].
Qed.

(** C1: From the session to the user's terminal.  An attachment is at its
    snapshot on a live PTY; from there on, whatever the schedule of its three
    goroutines, the other clients and the PTY, so long as its subscription is never
    found full ([keeps_up]: no chunk of output finds 256 others unread, which is
    when the PTY drops a subscriber), and wherever the connection is cut: the client
    writes the scrollback (nothing under [--no-history]), its status line, the
    screen, and then the query-stripped output of the session since that snapshot,
    in order, nothing twice and nothing skipped up to the point reached.  The only
    other bytes it writes are two notices of the server: that of [hoot detach], if
    that was called, and behind everything the message of [ServeHTTP], if
    [serveOne] has returned an error (see [noticed]).  Once the server has nothing
    more queued and the stream is whole, the client shows all of the output. *)
Theorem attach_end_to_end text evs1 an evs2 sv s1 s fs sb sc size_of hud label ls rows k fin n out err att r :
  run evs1 (new_attach, sv) = Stepped s1 → at_pc s1.1 = PcSubscribe → ready (sv_pty s1.2) →
  snapshotPartsLocked (sv_pty s1.2) = Ok (sb, sc) →
  run (EvMain an :: evs2) s1 = Stepped s → keeps_up (EvMain an :: evs2) s1 →
  received text s.1 fs → (length fs < n)%nat →
  let view := full_view hud label rows (if noHistory then [] else sb, sc) (Filter (output evs2) newStripper).1 in
  let '(e, c) := runServerLoop size_of hud label n ls rows
      (Reader (take k (enc_frames fs)) fin) (mkClient (sink out) err att r) in
  (∃ cause, e = Some (SlRead (WireIO cause))) ∧
  ∃ shown body, cl_stdout c = sink (out ++ body) ∧ noticed text s.1 shown body ∧ shown `prefix_of` view ∧
    (caught_up s → (length (enc_frames fs) <= k)%nat → shown = view).
Proof.
  intros Hrun1 Hpc Hr Hsn Hrun Hk Hrc Hn.
  destruct (session_attached evs1 an evs2 sv s1 s sb sc Hrun1 Hpc Hr Hsn Hrun Hk) as [Ha Hw].
  by apply client_view.
Qed.
End session.

(** A client that attaches while a query goes by in two chunks of output, and
    whose connection breaks inside a frame. *)
Definition ex_live : list event :=
  [EvMain ex_answers; EvPty (PChunk 0 [66; 27]); EvMain ex_answers; EvPty (PChunk 1 [91; 99; 67]); EvLive; EvLive;
   EvWriter None; EvLive; EvWriter None; EvWriter None; EvLive; EvWriter None; EvWriter None].

Definition ex_keeps_up := keeps_up (IG := counter_gen) (λ _, None) ex_hello ex_size false 1 7.

Definition ex_start : list event := [EvHello ex_answers (Ok (MsgHello, [])); EvMain ex_answers; EvMain ex_answers].

Lemma received_wire text a : received text a (at_wire a).
Proof.
  exists [], [], [], (at_wire a). split; [by left|]. split; [by left|]. split; [by left|].
  split; [|by exists [], (at_wire a)]. rewrite !app_nil_r. destruct (at_parts a); [done|].
  by exists [], (at_wire a).
Qed.

(** The run satisfies what the end-to-end theorems ask of it. *)
Lemma ex_session :
  ∃ s1 s, ex_run ex_start (new_attach, ex_server) = Stepped s1 ∧ ex_run (EvMain ex_answers :: ex_live) s1 = Stepped s ∧
    at_pc s1.1 = PcSubscribe ∧ ready 7 (sv_pty s1.2) ∧ snapshotPartsLocked (sv_pty s1.2) = Ok ([], [65]) ∧
    ex_keeps_up (EvMain ex_answers :: ex_live) s1 ∧ (length (at_wire s.1) < 9)%nat ∧
    at_forced s.1 = FIdle ∧ at_pc s.1 = PcLoop.
Proof.
  assert (∃ s1 s, ex_run ex_start (new_attach, ex_server) = Stepped s1 ∧ ex_run (EvMain ex_answers :: ex_live) s1 = Stepped s ∧
    at_pc s1.1 = PcSubscribe ∧ (p_subs (sv_pty s1.2) = ∅ ∧ p_chans (sv_pty s1.2) = ∅ ∧ p_closed (sv_pty s1.2) = false ∧
      is_Some (p_term (sv_pty s1.2)) ∧ snapshotPartsLocked (sv_pty s1.2) = Ok ([], [65])) ∧
    ex_keeps_up (EvMain ex_answers :: ex_live) s1 ∧
    (length (at_wire s.1) <? 9)%nat = true ∧ at_forced s.1 = FIdle ∧ at_pc s.1 = PcLoop)
    as (s1 & s & H1 & H2 & Epc & (Es & Ec & Ecl & Et & Esn) & Hk & Hn & Hfin).
  { do 2 eexists. split; [vm_compute; reflexivity|]. split; [vm_compute; reflexivity|].
    split; [reflexivity|]. split; [repeat split; by eexists|]. split; [|repeat split; reflexivity].
    vm_compute. repeat split; try discriminate; intros c [= <-]; vm_compute; lia. }
  exists s1, s. do 3 (split; [done|]). split; [|by apply Nat.ltb_lt in Hn].
  split; [split; rewrite ?Es, ?Ec; intros ? ?; by rewrite lookup_empty|]. by rewrite Ec.
Qed.

Lemma attach_end_to_end_witness :
  ∃ s1 s, ex_run ex_start (new_attach, ex_server) = Stepped s1 ∧
    ex_run (EvMain ex_answers :: ex_live) s1 = Stepped s ∧
    let '(_, c) := runServerLoop no_size None ex_label 9 (80, 24) 24
      (Reader (take 43 (enc_frames (at_wire s.1))) EOF) (mkClient (sink []) [] false None) in
    ∃ shown, cl_stdout c = sink shown ∧
      shown `prefix_of` full_view None ex_label 24 ([], [65]) (Filter [66; 27; 91; 99; 67] newStripper).1.
Proof.
  destruct ex_session as (s1 & s & H1 & H2 & Epc & Hr & Esn & Hk & Hn & Hf & Hl).
  exists s1, s. split; [exact H1|]. split; [exact H2|].
  pose proof (attach_end_to_end (IG := counter_gen) (λ _, None) ex_hello ex_size false 1 7
    ex_text ex_start ex_answers ex_live
    ex_server s1 s (at_wire s.1) [] [65] no_size None ex_label (80, 24) 24 43 EOF 9 [] [] false None
    H1 Epc Hr Esn H2 Hk (received_wire _ _) Hn) as H.
  destruct (runServerLoop _ _ _ _ _ _ _ _) as [e c].
  destruct H as (_ & shown & body & Eo & Hno & Hp & _). exists shown. split; [|exact Hp].
  rewrite Eo. f_equal. cbn [app]. apply (noticed_plain ex_text s.1); [exact Hf|intros r; rewrite Hl; discriminate|exact Hno].
Defined.
