(* ===== verification/Sizes.v ===== *)
(** * The sizes and frames of a session are well typed

    A terminal size is a pair of [uint16] that are both positive.  Sizes enter a
    session through the hello of a client, its [Size] frames and the [PTY]'s
    own resizes; they are kept in the [AttachSet], applied to the PTY and sent
    back to every client.  Here: no size that is not one gets through, and every
    frame the server sends is of a type its client takes. *)
From S2P Require Import Prelude GoBase StreamFilter QueryStripper PrimaryFilter Recorder Recording Terminal Channel Wire State ShortId Store Pty PtySafety PtyKeeps AttachSet Registry AttachHandler Hud Restorer AttachClient.
Open Scope Z_scope.

Definition uint16 (n : Z) : Prop := 0 <= n < 2 ^ 16.
Definition size_u16 (ws : PTYSize) : Prop := uint16 (Cols ws) ∧ uint16 (Rows ws).
Definition wsize (ws : PTYSize) : Prop := (0 < Cols ws < 2 ^ 16) ∧ (0 < Rows ws < 2 ^ 16).

Lemma wsize_intro ws : size_u16 ws → (Cols ws =? 0) || (Rows ws =? 0) = false → wsize ws.
Proof. intros [[] []] [E1 E2]%orb_false_iff. unfold wsize. lia. Qed.

(** ** The set *)

Definition set_typed (a : AttachSet) : Prop :=
  map_Forall (λ _, wsize) (set_members a) ∧ (set_members a ≠ ∅ → wsize (set_current a)).

Definition op_typed (op : set_op) : Prop :=
  match op with SAdd _ ws | SUpdate _ ws => wsize ws | SRemove _ => True end.

Definition res_typed (r : set_result) : Prop :=
  set_typed (res_set r) ∧ (∀ ws, res_apply r = Some ws → wsize ws) ∧
  (res_receivers r ≠ [] → wsize (res_eff r)).

Lemma is_min_wsize (m : gmap conn attachWinsize) eff : map_Forall (λ _, wsize) m → is_min m eff → wsize eff.
Proof.
  intros F (_ & (c & ws & Hc & Ec) & (d & vs & Hd & Ed)). pose proof (F _ _ Hc) as [H _].
  pose proof (F _ _ Hd) as [_ H']. unfold wsize. lia.
Qed.

Lemma finish_op_typed receivers a :
  map_Forall (λ _, wsize) (set_members a) → res_typed (finish_op receivers a).
Proof.
  intros F. destruct (finish_op_spec receivers a) as (I & E1 & E2 & E3 & E4 & _).
  assert (set_members a ≠ ∅ → wsize (set_current (res_set (finish_op receivers a)))) as Hc.
  { intros Hne. apply (is_min_wsize (set_members a)); [done|]. unfold set_inv in I. rewrite E1 in I. by destruct I. }
  assert (set_members a = ∅ → res_apply (finish_op receivers a) = None ∧ res_receivers (finish_op receivers a) = []) as Hn.
  { intros Hem. destruct (finish_op_spec receivers a) as (_ & _ & _ & _ & _ & E5).
    specialize (E5 Hem). rewrite E3, E4, E5, bool_decide_eq_true_2 by done. done. }
  split; [|split].
  - unfold set_typed. by rewrite E1.
  - intros ws Hw. assert (set_members a ≠ ∅) as Hne by (intros Hem; destruct (Hn Hem); congruence).
    rewrite E3 in Hw. destruct (bool_decide _); [done|]. injection Hw as <-. by apply Hc.
  - intros Hr. rewrite E2. apply Hc. intros Hem. by destruct (Hn Hem).
Qed.

Lemma unchanged_typed a : set_typed a → res_typed (mkRes a (set_current a) None []).
Proof. intros H. split; [exact H|]. split; [intros ws Hw; discriminate Hw|intros Hr; by destruct Hr]. Qed.

Lemma set_step_typed op a : op_typed op → set_typed a → res_typed (set_step op a).
Proof.
  intros Ho [F Hc]. destruct op as [c ws|c ws|c]; cbn [set_step op_typed] in *.
  - apply finish_op_typed. by apply map_Forall_insert_2.
  - unfold AttachSet.Update. destruct (set_members a !! c); [|by apply unchanged_typed].
    apply finish_op_typed. by apply map_Forall_insert_2.
  - unfold AttachSet.Remove. destruct (set_members a !! c); [|by apply unchanged_typed].
    apply finish_op_typed. by apply map_Forall_delete.
Qed.

(** Joining makes the effective size one. *)
Lemma add_eff_typed c ws a : wsize ws → set_typed a → wsize (res_eff (set_step (SAdd c ws) a)).
Proof.
  intros Hw Ht. pose proof (set_step_typed (SAdd c ws) a Hw Ht) as [[_ Hc] _].
  cbn [set_step] in *. unfold AttachSet.Add in *.
  destruct (finish_op_spec (λ m, filter (λ x, x ≠ c) (all_members m))
    (mkSet (<[c:=ws]> (set_members a)) (set_current a) (u64 (set_nextID a + 1)))) as (_ & E1 & E2 & _).
  rewrite E2. apply Hc. rewrite E1. cbn. apply insert_non_empty.
Qed.

(** ** The PTY *)

Section pty.
Context {T : Type} {TO : TermOps T}.

Abbreviation pty := (LibghosttyPTY T).

#[local] Abbreviation keeps := (PtyKeeps.keeps (T := T) Size).

Lemma keeps_feed now chunk : keeps (feed_action now chunk).
Proof.
  apply keeps_bind; [done|]. intros _. apply keeps_bind.
  { intros p. unfold feed_term. destruct (p_term p); [|done]. destruct (VTWrite _ _) as [t' rs].
    by destruct (write_replies_ok rs (set_terms (Some t') (p_primaryTerm p) p)) as [w ->]. }
  intros _. apply keeps_bind.
  { intros p. unfold feed_primary. destruct (p_primaryTerm p); [|done]. by destruct (Filter _ _). }
  intros _. apply keeps_bind; [done|]. intros p. induction (map_to_list (p_subs p)) as [|[id s] l IH]; [done|].
  cbn [fan_out]. apply keeps_bind; [|done]. intros q. unfold send_sub. destruct (Filter _ _) as [[|f fs] s']; [done|].
  cbn [set_subs p_chans]. destruct (_ !! id); [|done]. by destruct (try_send _ _).
Qed.

(** Only a resize changes it, to the size it was given. *)
Definition pty_typed (p : pty) : Prop := wsize (mkSize (p_cols p) (p_rows p)).

Lemma keeps_typed {A} (m : pty → res pty_error A * pty) p : keeps m → pty_typed p → pty_typed (m p).2.
Proof. intros Hm. specialize (Hm p). unfold pty_typed. by injection Hm as -> ->. Qed.

Lemma Resize_typed setsize now cols rows p :
  wsize (mkSize cols rows) → pty_typed p → pty_typed (Resize setsize now cols rows p).2.
Proof.
  intros Hw Hp. unfold Resize. destruct setsize; [|done]. unfold mbind, st_bind.
  assert (keeps (pty_do (resize_action now cols rows))) as Hk by by apply keeps_do, keeps_resize_action.
  pose proof (keeps_typed _ p Hk Hp) as H. by destruct (pty_do _ p) as [[?|?] p'].
Qed.

Definition pty_op_typed (op : pty_op) : Prop :=
  match op with PResize _ _ cols rows => wsize (mkSize cols rows) | _ => True end.

Lemma keeps_write data : keeps (Pty.Write data).
Proof.
  apply keeps_bind; [|by intros [?|?]]. intros p. unfold master_write. by destruct (GoBase.Write _ _).
Qed.

Lemma pty_run1_typed op p : pty_op_typed op → pty_typed p → pty_typed (pty_run1 op p).2.
Proof.
  intros Ho. destruct op as [now chunk|ss now cols rows|data|cap id|id|id|id|id|room rc]; cbn [pty_op_typed] in Ho;
    [|by apply Resize_typed|..];
    match goal with |- _ → pty_typed (pty_run1 ?op _).2 => apply (keeps_typed (pty_run1 op)); intros q; cbn [pty_run1] end.
  - destruct chunk; [done|]. apply keeps_do, keeps_feed.
  - apply keeps_write.
  - by apply keeps_subscribe.
  - by apply (keeps_snapshot Size).
  - by apply (keeps_snapshot Size).
  - by apply keeps_cancel.
  - by apply (keeps_recv Size).
  - by apply keeps_Close.
Qed.
End pty.

(** ** The handler *)

(** The frames a server sends: an effective size, an empty pong, or contents. *)
Definition frame_typed (f : wframe) : Prop :=
  (∃ ws, wsize ws ∧ f = size_frame ws) ∨ f = (MsgPong, []) ∨
  f.1 = MsgSnapshotScrollback ∨ f.1 = MsgSnapshotScreen ∨ f.1 = MsgOutput.

Section handler.
Context {T : Type} {TO : TermOps T} {R : Type} {IG : IdGen R}.
Context (marshal : StateFile → option (list byte)).
Context (unmarshal_hello : list byte → option Hello) (unmarshal_size : list byte → option PTYSize).
Context (noHistory : bool) (self : conn) (liveCh : chan_id).

#[local] Abbreviation step := (AttachHandler.step marshal unmarshal_hello unmarshal_size noHistory self liveCh).
#[local] Abbreviation run := (AttachHandler.run marshal unmarshal_hello unmarshal_size noHistory self liveCh).

Definition server_typed (sv : server T R) : Prop := set_typed (sv_set sv) ∧ pty_typed (sv_pty sv).

Definition pc_typed (x : pc) : Prop := match x with PcFirstSize _ eff | PcSendSize eff => wsize eff | _ => True end.

Definition attach_typed (a : attach) : Prop :=
  pc_typed (at_pc a) ∧ Forall wsize (at_pending a) ∧ Forall frame_typed (flow a).

Definition typed (s : sys (T := T) (R := R)) : Prop := attach_typed s.1 ∧ server_typed s.2.

(** What other clients and the PTY's owner ask for. *)
Definition event_typed (ev : event) : Prop :=
  match ev with EvOther _ op => op_typed op | EvPty op => pty_op_typed op | _ => True end.

Lemma server_op op (sv : server T R) : pty_op_typed op → server_typed sv → server_typed (with_pty (pty_run1 op (sv_pty sv)).2 sv).
Proof. intros Ho [H1 H2]. split; [done|]. by apply pty_run1_typed. Qed.

Lemma set_call_typed an op (sv : server T R) :
  op_typed op → server_typed sv →
  server_typed (set_call marshal an op sv).2 ∧ res_typed (set_call marshal an op sv).1.
Proof.
  intros Ho [Hs Hp]. pose proof (set_step_typed op _ Ho Hs) as Hr. split; [|done].
  destruct Hr as (Hr & Ha & _). unfold set_call, size_applier. cbn [fst snd].
  destruct (res_apply _) as [ws|]; [|by split]. split; [done|].
  apply Resize_typed; [|done]. specialize (Ha ws eq_refl). by destruct ws.
Qed.

Lemma send_typed f a a' : send f a = Stepped a' → frame_typed f → attach_typed a → attach_typed a'.
Proof.
  intros [_ ->]%send_stepped Hf (H1 & H2 & H3). split; [done|]. split; [done|].
  rewrite flow_with_out. apply Forall_app. split; [done|]. by constructor.
Qed.

Lemma goto_typed x a : pc_typed x → attach_typed a → attach_typed (with_pc x a).
Proof. intros Hx (_ & H). by split. Qed.

Lemma send_then_typed f x s s' :
  send_then f x s = Stepped s' → frame_typed f → pc_typed x → typed s → typed s'.
Proof.
  unfold send_then. destruct (send f s.1) as [| |a] eqn:E; try discriminate. intros [= <-] Hf Hx [H1 H2].
  split; [|done]. apply goto_typed; [done|]. by eapply send_typed.
Qed.

(** The main goroutine only moves. *)
Ltac goes E := injection E as <-; split; [by apply goto_typed|done].

Lemma size_frame_typed ws : wsize ws → frame_typed (size_frame ws).
Proof. left. by exists ws. Qed.

Hypothesis hello_u16 : ∀ bs h, unmarshal_hello bs = Some h → size_u16 (hello_Size h).
Hypothesis size_is_u16 : ∀ bs ws, unmarshal_size bs = Some ws → size_u16 ws.

Lemma hello_step_typed an x s s' : hello_step marshal unmarshal_hello self an x s = Stepped s' → typed s → typed s'.
Proof.
  destruct s as [a sv]. unfold hello_step, goto. cbn [fst snd]. intros E [Ha Hs]. cbn [fst snd] in Ha, Hs.
  destruct x as [[typ payload]|e]; [|by goes E].
  destruct (negb _); [by goes E|].
  destruct (unmarshal_hello payload) as [h|] eqn:Eh; [|by goes E].
  destruct (_ || _) eqn:Ez; [by goes E|].
  assert (wsize (hello_Size h)) as Hw by (apply wsize_intro; eauto).
  destruct (set_call_typed an (SAdd self (hello_Size h)) sv Hw Hs) as [H1 _].
  pose proof (add_eff_typed self _ _ Hw (proj1 Hs)) as H2.
  destruct (set_call _ _ _ _) as [r sv'] eqn:Ec. injection E as <-. split; [|exact H1].
  apply goto_typed; [|done]. cbn. unfold set_call in Ec. by injection Ec as <- _.
Qed.

Lemma read_step_typed an x s s' : read_step marshal unmarshal_size self an x s = Stepped s' → typed s → typed s'.
Proof.
  destruct s as [a sv]. unfold read_step, goto. cbn [fst snd]. intros E [Ha Hs]. cbn [fst snd] in Ha, Hs.
  destruct x as [[typ payload]|e]; [|by goes E].
  destruct (typ =? MsgInput).
  { pose proof (server_op (PInput payload) sv I Hs) as Hp. cbn [pty_run1] in Hp.
    destruct (Pty.Write payload _) as [[u|e] p]; injection E as <-; split; try done. by apply goto_typed. }
  destruct (typ =? MsgSize).
  { destruct (unmarshal_size payload) as [ws|] eqn:Ew; [|by goes E].
    destruct (_ || _) eqn:Ez; [injection E as <-; by split|].
    assert (wsize ws) as Hw by (apply wsize_intro; eauto).
    destruct (set_call_typed an (SUpdate self ws) sv Hw Hs) as [H1 (_ & _ & H2)].
    destruct (set_call _ _ _ _) as [r sv']. injection E as <-. split; [|exact H1]. cbn [fst snd] in *.
    case_bool_decide as Hin; [|done]. apply goto_typed; [|done]. cbn. apply H2. intros Hem. rewrite Hem in Hin. by apply not_elem_of_nil in Hin. }
  destruct (typ =? MsgPing); [by goes E|].
  destruct (typ =? MsgHello); [by goes E|].
  destruct (_ || _); by goes E.
Qed.

Lemma with_server (a : attach) (sv sv' : server T R) :
  sv_set sv' = sv_set sv → sv_pty sv' = sv_pty sv → typed (a, sv) → typed (a, sv').
Proof. intros E1 E2 [H1 [H2 H3]]. split; [done|]. unfold server_typed. cbn [snd]. by rewrite E1, E2. Qed.

Lemma main_step_typed an s s' : AttachHandler.main_step marshal noHistory self liveCh an s = Stepped s' → typed s → typed s'.
Proof.
  destruct s as [a sv]. unfold AttachHandler.main_step, goto. intros E H. pose proof H as [Ha Hs]. cbn [fst snd] in Ha, Hs.
  destruct (at_pc a) as [|h eff|h| |sb sc|sc| | |eff|r|r|r|r|r|r|r|] eqn:Epc; try discriminate E.
  - apply (send_then_typed _ _ _ _ E); [|done|done]. apply size_frame_typed. pose proof (proj1 Ha) as Hp. by rewrite Epc in Hp.
  - unfold register_step, goto in E. cbn [fst snd] in E. destruct (sv_reg sv) as [[g d]|]; [|by goes E].
    destruct (Registry.Add _ _ _ _ _ _ _ _) as [[[id|e] g'] d']; injection E as <-;
      apply (with_server _ sv); try done; split; try done; by apply (goto_typed _ a).
  - unfold subscribe_step in E. cbn [fst snd] in E.
    pose proof (server_op (PParts liveCh) sv I Hs) as Hp. cbn [pty_run1 result snd] in Hp.
    destruct (Pty.SubscribeWithSnapshotParts _ _) as [[[sb sc]|e] p]; injection E as <-; (split; [|exact Hp]);
      by apply (goto_typed _ a).
  - apply (send_then_typed _ _ _ _ E); [|done|done]. right; right; by left.
  - destruct (send_then _ _ _) as [| |[a' sv']] eqn:Es; try discriminate E. injection E as <-.
    apply send_then_typed in Es as [H1 H2]; [by split|right; right; right; by left|done|done].
  - apply (send_then_typed _ _ _ _ E); [|done|done]. right; by left.
  - apply (send_then_typed _ _ _ _ E); [|done|done]. apply size_frame_typed. pose proof (proj1 Ha) as Hp. by rewrite Epc in Hp.
  - injection E as <-. split; [by apply goto_typed|]. exact (server_op (PCancel liveCh) sv I Hs).
  - destruct (at_live a); try discriminate E. by goes E.
  - injection E as <-. split; [|done]. by apply (goto_typed _ a).
  - destruct (writer_done _); [|discriminate E]. injection E as <-. split; [by apply goto_typed|].
    exact (server_op (PCancel liveCh) sv I Hs).
  - injection E as <-. apply (with_server _ sv); [..|split; [by apply goto_typed|done]];
      destruct (sv_reg sv) as [[g d]|]; try done; destruct (at_id a); try done; by destruct (Registry.Remove _ _ _ _ _).
  - injection E as <-. split; [by apply goto_typed|]. exact (proj1 (set_call_typed an (SRemove self) sv I Hs)).
Qed.

Lemma live_step_typed s s' : live_step liveCh s = Stepped s' → typed s → typed s'.
Proof.
  destruct s as [a sv]. unfold live_step. intros E [Ha Hs]. cbn [fst snd] in Ha, Hs. destruct (at_live a); try discriminate E.
  - pose proof (server_op (PRecv liveCh) sv I Hs) as Hp. cbn [pty_run1 result snd] in Hp.
    destruct (recv_sub _ _) as [[[c| |]|e] p]; try discriminate E; injection E as <-; by split.
  - destruct (send _ a) as [| |a'] eqn:Es; try discriminate E. injection E as <-. split; [|done].
    apply (send_typed _ _ _ Es); [|done]. by do 4 right.
Qed.

Lemma step_typed ev s s' : event_typed ev → step ev s = Stepped s' → typed s → typed s'.
Proof.
  intros He. destruct s as [a sv]. destruct ev as [an x|an|an x|werr| |an op|k|op|rop| |]; cbn [AttachHandler.step fst snd event_typed] in *.
  - destruct (at_pc a); try discriminate. apply hello_step_typed.
  - apply main_step_typed.
  - destruct (at_pc a); try discriminate. apply read_step_typed.
  - destruct (writer_step werr a) as [| |a'] eqn:E; try discriminate. intros [= <-] [(H1 & H2 & H3) Hs]. split; [|done].
    pose proof (writer_step_flow _ _ _ E) as (E1 & E2 & _). unfold attach_typed. cbn [fst]. rewrite E1, E2. split; [done|]. split; [|done].
    revert E. unfold writer_step. destruct (at_writer a); try discriminate.
    destruct (recv _) as [[f| |] c]; try discriminate; [|by intros [= <-]].
    destruct (_ <? _); [by intros [= <-]|]. destruct werr; [by intros [= <-]|]. by destruct (at_forced a); intros [= <-].
  - apply live_step_typed.
  - unfold other_step. destruct (bool_decide (_ = self)); [discriminate|]. cbn [fst snd]. intros E [Ha Hs]. cbn [fst snd] in Ha, Hs.
    destruct (set_call_typed an op sv He Hs) as [H1 (_ & _ & H2)]. destruct (set_call _ _ _ _) as [r sv']. cbn [fst snd] in *.
    injection E as <-. split; [|exact H1]. case_bool_decide as Hin; [|done]. destruct Ha as (A1 & A2 & A3). split; [done|].
    split; [|done]. apply Forall_app. split; [done|]. constructor; [|done]. apply H2. intros Hem. rewrite Hem in Hin.
    by apply not_elem_of_nil in Hin.
  - unfold deliver_step. cbn [fst snd]. destruct (at_pending a !! k) as [ws|] eqn:Ek; [|discriminate].
    destruct (send _ a) as [| |a'] eqn:Es; try discriminate. intros [= <-] [Ha Hs]. split; [|done].
    pose proof (send_typed _ _ _ Es (size_frame_typed ws (Forall_lookup_1 _ _ _ _ (proj1 (proj2 Ha)) Ek)) Ha) as (A1 & A2 & A3).
    split; [done|]. split; [|done]. by apply Forall_delete.
  - intros [= <-] [Ha Hs]. split; [done|]. by apply server_op.
  - intros [= <-] [Ha Hs]. by split.
  - unfold forcedDetach. destruct (at_id a), (at_forced a); try discriminate; by intros [= <-].
  - unfold unwind_step, goto. cbn [fst snd]. intros E [Ha Hs]. destruct (at_pc a); try discriminate E; injection E as <-;
      (split; [by apply (goto_typed _ a)|]); first [exact Hs|exact (server_op (PCancel liveCh) sv I Hs)].
Qed.

(** The client refuses no frame for its type. *)
Definition accepted (f : wframe) : Prop :=
  ∀ hud label localSize localRows c, match (frame_step unmarshal_size hud label localSize localRows f.1 f.2 c).1 with
    | Some (SlUnexpected _ | SlUnknown _) => False
    | _ => True
    end.

Lemma put_stdout bs c : (put bs c).1 = None ∨ ∃ e, (put bs c).1 = Some (SlStdout e).
Proof. unfold put. destruct (GoBase.Write bs (cl_stdout c)) as [[u|e] w]; cbn; eauto. Qed.

Lemma frame_accepted f : frame_typed f → accepted f.
Proof.
  intros Hf hud label [lc lr] localRows c. destruct f as [typ payload]. cbn [fst snd].
  assert (typ = MsgSize ∨ typ = MsgPong ∨ typ = MsgSnapshotScrollback ∨ typ = MsgSnapshotScreen ∨ typ = MsgOutput) as Ht.
  { destruct Hf as [(ws & _ & [= -> _])|[[= -> _]|Hf]]; [by left|by right; left|]. by do 2 right. }
  unfold frame_step. destruct Ht as [->|[->|[->|[->| ->]]]]; cbn [Z.eqb Pos.eqb MsgSnapshotScrollback MsgSnapshotScreen MsgOutput MsgSize MsgPong].
  - done.
  - done.
  - unfold put_nonempty. destruct payload; [done|]. destruct (put_stdout (z :: payload) c) as [E|[e E]];
      destruct (put _ c) as [o c']; cbn in *; by rewrite E.
  - set (c1 := mkClient _ _ true _). destruct (put_stdout (attach_status hud label localRows) c1) as [E|[e E]];
      destruct (put _ c1) as [o c2]; cbn [fst] in E; subst o; [|done]. cbn [then_do]. unfold put_nonempty.
    destruct payload; [done|]. destruct (put_stdout (z :: payload) c2) as [E|[e E]]; destruct (put _ c2) as [o c']; cbn in *; by rewrite E.
  - destruct (put_stdout payload c) as [E|[e E]]; destruct (put _ c) as [o c']; cbn in *; by rewrite E.
Qed.

(** C18: The sizes and frames of a session are well typed.  Whatever clients send
    (the JSON decoder only gives [uint16]s) and in whatever order the goroutines,
    the other clients and the PTY take turns, a size with a zero, or one that does
    not fit, never gets into a session: every size the [AttachSet] keeps, the one
    it has chosen, and the one of the PTY are two positive [uint16]s; the client
    receives only such sizes, empty pongs and contents, and never a frame that
    [runServerLoop] would refuse for its type. *)
Theorem sizes_well_typed text evs sv s :
  Forall event_typed evs → server_typed sv → run evs (new_attach, sv) = Stepped s →
  server_typed s.2 ∧ ∀ fs, received text s.1 fs → Forall (λ f, frame_typed f ∧ accepted f) fs.
Proof.
  intros He Hs Hr. assert (typed s) as [(_ & _ & H3) H].
  { assert (typed (new_attach, sv)) as H0 by (split; [repeat split; constructor|done]).
    clear Hs. revert H0 Hr. generalize (new_attach, sv). induction He as [|ev evs Hev _ IH]; intros q Hq; cbn [AttachHandler.run].
    - by intros [= <-].
    - destruct (step ev q) as [| |q'] eqn:E; [by apply IH|done|]. apply IH. by apply (step_typed _ _ _ Hev E). }
  split; [done|]. intros fs Hrc. apply Forall_forall. intros f Hf.
  assert (frame_typed f) as Hft; [|split; [done|by apply frame_accepted]].
  destruct (received_elem text s.1 fs f Hrc Hf) as [Hin|Hin]; [|by do 4 right].
  rewrite Forall_forall in H3. by apply H3.
Qed.
End handler.

Definition ex_typed : list event :=
  ex_start ++ [EvOther ex_answers (SAdd 3 (mkSize 70 20)); EvDeliver 0; EvRead ex_answers (Ok (MsgSize, [])); EvMain ex_answers;
    EvPty (PResize (Ok tt) 0 60 20)] ++ repeat (EvWriter None) 5.

Lemma sizes_well_typed_witness :
  ∃ s, ex_run ex_typed (new_attach, ex_server) = Stepped s ∧ server_typed s.2 ∧
    ∀ fs, received ex_text s.1 fs → Forall (λ f, frame_typed f ∧ accepted ex_size f) fs.
Proof.
  assert (is_Some (match ex_run ex_typed (new_attach, ex_server) with Stepped s => Some s | _ => None end)) as [s Hs] by (vm_compute; eauto).
  destruct (ex_run ex_typed (new_attach, ex_server)) as [| |s'] eqn:E; try discriminate Hs. exists s'. split; [reflexivity|].
  refine (sizes_well_typed (IG := counter_gen) _ ex_hello ex_size false 1 7 _ _ ex_text ex_typed ex_server s' _ _ E).
  - intros bs h [= <-]. repeat split; cbn; lia.
  - intros bs ws [= <-]. repeat split; cbn; lia.
  - repeat constructor; cbn; lia.
  - split; [split|repeat split; cbn; lia].
    + apply map_Forall_singleton. repeat split; cbn; lia.
    + intros _. repeat split; cbn; lia.
Defined.
