(* ===== verification/Heartbeat.v ===== *)
(** * [cmd/hoot/attach.go]: the heartbeat of a session

    The goroutine of [runSession] that pings an idle server and closes the
    connection of a silent one.  Its tickers, the frames written and the frames
    read are events with their times, in milliseconds.  A ping goes through
    [outCh]: when that is full the goroutine waits in [send], away from its
    tickers, until there is room. *)
From S2P Require Import Prelude GoBase.
Open Scope Z_scope.

Definition attachHeartbeatInterval : Z := 200.
Definition attachHeartbeatTimeout : Z := 800.

(** [RoomMade]: the ping the goroutine is waiting with goes into the queue. *)
Inductive beat := PingTick | WatchdogTick | FrameSent | FrameReceived | RoomMade.
Definition beat_event : Type := Z * beat.

(** [hb_due]: the pings whose [send] was called; [hb_waits]: in that [send]. *)
Record heart := mkHeart { hb_lastSent : Z; hb_lastRecv : Z; hb_due : list Z; hb_waits : bool; hb_closed : option Z }.

Definition new_heart (start : Z) : heart := mkHeart start start [] false None.

(** One event; after the connection is closed the goroutine is gone. *)
Definition beat_step (h : heart) (e : beat_event) : heart :=
  let '(now, b) := e in
  match hb_closed h with
  | Some _ => h
  | None =>
      match b with
      | PingTick =>
          if hb_waits h then h
          else if attachHeartbeatInterval <? now - hb_lastSent h
          then mkHeart (hb_lastSent h) (hb_lastRecv h) (hb_due h ++ [now]) true None else h
      | WatchdogTick =>
          if hb_waits h then h
          else if attachHeartbeatTimeout <? now - hb_lastRecv h
          then mkHeart (hb_lastSent h) (hb_lastRecv h) (hb_due h) false (Some now) else h
      | FrameSent => mkHeart now (hb_lastRecv h) (hb_due h) (hb_waits h) None
      | FrameReceived => mkHeart (hb_lastSent h) now (hb_due h) (hb_waits h) None
      | RoomMade => mkHeart (hb_lastSent h) (hb_lastRecv h) (hb_due h) false None
      end
  end.

Definition beats (evs : list beat_event) (h : heart) : heart := foldl beat_step h evs.

(** Times do not go back. *)
Fixpoint in_order (t : Z) (evs : list beat_event) : Prop :=
  match evs with [] => True | (now, _) :: evs' => t <= now ∧ in_order now evs' end.

Definition received_at (evs : list beat_event) (t : Z) : Prop := (t, FrameReceived) ∈ evs.

Lemma in_order_le t evs : in_order t evs → Forall (λ e, t <= e.1) evs.
Proof.
  revert t. induction evs as [|[now b] evs IH]; intros t; [constructor|]. intros [Ht H]. constructor; [done|].
  eapply Forall_impl; [exact (IH now H)|]. cbn. lia.
Qed.

Lemma in_order_before t pre now b post : in_order t (pre ++ (now, b) :: post) → Forall (λ e, e.1 <= now) pre.
Proof.
  revert t. induction pre as [|[n c] pre IH]; intros t; [constructor|]. intros [_ H]. constructor; [|by apply (IH n)].
  pose proof (in_order_le _ _ H) as Hf. rewrite Forall_forall in Hf. apply (Hf (now, b)). set_solver.
Qed.

Lemma beats_after evs h t : hb_closed h = Some t → beats evs h = h.
Proof.
  intros Hc. induction evs as [|[now b] evs IH]; [done|].
  change (beats evs (beat_step h (now, b)) = h). assert (beat_step h (now, b) = h) as -> by (unfold beat_step; by rewrite Hc).
  exact IH.
Qed.

Lemma beats_closed evs h t : hb_closed h = Some t → hb_closed (beats evs h) = Some t.
Proof. intros Hc. by rewrite (beats_after evs h t). Qed.

(** Closed: nothing had arrived for longer than the timeout. *)
Lemma closed_silent evs h t0 :
  in_order t0 evs → hb_closed h = None → hb_lastRecv h <= t0 → ∀ t, hb_closed (beats evs h) = Some t →
  (t, WatchdogTick) ∈ evs ∧ attachHeartbeatTimeout < t - hb_lastRecv h ∧
  ∀ r, received_at evs r → r < t → attachHeartbeatTimeout < t - r.
Proof.
  revert h t0. induction evs as [|[now b] evs IH]; intros h t0 Ho Hc Hl t Ht; [cbn in Ht; congruence|].
  destruct Ho as [Hn Ho]. cbn [beats foldl] in Ht. fold (beats evs) in Ht.
  change (foldl beat_step (beat_step h (now, b)) evs) with (beats evs (beat_step h (now, b))) in Ht.
  assert (∀ h', hb_closed h' = None → hb_lastRecv h' <= now → hb_lastRecv h <= hb_lastRecv h' → (b = FrameReceived → hb_lastRecv h' = now) →
    hb_closed (beats evs h') = Some t →
    (t, WatchdogTick) ∈ (now, b) :: evs ∧ attachHeartbeatTimeout < t - hb_lastRecv h ∧
    ∀ r, received_at ((now, b) :: evs) r → r < t → attachHeartbeatTimeout < t - r) as Hstep.
  { intros h' Hc' Hl' Hm Hr Ht'. destruct (IH h' now Ho Hc' Hl' t Ht') as (H1 & H2 & H3).
    split; [by apply list_elem_of_further|]. split; [lia|]. intros r Hrecv Hrt.
    apply elem_of_cons in Hrecv as [[= <- <-]|Hrecv]; [|by apply H3]. rewrite Hr in H2 by done. done. }
  unfold beat_step in Ht. rewrite Hc in Ht. destruct b.
  - destruct (hb_waits h); [|destruct (_ <? _)]; eapply Hstep; try exact Ht; cbn; (done || lia).
  - destruct (hb_waits h); [eapply Hstep; try exact Ht; cbn; (done || lia)|].
    destruct (Z.ltb_spec attachHeartbeatTimeout (now - hb_lastRecv h)) as [Hlt|Hge].
    + rewrite (beats_closed evs _ now) in Ht by done. injection Ht as <-. split; [by left|]. split; [done|].
      intros r Hrecv Hrt. apply elem_of_cons in Hrecv as [[=]|Hrecv].
      pose proof (in_order_le now evs Ho) as Hf. rewrite Forall_forall in Hf. specialize (Hf _ Hrecv). cbn in Hf. lia.
    + eapply Hstep; try exact Ht; (done || lia).
  - eapply Hstep; try exact Ht; cbn; (done || lia).
  - eapply Hstep; try exact Ht; cbn; (done || lia).
  - eapply Hstep; try exact Ht; cbn; (done || lia).
Qed.

Lemma beats_app a b h : beats (a ++ b) h = beats b (beats a h).
Proof. apply foldl_app. Qed.

Lemma beats_recv evs h a :
  hb_lastRecv h <= a → (∀ r, received_at evs r → r <= a) → hb_lastRecv (beats evs h) <= a.
Proof.
  revert h. induction evs as [|[now b] evs IH]; intros h Hl Hr; [done|].
  change (beats ((now, b) :: evs) h) with (beats evs (beat_step h (now, b))). apply IH.
  - unfold beat_step. destruct (hb_closed h); [done|]. destruct b; repeat case_match; cbn; try done. apply (Hr now). by left.
  - intros r H. apply Hr. by apply list_elem_of_further.
Qed.

Lemma beats_closed_by evs h w :
  (∀ t, hb_closed h = Some t → t <= w) → Forall (λ e, e.1 <= w) evs → ∀ t, hb_closed (beats evs h) = Some t → t <= w.
Proof.
  intros Hc Hf. revert h Hc. induction Hf as [|[now b] evs Hn Hf IH]; intros h Hc; [exact Hc|].
  change (beats ((now, b) :: evs) h) with (beats evs (beat_step h (now, b))). apply IH. cbn in Hn.
  intros t. unfold beat_step. destruct (hb_closed h) eqn:E; [intros Ht; apply Hc; congruence|].
  destruct b; repeat case_match; cbn; congruence.
Qed.

(** Silent: a tick of the watchdog past the timeout closes, if it is heard. *)
Lemma silent_closed pre post h w a :
  hb_lastRecv h <= a → a + attachHeartbeatTimeout < w → hb_waits (beats pre h) = false →
  (∀ r, received_at pre r → r <= a) → (∀ t, hb_closed h = Some t → t <= w) → Forall (λ e, e.1 <= w) pre →
  ∃ t, hb_closed (beats (pre ++ (w, WatchdogTick) :: post) h) = Some t ∧ t <= w.
Proof.
  intros Hl Ha Hw Hr Hc Hf. rewrite beats_app. change (beats (?e :: post) ?g) with (beats post (beat_step g e)).
  destruct (hb_closed (beats pre h)) as [t|] eqn:Et.
  - exists t. split; [|by apply (beats_closed_by pre h w Hc Hf)]. apply beats_closed. cbn. by rewrite Et.
  - exists w. split; [|lia]. apply beats_closed. cbn. rewrite Et, Hw. pose proof (beats_recv pre h a Hl Hr).
    by rewrite (proj2 (Z.ltb_lt attachHeartbeatTimeout (w - hb_lastRecv (beats pre h)))) by lia.
Qed.

(** While it waits with a ping, nothing closes the connection. *)
Lemma beats_starve evs h :
  hb_waits h = true → hb_closed h = None → Forall (λ e, e.2 ≠ RoomMade) evs →
  hb_waits (beats evs h) = true ∧ hb_closed (beats evs h) = None.
Proof.
  intros Hw Hc Hf. revert h Hw Hc. induction Hf as [|[now b] evs Hb Hf IH]; intros h Hw Hc; [done|].
  change (beats ((now, b) :: evs) h) with (beats evs (beat_step h (now, b))). apply IH; unfold beat_step; rewrite Hc; destruct b; cbn; rewrite ?Hw; done.
Qed.

(** A ping: nothing had been written for the interval. *)
Lemma ping_idle evs h t0 t :
  in_order t0 evs → t ∈ hb_due (beats evs h) → hb_lastSent h <= t0 →
  t ∈ hb_due h ∨ (t, PingTick) ∈ evs ∧ attachHeartbeatInterval < t - hb_lastSent h ∧
    ∀ s, (s, FrameSent) ∈ evs → s < t → attachHeartbeatInterval < t - s.
Proof.
  revert h t0. induction evs as [|[now b] evs IH]; intros h t0 Ho Hp Hl; [by left|]. destruct Ho as [Hn Ho].
  destruct (hb_closed h) as [c|] eqn:Ec; [rewrite (beats_after _ h c) in Hp by done; by left|].
  change (beats ((now, b) :: evs) h) with (beats evs (beat_step h (now, b))) in Hp.
  pose proof (in_order_le now evs Ho) as Hf. rewrite Forall_forall in Hf.
  assert (hb_lastSent h <= hb_lastSent (beat_step h (now, b)) <= now) as Hs.
  { unfold beat_step. rewrite Ec. destruct b; repeat case_match; cbn; lia. }
  destruct (IH _ now Ho Hp) as [Hp'|(H1 & H2 & H3)]; [lia| |].
  - unfold beat_step in Hp'. rewrite Ec in Hp'. destruct b; try by left.
    + destruct (hb_waits h); [by left|]. destruct (Z.ltb_spec attachHeartbeatInterval (now - hb_lastSent h)) as [Hlt|]; [|by left].
      cbn [hb_due] in Hp'. apply elem_of_app in Hp' as [?|Hp']; [by left|]. apply list_elem_of_singleton in Hp' as ->.
      right. split; [by left|]. split; [done|]. intros s Hin Hlt'. apply elem_of_cons in Hin as [[=]|Hin].
      specialize (Hf _ Hin). cbn in Hf. lia.
    + destruct (hb_waits h); [by left|]. case_match; by left.
  - right. split; [by apply list_elem_of_further|]. split; [lia|]. intros s Hin Hlt.
    apply elem_of_cons in Hin as [[= <- <-]|Hin]; [|by apply H3]. unfold beat_step in H2.
    rewrite Ec in H2. cbn in H2. lia.
Qed.

(** C31: The watchdog is exact while it runs.  Whatever the order of ticks and
    frames: the connection is closed only at a tick of the watchdog before which no
    frame had arrived for more than 800 ms (so a server heard from every 800 ms is
    never dropped), and at the first such tick at which the goroutine is not waiting
    with a ping (so, the ticks being 100 ms apart, a silent server is dropped within
    900 ms); a ping is due only when nothing had been written for more than 200 ms.
    A goroutine that waits with a ping, because [outCh] is full, closes nothing
    until there is room, however long that takes. *)
Theorem heartbeat_bounds evs start :
  in_order start evs →
  let h := beats evs (new_heart start) in
  (∀ t, hb_closed h = Some t → (t, WatchdogTick) ∈ evs ∧ attachHeartbeatTimeout < t - start ∧
     ∀ r, received_at evs r → r < t → attachHeartbeatTimeout < t - r) ∧
  (∀ pre w post a, evs = pre ++ (w, WatchdogTick) :: post → hb_waits (beats pre (new_heart start)) = false →
     start <= a → a + attachHeartbeatTimeout < w → (∀ r, received_at pre r → r <= a) → ∃ t, hb_closed h = Some t ∧ t <= w) ∧
  (∀ t, t ∈ hb_due h → (t, PingTick) ∈ evs ∧ attachHeartbeatInterval < t - start ∧
     ∀ s, (s, FrameSent) ∈ evs → s < t → attachHeartbeatInterval < t - s) ∧
  (∀ pre post, evs = pre ++ post → hb_waits (beats pre (new_heart start)) = true → hb_closed (beats pre (new_heart start)) = None →
     Forall (λ e, e.2 ≠ RoomMade) post → hb_closed h = None).
Proof.
  intros Ho h. split; [|split; [|split]].
  - intros t Ht. by apply (closed_silent evs (new_heart start) start Ho eq_refl (Z.le_refl start) t Ht).
  - intros pre w post a -> Hw Hl Ha Hr. apply (silent_closed pre post (new_heart start) w a); try done. by apply (in_order_before start pre w WatchdogTick post).
  - intros t Ht. destruct (ping_idle evs (new_heart start) start t Ho Ht (Z.le_refl start)) as [Hp|H]; [set_solver|exact H].
  - intros pre post -> Hw Hc Hf. unfold h. rewrite beats_app. by apply beats_starve.
Qed.

(** A server that answers once and is then silent. *)
Definition ex_beats : list beat_event :=
  [(0, FrameSent); (100, WatchdogTick); (150, FrameReceived); (200, PingTick); (200, WatchdogTick);
   (400, PingTick); (400, RoomMade); (400, FrameSent); (900, WatchdogTick); (1000, WatchdogTick); (1100, WatchdogTick)].

Lemma heartbeat_bounds_witness :
  in_order 0 ex_beats ∧ hb_due (beats ex_beats (new_heart 0)) = [400] ∧
  ∃ t, hb_closed (beats ex_beats (new_heart 0)) = Some t ∧ t <= 1000.
Proof.
  assert (in_order 0 ex_beats) as Ho by (vm_compute; repeat split; discriminate).
  split; [exact Ho|]. split; [reflexivity|].
  destruct (heartbeat_bounds ex_beats 0 Ho) as (_ & H & _). apply (H (take 9 ex_beats) 1000 [(1100, WatchdogTick)] 150).
  - reflexivity.
  - reflexivity.
  - lia.
  - unfold attachHeartbeatTimeout. lia.
  - intros r Hr. unfold received_at in Hr. cbn in Hr. set_unfold in Hr. naive_solver lia.
Defined.
