(* ===== verification/ClientSession.v ===== *)
(** * [cmd/hoot/attach.go]: one connection of an attach client

    [runSession] is a main goroutine, the writer that empties [outCh] onto the
    connection, the heartbeat and the server-read loop; the keyboard and the
    [SIGWINCH] goroutines send through the closure it puts in [sharedSession].  A
    state is their program points, [outCh], the connection and the clock; an event
    is one step of one of them, or of the world.  [select] is an event for each of
    its cases.  Frames are not cut into bytes here ([Wire] does). *)
From S2P Require Import Prelude GoBase StreamFilter QueryStripper PrimaryFilter Recorder Recording Terminal Channel Wire State ShortId Store Pty PtySafety AttachSet Registry AttachHandler Hud Restorer AttachClient Heartbeat.
Open Scope Z_scope.

(** What [runSession] returns; [None] is [nil]. *)
Inductive session_error := SeBeforeHello | SeServer (e : server_error).

(** Its program points; [r] is what it will return. *)
Inductive cpc :=
| MSetSend | MHello | MStart
| MWait                                     (** [<-serverDone] or [<-ctx.Done()] *)
| MCancel (r : option session_error)
| MCloseConn (r : option session_error)
| MJoinHeart (r : option session_error)     (** [<-heartbeatDone] *)
| MCloseOut (r : option session_error)
| MJoinWriter (r : option session_error)    (** [<-writerDone] *)
| MClearSend (r : option session_error)     (** the deferred calls *)
| MReturned (r : option session_error).

Inductive cwriter := CwIdle | CwWriting (f : wframe) | CwFailed (lost : wframe) (e : wire_error) | CwDone.
Inductive chart := HNone | HSelect | HSending | HDone.
Inductive sloop := SvNone | SvRunning | SvDone (e : option server_error).

(** The goroutines outside [runSession] that send, and where a frame comes from. *)
Inductive who := Keyboard | Window.
Inductive source := FromMain | FromHeart | From (w : who).

#[global] Instance who_eq_dec : EqDecision who.
Proof. solve_decision. Defined.
#[global] Instance chart_eq_dec : EqDecision chart.
Proof. solve_decision. Defined.
#[global] Instance source_eq_dec : EqDecision source.
Proof. solve_decision. Defined.

Record csession := mkCS {
  rs_pc : cpc; rs_out : chan wframe; rs_writer : cwriter; rs_wire : list wframe;
  rs_heart : chart; rs_server : sloop;
  rs_ctx : bool;                         (** [ctx] is done *)
  rs_cancelled : bool;                   (** [sessionCancel] was called *)
  rs_closed : bool;                      (** the connection was closed on this side *)
  rs_sendFn : bool;                      (** [shared.sendFn] is this session's *)
  rs_calls : list (who * wframe);        (** the [send] calls other goroutines are in *)
  rs_now : Z; rs_lastSent : Z; rs_lastRecv : Z;
  rs_log : list (source * wframe);       (** history: what went into [outCh] *)
  rs_called : list (who * wframe)        (** history: the [send] calls of the others *)
}.

Definition new_session (now : Z) : csession :=
  mkCS MSetSend (make_chan 256) CwIdle [] HNone SvNone false false false false [] now now now [] [].

(** [sessionCtx.Done()] *)
Definition ctx_done (s : csession) : bool := rs_ctx s || rs_cancelled s.

Definition set_pc (x : cpc) (s : csession) : csession :=
  mkCS x (rs_out s) (rs_writer s) (rs_wire s) (rs_heart s) (rs_server s) (rs_ctx s) (rs_cancelled s) (rs_closed s) (rs_sendFn s)
    (rs_calls s) (rs_now s) (rs_lastSent s) (rs_lastRecv s) (rs_log s) (rs_called s).
Definition set_out (c : chan wframe) (log : list (source * wframe)) (s : csession) : csession :=
  mkCS (rs_pc s) c (rs_writer s) (rs_wire s) (rs_heart s) (rs_server s) (rs_ctx s) (rs_cancelled s) (rs_closed s) (rs_sendFn s)
    (rs_calls s) (rs_now s) (rs_lastSent s) (rs_lastRecv s) log (rs_called s).
Definition set_writer (c : chan wframe) (w : cwriter) (wire : list wframe) (sent : Z) (s : csession) : csession :=
  mkCS (rs_pc s) c w wire (rs_heart s) (rs_server s) (rs_ctx s) (rs_cancelled s) (rs_closed s) (rs_sendFn s)
    (rs_calls s) (rs_now s) sent (rs_lastRecv s) (rs_log s) (rs_called s).
Definition set_heart (h : chart) (s : csession) : csession :=
  mkCS (rs_pc s) (rs_out s) (rs_writer s) (rs_wire s) h (rs_server s) (rs_ctx s) (rs_cancelled s) (rs_closed s) (rs_sendFn s)
    (rs_calls s) (rs_now s) (rs_lastSent s) (rs_lastRecv s) (rs_log s) (rs_called s).
Definition set_server (v : sloop) (recv : Z) (s : csession) : csession :=
  mkCS (rs_pc s) (rs_out s) (rs_writer s) (rs_wire s) (rs_heart s) v (rs_ctx s) (rs_cancelled s) (rs_closed s) (rs_sendFn s)
    (rs_calls s) (rs_now s) (rs_lastSent s) recv (rs_log s) (rs_called s).
Definition set_flags (ctx cancelled closed sendFn : bool) (s : csession) : csession :=
  mkCS (rs_pc s) (rs_out s) (rs_writer s) (rs_wire s) (rs_heart s) (rs_server s) ctx cancelled closed sendFn
    (rs_calls s) (rs_now s) (rs_lastSent s) (rs_lastRecv s) (rs_log s) (rs_called s).
Definition set_calls (l called : list (who * wframe)) (s : csession) : csession :=
  mkCS (rs_pc s) (rs_out s) (rs_writer s) (rs_wire s) (rs_heart s) (rs_server s) (rs_ctx s) (rs_cancelled s) (rs_closed s) (rs_sendFn s)
    l (rs_now s) (rs_lastSent s) (rs_lastRecv s) (rs_log s) called.
Definition set_now (t : Z) (s : csession) : csession :=
  mkCS (rs_pc s) (rs_out s) (rs_writer s) (rs_wire s) (rs_heart s) (rs_server s) (rs_ctx s) (rs_cancelled s) (rs_closed s) (rs_sendFn s)
    (rs_calls s) t (rs_lastSent s) (rs_lastRecv s) (rs_log s) (rs_called s).

Definition cancel_ctx (s : csession) : csession := set_flags (rs_ctx s) true (rs_closed s) (rs_sendFn s) s.
Definition close_conn (s : csession) : csession := set_flags (rs_ctx s) (rs_cancelled s) true (rs_sendFn s) s.
Definition setSend (s : csession) : csession := set_flags (rs_ctx s) (rs_cancelled s) (rs_closed s) true s.
Definition clearSend (s : csession) : csession := set_flags (rs_ctx s) (rs_cancelled s) (rs_closed s) false s.

(** [send]: a [select] between the queue, which panics once it is closed, and the
    end of the session. *)
Definition send_put (src : source) (f : wframe) (s : csession) : outcome csession :=
  if ch_closed (rs_out s) then Panicked
  else if (length (ch_buf (rs_out s)) <? ch_cap (rs_out s))%nat
  then Stepped (set_out (mkChan (ch_buf (rs_out s) ++ [f]) (ch_cap (rs_out s)) false) (rs_log s ++ [(src, f)]) s)
  else Blocked.

Definition bind_out {A} (o : outcome A) (g : A → outcome A) : outcome A :=
  match o with Stepped a => g a | Blocked => Blocked | Panicked => Panicked end.

(** The events. *)
Inductive cevent :=
| CMain (first : bool)                (** the main goroutine; which case of its [select] *)
| CTake | CWrote (werr : option io_error)   (** the writer takes a frame; [WriteFrame] returns *)
| CPingTick | CWatchTick | CHeartDone (** the cases of the heartbeat's [select] *)
| CPing (put : bool)                  (** its [send] returns *)
| CFrame                              (** the read loop reads a frame *)
| CServerEnd (e : option server_error)
| CCall (w : who) (f : wframe)        (** another goroutine calls [sendFn] *)
| CSend (w : who) (put : bool)        (** and returns *)
| CClone                              (** [markSwitched] closes the connection *)
| COuter                              (** [ctx] is cancelled: the user detaches *)
| CTime (t : Z).

Section session.
Context (hello : list byte).            (** [json.Marshal(attachwire.Hello{...})] *)

Definition main_step (first : bool) (s : csession) : outcome csession :=
  match rs_pc s with
  | MSetSend => Stepped (set_pc MHello (setSend s))
  | MHello =>
      if first then bind_out (send_put FromMain (MsgHello, hello) s) (λ s, Stepped (set_pc MStart s))
      else if ctx_done s then Stepped (set_pc (MClearSend (Some SeBeforeHello)) s) else Blocked
  | MStart => Stepped (set_pc MWait (set_heart HSelect (set_server SvRunning (rs_lastRecv s) s)))
  | MWait =>
      if first then match rs_server s with SvDone e => Stepped (set_pc (MCancel (SeServer <$> e)) s) | _ => Blocked end
      else if rs_ctx s then Stepped (set_pc (MCancel None) s) else Blocked
  | MCancel r => Stepped (set_pc (MCloseConn r) (cancel_ctx s))
  | MCloseConn r => Stepped (set_pc (MJoinHeart r) (close_conn s))
  | MJoinHeart r => match rs_heart s with HDone => Stepped (set_pc (MCloseOut r) s) | _ => Blocked end
  | MCloseOut r =>
      match close_chan (rs_out s) with
      | Some c => Stepped (set_pc (MJoinWriter r) (set_out c (rs_log s) s))
      | None => Panicked
      end
  | MJoinWriter r =>
      match rs_writer s with CwDone | CwFailed _ _ => Stepped (set_pc (MClearSend r) s) | _ => Blocked end
  | MClearSend r => Stepped (set_pc (MReturned r) (cancel_ctx (clearSend s)))
  | MReturned _ => Blocked
  end.

Definition take_step (s : csession) : outcome csession :=
  match rs_writer s with
  | CwIdle =>
      match recv (rs_out s) with
      | (RecvBlocks, _) => Blocked
      | (RecvClosed, c) => Stepped (set_writer c CwDone (rs_wire s) (rs_lastSent s) s)
      | (Received f, c) => Stepped (set_writer c (CwWriting f) (rs_wire s) (rs_lastSent s) s)
      end
  | _ => Blocked
  end.

(** [WriteFrame] refuses a payload that is too long, and a closed connection. *)
Definition wrote_step (werr : option io_error) (s : csession) : outcome csession :=
  match rs_writer s with
  | CwWriting f =>
      let fail e := Stepped (set_writer (rs_out s) (CwFailed f e) (rs_wire s) (rs_lastSent s) s) in
      if MaxPayload <? Z.of_nat (length f.2) then fail (ErrPayloadMax (Z.of_nat (length f.2)))
      else match werr with
           | Some e => fail (WireIO e)
           | None => if rs_closed s then fail (WireIO (ErrIO 9))
                     else Stepped (set_writer (rs_out s) CwIdle (rs_wire s ++ [f]) (rs_now s) s)
           end
  | _ => Blocked
  end.

(** The three cases of the heartbeat's [select]. *)
Definition ping_tick (s : csession) : outcome csession :=
  match rs_heart s with
  | HSelect => Stepped (if attachHeartbeatInterval <? rs_now s - rs_lastSent s then set_heart HSending s else s)
  | _ => Blocked
  end.

Definition watch_tick (s : csession) : outcome csession :=
  match rs_heart s with
  | HSelect => Stepped (if attachHeartbeatTimeout <? rs_now s - rs_lastRecv s then set_heart HDone (close_conn s) else s)
  | _ => Blocked
  end.

Definition heart_done (s : csession) : outcome csession :=
  match rs_heart s with
  | HSelect => if ctx_done s then Stepped (set_heart HDone s) else Blocked
  | _ => Blocked
  end.

(** Its [send(MsgPing, nil)] returns. *)
Definition ping_step (put : bool) (s : csession) : outcome csession :=
  match rs_heart s with
  | HSending =>
      if put then bind_out (send_put FromHeart (MsgPing, []) s) (λ s, Stepped (set_heart HSelect s))
      else if ctx_done s then Stepped (set_heart HSelect s) else Blocked
  | _ => Blocked
  end.

Definition call_of (w : who) (s : csession) : option wframe := snd <$> List.find (λ x, bool_decide (x.1 = w)) (rs_calls s).
Definition end_call (w : who) (s : csession) : csession := set_calls (filter (λ x, x.1 ≠ w) (rs_calls s)) (rs_called s) s.

(** [sendInputOrWake] and [sendIfConnected] read [sendFn] under the lock and call
    it after; without one the key is a wake-up, the size is dropped. *)
Definition call_step (w : who) (f : wframe) (s : csession) : outcome csession :=
  if rs_sendFn s then
    match call_of w s with
    | Some _ => Blocked
    | None => Stepped (set_calls (rs_calls s ++ [(w, f)]) (rs_called s ++ [(w, f)]) s)
    end
  else Blocked.

Definition send_step (w : who) (put : bool) (s : csession) : outcome csession :=
  match call_of w s with
  | None => Blocked
  | Some f =>
      if put then bind_out (send_put (From w) f s) (λ s, Stepped (end_call w s))
      else if ctx_done s then Stepped (end_call w s) else Blocked
  end.

Definition frame_read (s : csession) : outcome csession :=
  match rs_server s with
  | SvRunning => Stepped (set_server SvRunning (rs_now s) s)
  | _ => Blocked
  end.

Definition server_end (e : option server_error) (s : csession) : outcome csession :=
  match rs_server s with SvRunning => Stepped (set_server (SvDone e) (rs_lastRecv s) s) | _ => Blocked end.

Definition cstep (ev : cevent) (s : csession) : outcome csession :=
  match ev with
  | CMain first => main_step first s
  | CTake => take_step s
  | CWrote werr => wrote_step werr s
  | CPingTick => ping_tick s
  | CWatchTick => watch_tick s
  | CHeartDone => heart_done s
  | CPing put => ping_step put s
  | CFrame => frame_read s
  | CServerEnd e => server_end e s
  | CCall w f => call_step w f s
  | CSend w put => send_step w put s
  | CClone => if rs_sendFn s then Stepped (close_conn s) else Blocked
  | COuter => Stepped (set_flags true (rs_cancelled s) (rs_closed s) (rs_sendFn s) s)
  | CTime t => if rs_now s <=? t then Stepped (set_now t s) else Blocked
  end.

(** A schedule; a blocked event is skipped, a panic ends it. *)
Fixpoint crun (evs : list cevent) (s : csession) : outcome csession :=
  match evs with
  | [] => Stepped s
  | ev :: evs' =>
      match cstep ev s with
      | Stepped s' => crun evs' s'
      | Blocked => crun evs' s
      | Panicked => Panicked
      end
  end.

Lemma crun_inv (P : csession → Prop) evs s s' :
  (∀ ev s s', P s → cstep ev s = Stepped s' → P s') → P s → crun evs s = Stepped s' → P s'.
Proof.
  intros Hstep. revert s. induction evs as [|ev evs IH]; intros s HP; cbn [crun]; [by intros [= <-]|].
  destruct (cstep ev s) as [| |s1] eqn:E; [by apply IH|done|]. apply IH. by eapply Hstep.
Qed.

Lemma crun_app evs1 evs2 s s1 : crun evs1 s = Stepped s1 → crun (evs1 ++ evs2) s = crun evs2 s1.
Proof.
  revert s. induction evs1 as [|ev evs1 IH]; intros s; cbn [crun app]; [by intros [= ->]|].
  destruct (cstep ev s) as [| |s']; [apply IH|done|apply IH].
Qed.

Lemma send_put_stepped src f s s' :
  send_put src f s = Stepped s' →
  ch_closed (rs_out s) = false ∧ s' = set_out (mkChan (ch_buf (rs_out s) ++ [f]) (ch_cap (rs_out s)) false) (rs_log s ++ [(src, f)]) s.
Proof. unfold send_put. destruct (ch_closed (rs_out s)); [done|]. destruct (_ <? _)%nat; [|done]. by intros [= <-]. Qed.

Lemma send_put_panics src f s : send_put src f s = Panicked → ch_closed (rs_out s) = true.
Proof. unfold send_put. destruct (ch_closed (rs_out s)); [done|]. by destruct (_ <? _)%nat. Qed.

Lemma bind_out_stepped {A} (o : outcome A) g b : bind_out o g = Stepped b → ∃ a, o = Stepped a ∧ g a = Stepped b.
Proof. destruct o as [| |a]; try done. by exists a. Qed.

(** What a step leaves alone: the clock and the contexts only go forward, and the
    program point is the main goroutine's. *)
Record frame (s s' : csession) : Prop := {
  fr_now : rs_now s <= rs_now s';
  fr_ctx : rs_ctx s = true → rs_ctx s' = true;
  fr_cancelled : rs_cancelled s = true → rs_cancelled s' = true
}.

Lemma frame_same s s' : rs_now s' = rs_now s → rs_ctx s' = rs_ctx s → rs_cancelled s' = rs_cancelled s → frame s s'.
Proof. intros H1 H2 H3. split; [lia|congruence|congruence]. Qed.

Lemma put_frame src f s s' : send_put src f s = Stepped s' → frame s s' ∧ rs_pc s' = rs_pc s.
Proof. intros [_ ->]%send_put_stepped. split; [by apply frame_same|done]. Qed.

Lemma main_frame first s s' : main_step first s = Stepped s' → frame s s'.
Proof.
  intros E. unfold main_step in E. destruct (rs_pc s); try discriminate E; try (injection E as <-; by apply frame_same); try (injection E as <-; split; cbn; (done || lia)).
  - destruct first; [|destruct (ctx_done s); [|discriminate E]; injection E as <-; by apply frame_same].
    apply bind_out_stepped in E as (s1 & E & [= <-]). by apply put_frame in E as [[F1 F2 F3] _].
  - destruct first; [destruct (rs_server s)|destruct (rs_ctx s)]; try discriminate E; injection E as <-; by apply frame_same.
  - destruct (rs_heart s); try discriminate E. injection E as <-. by apply frame_same.
  - destruct (close_chan (rs_out s)); [|discriminate E]. injection E as <-. by apply frame_same.
  - destruct (rs_writer s); try discriminate E; injection E as <-; by apply frame_same.
Qed.

Lemma side_frame ev s s' : (∀ first, ev ≠ CMain first) → cstep ev s = Stepped s' → frame s s' ∧ rs_pc s' = rs_pc s.
Proof.
  intros Hev E. assert (∀ q, rs_now q = rs_now s → rs_ctx q = rs_ctx s → rs_cancelled q = rs_cancelled s → rs_pc q = rs_pc s → frame s q ∧ rs_pc q = rs_pc s) as Hs
    by (intros q H1 H2 H3 H4; split; [by apply frame_same|done]).
  destruct ev as [first| |werr| | | |put| |e|w f|w put| | |t]; cbn [cstep] in E; [by destruct (Hev first)|..].
  - unfold take_step in E. destruct (rs_writer s); try discriminate E. destruct (recv (rs_out s)) as [[] ?]; try discriminate E; injection E as <-; by apply Hs.
  - unfold wrote_step in E. destruct (rs_writer s); try discriminate E. destruct (_ <? _); [|destruct werr; [|destruct (rs_closed s)]]; injection E as <-; by apply Hs.
  - unfold ping_tick in E. destruct (rs_heart s); try discriminate E. injection E as <-. destruct (_ <? _); by apply Hs.
  - unfold watch_tick in E. destruct (rs_heart s); try discriminate E. injection E as <-. destruct (_ <? _); by apply Hs.
  - unfold heart_done in E. destruct (rs_heart s); try discriminate E. destruct (ctx_done s); [|discriminate E]. injection E as <-. by apply Hs.
  - unfold ping_step in E. destruct (rs_heart s); try discriminate E. destruct put; [|destruct (ctx_done s); [|discriminate E]; injection E as <-; by apply Hs].
    apply bind_out_stepped in E as (s1 & [_ ->]%send_put_stepped & [= <-]). by apply Hs.
  - unfold frame_read in E. destruct (rs_server s); try discriminate E. injection E as <-. by apply Hs.
  - unfold server_end in E. destruct (rs_server s); try discriminate E. injection E as <-. by apply Hs.
  - unfold call_step in E. destruct (rs_sendFn s); [|discriminate E]. destruct (call_of w s); [discriminate E|]. injection E as <-. by apply Hs.
  - unfold send_step in E. destruct (call_of w s); [|discriminate E]. destruct put; [|destruct (ctx_done s); [|discriminate E]; injection E as <-; by apply Hs].
    apply bind_out_stepped in E as (s1 & [_ ->]%send_put_stepped & [= <-]). by apply Hs.
  - destruct (rs_sendFn s); [|discriminate E]. injection E as <-. by apply Hs.
  - injection E as <-. split; [split; cbn; (done || lia)|done].
  - destruct (Z.leb_spec (rs_now s) t); [|discriminate E]. injection E as <-. split; [by split; cbn|done].
Qed.

Lemma cstep_frame ev s s' : cstep ev s = Stepped s' → frame s s'.
Proof. destruct ev eqn:Ev; try (intros E; eapply side_frame; [|exact E]; done). apply main_frame. Qed.

Lemma done_step ev s s' : cstep ev s = Stepped s' → ctx_done s = true → ctx_done s' = true.
Proof. intros [_ H1 H2]%cstep_frame. unfold ctx_done. intros [H|H]%orb_true_iff; apply orb_true_iff; auto. Qed.

Lemma ctx_done_step ev s s' : cstep ev s = Stepped s' → ctx_done s' = false → ctx_done s = false.
Proof. intros E Hn. apply not_true_iff_false. intros Hd. apply (done_step _ _ _ E) in Hd. congruence. Qed.

(** ** What goes out, in order *)

Definition cw_lost (w : cwriter) : list wframe := match w with CwWriting f | CwFailed f _ => [f] | _ => [] end.

(** Every frame accepted so far: written, being written or lost, still queued. *)
Definition cflow (s : csession) : list wframe := rs_wire s ++ cw_lost (rs_writer s) ++ ch_buf (rs_out s).

Definition by_source (src : source) (l : list (source * wframe)) : list wframe := (filter (λ x, x.1 = src) l).*2.
Definition by_who (w : who) (l : list (who * wframe)) : list wframe := (filter (λ x, x.1 = w) l).*2.

(** The program points before the hello is in the queue. *)
Definition before_hello (x : cpc) : Prop := match x with MSetSend | MHello => True | _ => False end.

(** The points at which the queue is closed; an attempt that gave up before its
    hello never closes it. *)
Definition out_closed (x : cpc) : bool :=
  match x with MJoinWriter _ | MClearSend None | MClearSend (Some (SeServer _)) | MReturned None | MReturned (Some (SeServer _)) => true | _ => false end.

Definition heart_started (x : cpc) : Prop := match x with MSetSend | MHello | MStart => False | MClearSend (Some SeBeforeHello) | MReturned (Some SeBeforeHello) => False | _ => True end.

(** [r] is not the value of the early return. *)
Definition proper (x : cpc) : Prop :=
  match x with
  | MCancel r | MCloseConn r | MJoinHeart r | MCloseOut r | MJoinWriter r => r ≠ Some SeBeforeHello
  | _ => True
  end.

Record cs_inv (s : csession) : Prop := {
  ci_flow : cflow s = (rs_log s).*2;
  ci_calls : NoDup (rs_calls s).*1;
  ci_proper : proper (rs_pc s);
  ci_closed : ch_closed (rs_out s) = out_closed (rs_pc s);
  ci_cap : ch_cap (rs_out s) = 256%nat;
  ci_heart : match rs_pc s with MCloseOut _ | MJoinWriter _ => rs_heart s = HDone | _ => out_closed (rs_pc s) = true → rs_heart s = HDone end;
  ci_none : ¬ heart_started (rs_pc s) → rs_heart s = HNone;
  ci_started : heart_started (rs_pc s) → rs_heart s ≠ HNone;
  ci_sendFn : rs_sendFn s = match rs_pc s with MSetSend | MReturned _ => false | _ => true end;
  ci_done : match rs_pc s with MCloseConn _ | MJoinHeart _ | MCloseOut _ | MJoinWriter _ => rs_cancelled s = true | _ => True end;
  ci_conn : match rs_pc s with MJoinHeart _ | MCloseOut _ | MJoinWriter _ => rs_closed s = true | _ => True end;
  ci_server : match rs_pc s with MWait => rs_server s ≠ SvNone | _ => True end
}.

Lemma new_session_inv now : cs_inv (new_session now).
Proof. split; try done. constructor. Qed.

Lemma call_of_None w s : call_of w s = None ↔ w ∉ (rs_calls s).*1.
Proof.
  unfold call_of. induction (rs_calls s) as [|[v f] l IH]; [cbn; split; [intros _; apply not_elem_of_nil|done]|].
  cbn [List.find fst]. rewrite fmap_cons. cbn [fst]. case_bool_decide as Hv; cbn; [subst v; split; [done|set_solver]|].
  rewrite IH. set_solver.
Qed.

Lemma flow_put src f s s' : send_put src f s = Stepped s' → cflow s = (rs_log s).*2 → cflow s' = (rs_log s').*2.
Proof. intros [_ ->]%send_put_stepped. unfold cflow. cbn. rewrite fmap_app. intros <-. cbn. by rewrite !app_assoc. Qed.

(** A step of the main goroutine. *)
Lemma cs_inv_main first s s' : main_step first s = Stepped s' → cs_inv s → cs_inv s'.
Proof.
  intros E [H1 H2 H3 H4 H5 H6 H7 H7' H8 H9 H10 H11]. unfold main_step in E. destruct (rs_pc s) as [| | | |r|r|r|r|r|r|r] eqn:Epc; cbn in *.
  - injection E as <-. by split; cbn.
  - destruct first.
    + apply bind_out_stepped in E as (s1 & E & [= <-]). pose proof (flow_put _ _ _ _ E H1) as Hf. apply send_put_stepped in E as [_ ->].
      by split; cbn.
    + destruct (ctx_done s); [|discriminate E]. injection E as <-. by split; cbn.
  - injection E as <-. by split; cbn.
  - destruct first.
    + destruct (rs_server s) as [| |e]; try discriminate E. injection E as <-. split; cbn; try done. by destruct e.
    + destruct (rs_ctx s); [|discriminate E]. injection E as <-. by split; cbn.
  - injection E as <-. by split; cbn.
  - injection E as <-. by split; cbn.
  - destruct (rs_heart s) eqn:Eh; try discriminate E. injection E as <-. split; cbn; rewrite ?Eh; done.
  - unfold close_chan in E. rewrite H4 in E. injection E as <-. by split; cbn.
  - assert (out_closed (MClearSend r) = true) as Ho by (destruct r as [[]|]; done).
    destruct (rs_writer s) eqn:Ew; try discriminate E; injection E as <-; (split; cbn in *; rewrite ?Ho; try done; [intros Hn; destruct r as [[]|]; by destruct Hn|intros _; by apply H7']).
  - injection E as <-. split; cbn in *; try done. all: destruct r as [[]|]; done.
  - discriminate E.
Qed.

Lemma cs_inv_close s : cs_inv s → cs_inv (close_conn s).
Proof. intros [H1 H2 H3 H4 H5 H6 H7 H7' H8 H9 H10 H11]. split; cbn; try done. by destruct (rs_pc s). Qed.

(** A frame goes into the queue. *)
Lemma cs_inv_put src f s s' : send_put src f s = Stepped s' → cs_inv s → cs_inv s'.
Proof.
  intros E [H1 H2 H3 H4 H5 H6 H7 H7' H8 H9 H10 H11]. pose proof (flow_put _ _ _ _ E H1) as Hf. apply send_put_stepped in E as [Ec ->].
  split; cbn in *; try done. by rewrite H4 in Ec.
Qed.

(** The heartbeat runs: it may wait, or end. *)
Lemma cs_inv_heart h s : cs_inv s → rs_heart s = HSelect ∨ rs_heart s = HSending → h ≠ HNone → cs_inv (set_heart h s).
Proof.
  intros [H1 H2 H3 H4 H5 H6 H7 H7' H8 H9 H10 H11] Eh Hh.
  assert (heart_started (rs_pc s)) as Hs.
  { destruct (rs_pc s) as [| | | |r|r|r|r|r|r|r]; try done; try (rewrite H7 in Eh by (intros []); by destruct Eh);
      destruct r as [[]|]; try done; rewrite H7 in Eh by (intros []); by destruct Eh. }
  split; cbn; try done. destruct (rs_pc s); try done; try (rewrite H6 in Eh; by destruct Eh); intros Ho; rewrite H6 in Eh by done; by destruct Eh.
Qed.

Lemma cs_inv_step ev s s' : cs_inv s → cstep ev s = Stepped s' → cs_inv s'.
Proof.
  intros H E. pose proof H as [H1 H2 H3 H4 H5 H6 H7 H7' H8 H9 H10 H11].
  destruct ev as [first| |werr| | | |put| |e|w f|w put| | |t]; cbn [cstep] in E.
  - by eapply cs_inv_main.
  - unfold take_step in E. destruct (rs_writer s) eqn:Ew; try discriminate E. unfold recv in E.
    unfold cflow in H1. rewrite Ew in H1. destruct (ch_buf (rs_out s)) as [|f b] eqn:Eb.
    + destruct (ch_closed (rs_out s)) eqn:Ec; [|discriminate E]. injection E as <-. split; cbn; try done; [unfold cflow; cbn; by rewrite Eb|congruence].
    + injection E as <-. split; cbn; try done.
  - unfold wrote_step in E. destruct (rs_writer s) as [|f| |] eqn:Ew; try discriminate E. unfold cflow in H1. rewrite Ew in H1.
    destruct (MaxPayload <? _); [injection E as <-; split; cbn; done|]. destruct werr; [injection E as <-; split; cbn; done|].
    destruct (rs_closed s) eqn:Ec; injection E as <-; split; cbn; rewrite ?Ec; try done. unfold cflow. cbn. rewrite <- H1. cbn. by rewrite <- app_assoc.
  - unfold ping_tick in E. destruct (rs_heart s) eqn:Eh; try discriminate E. injection E as <-. destruct (_ <? _); [|done]. apply cs_inv_heart; [done|by left|done].
  - unfold watch_tick in E. destruct (rs_heart s) eqn:Eh; try discriminate E. injection E as <-.
    destruct (_ <? _); [|done]. apply cs_inv_heart; [by apply cs_inv_close|by left|done].
  - unfold heart_done in E. destruct (rs_heart s) eqn:Eh; try discriminate E. destruct (ctx_done s); [|discriminate E]. injection E as <-.
    apply cs_inv_heart; [done|by left|done].
  - unfold ping_step in E. destruct (rs_heart s) eqn:Eh; try discriminate E.
    destruct put.
    + apply bind_out_stepped in E as (s1 & E & [= <-]). pose proof (cs_inv_put _ _ _ _ E H) as Hi. apply send_put_stepped in E as [Ec ->].
      apply cs_inv_heart; [done|by right|done].
    + destruct (ctx_done s); [|discriminate E]. injection E as <-. apply cs_inv_heart; [done|by right|done].
  - unfold frame_read in E. destruct (rs_server s) eqn:Es; try discriminate E. injection E as <-. by split; cbn.
  - unfold server_end in E. destruct (rs_server s) eqn:Es; try discriminate E. injection E as <-. split; cbn; try done. by destruct (rs_pc s).
  - unfold call_step in E. destruct (rs_sendFn s) eqn:Ef; [|discriminate E]. destruct (call_of w s) eqn:Ecall; [discriminate E|]. injection E as <-.
    split; cbn; rewrite ?Ef; try done. rewrite fmap_app. apply NoDup_app. apply call_of_None in Ecall. split; [done|]. split; [|apply NoDup_singleton].
    intros v Hv Hin. apply list_elem_of_singleton in Hin as ->. done.
  - unfold send_step in E. destruct (call_of w s) as [f|]; [|discriminate E].
    assert (NoDup (filter (λ x, x.1 ≠ w) (rs_calls s)).*1) as Hnd by (eapply sublist_NoDup; [exact H2|]; apply fmap_sublist, sublist_filter).
    destruct put.
    + apply bind_out_stepped in E as (s1 & E & [= <-]). pose proof (cs_inv_put _ _ _ _ E H) as [G1 G2 G3 G4 G5 G6 G7 G7' G8 G9 G10 G11].
      apply send_put_stepped in E as [Ec ->]. by split; cbn in *.
    + destruct (ctx_done s); [|discriminate E]. injection E as <-. by split; cbn.
  - destruct (rs_sendFn s) eqn:Ef; [|discriminate E]. injection E as <-. by apply cs_inv_close.
  - injection E as <-. by split; cbn.
  - destruct (rs_now s <=? t); [|discriminate E]. injection E as <-. by split; cbn.
Qed.

Lemma crun_cs_inv now evs s : crun evs (new_session now) = Stepped s → cs_inv s.
Proof. apply (crun_inv cs_inv); [|apply new_session_inv]. intros ev s1 s2 H. by apply cs_inv_step. Qed.

(** ** Panics *)

Lemma cstep_panics ev s :
  cs_inv s → cstep ev s = Panicked → ∃ w f, ev = CSend w true ∧ call_of w s = Some f ∧ out_closed (rs_pc s) = true.
Proof.
  intros [H1 H2 H3 H4 H5 H6 H7 H7' H8 H9 H10 H11] E.
  assert (∀ src f (g : csession → csession), bind_out (send_put src f s) (λ s, Stepped (g s)) = Panicked → out_closed (rs_pc s) = true) as Hp.
  { intros src f g Hb. rewrite <- H4. destruct (send_put src f s) eqn:Es; try discriminate Hb. by apply send_put_panics in Es. }
  destruct ev as [first| |werr| | | |put| |e|w f|w put| | |t]; cbn [cstep] in E.
  - unfold main_step in E. destruct (rs_pc s) as [| | | |r|r|r|r|r|r|r] eqn:Epc; try discriminate E.
    + destruct first; [|by destruct (ctx_done s)]. by apply Hp in E.
    + destruct first; [by destruct (rs_server s)|by destruct (rs_ctx s)].
    + by destruct (rs_heart s).
    + unfold close_chan in E. rewrite H4 in E. discriminate E.
    + by destruct (rs_writer s).
  - unfold take_step in E. destruct (rs_writer s); try discriminate E. by destruct (recv (rs_out s)) as [[] ?].
  - unfold wrote_step in E. destruct (rs_writer s); try discriminate E. destruct (_ <? _); [discriminate E|]. destruct werr; [discriminate E|]. by destruct (rs_closed s).
  - unfold ping_tick in E. by destruct (rs_heart s).
  - unfold watch_tick in E. by destruct (rs_heart s).
  - unfold heart_done in E. destruct (rs_heart s); try discriminate E. by destruct (ctx_done s).
  - unfold ping_step in E. destruct (rs_heart s) eqn:Eh; try discriminate E. destruct put; [|by destruct (ctx_done s)].
    apply Hp in E. destruct (rs_pc s); try discriminate E; try (discriminate H6); discriminate (H6 E).
  - unfold frame_read in E. by destruct (rs_server s).
  - unfold server_end in E. by destruct (rs_server s).
  - unfold call_step in E. destruct (rs_sendFn s); [|discriminate E]. by destruct (call_of w s).
  - unfold send_step in E. destruct (call_of w s) as [f|] eqn:Ec; [|discriminate E]. destruct put; [|by destruct (ctx_done s)].
    exists w, f. split; [done|]. split; [done|]. by apply Hp in E.
  - by destruct (rs_sendFn s).
  - discriminate E.
  - by destruct (rs_now s <=? t).
Qed.

(** ** The end of a session *)

(** Steps of the session's own goroutines, with nothing from the user, the network
    or the server: [CWrote None] is a [WriteFrame] that the network lets through,
    or that fails because the connection was closed here. *)
Definition inner (ev : cevent) : bool := match ev with CMain _ | CTake | CWrote None | CHeartDone | CPing false => true | _ => false end.

Definition ends (n : nat) (r : option session_error) (s : csession) : Prop :=
  ∃ evs s', (length evs <= n)%nat ∧ Forall inner evs ∧ crun evs s = Stepped s' ∧ rs_pc s' = MReturned r.

Lemma ends_step ev n r s s1 : inner ev → cstep ev s = Stepped s1 → ends n r s1 → ends (S n) r s.
Proof.
  intros Hi E (evs & s' & Hl & Hf & Hr & Hp). exists (ev :: evs), s'. cbn [length crun]. rewrite E.
  split; [lia|]. split; [by constructor|done].
Qed.

Lemma ends_more n m r s : ends n r s → (n <= m)%nat → ends m r s.
Proof. intros (evs & s' & Hl & H) Hm. exists evs, s'. split; [lia|done]. Qed.

Lemma ends_clear r s : rs_pc s = MClearSend r → ends 1 r s.
Proof.
  intros E. exists [CMain true], (set_pc (MReturned r) (cancel_ctx (clearSend s))). split; [done|]. split; [by repeat constructor|].
  split; [|done]. cbn [crun cstep]. unfold main_step. by rewrite E.
Qed.

Lemma ends_writer r s : cs_inv s → rs_pc s = MJoinWriter r → ends 4 r s.
Proof.
  intros Hi Epc. pose proof Hi as [H1 H2 H3 H4 H5 H6 H7 H7' H8 H9 H10 H11]. rewrite Epc in H4, H10. cbn in H4.
  assert (∀ q, rs_pc q = MJoinWriter r → match rs_writer q with CwDone | CwFailed _ _ => True | _ => False end → ends 2 r q) as Hjoin.
  { intros q Eq Hw. apply (ends_step (CMain true) 1 r q (set_pc (MClearSend r) q)); [done| |by apply ends_clear].
    cbn [cstep]. unfold main_step. rewrite Eq. by destruct (rs_writer q). }
  assert (∀ q f, rs_pc q = MJoinWriter r → rs_closed q = true → rs_writer q = CwWriting f → ends 3 r q) as Hwrite.
  { intros q f Eq Ec Ew. assert (∃ e, cstep (CWrote None) q = Stepped (set_writer (rs_out q) (CwFailed f e) (rs_wire q) (rs_lastSent q) q)) as [e E].
    { cbn [cstep]. unfold wrote_step. rewrite Ew, Ec. destruct (_ <? _); by eexists. }
    by apply (ends_step (CWrote None) 2 r q _ I E), Hjoin. }
  destruct (rs_writer s) as [|f|f e|] eqn:Ew.
  - destruct (ch_buf (rs_out s)) as [|f b] eqn:Eb.
    + apply (ends_step CTake 3 r s (set_writer (rs_out s) CwDone (rs_wire s) (rs_lastSent s) s)); [done| |by eapply ends_more; [apply Hjoin|lia]].
      cbn [cstep]. unfold take_step, recv. by rewrite Ew, Eb, H4.
    + apply (ends_step CTake 3 r s (set_writer (mkChan b (ch_cap (rs_out s)) (ch_closed (rs_out s))) (CwWriting f) (rs_wire s) (rs_lastSent s) s)); [done| |by apply (Hwrite _ f)].
      cbn [cstep]. unfold take_step, recv. by rewrite Ew, Eb.
  - eapply ends_more; [by apply (Hwrite s f)|lia].
  - eapply ends_more; [apply Hjoin; by rewrite ?Ew|lia].
  - eapply ends_more; [apply Hjoin; by rewrite ?Ew|lia].
Qed.

Lemma ends_heart r s : cs_inv s → rs_pc s = MJoinHeart r → ends 8 r s.
Proof.
  intros Hi Epc. pose proof Hi as [H1 H2 H3 H4 H5 H6 H7 H7' H8 H9 H10 H11]. rewrite Epc in H9. 
  assert (∀ q, cs_inv q → rs_pc q = MJoinHeart r → rs_heart q = HDone → ends 6 r q) as Hdone.
  { intros q Hq Eq Eh. assert (cstep (CMain true) q = Stepped (set_pc (MCloseOut r) q)) as E1 by (cbn [cstep]; unfold main_step; by rewrite Eq, Eh).
    refine (ends_step _ _ _ _ _ _ E1 _); [done|]. pose proof (cs_inv_step _ _ _ Hq E1) as Hq1.
    assert (cstep (CMain true) (set_pc (MCloseOut r) q) = Stepped (set_pc (MJoinWriter r)
      (set_out (mkChan (ch_buf (rs_out q)) (ch_cap (rs_out q)) true) (rs_log q) (set_pc (MCloseOut r) q)))) as E2.
    { cbn [cstep]. unfold main_step, close_chan. cbn [rs_pc set_pc]. by rewrite (ci_closed _ Hq1). }
    refine (ends_step _ _ _ _ _ _ E2 _); [done|]. apply ends_writer; [by eapply cs_inv_step|done]. }
  assert (∀ q, cs_inv q → rs_pc q = MJoinHeart r → rs_heart q = HSelect → ends 7 r q) as Hsel.
  { intros q Hq Eq Eh. pose proof (ci_done _ Hq) as Hd. rewrite Eq in Hd.
    assert (cstep CHeartDone q = Stepped (set_heart HDone q)) as E by (cbn [cstep]; unfold heart_done, ctx_done; by rewrite Eh, Hd, orb_true_r).
    refine (ends_step _ _ _ _ _ _ E _); [done|]. apply Hdone; [by eapply cs_inv_step|done|done]. }
  destruct (rs_heart s) eqn:Eh.
  - exfalso. apply H7'; [by rewrite Epc|done].
  - eapply ends_more; [by apply Hsel|lia].
  - assert (cstep (CPing false) s = Stepped (set_heart HSelect s)) as E by (cbn [cstep]; unfold ping_step, ctx_done; by rewrite Eh, H9, orb_true_r).
    refine (ends_step _ _ _ _ _ _ E _); [done|]. apply Hsel; [by eapply cs_inv_step|done|done].
  - eapply ends_more; [by apply Hdone|lia].
Qed.

Lemma main_then n r s s1 : cs_inv s → cstep (CMain true) s = Stepped s1 → (cs_inv s1 → ends n r s1) → ends (S n) r s.
Proof. intros Hi E H. refine (ends_step (CMain true) _ _ _ _ _ E _); [done|]. apply H. by eapply cs_inv_step. Qed.

Lemma ends_closeout r s : cs_inv s → rs_pc s = MCloseOut r → ends 5 r s.
Proof.
  intros Hi Epc. pose proof (ci_closed s Hi) as Hc. rewrite Epc in Hc.
  apply (main_then 4 r s (set_pc (MJoinWriter r) (set_out (mkChan (ch_buf (rs_out s)) (ch_cap (rs_out s)) true) (rs_log s) s))); [done| |].
  - cbn [cstep]. unfold main_step, close_chan. by rewrite Epc, Hc.
  - intros Hi1. by apply ends_writer.
Qed.

Lemma ends_cancel r s : cs_inv s → rs_pc s = MCancel r → ends 10 r s.
Proof.
  intros Hi Epc. apply (main_then 9 r s (set_pc (MCloseConn r) (cancel_ctx s))); [done|cbn [cstep]; unfold main_step; by rewrite Epc|]. intros Hi1.
  apply (main_then 8 r _ (set_pc (MJoinHeart r) (close_conn (set_pc (MCloseConn r) (cancel_ctx s))))); [done|done|]. intros Hi2. by apply ends_heart.
Qed.

Lemma ends_closeconn r s : cs_inv s → rs_pc s = MCloseConn r → ends 9 r s.
Proof.
  intros Hi Epc. apply (main_then 8 r s (set_pc (MJoinHeart r) (close_conn s))); [done|cbn [cstep]; unfold main_step; by rewrite Epc|].
  intros Hi1. by apply ends_heart.
Qed.

Lemma ends_wait_ctx s : cs_inv s → rs_pc s = MWait → rs_ctx s = true → ends 11 None s.
Proof.
  intros Hi Epc Hc. assert (cstep (CMain false) s = Stepped (set_pc (MCancel None) s)) as E by (cbn [cstep]; unfold main_step; by rewrite Epc, Hc).
  refine (ends_step (CMain false) _ _ _ _ _ E _); [done|]. apply ends_cancel; [by eapply cs_inv_step|done].
Qed.

Lemma ends_hello s : cs_inv s → rs_pc s = MHello → rs_ctx s = true → ends 2 (Some SeBeforeHello) s.
Proof.
  intros Hi Epc Hc. assert (cstep (CMain false) s = Stepped (set_pc (MClearSend (Some SeBeforeHello)) s)) as E
    by (cbn [cstep]; unfold main_step, ctx_done; by rewrite Epc, Hc).
  refine (ends_step (CMain false) _ _ _ _ _ E _); [done|]. by apply ends_clear.
Qed.

Lemma crun_panics now evs :
  crun evs (new_session now) = Panicked → ∃ evs1 s w f, evs1 ++ [CSend w true] `prefix_of` evs ∧ crun evs1 (new_session now) = Stepped s ∧
    call_of w s = Some f ∧ ch_closed (rs_out s) = true.
Proof.
  generalize (new_session_inv now). generalize (new_session now). induction evs as [|ev evs IH]; intros q Hq; cbn [crun]; [done|].
  destruct (cstep ev q) as [| |q1] eqn:E; intros Hr.
  - destruct (IH q Hq Hr) as (e1 & s & w & f & Hp & H1 & H2). exists (ev :: e1), s, w, f. split; [by apply prefix_cons|]. cbn [crun]. by rewrite E.
  - destruct (cstep_panics ev q Hq E) as (w & f & -> & Hc & Ho). exists [], q, w, f. split; [apply prefix_cons, prefix_nil|].
    split; [done|]. by rewrite (ci_closed q Hq).
  - destruct (IH q1 (cs_inv_step _ _ _ Hq E) Hr) as (e1 & s & w & f & Hp & H1 & H2). exists (ev :: e1), s, w, f.
    split; [by apply prefix_cons|]. cbn [crun]. by rewrite E.
Qed.

(** C7: A connection can always be given up.  Whatever state [runSession] has
    reached, the queue full, the writer stuck in a write, the heartbeat waiting to
    send, keys on their way: once the server's side has ended, or the user has
    detached, at most twelve steps of its own goroutines, with nothing from the
    network, the server or the user, take it to its return: with the error of the
    server's side if that has ended, with none if the user detached once the hello
    was queued, with [ctx cancelled before Hello] if before; and no step of a
    goroutine of its own panics on the way.  The only panic is a key or a window
    change sent on the closed queue. *)
Theorem session_ends now evs :
  match crun evs (new_session now) with
  | Stepped s =>
      match rs_pc s with
      | MSetSend | MHello => rs_ctx s = true → ends 12 (Some SeBeforeHello) s
      | MStart => rs_ctx s = true → ends 12 None s
      | MWait => (rs_ctx s = true → ends 12 None s) ∧ ∀ e, rs_server s = SvDone e → ends 12 (SeServer <$> e) s
      | MCancel r | MCloseConn r | MJoinHeart r | MCloseOut r | MJoinWriter r | MClearSend r => ends 12 r s
      | MReturned _ => True
      end ∧
      ∀ ev, cstep ev s = Panicked → ∃ w f, ev = CSend w true ∧ call_of w s = Some f ∧ ch_closed (rs_out s) = true
  | Panicked => ∃ evs1 s w f, evs1 ++ [CSend w true] `prefix_of` evs ∧ crun evs1 (new_session now) = Stepped s ∧
      call_of w s = Some f ∧ ch_closed (rs_out s) = true
  | Blocked => False
  end.
Proof.
  assert (∀ ev s, cs_inv s → cstep ev s = Panicked → ∃ w f, ev = CSend w true ∧ call_of w s = Some f ∧ ch_closed (rs_out s) = true) as Hpan.
  { intros ev s Hi E. destruct (cstep_panics ev s Hi E) as (w & f & Hev & Hc & Ho). exists w, f. by rewrite (ci_closed s Hi). }
  destruct (crun evs (new_session now)) as [| |s] eqn:Hr.
  - generalize dependent (new_session now). induction evs as [|ev evs IH]; intros s; cbn [crun]; [done|]. destruct (cstep ev s); [apply IH|done|apply IH].
  - by apply crun_panics.
  - pose proof (crun_cs_inv now evs s Hr) as Hi. split; [|intros ev; by apply Hpan]. destruct (rs_pc s) as [| | | |r|r|r|r|r|r|r] eqn:Epc.
    + intros Hc. eapply ends_more; [|shelve]. eapply main_then; [done|cbn [cstep]; unfold main_step; by rewrite Epc|]. intros Hi1. by apply ends_hello.
    + intros Hc. eapply ends_more; [by apply ends_hello|lia].
    + intros Hc. eapply ends_more; [|shelve]. eapply main_then; [done|cbn [cstep]; unfold main_step; by rewrite Epc|]. intros Hi1. by apply ends_wait_ctx.
    + split; [intros Hc; eapply ends_more; [by apply ends_wait_ctx|lia]|]. intros e He.
      eapply ends_more; [eapply (main_then 10 _ s (set_pc (MCancel (SeServer <$> e)) s)); [done|cbn [cstep]; unfold main_step; by rewrite Epc, He|]|lia].
      intros Hi1. by apply ends_cancel.
    + eapply ends_more; [by apply ends_cancel|lia].
    + eapply ends_more; [by apply ends_closeconn|lia].
    + eapply ends_more; [by apply ends_heart|lia].
    + eapply ends_more; [by apply ends_closeout|lia].
    + eapply ends_more; [by apply ends_writer|lia].
    + eapply ends_more; [by apply ends_clear|lia].
    + done.
  Unshelve. all: lia.
Qed.

(** ** Whose frames, and in which order *)

(** What each source may put in, and that nobody's call is lost, repeated or
    overtaken by a later one of its own while the session lasts. *)
Definition from_its_source (x : source * wframe) (called : list (who * wframe)) : Prop :=
  match x.1 with FromMain => x.2 = (MsgHello, hello) | FromHeart => x.2 = (MsgPing, []) | From w => (w, x.2) ∈ called end.

Record log_inv (s : csession) : Prop := {
  li_from : Forall (λ x, from_its_source x (rs_called s)) (rs_log s);
  li_pending : Forall (λ x, x ∈ rs_called s) (rs_calls s);
  li_calls : ctx_done s = false → ∀ w, by_source (From w) (rs_log s) ++ option_list (call_of w s) = by_who w (rs_called s)
}.

(** The hello goes first unless another goroutine calls [sendFn] between [setSend]
    and the hello. *)
Fixpoint hello_unhurried (evs : list cevent) (s : csession) : Prop :=
  match evs with
  | [] => True
  | ev :: evs' =>
      match ev with CCall _ _ => rs_pc s ≠ MHello | _ => True end ∧
      match cstep ev s with
      | Stepped s' => hello_unhurried evs' s'
      | Blocked => hello_unhurried evs' s
      | Panicked => True
      end
  end.

(** It returned before its hello: the session context was done already. *)
Definition gave_up (x : cpc) : Prop := match x with MClearSend (Some SeBeforeHello) | MReturned (Some SeBeforeHello) => True | _ => False end.

Definition hello_inv (s : csession) : Prop :=
  gave_up (rs_pc s) ∨
  match rs_log s with
  | [] => before_hello (rs_pc s) ∧ rs_calls s = []
  | x :: l => x = (FromMain, (MsgHello, hello)) ∧ Forall (λ y, y.1 ≠ FromMain) l ∧ ¬ before_hello (rs_pc s)
  end.

Lemma call_of_app w v f s called : call_of w s = None → call_of v (set_calls (rs_calls s ++ [(w, f)]) called s) = if bool_decide (v = w) then Some f else call_of v s.
Proof.
  unfold call_of. cbn [rs_calls set_calls]. induction (rs_calls s) as [|[u g] l IH]; cbn [List.find app fst].
  - intros _. case_bool_decide as H1; case_bool_decide as H2; try done; congruence.
  - destruct (bool_decide (u = w)) eqn:Eu; [done|]. apply bool_decide_eq_false in Eu. intros Hn. destruct (bool_decide (u = v)) eqn:Ev; [|exact (IH Hn)].
    apply bool_decide_eq_true in Ev. rewrite bool_decide_eq_false_2 by congruence. done.
Qed.

Lemma call_of_end w v s : call_of v (end_call w s) = if bool_decide (v = w) then None else call_of v s.
Proof.
  unfold call_of, end_call. cbn [rs_calls set_calls]. induction (rs_calls s) as [|[u g] l IH]; [by case_bool_decide|].
  rewrite filter_cons. cbn [fst]. destruct (decide (u ≠ w)) as [Hu|Hu]; cbn [List.find fst].
  - destruct (bool_decide (u = v)) eqn:Ev; [|exact IH]. apply bool_decide_eq_true in Ev. rewrite bool_decide_eq_false_2 by congruence. done.
  - rewrite IH. assert (u = w) as -> by (destruct (decide (u = w)); tauto). case_bool_decide as Hv; [done|]. by rewrite bool_decide_eq_false_2 by congruence.
Qed.

Lemma call_of_in w f s : call_of w s = Some f → (w, f) ∈ rs_calls s.
Proof.
  unfold call_of. destruct (List.find _ _) as [[v g]|] eqn:E; [|done]. intros [= <-]. apply List.find_some in E as [Hin Hv].
  apply bool_decide_eq_true in Hv. cbn in Hv. subst v. by apply list_elem_of_In.
Qed.

Lemma by_source_app src a b : by_source src (a ++ b) = by_source src a ++ by_source src b.
Proof. unfold by_source. by rewrite filter_app, fmap_app. Qed.

Lemma by_who_app w a b : by_who w (a ++ b) = by_who w a ++ by_who w b.
Proof. unfold by_who. by rewrite filter_app, fmap_app. Qed.

(** Steps that touch neither the log nor the calls. *)
Lemma log_inv_same s s' :
  rs_log s' = rs_log s → rs_calls s' = rs_calls s → rs_called s' = rs_called s → (ctx_done s' = false → ctx_done s = false) → log_inv s → log_inv s'.
Proof.
  intros El Ec Ed Hd [H1 H2 H3]. split; rewrite ?El, ?Ec, ?Ed; try done. intros Hn w. rewrite <- (H3 (Hd Hn) w). f_equal. unfold call_of. by rewrite Ec.
Qed.

(** A frame of the session's own goes into the queue. *)
Lemma log_inv_put src f s s' :
  send_put src f s = Stepped s' → from_its_source (src, f) (rs_called s) → (∀ w, src ≠ From w) → log_inv s → log_inv s'.
Proof.
  intros [_ ->]%send_put_stepped Hf Hs [H1 H2 H3]. split; cbn [rs_log rs_calls rs_called set_out].
  - apply Forall_app. split; [done|]. by constructor.
  - done.
  - intros Hn w. rewrite by_source_app. unfold by_source at 2. rewrite filter_cons_False by apply Hs. cbn. rewrite app_nil_r. by apply H3.
Qed.

Lemma log_inv_call w f s s' : call_step w f s = Stepped s' → log_inv s → log_inv s'.
Proof.
  unfold call_step. destruct (rs_sendFn s); [|done]. destruct (call_of w s) eqn:Ec; [done|]. intros [= <-] [H1 H2 H3].
  split; cbn [rs_log rs_calls rs_called set_calls].
  - eapply Forall_impl; [exact H1|]. intros [src g]. unfold from_its_source. cbn. destruct src; try done. intros Hin. apply elem_of_app. by left.
  - apply Forall_app. split; [|constructor; [set_solver|done]]. eapply Forall_impl; [exact H2|]. set_solver.
  - intros Hn v. rewrite call_of_app, by_who_app, <- (H3 Hn v), <- app_assoc by done. f_equal. unfold by_who.
    case_bool_decide as Hv.
    + subst v. rewrite Ec, filter_cons_True by done. done.
    + rewrite filter_cons_False by (cbn; congruence). by rewrite app_nil_r.
Qed.

Lemma log_inv_send w put s s' : send_step w put s = Stepped s' → log_inv s → log_inv s'.
Proof.
  unfold send_step. destruct (call_of w s) as [f|] eqn:Ec; [|done]. intros E [H1 H2 H3].
  assert (Forall (λ x, x ∈ rs_called s) (filter (λ x, x.1 ≠ w) (rs_calls s))) as H2'.
  { apply Forall_forall. intros x [_ Hx]%list_elem_of_filter. rewrite Forall_forall in H2. by apply H2. }
  destruct put.
  - apply bind_out_stepped in E as (s1 & [_ ->]%send_put_stepped & [= <-]). split; cbn [rs_log rs_calls rs_called set_calls end_call set_out].
    + apply Forall_app. split; [done|]. constructor; [|done]. rewrite Forall_forall in H2. apply H2. by apply call_of_in.
    + exact H2'.
    + intros Hn v. rewrite call_of_end, by_source_app, <- (H3 Hn v), <- app_assoc. f_equal. unfold by_source. case_bool_decide as Hv.
      * subst v. rewrite Ec, filter_cons_True by done. done.
      * rewrite filter_cons_False by (cbn; congruence). done.
  - destruct (ctx_done s) eqn:Ed; [|done]. injection E as <-. split; [done|exact H2'|]. intros Hn. change (ctx_done s = false) in Hn. congruence.
Qed.

Lemma log_inv_heart h s : log_inv s → log_inv (set_heart h s).
Proof. by apply log_inv_same. Qed.

Lemma log_inv_step ev s s' : log_inv s → cstep ev s = Stepped s' → log_inv s'.
Proof.
  intros H E. destruct ev as [first| |werr| | | |put| |e|w f|w put| | |t]; cbn [cstep] in E.
  - unfold main_step in E. destruct (rs_pc s) eqn:Epc;
      try (injection E as <-; revert H; apply log_inv_same; try done; unfold ctx_done; cbn; by rewrite ?orb_true_r); try discriminate E.
    + destruct first; [|destruct (ctx_done s); [|discriminate E]; injection E as <-; revert H; by apply log_inv_same].
      apply bind_out_stepped in E as (s1 & E & [= <-]). apply (log_inv_put _ _ _ _ E) in H; [|done|done]. revert H. by apply log_inv_same.
    + destruct first; [destruct (rs_server s)|destruct (rs_ctx s)]; try discriminate E; injection E as <-; revert H; by apply log_inv_same.
    + destruct (rs_heart s); try discriminate E. injection E as <-. revert H. by apply log_inv_same.
    + destruct (close_chan (rs_out s)); [|discriminate E]. injection E as <-. revert H. by apply log_inv_same.
    + destruct (rs_writer s); try discriminate E; injection E as <-; revert H; by apply log_inv_same.
  - unfold take_step in E. destruct (rs_writer s); try discriminate E. destruct (recv (rs_out s)) as [[] ?]; try discriminate E;
      injection E as <-; revert H; by apply log_inv_same.
  - unfold wrote_step in E. destruct (rs_writer s); try discriminate E. destruct (_ <? _); [|destruct werr; [|destruct (rs_closed s)]];
      injection E as <-; revert H; by apply log_inv_same.
  - unfold ping_tick in E. destruct (rs_heart s); try discriminate E. injection E as <-. by destruct (_ <? _); [apply log_inv_heart|].
  - unfold watch_tick in E. destruct (rs_heart s); try discriminate E. injection E as <-. destruct (_ <? _); [|done]. revert H. by apply log_inv_same.
  - unfold heart_done in E. destruct (rs_heart s); try discriminate E. destruct (ctx_done s); [|discriminate E]. injection E as <-. by apply log_inv_heart.
  - unfold ping_step in E. destruct (rs_heart s); try discriminate E. destruct put.
    + apply bind_out_stepped in E as (s1 & E & [= <-]). apply log_inv_heart. by apply (log_inv_put _ _ _ _ E).
    + destruct (ctx_done s); [|discriminate E]. injection E as <-. by apply log_inv_heart.
  - unfold frame_read in E. destruct (rs_server s); try discriminate E. injection E as <-. revert H. by apply log_inv_same.
  - unfold server_end in E. destruct (rs_server s); try discriminate E. injection E as <-. revert H. by apply log_inv_same.
  - by apply (log_inv_call w f s).
  - by apply (log_inv_send w put s).
  - destruct (rs_sendFn s); [|discriminate E]. injection E as <-. revert H. by apply log_inv_same.
  - injection E as <-. revert H. by apply log_inv_same.
  - destruct (rs_now s <=? t); [|discriminate E]. injection E as <-. revert H. by apply log_inv_same.
Qed.

Lemma hello_inv_same s s' :
  rs_log s' = rs_log s → rs_calls s' = rs_calls s → (before_hello (rs_pc s') ↔ before_hello (rs_pc s)) →
  (gave_up (rs_pc s) → gave_up (rs_pc s')) → hello_inv s → hello_inv s'.
Proof. unfold hello_inv. intros -> -> Hb Hg. destruct (rs_log s); tauto. Qed.

(** A frame of the heartbeat or of a call. *)
Lemma hello_inv_put src f s s' :
  send_put src f s = Stepped s' → src ≠ FromMain → (rs_log s = [] → gave_up (rs_pc s)) → hello_inv s → hello_inv s'.
Proof.
  intros [_ ->]%send_put_stepped Hs Hl [Hg|H]; [by left|]. unfold hello_inv. cbn [rs_log rs_pc rs_calls set_out].
  destruct (rs_log s) as [|x l]; [left; by apply Hl|right]. destruct H as (Hx & Hf & Hp). cbn [app].
  split; [done|]. split; [|done]. apply Forall_app. split; [done|]. by constructor.
Qed.

Lemma hello_inv_heart h s : hello_inv s → hello_inv (set_heart h s).
Proof. by apply hello_inv_same. Qed.

Lemma hello_inv_main first s s' : main_step first s = Stepped s' → hello_inv s → hello_inv s'.
Proof.
  intros E H. unfold main_step in E. destruct (rs_pc s) as [| | | |r|r|r|r|r|r|r] eqn:Epc.
  - injection E as <-. revert H. by apply hello_inv_same; cbn; rewrite ?Epc.
  - destruct first.
    + apply bind_out_stepped in E as (s1 & [_ ->]%send_put_stepped & [= <-]). unfold hello_inv in *. rewrite Epc in H. cbn [rs_log rs_pc set_pc set_out].
      right. destruct H as [[]|H]. destruct (rs_log s) as [|x l]; cbn [app]; [|by destruct H as (_ & _ & Hn); destruct (Hn I)].
      split; [done|]. split; [constructor|by intros []].
    + destruct (ctx_done s); [|discriminate E]. injection E as <-. by left.
  - injection E as <-. revert H. by apply hello_inv_same; cbn; rewrite ?Epc.
  - assert (∀ r, hello_inv (set_pc (MCancel r) s)) as Hc by (intros r; revert H; by apply hello_inv_same; cbn; rewrite ?Epc).
    destruct first; [destruct (rs_server s)|destruct (rs_ctx s)]; try discriminate E; injection E as <-; apply Hc.
  - injection E as <-. revert H. by apply hello_inv_same; cbn; rewrite ?Epc.
  - injection E as <-. revert H. by apply hello_inv_same; cbn; rewrite ?Epc.
  - destruct (rs_heart s); try discriminate E. injection E as <-. revert H. by apply hello_inv_same; cbn; rewrite ?Epc.
  - destruct (close_chan (rs_out s)); [|discriminate E]. injection E as <-. revert H. by apply hello_inv_same; cbn; rewrite ?Epc.
  - destruct (rs_writer s); try discriminate E; injection E as <-; (revert H; by apply hello_inv_same; cbn; rewrite ?Epc).
  - injection E as <-. revert H. by apply hello_inv_same; cbn; rewrite ?Epc.
  - discriminate E.
Qed.

Lemma hello_inv_step ev s s' :
  cs_inv s → match ev with CCall _ _ => rs_pc s ≠ MHello | _ => True end → cstep ev s = Stepped s' → hello_inv s → hello_inv s'.
Proof.
  intros Hi Hev E H. destruct ev as [first| |werr| | | |put| |e|w f|w put| | |t]; cbn [cstep] in E.
  - by apply (hello_inv_main first s).
  - unfold take_step in E. destruct (rs_writer s); try discriminate E. destruct (recv (rs_out s)) as [[] ?]; try discriminate E;
      injection E as <-; revert H; by apply hello_inv_same.
  - unfold wrote_step in E. destruct (rs_writer s); try discriminate E. destruct (_ <? _); [|destruct werr; [|destruct (rs_closed s)]];
      injection E as <-; revert H; by apply hello_inv_same.
  - unfold ping_tick in E. destruct (rs_heart s); try discriminate E. injection E as <-. by destruct (_ <? _); [apply hello_inv_heart|].
  - unfold watch_tick in E. destruct (rs_heart s); try discriminate E. injection E as <-. destruct (_ <? _); [|done]. revert H. by apply hello_inv_same.
  - unfold heart_done in E. destruct (rs_heart s); try discriminate E. destruct (ctx_done s); [|discriminate E]. injection E as <-. by apply hello_inv_heart.
  - unfold ping_step in E. destruct (rs_heart s) eqn:Eh; try discriminate E. destruct put.
    + apply bind_out_stepped in E as (s1 & E & [= <-]). apply hello_inv_heart. apply (hello_inv_put _ _ _ _ E); [done| |done].
      intros El. unfold hello_inv in H. rewrite El in H. destruct H as [Hg|[Hb _]]; [done|].
      rewrite (ci_none s Hi) in Eh; [done|]. destruct (rs_pc s); try done; by intros [].
    + destruct (ctx_done s); [|discriminate E]. injection E as <-. by apply hello_inv_heart.
  - unfold frame_read in E. destruct (rs_server s); try discriminate E. injection E as <-. revert H. by apply hello_inv_same.
  - unfold server_end in E. destruct (rs_server s); try discriminate E. injection E as <-. revert H. by apply hello_inv_same.
  - unfold call_step in E. destruct (rs_sendFn s) eqn:Ef; [|discriminate E]. destruct (call_of w s); [discriminate E|]. injection E as <-.
    rewrite (ci_sendFn s Hi) in Ef. unfold hello_inv in *. cbn [rs_log rs_pc rs_calls set_calls]. destruct H as [Hg|H]; [by left|right].
    destruct (rs_log s); [|done]. destruct H as [Hb _]. by destruct (rs_pc s).
  - unfold send_step in E. destruct (call_of w s) as [f|] eqn:Ec; [|discriminate E].
    assert (∀ q, hello_inv q → hello_inv (end_call w q)) as Hend.
    { intros q [Hg|Hq]; [by left|right]. cbn [rs_log rs_pc end_call set_calls rs_calls]. destruct (rs_log q); [|done]. destruct Hq as [Hb Hc]. by rewrite Hc. }
    destruct put; [|destruct (ctx_done s); [|discriminate E]; injection E as <-; by apply Hend].
    apply bind_out_stepped in E as (s1 & E & [= <-]). apply Hend. apply (hello_inv_put _ _ _ _ E); [done| |done].
    intros El. unfold hello_inv in H. rewrite El in H. destruct H as [Hg|[_ Hb]]; [done|]. apply call_of_in in Ec. rewrite Hb in Ec. by apply not_elem_of_nil in Ec.
  - destruct (rs_sendFn s); [|discriminate E]. injection E as <-. revert H. by apply hello_inv_same.
  - injection E as <-. revert H. by apply hello_inv_same.
  - destruct (rs_now s <=? t); [|discriminate E]. injection E as <-. revert H. by apply hello_inv_same.
Qed.

Lemma crun_log now evs s : crun evs (new_session now) = Stepped s → log_inv s.
Proof. apply (crun_inv log_inv); [intros ev s1 s2 H; by apply log_inv_step|]. split; [constructor|constructor|done]. Qed.

Lemma crun_hello now evs s : crun evs (new_session now) = Stepped s → hello_unhurried evs (new_session now) → hello_inv s.
Proof.
  assert (hello_inv (new_session now)) as H by by right. generalize (new_session_inv now). revert H. generalize (new_session now).
  induction evs as [|ev evs IH]; intros q Hh Hq; cbn [crun hello_unhurried]; [by intros [= <-]|].
  destruct (cstep ev q) as [| |q1] eqn:E; intros Hr [Hev Hu]; [by apply (IH q)|done|].
  apply (IH q1); [by eapply hello_inv_step|by eapply cs_inv_step|done|done].
Qed.

(** ** The heartbeat is the one of [Heartbeat] *)

(** The beats of a schedule. *)
Definition beats_of1 (ev : cevent) (s s' : csession) : list beat_event :=
  match ev with
  | CPingTick => [(rs_now s, PingTick)]
  | CWatchTick => [(rs_now s, WatchdogTick)]
  | CPing _ => [(rs_now s, RoomMade)]
  | CWrote _ => match rs_writer s' with CwIdle => [(rs_now s, FrameSent)] | _ => [] end
  | CFrame => [(rs_now s, FrameReceived)]
  | _ => []
  end.

Fixpoint beats_of (evs : list cevent) (s : csession) : list beat_event :=
  match evs with
  | [] => []
  | ev :: evs' =>
      match cstep ev s with
      | Stepped s' => beats_of1 ev s s' ++ beats_of evs' s'
      | Blocked => beats_of evs' s
      | Panicked => []
      end
  end.

Definition heart_view (s : csession) (h : heart) : Prop :=
  match hb_closed h with
  | None => hb_lastSent h = rs_lastSent s ∧ hb_lastRecv h = rs_lastRecv s ∧ hb_waits h = bool_decide (rs_heart s = HSending) ∧ rs_heart s ≠ HDone
  | Some _ => rs_heart s = HDone ∧ rs_closed s = true
  end.

Lemma heart_view_same s s' h :
  rs_lastSent s' = rs_lastSent s → rs_lastRecv s' = rs_lastRecv s → rs_heart s' = rs_heart s → (rs_closed s = true → rs_closed s' = true) →
  heart_view s h → heart_view s' h.
Proof. unfold heart_view. intros -> -> -> Hc. destruct (hb_closed h); tauto. Qed.

Lemma heart_view_step ev s s' h :
  cs_inv s → ctx_done s' = false → cstep ev s = Stepped s' → heart_view s h → heart_view s' (beats (beats_of1 ev s s') h).
Proof.
  intros Hi Hn E H. pose proof (ctx_done_step _ _ _ E Hn) as Hd. destruct ev as [first| |werr| | | |put| |e|w f|w put| | |t]; cbn [cstep beats_of1 beats foldl] in *.
  - unfold main_step in E. destruct (rs_pc s) eqn:Epc; try (injection E as <-; revert H; by apply heart_view_same); try discriminate E.
    + destruct first; [|by rewrite Hd in E]. apply bind_out_stepped in E as (s1 & [_ ->]%send_put_stepped & [= <-]). revert H. by apply heart_view_same.
    + injection E as <-. assert (rs_heart s = HNone) as En by (apply (ci_none s Hi); rewrite Epc; by intros []).
      unfold heart_view in *. rewrite En in H. destruct (hb_closed h); [by destruct H|].
      destruct H as (H1 & H2 & H3 & _). cbn. rewrite H3. done.
    + destruct first; [destruct (rs_server s)|destruct (rs_ctx s)]; try discriminate E; injection E as <-; revert H; by apply heart_view_same.
    + destruct (rs_heart s); try discriminate E. injection E as <-. revert H. by apply heart_view_same.
    + destruct (close_chan (rs_out s)); [|discriminate E]. injection E as <-. revert H. by apply heart_view_same.
    + destruct (rs_writer s); try discriminate E; injection E as <-; revert H; by apply heart_view_same.
  - unfold take_step in E. destruct (rs_writer s); try discriminate E. destruct (recv (rs_out s)) as [[] ?]; try discriminate E;
      injection E as <-; revert H; by apply heart_view_same.
  - unfold wrote_step in E. destruct (rs_writer s); try discriminate E. destruct (_ <? _); [|destruct werr; [|destruct (rs_closed s) eqn:Ec]];
      injection E as <-; cbn [rs_writer set_writer beats foldl]; try (revert H; by apply heart_view_same).
    unfold heart_view in *. cbn [foldl beat_step]. destruct (hb_closed h) eqn:Eh; [by rewrite Eh|]. cbn. tauto.
  - unfold ping_tick in E. destruct (rs_heart s) eqn:Eh; try discriminate E. injection E as <-. unfold heart_view in *. cbn [foldl beat_step].
    destruct (hb_closed h) eqn:Ec; [by destruct H; congruence|]. destruct H as (H1 & H2 & H3 & H4). rewrite H3, bool_decide_eq_false_2, H1 by congruence.
    destruct (_ <? _); cbn; [done|]. rewrite Ec, Eh, bool_decide_eq_false_2 in * by done. done.
  - unfold watch_tick in E. destruct (rs_heart s) eqn:Eh; try discriminate E. injection E as <-. unfold heart_view in *. cbn [foldl beat_step].
    destruct (hb_closed h) eqn:Ec; [by destruct H; congruence|]. destruct H as (H1 & H2 & H3 & H4). rewrite H3, bool_decide_eq_false_2, H2 by congruence.
    destruct (_ <? _); cbn; [done|]. rewrite Ec, Eh, bool_decide_eq_false_2 in * by done. done.
  - unfold heart_done in E. destruct (rs_heart s); try discriminate E. by rewrite Hd in E.
  - unfold ping_step in E. destruct (rs_heart s) eqn:Eh; try discriminate E. destruct put; [|by rewrite Hd in E].
    apply bind_out_stepped in E as (s1 & [_ ->]%send_put_stepped & [= <-]). unfold heart_view in *. cbn [foldl beat_step].
    destruct (hb_closed h) eqn:Ec; [by destruct H; congruence|]. destruct H as (H1 & H2 & _ & _). done.
  - unfold frame_read in E. destruct (rs_server s); try discriminate E. injection E as <-. unfold heart_view in *. cbn [foldl beat_step].
    destruct (hb_closed h) eqn:Eh; [by rewrite Eh|]. cbn. tauto.
  - unfold server_end in E. destruct (rs_server s); try discriminate E. injection E as <-. revert H. by apply heart_view_same.
  - unfold call_step in E. destruct (rs_sendFn s); [|discriminate E]. destruct (call_of w s); [discriminate E|]. injection E as <-. revert H. by apply heart_view_same.
  - unfold send_step in E. destruct (call_of w s); [|discriminate E]. destruct put; [|by rewrite Hd in E].
    apply bind_out_stepped in E as (s1 & [_ ->]%send_put_stepped & [= <-]). revert H. by apply heart_view_same.
  - destruct (rs_sendFn s); [|discriminate E]. injection E as <-. revert H. by apply heart_view_same.
  - injection E as <-. discriminate Hn.
  - destruct (rs_now s <=? t); [|discriminate E]. injection E as <-. revert H. by apply heart_view_same.
Qed.

Lemma in_order_app t t' l l' : in_order t l → Forall (λ e, e.1 <= t') l → t <= t' → in_order t' l' → in_order t (l ++ l').
Proof.
  revert t. induction l as [|[n b] l IH]; intros t Ho Hf Ht Hl; cbn [app].
  - destruct l' as [|[n b] l']; [done|]. destruct Hl as [H1 H2]. split; [lia|done].
  - destruct Ho as [H1 H2]. apply Forall_cons in Hf as [Hn Hf]. split; [done|]. by apply IH.
Qed.

Lemma beats_of1_now ev s s' : in_order (rs_now s) (beats_of1 ev s s') ∧ Forall (λ e, e.1 <= rs_now s) (beats_of1 ev s s').
Proof.
  assert (∀ b, in_order (rs_now s) [(rs_now s, b)] ∧ Forall (λ e, e.1 <= rs_now s) [(rs_now s, b)]) as Hb by (intros b; split; [split; [cbn; lia|done]|repeat constructor]; cbn; lia).
  assert (in_order (rs_now s) [] ∧ Forall (λ e : beat_event, e.1 <= rs_now s) []) as Hn by (split; [done|constructor]).
  destruct ev; cbn [beats_of1]; try apply Hb; try apply Hn. destruct (rs_writer s'); first [apply Hb|apply Hn].
Qed.

Lemma beats_of_order evs s : in_order (rs_now s) (beats_of evs s).
Proof.
  revert s. induction evs as [|ev evs IH]; intros s; cbn [beats_of]; [done|]. destruct (cstep ev s) as [| |s'] eqn:E; [apply IH|done|].
  pose proof (fr_now _ _ (cstep_frame _ _ _ E)) as Hn. destruct (beats_of1_now ev s s') as [H1 H2].
  apply (in_order_app _ (rs_now s')); [done| |done|apply IH]. eapply Forall_impl; [exact H2|]. cbn. intros x. lia.
Qed.

(** It gives up only when the session context is done. *)
Lemma gave_up_done now evs s : crun evs (new_session now) = Stepped s → gave_up (rs_pc s) → ctx_done s = true.
Proof.
  intros Hr. assert (cs_inv s ∧ (gave_up (rs_pc s) → ctx_done s = true)) as [_ H]; [|exact H]. revert Hr.
  apply (crun_inv (λ s, cs_inv s ∧ (gave_up (rs_pc s) → ctx_done s = true))); [|by split; [apply new_session_inv|intros []]].
  intros ev q q' [Hi Hg] E. split; [by eapply cs_inv_step|]. intros Hg'. apply (done_step _ _ _ E). pose proof (ci_proper q Hi) as Hp.
  destruct ev eqn:Ev; try (rewrite <- Ev in E; eapply side_frame in E as [_ Ep]; [apply Hg; by rewrite <- Ep|by rewrite Ev]).
  cbn [cstep] in E. unfold main_step in E. destruct (rs_pc q) as [| | | |r|r|r|r|r|r|r] eqn:Epc; cbn in Hg; try (injection E as <-; by destruct Hg'); try discriminate E.
  - destruct first; [apply bind_out_stepped in E as (q1 & _ & [= <-]); by destruct Hg'|]. by destruct (ctx_done q).
  - destruct first; [destruct (rs_server q)|destruct (rs_ctx q)]; try discriminate E; injection E as <-; by destruct Hg'.
  - destruct (rs_heart q); try discriminate E. injection E as <-. by destruct Hg'.
  - destruct (close_chan (rs_out q)); [|discriminate E]. injection E as <-. by destruct Hg'.
  - destruct (rs_writer q); try discriminate E; injection E as <-; cbn in *; by destruct r as [[]|].
  - injection E as <-. by apply Hg.
Qed.

(** Everything sent so far, by source; the hello first. *)
Lemma session_log now evs s :
  crun evs (new_session now) = Stepped s → hello_unhurried evs (new_session now) → ctx_done s = false →
  cflow s = (rs_log s).*2 ∧ Forall (λ x, from_its_source x (rs_called s)) (rs_log s) ∧
  (rs_log s = [] ∨ ∃ l, rs_log s = (FromMain, (MsgHello, hello)) :: l) ∧
  ∀ w, by_source (From w) (rs_log s) ++ option_list (call_of w s) = by_who w (rs_called s).
Proof.
  intros Hr Hu Hn. pose proof (crun_cs_inv now evs s Hr) as Hi. pose proof (crun_log now evs s Hr) as [H1 _ H3].
  split; [apply Hi|]. split; [done|]. split; [|by apply H3].
  destruct (crun_hello now evs s Hr Hu) as [Hg|H]; [apply (gave_up_done now evs s Hr) in Hg; congruence|].
  destruct (rs_log s) as [|x l]; [by left|right]. destruct H as [-> _]. by exists l.
Qed.

(** C30: The heartbeat of a session is the one of [Heartbeat].  As long as the
    session has not been cancelled, in any schedule: its ticks, its frames written
    and read and its pings put into the queue are, in order of time, a sequence of
    [Heartbeat]'s events whose outcome is the state of the session: the same last
    times, waiting with a ping exactly when its goroutine is, and it has ended, the
    connection closed, exactly when the watchdog has closed it.  So what
    [heartbeat_bounds] says of such sequences holds of [runSession]. *)
Theorem session_heart now evs s :
  crun evs (new_session now) = Stepped s → ctx_done s = false →
  let bs := beats_of evs (new_session now) in
  in_order now bs ∧ heart_view s (beats bs (new_heart now)) ∧
  (is_Some (hb_closed (beats bs (new_heart now))) ↔ rs_heart s = HDone).
Proof.
  intros Hr Hn bs. split; [apply (beats_of_order evs (new_session now))|].
  assert (heart_view s (beats bs (new_heart now))) as Hv.
  { assert (heart_view (new_session now) (new_heart now)) as H0 by done. unfold bs. clear bs. revert Hr H0. generalize (new_session_inv now).
    generalize (new_heart now). generalize (new_session now). induction evs as [|ev evs IH]; intros q h Hq; cbn [crun beats_of]; [by intros [= <-]|].
    destruct (cstep ev q) as [| |q1] eqn:E; [by apply IH|done|]. intros Hr Hv. rewrite beats_app. apply IH; [by eapply cs_inv_step|done|].
    apply heart_view_step; [done| |done|done]. clear -Hr Hn. revert q1 Hr. induction evs as [|ev2 evs IH]; intros q1; cbn [crun]; [by intros [= ->]|].
    destruct (cstep ev2 q1) as [| |q2] eqn:E2; [apply IH|done|]. intros Hr. apply (ctx_done_step _ _ _ E2). by apply IH. }
  split; [done|]. unfold heart_view in Hv. destruct (hb_closed _); [by destruct Hv|]. split; [by intros []|]. intros H. by destruct Hv as (_ & _ & _ & Hd).
Qed.

(** ** A stalled connection *)

(** The network takes nothing, the queue is full, the heartbeat waits with a ping. *)
Definition stalled (s : csession) : Prop :=
  rs_pc s = MWait ∧ rs_heart s = HSending ∧ rs_server s = SvRunning ∧ (∃ f, rs_writer s = CwWriting f) ∧
  (ch_cap (rs_out s) <= length (ch_buf (rs_out s)))%nat ∧ ch_closed (rs_out s) = false ∧ ctx_done s = false ∧ rs_closed s = false.

(** Everything but the network, a clone from another terminal and a signal. *)
Definition no_rescue (ev : cevent) : Prop :=
  match ev with CWrote _ | CServerEnd _ | CClone | COuter => False | _ => True end.

Lemma stalled_put src f s : stalled s → send_put src f s = Blocked.
Proof.
  intros (_ & _ & _ & _ & Hl & Hc & _). unfold send_put. rewrite Hc. by destruct (Nat.ltb_spec (length (ch_buf (rs_out s))) (ch_cap (rs_out s))); [lia|].
Qed.

Lemma stalled_step ev s s' :
  no_rescue ev → stalled s → cstep ev s = Stepped s' → stalled s' ∧ ∀ w f, call_of w s = Some f → call_of w s' = Some f.
Proof.
  intros Hev Hst E. pose proof Hst as (Hp & Hh & Hs & (g & Hw) & Hl & Hc & Hd & Ho).
  destruct ev as [first| |werr| | | |put| |e|w f|w put| | |t]; cbn [cstep no_rescue] in *; try done.
  - unfold main_step in E. rewrite Hp, Hs in E. destruct first; [done|]. apply orb_false_iff in Hd as [Hx _]. by rewrite Hx in E.
  - unfold take_step in E. by rewrite Hw in E.
  - unfold ping_tick in E. by rewrite Hh in E.
  - unfold watch_tick in E. by rewrite Hh in E.
  - unfold heart_done in E. by rewrite Hh in E.
  - unfold ping_step in E. rewrite Hh, stalled_put, Hd in E by done. by destruct put.
  - unfold frame_read in E. rewrite Hs in E. injection E as <-. split; [|done]. repeat split; try done. by exists g.
  - unfold call_step in E. destruct (rs_sendFn s); [|done]. destruct (call_of w s) eqn:Ec; [done|]. injection E as <-. split.
    + repeat split; try done. by exists g.
    + intros v h Hv. rewrite call_of_app by done. rewrite bool_decide_eq_false_2 by congruence. done.
  - unfold send_step in E. destruct (call_of w s); [|done]. rewrite stalled_put, Hd in E by done. by destruct put.
  - destruct (rs_now s <=? t); [|done]. injection E as <-. split; [|done]. repeat split; try done. by exists g.
Qed.

(** The watchdog starves when it is needed.  A network that stalls under input
    (a paste of some 260 bytes is enough, a frame each) fills the queue; the ping
    that falls due then waits in [send], and with it the watchdog of the same
    [select]: from there on, however much time passes, the connection is not closed,
    and a key or a window change that was being sent stays where it is, so that the
    keyboard goroutine does not get to read the detach chord either. *)
Theorem watchdog_starves s evs s' :
  stalled s → Forall no_rescue evs → crun evs s = Stepped s' →
  rs_closed s' = false ∧ rs_heart s' = HSending ∧ rs_pc s' = MWait ∧ ∀ w f, call_of w s = Some f → call_of w s' = Some f.
Proof.
  intros Hst Hf. revert s Hst. induction Hf as [|ev evs Hev _ IH]; intros s Hst; cbn [crun].
  - intros [= <-]. by destruct Hst as (Hp & Hh & _ & _ & _ & _ & _ & Ho).
  - destruct (cstep ev s) as [| |s1] eqn:E; [by apply IH|done|]. intros Hr. destruct (stalled_step _ _ _ Hev Hst E) as [Hst1 Hc].
    destruct (IH s1 Hst1 Hr) as (H1 & H2 & H3 & H4). split; [done|]. split; [done|]. split; [done|]. intros w f Hw. by apply H4, Hc.
Qed.

(** The hello can come second.  [setSend] runs before the hello is queued: a key
    or a window change in between is the first frame of the connection, and the
    server refuses it. *)
Theorem hello_overtaken now w f :
  f.1 ≠ MsgHello →
  ∃ s, crun [CMain true; CCall w f; CSend w true; CMain true] (new_session now) = Stepped s ∧ cflow s = [f; (MsgHello, hello)] ∧
  ∀ T R (TO : TermOps T) marshal um self an (sv : server T R),
    AttachHandler.hello_step marshal um self an (Ok f) (new_attach, sv) = Stepped (with_pc (PcDone (Err (AeExpectedHello f.1))) new_attach, sv).
Proof.
  intros Hf. assert (∃ s, crun [CMain true; CCall w f; CSend w true; CMain true] (new_session now) = Stepped s ∧ cflow s = [f; (MsgHello, hello)]) as (s & H1 & H2)
    by (destruct w; eexists; split; reflexivity).
  exists s. split; [done|]. split; [done|]. intros T R TO marshal um self an sv. unfold hello_step. destruct f as [typ p]. cbn [fst] in *.
  by destruct (Z.eqb_spec typ MsgHello).
Qed.
End session.

(** ** Examples *)

(** A paste while the network stalls: the writer never returns from the hello. *)
Definition ex_key : wframe := (MsgInput, [97]).
Definition ex_stall : list cevent :=
  [CMain true; CMain true; CMain true; CTake] ++ concat (repeat [CCall Keyboard ex_key; CSend Keyboard true] 256) ++
  [CTime 1000; CPingTick; CCall Keyboard ex_key].

Lemma watchdog_starves_witness :
  ∃ s s', crun [] ex_stall (new_session 0) = Stepped s ∧ stalled s ∧
    crun [] [CTime 3600000; CWatchTick; CPing true; CSend Keyboard true; CFrame] s = Stepped s' ∧
    rs_closed s' = false ∧ rs_now s' = 3600000 ∧ call_of Keyboard s' = Some ex_key.
Proof.
  assert (∃ s s', crun [] ex_stall (new_session 0) = Stepped s ∧ stalled s ∧
    crun [] [CTime 3600000; CWatchTick; CPing true; CSend Keyboard true; CFrame] s = Stepped s' ∧ rs_now s' = 3600000 ∧
    call_of Keyboard s = Some ex_key) as (s & s' & H1 & Hst & H2 & Hn & Hc).
  { do 2 eexists. split; [vm_compute; reflexivity|]. split; [|split; [vm_compute; reflexivity|split; reflexivity]].
    do 3 (split; [reflexivity|]). split; [eexists; reflexivity|]. split; [apply Nat.leb_le; vm_compute; reflexivity|]. repeat split. }
  exists s, s'. split; [exact H1|]. split; [exact Hst|]. split; [exact H2|].
  destruct (watchdog_starves [] s [CTime 3600000; CWatchTick; CPing true; CSend Keyboard true; CFrame] s' Hst ltac:(repeat constructor) H2) as (G1 & _ & _ & G4).
  split; [exact G1|]. split; [exact Hn|]. exact (G4 Keyboard ex_key Hc).
Defined.

(** A server that answers nothing: one ping, then the watchdog. *)
Definition ex_silent : list cevent :=
  [CMain true; CMain true; CMain true; CTake; CWrote None; CTime 300; CPingTick; CPing true; CTake; CWrote None; CFrame; CTime 400; CWatchTick; CTime 1200; CWatchTick].

Lemma session_heart_witness :
  ∃ s, crun [] ex_silent (new_session 0) = Stepped s ∧ rs_closed s = true ∧ rs_heart s = HDone ∧
    hb_closed (beats (beats_of [] ex_silent (new_session 0)) (new_heart 0)) = Some 1200 ∧
    in_order 0 (beats_of [] ex_silent (new_session 0)).
Proof.
  assert (∃ s, crun [] ex_silent (new_session 0) = Stepped s ∧ ctx_done s = false ∧ rs_closed s = true ∧ rs_heart s = HDone) as (s & H1 & H2 & H3 & H4)
    by (eexists; split; [vm_compute; reflexivity|repeat split]).
  exists s. split; [exact H1|]. split; [exact H3|]. split; [exact H4|]. split; [vm_compute; reflexivity|].
  exact (proj1 (session_heart [] 0 ex_silent s H1 H2)).
Defined.
