(* ===== verification/Typing.v ===== *)
(** * From the user's keyboard to the session

    The way back from [EndToEnd]: [runStdinFSM] turns keys into [Input] frames and
    calls [sendFn] with them, the [SIGWINCH] watcher and the heartbeat add theirs,
    the goroutines of [runSession] ([ClientSession]) put them on the connection
    after the hello, and [clientReadLoop] writes the input to the PTY.  What the
    user types, through all of them. *)
From S2P Require Import Prelude GoBase StreamFilter QueryStripper PrimaryFilter Recorder Recording Terminal Channel Wire State ShortId Store Pty PtySafety PtyKeeps AttachSet Registry AttachHandler Hud ChordFsm Restorer AttachClient Sizes Heartbeat ClientSession.
Open Scope Z_scope.

(** ** The client *)

(** What the actions of the chord machine send while a session is connected:
    [forwardBytes] a frame per byte, [literal] the prefix. *)
Definition act_frames (prefix : byte) (a : fsm_act) : list wframe :=
  match a with
  | ForwardBytes bs => (λ b, (MsgInput, [b])) <$> bs
  | ActLiteral => [(MsgInput, [prefix])]
  | ActDetach | ActSuspend | ActClone _ => []
  end.

(** The calls of [sendFn] by [runStdinFSM]. *)
Definition key_frames (prefix : byte) (acts : list fsm_act) : list wframe := acts ≫= act_frames prefix.

(** The bytes meant for the session. *)
Definition typed_by (prefix : byte) (acts : list fsm_act) : list byte :=
  acts ≫= λ a, match a with ForwardBytes bs => bs | ActLiteral => [prefix] | _ => [] end.

(** The input a frame carries. *)
Definition input_of (f : wframe) : list byte := if f.1 =? MsgInput then f.2 else [].
Definition input_of_frames (fs : list wframe) : list byte := fs ≫= input_of.

Lemma input_app a b : input_of_frames (a ++ b) = input_of_frames a ++ input_of_frames b.
Proof. apply bind_app. Qed.

Lemma act_input prefix a : input_of_frames (act_frames prefix a) = typed_by prefix [a].
Proof.
  destruct a as [bs| | | |]; try done. unfold typed_by. simpl. rewrite app_nil_r.
  induction bs as [|b bs IH]; [done|]. rewrite fmap_cons. unfold input_of_frames in *. rewrite bind_cons, IH. done.
Qed.

Lemma keys_input prefix acts : input_of_frames (key_frames prefix acts) = typed_by prefix acts.
Proof.
  unfold key_frames. induction acts as [|a acts IH]; [done|]. rewrite bind_cons, input_app, act_input, IH.
  unfold typed_by. simpl. by rewrite app_nil_r.
Qed.

(** The [SIGWINCH] watcher sends nothing but sizes. *)
Definition sizes_only (called : list (who * wframe)) : Prop :=
  Forall (λ x, x.1 = Window → ∃ ws, x.2 = size_frame ws) called.

(** All the input of a session is the keyboard's. *)
Lemma log_input hello log called :
  Forall (λ x, from_its_source hello x called) log → sizes_only called →
  input_of_frames log.*2 = input_of_frames (by_source (From Keyboard) log).
Proof.
  intros Hf Hs. induction Hf as [|[src f] log Hx _ IH]; [done|]. unfold by_source in *. rewrite fmap_cons, filter_cons. cbn [fst snd].
  assert (∀ g l, input_of_frames (g :: l) = input_of g ++ input_of_frames l) as Hc by (intros; apply bind_cons).
  rewrite Hc, IH. destruct src as [| |[]]; unfold from_its_source in Hx; cbn [fst snd] in Hx.
  - by rewrite Hx, decide_False by done.
  - by rewrite Hx, decide_False by done.
  - by rewrite decide_True, fmap_cons, Hc by done.
  - rewrite decide_False by done. unfold sizes_only in Hs. rewrite Forall_forall in Hs. destruct (Hs _ Hx eq_refl) as [ws Hws]. cbn in Hws. by rewrite Hws.
Qed.

(** What a running session has accepted: its hello, if anything, and after it of
    input the keyboard's calls, but for the one that is waiting. *)
Lemma session_input hello now cevs c :
  crun hello cevs (new_session now) = Stepped c → hello_unhurried hello cevs (new_session now) → ctx_done c = false →
  sizes_only (rs_called c) →
  (cflow c = [] ∨ ∃ l, cflow c = (MsgHello, hello) :: l) ∧
  input_of_frames (cflow c) ++ input_of_frames (option_list (call_of Keyboard c)) = input_of_frames (by_who Keyboard (rs_called c)).
Proof.
  intros Hr Hu Hn Hs. destruct (session_log hello now cevs c Hr Hu Hn) as (Ef & Hf & Hh & Hk). split.
  - rewrite Ef. destruct Hh as [->|[l ->]]; [by left|right; by eexists].
  - by rewrite Ef, (log_input hello _ (rs_called c)), <- input_app, Hk.
Qed.

Lemma typed_no_prefix prefix clones inp :
  Forall (λ ev, isPrefixKey prefix ev = false) (keys inp) → typed_by prefix (runChordFSM prefix clones inp) = inp.
Proof.
  intros H. rewrite (run_no_prefix _ _ _ H). etrans; [|apply (keys_concat inp)].
  induction (keys inp) as [|ev evs IH]; [done|]. apply Forall_cons in H as [_ H]. rewrite !fmap_cons.
  unfold typed_by in *. by rewrite bind_cons, IH.
Qed.

(** ** The server *)

Section server.
Context {T : Type} {TO : TermOps T} {R : Type} {IG : IdGen R}.
Context (marshal : StateFile → option (list byte)).
Context (unmarshal_hello : list byte → option Hello) (unmarshal_size : list byte → option PTYSize).
Context (noHistory : bool) (self : conn) (liveCh : chan_id).

#[local] Abbreviation step := (AttachHandler.step marshal unmarshal_hello unmarshal_size noHistory self liveCh).
#[local] Abbreviation run := (AttachHandler.run marshal unmarshal_hello unmarshal_size noHistory self liveCh).

(** What the handler has taken from the connection by the end of a schedule. *)
Fixpoint taken (evs : list event) (s : sys (T := T) (R := R)) : list (res wire_error wframe) :=
  match evs with
  | [] => []
  | ev :: evs' =>
      match step ev s with
      | Stepped s' => match ev with EvHello _ x | EvRead _ x => [x] | _ => [] end ++ taken evs' s'
      | Blocked => taken evs' s
      | Panicked => []
      end
  end.

(** Nobody else writes to the PTY: no other client types, the emulator answers
    no query. *)
Definition op_silent (op : pty_op) : Prop := match op with PChunk _ _ | PInput _ => False | _ => True end.
Definition silent (ev : event) : Prop := match ev with EvPty op => op_silent op | _ => True end.

Abbreviation master s := (p_master (sv_pty (snd s))).

Lemma op_master op (p : LibghosttyPTY T) : op_silent op → p_master (pty_run1 op p).2 = p_master p.
Proof.
  destruct op as [now chunk|ss now cols rows|data|cap id|id|id|id|id|room rc]; intros Ho; try done; cbn [pty_run1].
  - unfold Pty.Resize. destruct ss; [|done]. unfold mbind, st_bind.
    assert (keeps p_master (pty_do (resize_action (T := T) now cols rows))) as Hk by by apply keeps_do, keeps_resize_action.
    specialize (Hk p). destruct (pty_do _ p) as [[u|e] p']; exact Hk.
  - by apply (keeps_subscribe p_master).
  - by apply (keeps_snapshot p_master).
  - by apply (keeps_snapshot p_master).
  - by apply (keeps_cancel p_master).
  - by apply (keeps_recv p_master).
  - by apply (keeps_Close p_master).
Qed.

Lemma set_call_master an op (sv : server T R) : p_master (sv_pty (set_call marshal an op sv).2) = p_master (sv_pty sv).
Proof.
  unfold set_call, size_applier. cbn [snd]. destruct (res_apply _) as [ws|]; [|done].
  exact (op_master (PResize (an_setsize an) (an_now an) (Cols ws) (Rows ws)) _ I).
Qed.

Lemma main_step_master an s s' : AttachHandler.main_step marshal noHistory self liveCh an s = Stepped s' → master s' = master s ∧ at_pc s'.1 ≠ PcHello.
Proof.
  destruct s as [a sv]. unfold AttachHandler.main_step, goto, send_then. cbn [fst snd]. intros E.
  destruct (at_pc a) as [|h eff|h| |sb sc|sc| | |eff|r|r|r|r|r|r|r|] eqn:Epc; try discriminate E;
    try (destruct (send _ a) as [| |a'] eqn:Es; try discriminate E; by injection E as <-); try (by injection E as <-).
  - unfold register_step, goto in E. cbn [fst snd] in E. destruct (sv_reg sv) as [[g d]|]; [|by injection E as <-].
    destruct (Registry.Add _ _ _ _ _ _ _ _) as [[[id|e] g'] d']; by injection E as <-.
  - unfold subscribe_step in E. cbn [fst snd] in E. pose proof (op_master (PParts liveCh) (sv_pty sv) I) as Hp.
    cbn [pty_run1 result snd] in Hp. destruct (SubscribeWithSnapshotParts _ _) as [[[sb sc]|e] p]; by injection E as <-.
  - injection E as <-. split; [exact (op_master (PCancel liveCh) (sv_pty sv) I)|done].
  - destruct (at_live a); try discriminate E. by injection E as <-.
  - destruct (writer_done _); [|discriminate E]. injection E as <-. split; [exact (op_master (PCancel liveCh) (sv_pty sv) I)|done].
  - injection E as <-. split; [|done]. destruct (sv_reg sv) as [[g d]|]; [|done]. destruct (at_id a); [|done].
    by destruct (Registry.Remove _ _ _ _ _).
  - injection E as <-. split; [exact (set_call_master an (SRemove self) sv)|done].
Qed.

(** The input a step writes to the PTY. *)
Definition step_input (ev : event) : list byte :=
  match ev with EvRead _ (Ok f) => input_of f | _ => [] end.

Lemma read_step_master an x (s s' : sys (T := T) (R := R)) out :
  at_pc s.1 ≠ PcHello → read_step marshal unmarshal_size self an x s = Stepped s' → master s = sink out →
  at_pc s'.1 ≠ PcHello ∧ master s' = sink (out ++ step_input (EvRead an x)).
Proof.
  destruct s as [a sv]. unfold read_step, goto, input_of. cbn [fst snd step_input]. intros Hpc E Hm.
  destruct x as [[typ payload]|e]; [|injection E as <-; by rewrite app_nil_r]. unfold input_of. cbn [fst snd].
  destruct (typ =? MsgInput).
  { unfold Pty.Write, mbind, st_bind, master_write in E. rewrite Hm, Write_sink in E. by injection E as <-. }
  rewrite app_nil_r. destruct (typ =? MsgSize).
  { destruct (unmarshal_size payload) as [ws|]; [|by injection E as <-]. destruct (_ || _); [by injection E as <-|].
    pose proof (set_call_master an (SUpdate self ws) sv) as H. destruct (set_call _ _ _ _) as [r sv']. injection E as <-.
    cbn [fst snd] in *. rewrite H. split; [|done]. by destruct (bool_decide _). }
  destruct (typ =? MsgPing); [by injection E as <-|]. destruct (typ =? MsgHello); [by injection E as <-|].
  destruct (_ || _); by injection E as <-.
Qed.

Lemma hello_step_master an x (s s' : sys (T := T) (R := R)) :
  hello_step marshal unmarshal_hello self an x s = Stepped s' → master s' = master s ∧ at_pc s'.1 ≠ PcHello.
Proof.
  destruct s as [a sv]. unfold hello_step, goto. cbn [fst snd]. intros E. destruct x as [[typ payload]|e]; [|by injection E as <-].
  destruct (negb _); [by injection E as <-|]. destruct (unmarshal_hello payload) as [h|]; [|by injection E as <-].
  destruct (_ || _); [by injection E as <-|]. pose proof (set_call_master an (SAdd self (hello_Size h)) sv) as H.
  destruct (set_call _ _ _ _) as [r sv']. by injection E as <-.
Qed.

(** Steps that do not read from the connection. *)
Lemma other_step_master ev (s s' : sys (T := T) (R := R)) :
  silent ev → step ev s = Stepped s' → match ev with EvHello _ _ | EvRead _ _ => False | _ => True end →
  master s' = master s ∧ (at_pc s'.1 = PcHello ↔ at_pc s.1 = PcHello).
Proof.
  destruct s as [a sv]. destruct ev as [an x|an|an x|werr| |an op|k|op|rop| |]; cbn [AttachHandler.step silent fst snd]; intros Hq E He; try done.
  - assert (at_pc a ≠ PcHello) as Hpc by (intros Hpc; unfold AttachHandler.main_step in E; by rewrite Hpc in E).
    apply main_step_master in E as [E1 E2]. by split.
  - destruct (writer_step werr a) as [| |a'] eqn:Ew; try discriminate E. injection E as <-.
    apply writer_step_flow in Ew as (_ & Ep & _). cbn [fst snd]. by rewrite Ep.
  - unfold live_step in E. destruct (at_live a); try discriminate E.
    + pose proof (op_master (PRecv liveCh) (sv_pty sv) I) as Hp. cbn [pty_run1 result snd] in Hp.
      destruct (recv_sub _ _) as [[[c| |]|e] p]; try discriminate E; by injection E as <-.
    + destruct (send _ a) as [| |a'] eqn:Es; try discriminate E. injection E as <-. by apply send_stepped in Es as [_ ->].
  - unfold other_step in E. destruct (bool_decide _); [discriminate E|]. pose proof (set_call_master an op sv) as H. cbn [snd] in *.
    destruct (set_call _ _ _ _) as [r sv']. injection E as <-. split; [exact H|]. by destruct (bool_decide _).
  - unfold deliver_step in E. cbn [fst snd] in E. destruct (at_pending a !! k); [|discriminate E].
    destruct (send _ a) as [| |a'] eqn:Es; try discriminate E. injection E as <-. by apply send_stepped in Es as [_ ->].
  - injection E as <-. split; [by apply op_master|done].
  - by injection E as <-.
  - unfold forcedDetach in E. destruct (at_id a), (at_forced a); try discriminate E; by injection E as <-.
  - unfold unwind_step, goto in E. cbn [fst snd] in E. pose proof (op_master (PCancel liveCh) (sv_pty sv) I) as Hc.
    destruct (at_pc a); try discriminate E; injection E as <-; by split.
Qed.

Lemma prefix_both (a b : list byte) : a `prefix_of` b → b `prefix_of` a → a = b.
Proof. apply (anti_symm prefix). Qed.

Definition input_taken (l : list (res wire_error wframe)) : list byte :=
  l ≫= λ x, match x with Ok f => input_of f | Err _ => [] end.

Lemma input_taken_ok fs : input_taken (Ok <$> fs) = input_of_frames fs.
Proof. induction fs as [|f fs IH]; [done|]. unfold input_taken, input_of_frames in *. by rewrite fmap_cons, !bind_cons, IH. Qed.

Lemma input_taken_prefix a b : a `prefix_of` b → input_taken a `prefix_of` input_taken b.
Proof. intros [c ->]. unfold input_taken. rewrite bind_app. by eexists. Qed.

Lemma step_taken ev (s s' : sys (T := T) (R := R)) out :
  silent ev → at_pc s.1 ≠ PcHello → step ev s = Stepped s' → master s = sink out →
  at_pc s'.1 ≠ PcHello ∧
  master s' = sink (out ++ input_taken (match ev with EvHello _ x | EvRead _ x => [x] | _ => [] end)).
Proof.
  intros Hq Hpc E Hm. destruct ev as [an x|an|an x|werr| |an op|k|op|rop| |];
    try (apply other_step_master in E as [E1 E2]; [|done|done]; rewrite app_nil_r, E1, E2; done).
  - cbn [AttachHandler.step] in E. by destruct (at_pc s.1).
  - cbn [AttachHandler.step] in E. destruct (at_pc s.1) eqn:Epc; try discriminate E.
    rewrite <- Epc in Hpc. apply (read_step_master an x s s' out Hpc) in E as [H1 H2]; [|done]. split; [done|]. rewrite H2.
    unfold input_taken. rewrite bind_cons. cbn. by rewrite app_nil_r.
Qed.

Lemma run_taken evs (s s' : sys (T := T) (R := R)) out :
  Forall silent evs → at_pc s.1 ≠ PcHello → run evs s = Stepped s' → master s = sink out →
  master s' = sink (out ++ input_taken (taken evs s)).
Proof.
  intros Hq. revert s out. induction Hq as [|ev evs Hev _ IH]; intros s out Hpc; cbn [AttachHandler.run taken].
  - intros [= <-] ->. by rewrite app_nil_r.
  - destruct (step ev s) as [| |s1] eqn:E; [by apply IH|done|]. intros Hr Hm.
    destruct (step_taken ev s s1 out Hev Hpc E Hm) as [H1 H2]. rewrite (IH s1 _ H1 Hr H2).
    unfold input_taken. by rewrite bind_app, app_assoc.
Qed.

(** The first thing taken is the hello, which is not input. *)
Lemma run_hello evs (s s' : sys (T := T) (R := R)) out :
  Forall silent evs → at_pc s.1 = PcHello → run evs s = Stepped s' → master s = sink out →
  master s' = sink (out ++ input_taken (tail (taken evs s))).
Proof.
  intros Hq. revert s out. induction Hq as [|ev evs Hev Hq IH]; intros s out Hpc; cbn [AttachHandler.run taken].
  - intros [= <-] ->. by rewrite app_nil_r.
  - destruct (step ev s) as [| |s1] eqn:E; [by apply IH|done|]. intros Hr Hm.
    destruct ev as [an x|an|an x|werr| |an op|k|op|rop| |];
      try (apply other_step_master in E as [E1 E2]; [|done|done]; cbn [app]; apply IH; [tauto|done|by rewrite E1]).
    + cbn [AttachHandler.step] in E. rewrite Hpc in E. apply hello_step_master in E as [E1 E2]. cbn [app tail].
      apply run_taken; [done|done|done|by rewrite E1].
    + cbn [AttachHandler.step] in E. by rewrite Hpc in E.
Qed.

Lemma input_taken_tail hello sent fs e :
  sent = [] ∨ (∃ l, sent = (MsgHello, hello) :: l) → fs `prefix_of` sent →
  input_taken (tail ((Ok <$> fs) ++ [Err e])) = input_of_frames fs.
Proof.
  destruct fs as [|f fs]; [done|]. intros Hs [l El]. assert (f = (MsgHello, hello)) as -> by (destruct Hs as [->|[l' ->]]; [done|by injection El]).
  cbn [fmap list_fmap app tail]. unfold input_taken at 1. rewrite bind_app.
  fold (input_taken (Ok <$> fs)). rewrite input_taken_ok. by rewrite app_nil_r.
Qed.

(** C2: From the user's keyboard to the session.  A session of the client is in
    any state its goroutines can reach while it lasts: hello, keys, window changes
    and pings sent in any interleaving of the goroutines that send them, the keys
    in the order the chord machine forwards them, the hello before the first of
    them.  The connection may be cut anywhere, and the server reads what arrives in
    any schedule of its goroutines and of the other clients, while nobody else
    writes to the PTY.  Then what the PTY is given is a prefix of what the user
    typed, byte for byte (chords removed, a literal prefix put back); all of it,
    once every key was sent, none is still waiting for room in the queue and
    everything was read; and if the prefix key was not pressed, what the user typed
    is the input itself. *)
Theorem typing_end_to_end prefix clones inp hello now cevs c k fin evs sv s out :
  crun hello cevs (new_session now) = Stepped c → hello_unhurried hello cevs (new_session now) → ctx_done c = false →
  sizes_only (rs_called c) →
  by_who Keyboard (rs_called c) `prefix_of` key_frames prefix (runChordFSM prefix clones inp) →
  Forall frame_ok (cflow c) →
  p_master (sv_pty sv) = sink out → Forall silent evs → run evs (new_attach, sv) = Stepped s →
  let '(fs, e) := read_frames (Reader (take k (enc_frames (cflow c))) fin) in
  taken evs (new_attach, sv) `prefix_of` (Ok <$> fs) ++ [Err e] →
  let meant := typed_by prefix (runChordFSM prefix clones inp) in
  ∃ typed, p_master (sv_pty s.2) = sink (out ++ typed) ∧ typed `prefix_of` meant ∧
    ((Ok <$> cflow c) `prefix_of` taken evs (new_attach, sv) → call_of Keyboard c = None →
     by_who Keyboard (rs_called c) = key_frames prefix (runChordFSM prefix clones inp) → typed = meant) ∧
    (Forall (λ ev, isPrefixKey prefix ev = false) (keys inp) → meant = inp).
Proof.
  intros Hc Hu Hn Hsz Hk Hok Hm Hq Hr. destruct (session_input hello now cevs c Hc Hu Hn Hsz) as [Hh Hin]. revert Hh Hin Hok. generalize (cflow c). intros sent Hh Hin Hok.
  destruct (enc_frames_cut k sent Hok) as (fs & tl & E & Hfs & Hcut & _).
  assert (Forall frame_ok fs) as Hok' by (destruct Hfs as [l El]; rewrite El in Hok; by apply Forall_app in Hok as [? _]).
  rewrite E, read_frames_stream by done. intros Ht meant. assert (meant = input_of_frames (key_frames prefix (runChordFSM prefix clones inp))) as Em by (by rewrite keys_input).
  assert (∀ a b : list (res wire_error wframe), a `prefix_of` b → tail a `prefix_of` tail b) as Htail by (intros [|x a] b [l ->]; [apply prefix_nil|by exists l]).
  exists (input_taken (tail (taken evs (new_attach, sv)))). split; [by apply run_hello|].
  assert (input_of_frames sent `prefix_of` meant) as Hs.
  { rewrite Em. destruct Hk as [l ->]. rewrite input_app, <- Hin, <- app_assoc. by eexists. }
  assert (input_taken (tail (taken evs (new_attach, sv))) `prefix_of` meant) as Hp.
  { etrans; [apply input_taken_prefix, Htail, Ht|]. rewrite (input_taken_tail hello sent) by done. etrans; [|exact Hs].
    destruct Hfs as [l ->]. rewrite input_app. by eexists. }
  split; [done|]. split; [|apply typed_no_prefix]. intros Hall Hw Hkey. apply prefix_both; [done|].
  rewrite Em, <- Hkey, <- Hin, Hw, app_nil_r. etrans; [|apply input_taken_prefix, Htail, Hall].
  destruct Hh as [->|[l ->]]; [apply prefix_nil|]. cbn [fmap list_fmap tail]. by rewrite input_taken_ok.
Qed.
End server.

(** A user types [ls], a carriage return and a literal prefix, while the window
    changes once and a ping goes out; the writer falls behind. *)
Definition ex_typed_input : list byte := B"ls" ++ [13; 30; 94].
Definition ex_call (w : who) (f : wframe) : list cevent := [CCall w f; CSend w true].
Definition ex_client : list cevent :=
  [CMain true; CMain true; CMain true; CTake; CWrote None] ++ ex_call Keyboard (MsgInput, [108]) ++
  [CTake; CTime 300; CPingTick; CPing true] ++ ex_call Keyboard (MsgInput, [115]) ++ [CCall Keyboard (MsgInput, [13])] ++
  ex_call Window (size_frame (mkSize 70 20)) ++ [CSend Keyboard true; CWrote None] ++ ex_call Keyboard (MsgInput, [30]).
Definition ex_sent : list wframe :=
  [(MsgHello, []); (MsgInput, [108]); (MsgPing, []); (MsgInput, [115]); size_frame (mkSize 70 20); (MsgInput, [13]); (MsgInput, [30])].

Definition ex_reads (fs : list wframe) : list event := concat ((λ f, [EvRead ex_answers (Ok f); EvMain ex_answers; EvLive; EvWriter None]) <$> fs).

Definition ex_session_run : list event := ex_start ++ ex_reads (tail ex_sent).

Lemma typing_end_to_end_witness :
  ∃ s, ex_run ex_session_run (new_attach, ex_server) = Stepped s ∧
    p_master (sv_pty s.2) = sink (B"ls" ++ [13; 30]).
Proof.
  assert (∃ c, crun [] ex_client (new_session 0) = Stepped c ∧ ctx_done c = false ∧ cflow c = ex_sent ∧ call_of Keyboard c = None ∧
    rs_called c = [(Keyboard, (MsgInput, [108])); (Keyboard, (MsgInput, [115])); (Keyboard, (MsgInput, [13])); (Window, size_frame (mkSize 70 20)); (Keyboard, (MsgInput, [30]))])
    as (c & Hc & Hd & Ef & Hw & Ecl) by (eexists; split; [vm_compute; reflexivity|repeat split]).
  assert (is_Some (match ex_run ex_session_run (new_attach, ex_server)
    with Stepped s => Some s | _ => None end)) as [s0 Hs] by (vm_compute; eauto).
  destruct (ex_run ex_session_run (new_attach, ex_server)) as [| |s] eqn:E;
    try discriminate Hs. exists s. split; [reflexivity|].
  pose proof (typing_end_to_end (IG := counter_gen) (λ _, None) ex_hello ex_size false 1 7 30 [] ex_typed_input [] 0 ex_client c 99 EOF
    ex_session_run ex_server s [] Hc) as H.
  assert (read_frames (Reader (take 99 (enc_frames ex_sent)) EOF) = (ex_sent, WireIO EOF)) as Er by (vm_compute; reflexivity).
  rewrite Ef, Ecl, Er in H. destruct H as (typed & Hm & _ & Hall & _).
  - vm_compute. repeat split; intros H; discriminate H.
  - exact Hd.
  - repeat constructor; intros H; [discriminate H..|eexists; reflexivity|discriminate H].
  - exists []. vm_compute. reflexivity.
  - repeat constructor; (apply Z.leb_le; vm_compute; reflexivity).
  - reflexivity.
  - repeat constructor.
  - exact E.
  - exists [Err (WireIO EOF)]. vm_compute. reflexivity.
  - rewrite Hm, Hall; [vm_compute; reflexivity| |exact Hw|vm_compute; reflexivity]. exists []. vm_compute. reflexivity.
Defined.
