(* ===== verification/Room.v ===== *)
(** * One session, many clients

    [AttachHandler] is one attachment with the rest of the world as events.
    Here the attachments of a session run together, one [serveOne] each, over the
    server they share.  An [AttachSet] call of one of them makes the others owe a
    [Size] frame to their clients: the calling goroutine makes those [sendSize]
    calls itself, one after the other, before it goes on.  [project] is what such
    a run looks like to one client; the theorems say that it is a run of
    [AttachHandler], and what the clients do to each other. *)
From S2P Require Import Prelude GoBase StreamFilter QueryStripper PrimaryFilter Recorder Recording Terminal Channel Wire State ShortId Store Pty PtySafety AttachSet Registry AttachHandler.
Open Scope Z_scope.

(** An attachment; [mb_told]: the [sendSize] calls its main goroutine still has
    to make, in the order of a Go map, that is in any. *)
Record member := mkMember { mb_attach : attach; mb_told : list (conn * PTYSize) }.

(** The size is owed to the clients of [rs]. *)
Definition owe (rs : list conn) (eff : PTYSize) (d : conn) (a : attach) : attach :=
  if bool_decide (d ∈ rs) then with_pending (at_pending a ++ [eff]) a else a.

Definition notify (rs : list conn) (eff : PTYSize) (ms : gmap conn member) : gmap conn member :=
  map_imap (λ d m, Some (mkMember (owe rs eff d (mb_attach m)) (mb_told m))) ms.

Inductive room_event :=
| RConnect (c : conn)
| RStep (c : conn) (ev : event)     (** one of the goroutines of attachment [c] *)
| RTell (c : conn) (k : nat)        (** its main goroutine makes a [sendSize] call *)
| RPanic (c : conn) (k : nat)       (** which panics: the queue is closed *)
| RPty (op : pty_op).               (** the read loop, the HTTP routes *)

(** The events that are steps of an attachment's own goroutines. *)
Definition own (ev : event) : bool :=
  match ev with EvHello _ _ | EvMain _ | EvRead _ _ | EvWriter _ | EvLive | EvDetach => true | _ => false end.

(** Its main goroutine is inside an [AttachSet] call: it neither reads nor goes
    on before it has told everyone.  Its own [sendSize] is one of those calls. *)
Definition busy (ev : event) (m : member) : bool :=
  match mb_told m, ev with
  | [], _ => false
  | _, EvHello _ _ | _, EvRead _ _ => true
  | _, EvMain _ => match at_pc (mb_attach m) with PcSendSize _ => false | _ => true end
  | _, _ => false
  end.

Section room.
Context {T : Type} {TO : TermOps T} {R : Type} {IG : IdGen R}.
Context (marshal : StateFile → option (list byte)).
Context (unmarshal_hello : list byte → option Hello) (unmarshal_size : list byte → option PTYSize).
Context (noHistory : bool) (live : conn → chan_id).

#[local] Abbreviation step c := (AttachHandler.step marshal unmarshal_hello unmarshal_size noHistory c (live c)).
#[local] Abbreviation run c := (AttachHandler.run marshal unmarshal_hello unmarshal_size noHistory c (live c)).

Record room := mkRoom { rm_members : gmap conn member; rm_server : server T R }.

Definition positive (ws : PTYSize) : bool := negb ((Cols ws =? 0) || (Rows ws =? 0)).

(** The [AttachSet] call a step of attachment [c] makes. *)
Definition set_op_of (c : conn) (ev : event) (x : pc) : option (size_answers * set_op) :=
  match ev, x with
  | EvHello an (Ok (typ, payload)), PcHello =>
      if typ =? MsgHello then
        h ← unmarshal_hello payload;
        if positive (hello_Size h) then Some (an, SAdd c (hello_Size h)) else None
      else None
  | EvRead an (Ok (typ, payload)), PcLoop =>
      if typ =? MsgSize then
        ws ← unmarshal_size payload;
        if positive ws then Some (an, SUpdate c ws) else None
      else None
  | EvMain an, PcRemove _ => Some (an, SRemove c)
  | _, _ => None
  end.

(** Whom it has to tell, and what. *)
Definition news (c : conn) (ev : event) (x : pc) (sv : server T R) : list conn * PTYSize :=
  match set_op_of c ev x with
  | None => ([], mkSize 0 0)
  | Some (_, op) =>
      let r := set_step op (sv_set sv) in (filter (λ d, d ≠ c) (res_receivers r), res_eff r)
  end.

Definition member_step (c : conn) (ev : event) (m : member) (rm : room) : outcome room :=
  match step c ev (mb_attach m, rm_server rm) with
  | Blocked => Blocked
  | Panicked => Panicked
  | Stepped (a, sv) =>
      let '(rs, eff) := news c ev (at_pc (mb_attach m)) (rm_server rm) in
      Stepped (mkRoom (notify rs eff (<[c := mkMember a (mb_told m ++ ((λ d, (d, eff)) <$> rs))]> (rm_members rm))) sv)
  end.

(** A [sendSize] call returns: the frame is in the queue of the other client. *)
Definition tell_step (c : conn) (k : nat) (m : member) (rm : room) : outcome room :=
  match mb_told m !! k with
  | None => Blocked
  | Some (d, ws) =>
      match rm_members rm !! d with
      | None => Blocked
      | Some md =>
          match list_find (λ x, x = ws) (at_pending (mb_attach md)) with
          | None => Blocked
          | Some (j, _) =>
              match deliver_step j (mb_attach md, rm_server rm) with
              | Blocked | Panicked => Blocked
              | Stepped (a, sv) =>
                  Stepped (mkRoom (alter (λ m, mkMember (mb_attach m) (delete k (mb_told m))) c
                    (<[d := mkMember a (mb_told md)]> (rm_members rm))) sv)
              end
          end
      end
  end.

(** It panics; [serveOne] is unwound, and with it the rest of its calls. *)
Definition panic_step (c : conn) (k : nat) (m : member) (rm : room) : outcome room :=
  match mb_told m !! k ≫= λ x, rm_members rm !! x.1 with
  | None => Blocked
  | Some md =>
      if ch_closed (at_out (mb_attach md)) then
        match step c EvUnwind (mb_attach m, rm_server rm) with
        | Stepped (a, sv) => Stepped (mkRoom (<[c := mkMember a []]> (rm_members rm)) sv)
        | _ => Blocked
        end
      else Blocked
  end.

Definition room_step (ev : room_event) (rm : room) : outcome room :=
  match ev with
  | RConnect c =>
      match rm_members rm !! c with
      | Some _ => Blocked
      | None => Stepped (mkRoom (<[c := mkMember new_attach []]> (rm_members rm)) (rm_server rm))
      end
  | RStep c ev =>
      match rm_members rm !! c with
      | None => Blocked
      | Some m => if negb (own ev) || busy ev m then Blocked else member_step c ev m rm
      end
  | RTell c k =>
      match rm_members rm !! c with None => Blocked | Some m => tell_step c k m rm end
  | RPanic c k =>
      match rm_members rm !! c with None => Blocked | Some m => panic_step c k m rm end
  | RPty op => Stepped (mkRoom (rm_members rm) (with_pty (pty_run1 op (sv_pty (rm_server rm))).2 (rm_server rm)))
  end.

Fixpoint room_run (evs : list room_event) (rm : room) : outcome room :=
  match evs with
  | [] => Stepped rm
  | ev :: evs' =>
      match room_step ev rm with
      | Stepped rm' => room_run evs' rm'
      | Blocked => room_run evs' rm
      | Panicked => Panicked
      end
  end.

(** ** What one client sees of it *)

(** A step of attachment [c], for the others. *)
Definition ripple (c : conn) (ev : event) (a : attach) : list event :=
  match set_op_of c ev (at_pc a) with
  | Some (an, op) => [EvOther an op]
  | None =>
      match ev with
      | EvMain an =>
          match at_pc a with
          | PcRegister h => [EvReg (RAdd (an_plan an) (Some (an_now an)) (hello_Size h) (hello_Origin h) c)]
          | PcSubscribe => [EvPty (PParts (live c))]
          | PcCancelSub _ | PcJoinWriter _ => [EvPty (PCancel (live c))]
          | PcUnregister _ => match at_id a with Some id => [EvReg (RRemove (an_plan an) id)] | None => [] end
          | _ => []
          end
      | EvRead _ (Ok (typ, payload)) => if typ =? MsgInput then [EvPty (PInput payload)] else []
      | EvLive => match at_live a with LRunning => [EvPty (PRecv (live c))] | _ => [] end
      | EvUnwind => match at_pc a with PcLoop | PcSendSize _ => [EvPty (PCancel (live c))] | _ => [] end
      | _ => []
      end
  end.

Definition project1 (d : conn) (ev : room_event) (rm : room) : list event :=
  match ev with
  | RConnect _ => []
  | RStep c ev =>
      if bool_decide (c = d) then [ev]
      else match rm_members rm !! c with Some m => ripple c ev (mb_attach m) | None => [] end
  | RTell c k =>
      match rm_members rm !! c ≫= λ m, mb_told m !! k with
      | Some (e, ws) =>
          if bool_decide (e = d)
          then match rm_members rm !! d ≫= λ m, list_find (λ x, x = ws) (at_pending (mb_attach m)) with
               | Some (j, _) => [EvDeliver j]
               | None => []
               end
          else []
      | None => []
      end
  | RPanic c k =>
      if bool_decide (c = d) then [EvUnwind]
      else match rm_members rm !! c with Some m => ripple c EvUnwind (mb_attach m) | None => [] end
  | RPty op => [EvPty op]
  end.

(** Of a run, the steps that were taken. *)
Fixpoint project (d : conn) (evs : list room_event) (rm : room) : list event :=
  match evs with
  | [] => []
  | ev :: evs' =>
      match room_step ev rm with
      | Stepped rm' => project1 d ev rm ++ project d evs' rm'
      | Blocked => project d evs' rm
      | Panicked => []
      end
  end.

(** ** The projection is a run *)

Lemma run_app d evs1 evs2 s s1 : run d evs1 s = Stepped s1 → run d (evs1 ++ evs2) s = run d evs2 s1.
Proof.
  revert s. induction evs1 as [|ev evs1 IH]; intros s; cbn [AttachHandler.run app]; [by intros [= ->]|].
  destruct (step d ev s) as [| |s']; [apply IH|done|apply IH].
Qed.

Lemma run_one d ev s s1 : step d ev s = Stepped s1 → run d [ev] s = Stepped s1.
Proof. cbn [AttachHandler.run]. by intros ->. Qed.

(** The server after an [AttachSet] call, and what the others owe. *)
Lemma set_op_server c ev a sv a' sv' an op :
  set_op_of c ev (at_pc a) = Some (an, op) → step c ev (a, sv) = Stepped (a', sv') →
  op_conn op = c ∧ sv' = (set_call marshal an op sv).2.
Proof.
  destruct ev as [an' x|an'|an' x|werr| |an' op'|k|op'|rop| |]; cbn [set_op_of AttachHandler.step fst snd]; intros Hop E;
    try discriminate Hop.
  - destruct x as [[typ payload]|e]; [|discriminate Hop]. destruct (at_pc a); try discriminate Hop. unfold hello_step in E.
    destruct (typ =? MsgHello); [|discriminate Hop]. cbn [negb] in E.
    destruct (unmarshal_hello payload) as [h|]; [|discriminate Hop]. cbn in Hop. unfold positive in Hop.
    destruct (_ || _); [discriminate Hop|]. injection Hop as <- <-. split; [done|].
    cbn [snd] in E. destruct (set_call _ _ _ _) as [r sv1]. by injection E as _ <-.
  - destruct (at_pc a) eqn:Epc; try discriminate Hop. injection Hop as <- <-. split; [done|].
    unfold main_step in E. rewrite Epc in E. by injection E as _ <-.
  - destruct x as [[typ payload]|e]; [|by destruct (at_pc a); discriminate Hop]. destruct (at_pc a); try discriminate Hop.
    unfold read_step in E. destruct (Z.eqb_spec typ MsgSize) as [->|]; [|discriminate Hop]. cbn [Z.eqb MsgSize MsgInput Pos.eqb] in E.
    destruct (unmarshal_size payload) as [ws|]; [|discriminate Hop]. cbn in Hop. unfold positive in Hop.
    destruct (_ || _); [discriminate Hop|]. injection Hop as <- <-. split; [done|].
    cbn [snd] in E. destruct (set_call _ _ _ _) as [r sv1]. by injection E as _ <-.
Qed.

Lemma with_pty_same (sv : server T R) : with_pty (sv_pty sv) sv = sv.
Proof. by destruct sv. Qed.

(** The steps without an [AttachSet] call, by the goroutine that takes them. *)
Lemma main_ripple c d an a sv a' sv' ad :
  set_op_of c (EvMain an) (at_pc a) = None → step c (EvMain an) (a, sv) = Stepped (a', sv') →
  run d (ripple c (EvMain an) a) (ad, sv) = Stepped (ad, sv').
Proof.
  intros Hop. unfold ripple. rewrite Hop. cbn [AttachHandler.step]. unfold main_step, send_then, goto. cbn [fst snd].
  destruct (at_pc a) as [|h eff|h| |sb sc|sc| | |eff|r|r|r|r|r|r|r|] eqn:Epc; try discriminate;
    try (destruct (send _ a); try discriminate; by intros [= _ <-]); try (by intros [= _ <-]).
  - unfold register_step, goto. cbn [fst snd AttachHandler.run AttachHandler.step].
    destruct sv as [p ss [[g dk]|]]; cbn [sv_reg sv_pty sv_set option_map fmap option_fmap]; [|by intros [= _ <-]].
    unfold with_reg. cbn [reg_step fst snd sv_pty sv_set]. destruct (Registry.Add _ _ _ _ _ _ _ _) as [[[id|e] g'] dk']; by intros [= _ <-].
  - unfold subscribe_step. cbn [fst snd AttachHandler.run AttachHandler.step pty_run1 result].
    destruct (SubscribeWithSnapshotParts _ _) as [[[sb sc]|e] p]; by intros [= _ <-].
  - by destruct (at_live a); try discriminate; intros [= _ <-].
  - by destruct (writer_done _); [|discriminate]; intros [= _ <-].
  - destruct sv as [p ss [[g dk]|]], (at_id a); cbn; intros [= _ <-]; try done.
    by destruct (Registry.Remove _ _ _ _ _).
Qed.

Lemma other_ripple c d ev a sv a' sv' ad :
  own ev = true → set_op_of c ev (at_pc a) = None → step c ev (a, sv) = Stepped (a', sv') →
  run d (ripple c ev a) (ad, sv) = Stepped (ad, sv').
Proof.
  intros Ho Hop. destruct ev as [an x|an|an x|werr| |an op|k|op|rop| |]; try discriminate Ho.
  - unfold ripple. rewrite Hop. cbn [AttachHandler.step fst snd]. destruct (at_pc a); try discriminate. cbn [set_op_of] in Hop.
    unfold hello_step, goto. destruct x as [[typ payload]|e]; [|by intros [= _ <-]]. destruct (typ =? MsgHello); [|by intros [= _ <-]].
    cbn [negb]. destruct (unmarshal_hello payload) as [h|]; [|by intros [= _ <-]]. cbn in Hop. unfold positive in Hop.
    destruct (_ || _); [by intros [= _ <-]|discriminate Hop].
  - by apply main_ripple.
  - unfold ripple. rewrite Hop. cbn [AttachHandler.step fst snd]. destruct (at_pc a); try discriminate. cbn [set_op_of] in Hop.
    unfold read_step, goto. destruct x as [[typ payload]|e]; [|by intros [= _ <-]]. cbn [fst snd].
    destruct (typ =? MsgInput).
    { cbn [AttachHandler.run AttachHandler.step pty_run1 fst snd]. destruct (Pty.Write payload (sv_pty sv)) as [[u|e] p]; by intros [= _ <-]. }
    destruct (typ =? MsgSize).
    { destruct (unmarshal_size payload) as [ws|]; [|by intros [= _ <-]]. cbn in Hop. unfold positive in Hop.
      destruct (_ || _); [by intros [= _ <-]|discriminate Hop]. }
    destruct (typ =? MsgPing); [by intros [= _ <-]|]. destruct (typ =? MsgHello); [by intros [= _ <-]|].
    destruct (_ || _); by intros [= _ <-].
  - unfold ripple. rewrite Hop. cbn [AttachHandler.step fst snd]. destruct (writer_step werr a); try discriminate. by intros [= _ <-].
  - unfold ripple. rewrite Hop. cbn [AttachHandler.step]. unfold live_step. destruct (at_live a); try discriminate.
    + cbn [AttachHandler.run AttachHandler.step pty_run1 result fst snd].
      destruct (recv_sub _ _) as [[[ck| |]|e] p]; try discriminate; by intros [= _ <-].
    + destruct (send _ a); try discriminate. by intros [= _ <-].
  - unfold ripple. rewrite Hop. cbn [AttachHandler.step fst snd]. unfold forcedDetach. destruct (at_id a), (at_forced a); try discriminate; by intros [= _ <-].
Qed.

Lemma unwind_ripple c d a sv a' sv' ad :
  step c EvUnwind (a, sv) = Stepped (a', sv') → run d (ripple c EvUnwind a) (ad, sv) = Stepped (ad, sv').
Proof.
  cbn [AttachHandler.step ripple set_op_of]. unfold unwind_step, goto. destruct (at_pc a); try discriminate; by intros [= _ <-].
Qed.

Lemma ripple_run c d ev a sv a' sv' ad :
  c ≠ d → own ev = true → step c ev (a, sv) = Stepped (a', sv') →
  let '(rs, eff) := news c ev (at_pc a) sv in
  run d (ripple c ev a) (ad, sv) = Stepped (owe rs eff d ad, sv').
Proof.
  intros Hcd Ho Es. unfold news. destruct (set_op_of c ev (at_pc a)) as [[an op]|] eqn:Hop.
  - destruct (set_op_server _ _ _ _ _ _ _ _ Hop Es) as [Hc ->]. unfold ripple. rewrite Hop. apply run_one.
    cbn [AttachHandler.step]. unfold other_step. rewrite bool_decide_eq_false_2 by congruence. cbn [fst snd].
    destruct (set_call marshal an op sv) as [r sv1] eqn:E. assert (r = set_step op (sv_set sv)) as -> by (unfold set_call in E; congruence).
    cbn [snd]. unfold owe. do 2 f_equal.
    rewrite (bool_decide_ext (d ∈ filter _ _) (d ∈ res_receivers (set_step op (sv_set sv)))); [done|].
    rewrite list_elem_of_filter. naive_solver.
  - unfold owe. rewrite bool_decide_eq_false_2 by apply not_elem_of_nil. by apply (other_ripple c d ev a sv a').
Qed.

Lemma notify_lookup rs eff ms d :
  notify rs eff ms !! d = (λ m, mkMember (owe rs eff d (mb_attach m)) (mb_told m)) <$> ms !! d.
Proof. unfold notify. rewrite map_lookup_imap. by destruct (ms !! d). Qed.

Lemma news_self c ev x (sv : server T R) eff a : owe (news c ev x sv).1 eff c a = a.
Proof.
  unfold owe. rewrite bool_decide_eq_false_2; [done|]. unfold news. destruct (set_op_of c ev x) as [[an op]|]; [|apply not_elem_of_nil].
  cbn [fst]. rewrite list_elem_of_filter. naive_solver.
Qed.

Lemma deliver_server j (a : attach) (sv : server T R) a' sv' : deliver_step j (a, sv) = Stepped (a', sv') → sv' = sv.
Proof.
  unfold deliver_step. cbn [fst snd]. destruct (at_pending a !! j); [|discriminate]. destruct (send _ a); try discriminate. by intros [= _ <-].
Qed.

(** What a step of the room is, attachment by attachment. *)
Lemma member_step_spec c ev m rm rm' :
  member_step c ev m rm = Stepped rm' →
  ∃ a sv, step c ev (mb_attach m, rm_server rm) = Stepped (a, sv) ∧
    let '(rs, eff) := news c ev (at_pc (mb_attach m)) (rm_server rm) in
    rm' = mkRoom (notify rs eff (<[c := mkMember a (mb_told m ++ ((λ d, (d, eff)) <$> rs))]> (rm_members rm))) sv.
Proof.
  unfold member_step. destruct (step c ev _) as [| |[a sv]]; [done|done|]. intros E. exists a, sv. split; [done|]. revert E.
  destruct (news _ _ _ _) as [rs eff]. by intros [= <-].
Qed.

Lemma tell_step_spec c k m rm rm' :
  tell_step c k m rm = Stepped rm' →
  ∃ d ws md j y a, mb_told m !! k = Some (d, ws) ∧ rm_members rm !! d = Some md ∧
    list_find (λ x, x = ws) (at_pending (mb_attach md)) = Some (j, y) ∧
    deliver_step j (mb_attach md, rm_server rm) = Stepped (a, rm_server rm) ∧
    rm' = mkRoom (alter (λ m, mkMember (mb_attach m) (delete k (mb_told m))) c
                    (<[d := mkMember a (mb_told md)]> (rm_members rm))) (rm_server rm).
Proof.
  unfold tell_step. destruct (mb_told m !! k) as [[d ws]|] eqn:Ek; [|done]. destruct (rm_members rm !! d) as [md|] eqn:Ed; [|done].
  destruct (list_find _ _) as [[j y]|] eqn:Ej; [|done]. destruct (deliver_step j _) as [| |[a sv]] eqn:Es; [done|done|].
  pose proof (deliver_server _ _ _ _ _ Es) as ->. intros [= <-]. by exists d, ws, md, j, y, a.
Qed.

Lemma panic_step_spec c k m rm rm' :
  panic_step c k m rm = Stepped rm' →
  ∃ d ws md a sv, mb_told m !! k = Some (d, ws) ∧ rm_members rm !! d = Some md ∧ ch_closed (at_out (mb_attach md)) = true ∧
    step c EvUnwind (mb_attach m, rm_server rm) = Stepped (a, sv) ∧ rm' = mkRoom (<[c := mkMember a []]> (rm_members rm)) sv.
Proof.
  unfold panic_step. destruct (mb_told m !! k) as [[d ws]|] eqn:Ek; [|done]. cbn [mbind option_bind fst].
  destruct (rm_members rm !! d) as [md|] eqn:Ed; [|done]. destruct (ch_closed _) eqn:Ec; [|done].
  destruct (step c EvUnwind _) as [| |[a sv]] eqn:Es; [done|done|]. intros [= <-]. by exists d, ws, md, a, sv.
Qed.

(** At most one event, of another client, of its registration or of the PTY. *)
Lemma ripple_short c ev a : ripple c ev a = [] ∨ ∃ e, ripple c ev a = [e] ∧ match e with EvOther _ _ | EvReg _ | EvPty _ => True | _ => False end.
Proof.
  unfold ripple. destruct (set_op_of c ev (at_pc a)) as [[an o]|]; [by right; eexists|].
  destruct ev as [an x|an|an x|werr| |an o|k|o|rop| |]; try (by left).
  - destruct (at_pc a); try (by left); try (by right; eexists). destruct (at_id a); [by right; eexists|by left].
  - destruct x as [[typ payload]|e]; [|by left]. destruct (typ =? MsgInput); [by right; eexists|by left].
  - destruct (at_live a); try (by left). by right; eexists.
  - destruct (at_pc a); first [by left|by right; eexists].
Qed.

Lemma room_step_projects d ev rm rm' m :
  room_step ev rm = Stepped rm' → rm_members rm !! d = Some m →
  ∃ m', rm_members rm' !! d = Some m' ∧
    run d (project1 d ev rm) (mb_attach m, rm_server rm) = Stepped (mb_attach m', rm_server rm').
Proof.
  intros E Hd. destruct ev as [c|c ev|c k|c k|op]; cbn [room_step project1] in *.
  - destruct (rm_members rm !! c) eqn:Ec; [done|]. injection E as <-. exists m. cbn.
    rewrite lookup_insert_ne by congruence. done.
  - destruct (rm_members rm !! c) as [mc|] eqn:Ec; [|done]. destruct (negb (own ev) || busy ev mc) eqn:Eb; [done|].
    apply orb_false_iff in Eb as [Ho%negb_false_iff _]. apply member_step_spec in E as (a & sv & Es & E).
    case_bool_decide as Hcd.
    + subst c. rewrite Hd in Ec. injection Ec as <-. pose proof (news_self d ev (at_pc (mb_attach m)) (rm_server rm)) as Hn.
      destruct (news _ _ _ _) as [rs eff]. subst rm'. cbn [rm_members rm_server fst] in *.
      rewrite notify_lookup, lookup_insert_eq. eexists. split; [done|]. cbn [mb_attach]. rewrite Hn. by apply run_one.
    + pose proof (ripple_run c d ev (mb_attach mc) (rm_server rm) a sv (mb_attach m) Hcd Ho Es) as Hr.
      destruct (news _ _ _ _) as [rs eff]. subst rm'. cbn [rm_members rm_server].
      rewrite notify_lookup, lookup_insert_ne, Hd by done. eexists. split; [done|]. exact Hr.
  - destruct (rm_members rm !! c) as [mc|] eqn:Ec; [|done]. apply tell_step_spec in E as (e & ws & md & j & y & a & Ek & Ed & Ej & Es & ->).
    cbn [mbind option_bind rm_members rm_server]. rewrite Ek.
    assert (∃ m', alter (λ m, mkMember (mb_attach m) (delete k (mb_told m))) c (<[e := mkMember a (mb_told md)]> (rm_members rm)) !! d = Some m' ∧
      mb_attach m' = if decide (e = d) then a else mb_attach m) as (m' & Hm' & Ha).
    { destruct (decide (e = d)) as [->|Hed].
      - destruct (decide (c = d)) as [->|Hcd]; [rewrite lookup_alter_eq|rewrite lookup_alter_ne by done]; rewrite lookup_insert_eq; by eexists.
      - destruct (decide (c = d)) as [->|Hcd]; [rewrite lookup_alter_eq|rewrite lookup_alter_ne by done]; rewrite lookup_insert_ne, Hd by done;
          by eexists. }
    exists m'. split; [done|]. rewrite Ha. case_bool_decide as Hed.
    + subst e. rewrite Hd in Ed |- *. injection Ed as <-. cbn. rewrite Ej, decide_True by done. apply run_one. exact Es.
    + by rewrite decide_False.
  - destruct (rm_members rm !! c) as [mc|] eqn:Ec; [|done]. apply panic_step_spec in E as (e & ws & md & a & sv & _ & _ & _ & Es & ->).
    cbn [rm_members rm_server]. case_bool_decide as Hcd.
    + subst c. rewrite Hd in Ec. injection Ec as <-. rewrite lookup_insert_eq. eexists. split; [done|]. by apply run_one.
    + rewrite lookup_insert_ne by done. exists m. split; [done|]. exact (unwind_ripple c d _ _ _ _ _ Es).
  - injection E as <-. exists m. by split.
Qed.

Lemma room_run_projects d evs rm rm' m :
  room_run evs rm = Stepped rm' → rm_members rm !! d = Some m →
  ∃ m', rm_members rm' !! d = Some m' ∧
    run d (project d evs rm) (mb_attach m, rm_server rm) = Stepped (mb_attach m', rm_server rm').
Proof.
  revert rm m. induction evs as [|ev evs IH]; intros rm m; cbn [room_run project].
  - intros [= <-] Hd. by exists m.
  - destruct (room_step ev rm) as [| |rm1] eqn:E; [apply IH|done|]. intros Hr Hd.
    destruct (room_step_projects d ev rm rm1 m E Hd) as (m1 & H1 & R1). destruct (IH rm1 m1 Hr H1) as (m' & H2 & R2).
    exists m'. split; [done|]. by rewrite (run_app _ _ _ _ _ R1).
Qed.

(** For a client that has not connected yet. *)
Lemma room_step_absent d ev rm rm' :
  room_step ev rm = Stepped rm' → rm_members rm !! d = None →
  ∃ a, run d (project1 d ev rm) (new_attach, rm_server rm) = Stepped (a, rm_server rm') ∧ at_pc a = PcHello.
Proof.
  intros E Hd. destruct ev as [c|c ev|c k|c k|op]; cbn [room_step project1] in *.
  - destruct (rm_members rm !! c); [done|]. injection E as <-. by exists new_attach.
  - destruct (rm_members rm !! c) as [mc|] eqn:Ec; [|done]. destruct (negb (own ev) || busy ev mc) eqn:Eb; [done|].
    apply orb_false_iff in Eb as [Ho%negb_false_iff _]. apply member_step_spec in E as (a & sv & Es & E).
    assert (c ≠ d) as Hcd by congruence. rewrite bool_decide_eq_false_2 by done.
    pose proof (ripple_run c d ev (mb_attach mc) (rm_server rm) a sv new_attach Hcd Ho Es) as Hr.
    destruct (news _ _ _ _) as [rs eff]. subst rm'. eexists. split; [exact Hr|]. unfold owe. by destruct (bool_decide _).
  - destruct (rm_members rm !! c) as [mc|] eqn:Ec; [|done]. apply tell_step_spec in E as (e & ws & md & j & y & a & Ek & Ed & Ej & Es & ->).
    cbn [mbind option_bind]. rewrite Ek. rewrite bool_decide_eq_false_2 by congruence. by exists new_attach.
  - destruct (rm_members rm !! c) as [mc|] eqn:Ec; [|done]. apply panic_step_spec in E as (e & ws & md & a & sv & _ & _ & _ & Es & ->).
    rewrite bool_decide_eq_false_2 by congruence. exists new_attach. split; [exact (unwind_ripple c d _ _ _ _ _ Es)|done].
  - injection E as <-. by exists new_attach.
Qed.

(** Only connecting brings a client in. *)
Lemma room_step_new ev rm rm' d m' :
  room_step ev rm = Stepped rm' → rm_members rm !! d = None → rm_members rm' !! d = Some m' →
  ev = RConnect d ∧ m' = mkMember new_attach [] ∧ rm_server rm' = rm_server rm.
Proof.
  intros E Hd Hm'. destruct ev as [c|c ev|c k|c k|op]; cbn [room_step] in E.
  - destruct (rm_members rm !! c); [done|]. injection E as <-. cbn in Hm'.
    apply lookup_insert_Some in Hm' as [[-> <-]|[_ Hm']]; [done|congruence].
  - destruct (rm_members rm !! c) as [mc|] eqn:Ec; [|done]. destruct (_ || _); [done|].
    apply member_step_spec in E as (a & sv & _ & E). destruct (news _ _ _ _) as [rs eff]. subst rm'. cbn [rm_members] in Hm'.
    rewrite notify_lookup, lookup_insert_ne, Hd in Hm' by congruence. done.
  - destruct (rm_members rm !! c) as [mc|] eqn:Ec; [|done]. apply tell_step_spec in E as (e & ws & md & j & y & a & _ & Ed & _ & _ & ->).
    cbn [rm_members] in Hm'. rewrite lookup_alter_ne, lookup_insert_ne, Hd in Hm' by congruence. done.
  - destruct (rm_members rm !! c) as [mc|] eqn:Ec; [|done]. apply panic_step_spec in E as (e & ws & md & a & sv & _ & _ & _ & Es & ->).
    cbn [rm_members] in Hm'. rewrite lookup_insert_ne, Hd in Hm' by congruence. done.
  - injection E as <-. cbn in Hm'. congruence.
Qed.

(** The room before anyone connects. *)
Definition empty_room (rm : room) : Prop := rm_members rm = ∅ ∧ set_members (sv_set (rm_server rm)) = ∅.

#[local] Abbreviation member_inv c := (AttachHandler.member_inv (T := T) (R := R) c).
#[local] Abbreviation in_set d rm := (AttachHandler.member d (rm_server rm)).

(** What holds of an attachment in any surroundings holds of each in the room. *)
Definition room_inv (P : conn → sys (T := T) (R := R) → Prop) (rm : room) : Prop :=
  (∀ d m, rm_members rm !! d = Some m → member_inv d (mb_attach m, rm_server rm) ∧ P d (mb_attach m, rm_server rm)) ∧
  (∀ d, rm_members rm !! d = None → ¬ in_set d rm).

Lemma empty_room_inv P (rm : room) : empty_room rm → room_inv P rm.
Proof.
  intros [E1 E2]. split; [intros d m; by rewrite E1, lookup_empty|].
  intros d _. unfold AttachHandler.member. rewrite E2, lookup_empty. by intros [].
Qed.

Section lift.
Context (P : conn → sys (T := T) (R := R) → Prop).
Context (Hnew : ∀ d sv, ¬ AttachHandler.member d sv → P d (new_attach, sv)).
Context (Hstep : ∀ d ev s s', P d s → step d ev s = Stepped s' → P d s').

Lemma run_keeps_member d evs s s' : run d evs s = Stepped s' → member_inv d s → member_inv d s'.
Proof. intros Hr H. eapply run_inv; [|exact H|exact Hr]. intros ev s1 s2 H1 H2. by eapply step_member. Qed.

Lemma room_step_inv ev rm rm' : room_step ev rm = Stepped rm' → room_inv P rm → room_inv P rm'.
Proof.
  intros E [H1 H2].
  assert (∀ d, rm_members rm !! d = None → ¬ in_set d rm') as Habs.
  { intros d Hd. destruct (room_step_absent d ev rm rm' E Hd) as (a & Hr & Ha).
    apply run_keeps_member in Hr as [Hm _]; [|split; [split; [|done]; intros Hm; by destruct (H2 d Hd)|done]].
    cbn [fst snd] in Hm. rewrite Ha in Hm. by destruct Hm. }
  split.
  - intros d m' Hm'. destruct (rm_members rm !! d) as [m|] eqn:Hd.
    + destruct (room_step_projects d ev rm rm' m E Hd) as (m1 & Hm1 & Hr). rewrite Hm' in Hm1. injection Hm1 as <-.
      destruct (H1 d m Hd) as [Hi Hp]. split; [by eapply run_keeps_member|].
      eapply run_inv; [|exact Hp|exact Hr]. apply Hstep.
    + destruct (room_step_new ev rm rm' d m' E Hd Hm') as (-> & -> & Es).
      rewrite Es. specialize (H2 d Hd). split; [|by apply Hnew]. split; [|done]. by split.
  - intros d Hd. destruct (rm_members rm !! d) as [m|] eqn:Hd'; [|by apply Habs].
    destruct (room_step_projects d ev rm rm' m E Hd') as (m1 & Hm1 & _). congruence.
Qed.

Lemma room_run_inv evs rm rm' : room_run evs rm = Stepped rm' → empty_room rm → room_inv P rm'.
Proof.
  intros Hr He. assert (room_inv P rm) as Hi by by apply empty_room_inv. clear He. revert rm Hi Hr. induction evs as [|ev evs IH]; intros rm Hi; cbn [room_run]; [by intros [= <-]|].
  destruct (room_step ev rm) as [| |rm1] eqn:E; [by apply IH|done|]. apply IH. by eapply room_step_inv.
Qed.
End lift.

Lemma room_run_app evs1 evs2 rm rm1 : room_run evs1 rm = Stepped rm1 → room_run (evs1 ++ evs2) rm = room_run evs2 rm1.
Proof.
  revert rm. induction evs1 as [|ev evs1 IH]; intros rm; cbn [room_run app]; [by intros [= ->]|].
  destruct (room_step ev rm) as [| |rm']; [apply IH|done|apply IH].
Qed.

(** No step panics but the [sendSize] call to another client. *)
Definition open_inv (a : attach) : Prop :=
  match at_pc a with PcCloseOut _ | PcJoinWriter _ => at_live a = LDone | _ => True end ∧
  (ch_closed (at_out a) = true →
   match at_pc a with PcJoinWriter _ | PcUnregister _ | PcRemove _ | PcDone _ => at_live a = LDone | _ => False end).

Lemma open_goto x (a' : attach) :
  at_pc a' = x → ch_closed (at_out a') = false → match x with PcCloseOut _ | PcJoinWriter _ => False | _ => True end → open_inv a'.
Proof. intros E Hc Hx. split; [by rewrite E; destruct x|by rewrite Hc]. Qed.

Lemma open_same (a a' : attach) :
  at_pc a' = at_pc a → ch_closed (at_out a') = ch_closed (at_out a) → at_live a' = at_live a → open_inv a → open_inv a'.
Proof. unfold open_inv. by intros -> -> ->. Qed.

(** Where the queue is open. *)
Lemma open_at a :
  open_inv a → match at_pc a with PcJoinWriter _ | PcUnregister _ | PcRemove _ | PcDone _ => False | _ => True end ∨ at_live a ≠ LDone →
  ch_closed (at_out a) = false.
Proof. intros [_ H] Hx. apply not_true_iff_false. intros Hc. specialize (H Hc). by destruct (at_pc a), Hx as [?|?]. Qed.

Lemma send_open f (a a' : attach) : send f a = Stepped a' → open_inv a → open_inv a'.
Proof.
  intros [Hc ->]%send_stepped H. apply (open_same a); [done|by cbn; rewrite Hc|done|done].
Qed.

Lemma main_open d an s s' : main_step marshal noHistory d (live d) an s = Stepped s' → open_inv s.1 → open_inv s'.1.
Proof.
  destruct s as [a sv]. cbn [fst]. unfold main_step, send_then, register_step, subscribe_step, goto. cbn [fst snd]. intros E H.
  pose proof (open_at a H) as Hc. destruct (at_pc a) eqn:Epc; try discriminate E;
    try (destruct (send _ a) as [| |a1] eqn:Es; try discriminate E; apply send_stepped in Es as [Hs ->]; injection E as <-; by eapply open_goto);
    specialize (Hc ltac:(by left)) || clear Hc.
  - destruct (sv_reg sv) as [[g dk]|]; [destruct (Registry.Add _ _ _ _ _ _ _ _) as [[[i|e] g'] dk']|]; injection E as <-; by eapply open_goto.
  - destruct (SubscribeWithSnapshotParts _ _) as [[[sb sc]|e] p]; injection E as <-; by eapply open_goto.
  - injection E as <-. by eapply open_goto.
  - destruct (at_live a) eqn:El; try discriminate E. injection E as <-. split; cbn; [done|]. by rewrite Hc.
  - injection E as <-. destruct H as [H _]. rewrite Epc in H. by split.
  - destruct (writer_done _); [|discriminate E]. injection E as <-. destruct H as [H _]. rewrite Epc in H. by split.
  - injection E as <-. destruct H as [_ H]. rewrite Epc in H. by split.
  - injection E as <-. destruct H as [_ H]. rewrite Epc in H. by split.
Qed.

Lemma step_open d ev s s' : step d ev s = Stepped s' → open_inv s.1 → open_inv s'.1.
Proof.
  destruct s as [a sv]. cbn [fst]. intros E H. pose proof (open_at a H) as Hc.
  destruct ev as [an x|an|an x|werr| |an op|k|op|rop| |]; cbn [AttachHandler.step fst snd] in E.
  - destruct (at_pc a) eqn:Epc; try discriminate E. specialize (Hc ltac:(by left)). unfold hello_step, goto in E.
    repeat (case_match; try discriminate E); injection E as <-; by eapply open_goto.
  - by eapply main_open.
  - destruct (at_pc a) eqn:Epc; try discriminate E. specialize (Hc ltac:(by left)). unfold read_step, goto in E.
    repeat (case_match; try discriminate E); injection E as <-; first [done|by eapply open_goto].
  - destruct (writer_step werr a) as [| |a1] eqn:Ew; try discriminate E. injection E as <-.
    apply writer_step_flow in Ew as (_ & Ep & El & _ & _ & Ec). by apply (open_same a).
  - unfold live_step in E. destruct (at_live a) eqn:El; try discriminate E; specialize (Hc ltac:(by right)); destruct H as [H _]; rewrite El in H.
    + destruct (recv_sub _ _) as [[[c| |]|e] p]; try discriminate E; injection E as <-;
        eapply open_goto; try done; cbn; by destruct (at_pc a).
    + destruct (send _ a) as [| |a1] eqn:Es; try discriminate E. injection E as <-. apply send_stepped in Es as [Hs ->].
      eapply open_goto; try done. cbn. by destruct (at_pc a).
  - unfold other_step in E. destruct (bool_decide _); [discriminate E|]. destruct (set_call _ _ _ _) as [r sv1]. injection E as <-.
    cbn [fst]. by destruct (bool_decide _).
  - unfold deliver_step in E. cbn [fst snd] in E. destruct (at_pending a !! k); [|discriminate E].
    destruct (send _ a) as [| |a1] eqn:Es; try discriminate E. injection E as <-. by apply send_open in Es.
  - by injection E as <-.
  - by injection E as <-.
  - unfold forcedDetach in E. destruct (at_id a), (at_forced a); try discriminate E; by injection E as <-.
  - unfold unwind_step, goto in E. cbn [fst snd] in E. destruct (at_pc a) eqn:Epc; try discriminate E; injection E as <-;
      [eapply open_goto; [done|apply Hc; by left|done]..|]. destruct H as [_ H]. rewrite Epc in H. by split.
Qed.

(** The steps of an attachment's own goroutines do not panic. *)
Lemma own_no_panic d ev s : open_inv s.1 → own ev = true → step d ev s ≠ Panicked.
Proof.
  destruct s as [a sv]. cbn [fst]. intros H Ho. pose proof (open_at a H) as Hc.
  assert (∀ f, match at_pc a with PcJoinWriter _ | PcUnregister _ | PcRemove _ | PcDone _ => False | _ => True end ∨ at_live a ≠ LDone → send f a ≠ Panicked) as Hs
    by (intros f Hx; unfold send; rewrite (Hc Hx); by destruct (_ <? _)%nat).
  destruct ev as [an x|an|an x|werr| |an op|k|op|rop| |]; try discriminate Ho; cbn [AttachHandler.step fst snd].
  - destruct (at_pc a); try done. unfold hello_step, goto. by repeat case_match.
  - unfold main_step, send_then, register_step, subscribe_step, goto. cbn [fst snd].
    destruct (at_pc a) eqn:Epc; try done; try (specialize (λ f, Hs f ltac:(by left)) as Hs; destruct (send _ a) eqn:Es; try done; by destruct (Hs _ Es));
      by repeat case_match.
  - destruct (at_pc a); try done. unfold read_step, goto. by repeat case_match.
  - destruct (writer_step werr a) eqn:Ew; try done. unfold writer_step in Ew. by repeat (case_match; try discriminate Ew).
  - unfold live_step. destruct (at_live a) eqn:El; try done; [by repeat case_match|]. destruct (send _ a) eqn:Es; try done.
    by destruct (Hs _ ltac:(by right) Es).
  - unfold forcedDetach. by destruct (at_id a), (at_forced a).
Qed.

Lemma room_step_survives ev rm :
  (∀ d m, rm_members rm !! d = Some m → open_inv (mb_attach m)) → room_step ev rm ≠ Panicked.
Proof.
  intros H. destruct ev as [c|c ev|c k|c k|op]; cbn [room_step].
  - by destruct (rm_members rm !! c).
  - destruct (rm_members rm !! c) as [m|] eqn:Ec; [|done]. destruct (negb (own ev) || busy ev m) eqn:Eb; [done|].
    apply orb_false_iff in Eb as [Ho%negb_false_iff _]. unfold member_step. pose proof (own_no_panic c ev (mb_attach m, rm_server rm) (H c m Ec) Ho) as Hn.
    destruct (step c ev _) as [| |[a sv]]; [done|done|]. by destruct (news _ _ _ _).
  - destruct (rm_members rm !! c) as [m|] eqn:Ec; [|done]. unfold tell_step. by repeat case_match.
  - destruct (rm_members rm !! c) as [m|] eqn:Ec; [|done]. unfold panic_step. by repeat case_match.
  - done.
Qed.

Lemma room_run_survives evs rm :
  room_inv (λ _ s, open_inv s.1) rm → ∃ rm', room_run evs rm = Stepped rm'.
Proof.
  revert rm. induction evs as [|ev evs IH]; intros rm Hi; cbn [room_run]; [by eexists|].
  destruct (room_step ev rm) as [| |rm1] eqn:E; [by apply IH| |].
  - destruct (room_step_survives ev rm); [|done]. intros d m Hd. by destruct (proj1 Hi d m Hd).
  - apply IH. eapply room_step_inv; [..|exact E|exact Hi]; [done|]. intros d ev' s s' H1 H2. by eapply step_open.
Qed.

(** A client got in by connecting. *)
Lemma room_connected evs rm rm' d m :
  room_run evs rm = Stepped rm' → rm_members rm = ∅ → rm_members rm' !! d = Some m →
  ∃ evs1 evs2 rm1, evs = evs1 ++ RConnect d :: evs2 ∧ room_run evs1 rm = Stepped rm1 ∧ rm_members rm1 !! d = None.
Proof.
  intros Hr Hem. assert (rm_members rm !! d = None) as Hn by by rewrite Hem, lookup_empty. clear Hem. revert rm Hn Hr.
  induction evs as [|ev evs IH]; intros rm Hn; cbn [room_run]; [intros [= <-]; congruence|].
  destruct (room_step ev rm) as [| |rm1] eqn:E; [|done|]; intros Hr Hd.
  - destruct (IH rm Hn Hr Hd) as (e1 & e2 & r1 & -> & H1 & H2). exists (ev :: e1), e2, r1. cbn [room_run app]. by rewrite E.
  - destruct (rm_members rm1 !! d) as [md|] eqn:Ed1.
    + destruct (room_step_new ev rm rm1 d md E Hn Ed1) as [-> _]. by exists [], evs, rm.
    + destruct (IH rm1 Ed1 Hr Hd) as (e1 & e2 & r1 & -> & H1 & H2). exists (ev :: e1), e2, r1. cbn [room_run app]. by rewrite E.
Qed.

(** C4: A session with many clients is many runs of the handler.  Whatever the
    clients of a session do, in any schedule of all their goroutines, the process
    survives: nothing panics but [sendSize] calls in goroutines whose panics
    [net/http] recovers.  What each client goes through, from its connection on, is
    a run of [serveOne] alone against the server, with the others' part in it as
    events of its surroundings; its connection was not in the [AttachSet] when it
    started, and is exactly between its [Add] and its [Remove]. *)
Theorem room_refines evs rm :
  empty_room rm →
  ∃ rm', room_run evs rm = Stepped rm' ∧
  ∀ d m, rm_members rm' !! d = Some m →
    (in_set d rm' ↔ joined (at_pc (mb_attach m))) ∧
    ∃ evs1 evs2 rm1, evs = evs1 ++ RConnect d :: evs2 ∧ room_run evs1 rm = Stepped rm1 ∧ rm_members rm1 !! d = None ∧ ¬ in_set d rm1 ∧
      let rm1' := mkRoom (<[d := mkMember new_attach []]> (rm_members rm1)) (rm_server rm1) in
      run d (project d evs2 rm1') (new_attach, rm_server rm1) = Stepped (mb_attach m, rm_server rm').
Proof.
  intros He. destruct (room_run_survives evs rm) as [rm' Hr]; [by apply empty_room_inv|]. exists rm'. split; [done|]. intros d m Hd.
  destruct (room_run_inv (λ _ _, True) ltac:(done) ltac:(done) evs rm rm' Hr He) as [Hm _].
  destruct (Hm d m Hd) as [[Hj _] _]. split; [exact Hj|].
  destruct (room_connected evs rm rm' d m Hr (proj1 He) Hd) as (evs1 & evs2 & rm1 & -> & H1 & H2). exists evs1, evs2, rm1.
  split; [done|]. split; [done|]. split; [done|].
  destruct (room_run_inv (λ _ _, True) ltac:(done) ltac:(done) evs1 rm rm1 H1 He) as [_ Habs]. split; [by apply Habs|].
  rewrite (room_run_app _ _ _ _ H1) in Hr. cbn [room_run room_step] in Hr. rewrite H2 in Hr.
  destruct (room_run_projects d evs2 _ rm' (mkMember new_attach []) Hr (lookup_insert_eq _ _ _)) as (m' & Hm' & Hrun).
  rewrite Hd in Hm'. by injection Hm' as <-.
Qed.
End room.

(** ** Examples: two and three clients of one session *)

Definition ex_room : room := mkRoom ∅ (mkServer
  (mkPty (T := tape) (Some [TapeByte 65]) None (ground false) (sink []) 100 40 ∅ ∅ None false) NewAttachSet (None : option (attachRegistry Z * disk))).

Definition ex_room_step := room_step (IG := counter_gen) (λ _, None) ex_hello ex_size false id.
Definition ex_room_run := room_run (IG := counter_gen) (λ _, None) ex_hello ex_size false id.

(** Client [c] connects and gets as far as its read loop. *)
Definition ex_join (c : conn) : list room_event :=
  RConnect c :: RStep c (EvHello ex_answers (Ok (MsgHello, []))) :: repeat (RStep c (EvMain ex_answers)) 5.

(** Two clients; output arrives, one of them leaves. *)
Definition ex_visit : list room_event :=
  ex_join 1 ++ ex_join 2 ++
  [RPty (PChunk 0 [66]); RStep 1 EvLive; RStep 2 EvLive; RStep 2 (EvRead ex_answers (Ok (MsgSize, []))); RTell 2 0; RStep 2 (EvMain ex_answers);
   RStep 1 (EvRead ex_answers (Ok (MsgInput, [120])));
   RStep 1 (EvRead ex_answers (Err (WireIO EOF))); RStep 1 (EvMain ex_answers)].

Lemma room_refines_witness :
  ∃ rm' m, ex_room_run ex_visit ex_room = Stepped rm' ∧ rm_members rm' !! 1%nat = Some m ∧
    ∃ evs1 evs2, ex_visit = evs1 ++ RConnect 1 :: evs2.
Proof.
  assert (∃ rm' m, ex_room_run ex_visit ex_room = Stepped rm' ∧ rm_members rm' !! 1%nat = Some m) as (rm' & m & H1 & Hm)
    by (do 2 eexists; split; [vm_compute; reflexivity|reflexivity]).
  exists rm', m. split; [exact H1|]. split; [exact Hm|].
  pose proof (room_refines (IG := counter_gen) (λ _, None) ex_hello ex_size false id ex_visit ex_room (conj eq_refl eq_refl)) as H.
  change (room_run (IG := counter_gen) (λ _, None) ex_hello ex_size false id ex_visit ex_room) with (ex_room_run ex_visit ex_room) in H.
  destruct H as (rm2 & E2 & H). rewrite H1 in E2. injection E2 as <-. destruct (H 1%nat m Hm) as (_ & evs1 & evs2 & rm1 & E & _). exists evs1, evs2. exact E.
Defined.
