(* ===== verification/RoomClients.v ===== *)
(** * What the clients of a session do to each other

    [Room] puts the attachments of a session together.  Here: every [sendSize]
    call a client is owed is one another client's goroutine is making; when the
    [AttachSet] calls do not overlap everyone is told the size in force; when they
    do, a client may keep an old one; and a client whose connection died keeps the
    others waiting. *)
From S2P Require Import Prelude GoBase StreamFilter QueryStripper PrimaryFilter Recorder Recording Terminal Channel Wire State ShortId Store Pty PtySafety AttachSet Registry AttachHandler Room.
Open Scope Z_scope.

(** ** The calls still to be made *)

(** Those of one goroutine that are for client [d]. *)
Definition calls_to (d : conn) (l : list (conn * PTYSize)) : list PTYSize := (filter (λ x, x.1 = d) l).*2.

(** Those of all of them. *)
Definition owed (d : conn) (tm : gmap conn (list (conn * PTYSize))) : list PTYSize :=
  map_to_list tm ≫= λ x, calls_to d x.2.

Lemma calls_to_app d l l' : calls_to d (l ++ l') = calls_to d l ++ calls_to d l'.
Proof. unfold calls_to. by rewrite filter_app, fmap_app. Qed.

Lemma calls_to_perm d l l' : l ≡ₚ l' → calls_to d l ≡ₚ calls_to d l'.
Proof. unfold calls_to. by intros ->. Qed.

Lemma calls_to_news d eff rs :
  NoDup rs → calls_to d ((λ e, (e, eff)) <$> rs) = if bool_decide (d ∈ rs) then [eff] else [].
Proof.
  unfold calls_to. intros Hnd. induction Hnd as [|e rs He Hnd IH]; [by rewrite bool_decide_eq_false_2 by apply not_elem_of_nil|].
  rewrite fmap_cons. destruct (decide (e = d)) as [->|Hed].
  - rewrite filter_cons_True, fmap_cons, IH, bool_decide_eq_false_2 by done. rewrite bool_decide_eq_true_2 by by left. done.
  - rewrite filter_cons_False, IH by done. by rewrite (bool_decide_ext (d ∈ e :: rs) (d ∈ rs)) by set_solver.
Qed.

(** One goroutine's calls change. *)
Lemma owed_insert d c l l' (tm : gmap conn (list (conn * PTYSize))) :
  tm !! c = Some l → owed d (<[c := l']> tm) ++ calls_to d l ≡ₚ owed d tm ++ calls_to d l'.
Proof.
  intros Hc. unfold owed. rewrite <- (insert_id tm c l Hc) at 2. rewrite <- !(insert_delete_eq tm).
  rewrite !map_to_list_insert by apply lookup_delete_eq. rewrite !bind_cons. cbn [snd]. solve_Permutation.
Qed.

Lemma owed_none d (tm : gmap conn (list (conn * PTYSize))) :
  (∀ c l, tm !! c = Some l → calls_to d l = []) → owed d tm = [].
Proof.
  intros H. unfold owed. assert (Forall (λ x, calls_to d x.2 = []) (map_to_list tm)) as Hf.
  { apply Forall_forall. intros [c l] Hin. apply elem_of_map_to_list in Hin. by apply (H c). }
  induction Hf as [|x l Hx _ IH]; [done|]. by rewrite bind_cons, Hx, IH.
Qed.

Lemma receivers_nodup op a : NoDup (res_receivers (set_step op a)).
Proof.
  assert (∀ op m, NoDup (step_receivers op m)) as Hs.
  { intros o m. assert (NoDup (all_members m)) by apply NoDup_fst_map_to_list. destruct o; [by apply NoDup_filter|done..]. }
  destruct (set_step_cases op a) as [-> |(a1 & -> & _)]; [constructor|].
  destruct (finish_op_spec (step_receivers op) a1) as (_ & _ & _ & _ & -> & _). case_bool_decide; [constructor|apply Hs].
Qed.

Lemma receivers_members op a d :
  d ∈ res_receivers (set_step op a) → is_Some (set_members (res_set (set_step op a)) !! d).
Proof.
  destruct (set_step_cases op a) as [-> |(a1 & -> & _)]; [intros H; by apply not_elem_of_nil in H|].
  destruct (finish_op_spec (step_receivers op) a1) as (_ & -> & _ & _ & -> & _).
  case_bool_decide; [intros Hd; by apply not_elem_of_nil in Hd|]. rewrite elem_of_receivers. by intros [Hd _].
Qed.

(** How what is owed and what is still being handed out compare: equal, or less
    when a goroutine that owed it has panicked. *)
Class Owing (Rel : list PTYSize → list PTYSize → Prop) : Prop := {
  owing_perm : Proper ((≡ₚ) ==> (≡ₚ) ==> iff) Rel;
  owing_nil : Rel [] [];
  owing_cons x a b : Rel (x :: a) (x :: b) ↔ Rel a b
}.

#[global] Existing Instance owing_perm.

#[global] Instance owing_exact : Owing (≡ₚ).
Proof. split; [apply _|done|]. intros x a b. split; [apply Permutation_cons_inv|by intros ->]. Qed.

#[global] Instance owing_less : Owing submseteq.
Proof. split; [apply _|done|]. intros x a b. split; [by apply (submseteq_app_inv_l _ _ [x])|by apply submseteq_skip]. Qed.

Lemma owing_opt Rel `{!Owing Rel} (b : bool) x l l' :
  Rel l l' → Rel (l ++ (if b then [x] else [])) (l' ++ (if b then [x] else [])).
Proof. intros H. destruct b; [|by rewrite !app_nil_r]. rewrite !(Permutation_app_comm _ [x]). by apply owing_cons. Qed.

Section clients.
Context {T : Type} {TO : TermOps T} {R : Type} {IG : IdGen R}.
Context (marshal : StateFile → option (list byte)).
Context (unmarshal_hello : list byte → option Hello) (unmarshal_size : list byte → option PTYSize).
Context (noHistory : bool) (live : conn → chan_id).

#[local] Abbreviation step c := (AttachHandler.step marshal unmarshal_hello unmarshal_size noHistory c (live c)).
#[local] Abbreviation room := (Room.room (T := T) (R := R)).
#[local] Abbreviation room_step := (Room.room_step marshal unmarshal_hello unmarshal_size noHistory live).
#[local] Abbreviation room_run := (Room.room_run marshal unmarshal_hello unmarshal_size noHistory live).
#[local] Abbreviation news := (Room.news (T := T) (R := R) unmarshal_hello unmarshal_size).
#[local] Abbreviation room_inv := (Room.room_inv (T := T) (R := R)).

(** A step of an attachment's own goroutines leaves what it is owed alone. *)
Lemma send_pending f a a' : send f a = Stepped a' → at_pending a' = at_pending a.
Proof. by intros [_ ->]%send_stepped. Qed.

Lemma own_pending c ev (s s' : sys (T := T) (R := R)) :
  own ev = true → step c ev s = Stepped s' → at_pending s'.1 = at_pending s.1.
Proof.
  intros Ho. destruct s as [a sv]. destruct ev as [an x|an|an x|werr| |an op|k|op|rop| |]; try discriminate Ho;
    cbn [AttachHandler.step fst snd]; intros E.
  - destruct (at_pc a); try discriminate E. unfold hello_step, goto in E. repeat (case_match; try discriminate E); by injection E as <-.
  - unfold main_step, send_then, register_step, subscribe_step, goto in E. cbn [fst snd] in E.
    destruct (at_pc a); try discriminate E;
      try (destruct (send _ a) as [| |a1] eqn:Es; try discriminate E; injection E as <-; exact (send_pending _ _ _ Es));
      repeat (case_match; try discriminate E); by simplify_eq.
  - destruct (at_pc a); try discriminate E. unfold read_step, goto in E. repeat (case_match; try discriminate E); by injection E as <-.
  - destruct (writer_step werr a) as [| |a1] eqn:Ew; try discriminate E. injection E as <-. unfold writer_step in Ew.
    repeat (case_match; try discriminate Ew); by injection Ew as <-.
  - unfold live_step in E. destruct (at_live a); try discriminate E.
    + destruct (recv_sub _ _) as [[[ck| |]|e] p]; try discriminate E; by injection E as <-.
    + destruct (send _ a) as [| |a1] eqn:Es; try discriminate E. injection E as <-. exact (send_pending _ _ _ Es).
  - unfold forcedDetach in E. destruct (at_id a), (at_forced a); try discriminate E; by injection E as <-.
Qed.

(** Each [Size] frame a goroutine is going to send is owed to another client that
    is connected.  (A goroutine that panics leaves what it owed.) *)
Definition owed_inv (Rel : list PTYSize → list PTYSize → Prop) (rm : room) : Prop :=
  (∀ d m, rm_members rm !! d = Some m → Rel (owed d (mb_told <$> rm_members rm)) (at_pending (mb_attach m))) ∧
  (∀ c m d ws, rm_members rm !! c = Some m → (d, ws) ∈ mb_told m → d ≠ c ∧ is_Some (rm_members rm !! d)).

Section owing.
Context (Rel : list PTYSize → list PTYSize → Prop) `{!Owing Rel}.

Lemma owed_stranger d (rm : room) : owed_inv Rel rm → rm_members rm !! d = None → owed d (mb_told <$> rm_members rm) = [].
Proof.
  intros [_ H] Hd. apply owed_none. intros c l. rewrite lookup_fmap_Some. intros (m & <- & Hc).
  unfold calls_to. destruct (filter _ (mb_told m)) as [|[e ws] l'] eqn:El; [done|].
  assert ((e, ws) ∈ filter (λ x, x.1 = d) (mb_told m)) as [He Hin]%list_elem_of_filter by (rewrite El; left). cbn in He. subst e.
  destruct (H c m d ws Hc Hin) as [_ [? Hs]]. congruence.
Qed.

Lemma told_notify rs eff (ms : gmap conn member) : mb_told <$> notify rs eff ms = mb_told <$> ms.
Proof. apply map_eq. intros d. rewrite !lookup_fmap, notify_lookup. by destruct (ms !! d). Qed.

Lemma news_nodup c ev x (sv : server T R) : NoDup (news c ev x sv).1.
Proof.
  unfold Room.news. destruct (set_op_of _ _ c ev x) as [[an op]|]; [|constructor]. apply NoDup_filter, receivers_nodup.
Qed.

Lemma owe_pending rs eff d a : at_pending (owe rs eff d a) = at_pending a ++ (if bool_decide (d ∈ rs) then [eff] else []).
Proof. unfold owe. destruct (bool_decide _); [done|]. by rewrite app_nil_r. Qed.

Lemma connect_owed c (rm : room) :
  owed_inv Rel rm → rm_members rm !! c = None → owed_inv Rel (mkRoom (<[c := mkMember new_attach []]> (rm_members rm)) (rm_server rm)).
Proof.
  intros Hoi Hc. pose proof Hoi as [H1 H2].
  assert (∀ d, owed d (mb_told <$> <[c := mkMember new_attach []]> (rm_members rm)) ≡ₚ owed d (mb_told <$> rm_members rm)) as Ho.
  { intros d. rewrite fmap_insert. unfold owed. rewrite map_to_list_insert by by rewrite lookup_fmap, Hc. done. }
  split; cbn [rm_members].
  - intros d m Hm. rewrite Ho. apply lookup_insert_Some in Hm as [[<- <-]|[_ Hm]]; [|by apply H1].
    rewrite (owed_stranger c rm Hoi Hc). apply owing_nil.
  - intros e m d ws Hm Hin. apply lookup_insert_Some in Hm as [[<- <-]|[Hne Hm]]; [by apply not_elem_of_nil in Hin|].
    destruct (H2 e m d ws Hm Hin) as [Hd [md Hmd]]. split; [done|]. exists md. rewrite lookup_insert_ne; congruence.
Qed.

(** Those a step has to tell are connected. *)
Lemma news_connected c ev m rm a sv d :
  room_inv (λ _ _, True) rm → rm_members rm !! c = Some m → step c ev (mb_attach m, rm_server rm) = Stepped (a, sv) →
  d ∈ (news c ev (at_pc (mb_attach m)) (rm_server rm)).1 → d ≠ c ∧ is_Some (rm_members rm !! d).
Proof.
  intros [_ Hri] Hc Es Hd. unfold Room.news in Hd. destruct (set_op_of _ _ c ev _) as [[an op]|] eqn:Hop;
    [|by apply not_elem_of_nil in Hd]. cbn [fst] in Hd. apply list_elem_of_filter in Hd as [Hne Hd]. split; [done|].
  destruct (rm_members rm !! d) eqn:Ed; [by eexists|]. exfalso. apply (Hri d Ed). apply receivers_members in Hd.
  destruct (set_op_server _ _ _ _ _ _ _ _ _ _ _ _ _ Hop Es) as [Hcn _]. rewrite set_step_other in Hd by congruence. done.
Qed.

Lemma member_step_owed c ev m rm rm' :
  room_inv (λ _ _, True) rm → owed_inv Rel rm → rm_members rm !! c = Some m → own ev = true →
  Room.member_step marshal unmarshal_hello unmarshal_size noHistory live c ev m rm = Stepped rm' → owed_inv Rel rm'.
Proof.
  intros Hri [H1 H2] Hc Ho (a & sv & Es & E)%member_step_spec.
  pose proof (own_pending c ev _ _ Ho Es) as Ep. pose proof (news_nodup c ev (at_pc (mb_attach m)) (rm_server rm)) as Hnd.
  pose proof (news_connected c ev m rm a sv) as Hcn. pose proof (news_self unmarshal_hello unmarshal_size live c ev (at_pc (mb_attach m)) (rm_server rm)) as Hs.
  destruct (news c ev _ _) as [rs eff]. subst rm'. cbn [fst] in *. set (ms' := <[c := _]> (rm_members rm)).
  assert (∀ d, owed d (mb_told <$> notify rs eff ms') ≡ₚ owed d (mb_told <$> rm_members rm) ++ (if bool_decide (d ∈ rs) then [eff] else [])) as Hw.
  { intros d. rewrite told_notify. unfold ms'. rewrite fmap_insert. cbn [mb_told].
    apply (Permutation_app_inv_r (calls_to d (mb_told m))). rewrite owed_insert by by rewrite lookup_fmap, Hc.
    rewrite calls_to_app, calls_to_news by done. solve_Permutation. }
  split; cbn [rm_members].
  - intros d md Hd. rewrite Hw. rewrite notify_lookup in Hd. unfold ms' in Hd. destruct (decide (c = d)) as [<-|Hcd].
    + rewrite lookup_insert_eq in Hd. injection Hd as <-. cbn [mb_attach]. rewrite owe_pending, Ep. cbn [fst]. by apply owing_opt, H1.
    + rewrite lookup_insert_ne in Hd by done. destruct (rm_members rm !! d) as [md0|] eqn:Ed; [|done]. injection Hd as <-. cbn [mb_attach].
      rewrite owe_pending. by apply owing_opt, H1.
  - assert (∀ d, is_Some (rm_members rm !! d) → is_Some (notify rs eff ms' !! d)) as Hk.
    { intros d [md Hmd]. rewrite notify_lookup. unfold ms'. destruct (decide (c = d)) as [<-|]; [rewrite lookup_insert_eq; by eexists|].
      rewrite lookup_insert_ne, Hmd by done. by eexists. }
    intros e me d ws He Hin. rewrite notify_lookup in He. unfold ms' in He. destruct (decide (c = e)) as [<-|Hce].
    + rewrite lookup_insert_eq in He. injection He as <-. cbn [mb_told] in Hin. apply elem_of_app in Hin as [Hin|Hin].
      * destruct (H2 c m d ws Hc Hin). by split; [|apply Hk].
      * apply list_elem_of_fmap in Hin as (x & [= -> ->] & Hx). destruct (Hcn x Hri Hc Es Hx). by split; [|apply Hk].
    + rewrite lookup_insert_ne in He by done. destruct (rm_members rm !! e) as [me0|] eqn:Ee; [|done]. injection He as <-.
      destruct (H2 e me0 d ws Ee Hin). by split; [|apply Hk].
Qed.

Lemma tell_step_owed c k m rm rm' :
  owed_inv Rel rm → rm_members rm !! c = Some m → tell_step c k m rm = Stepped rm' → owed_inv Rel rm'.
Proof.
  intros [H1 H2] Hc (d & ws & md & j & y & a & Ek & Ed & Ej & Es & ->)%tell_step_spec.
  destruct (H2 c m d ws Hc (list_elem_of_lookup_2 _ _ _ Ek)) as [Hdc _].
  apply list_find_Some in Ej as (Ej & -> & _).
  assert (at_pending (mb_attach md) ≡ₚ ws :: at_pending a) as Ha.
  { unfold deliver_step in Es. cbn [fst snd] in Es. rewrite Ej in Es. destruct (send _ _) as [| |a1] eqn:Esn; try done. injection Es as <-.
    cbn [at_pending with_pending]. rewrite (send_pending _ _ _ Esn). by apply delete_Permutation. }
  set (ms' := alter _ c _).
  assert (∀ e, ms' !! e = if decide (e = c) then Some (mkMember (mb_attach m) (delete k (mb_told m)))
    else if decide (e = d) then Some (mkMember a (mb_told md)) else rm_members rm !! e) as Hms.
  { intros e. unfold ms'. destruct (decide (e = c)) as [->|Hec]; [rewrite lookup_alter_eq, lookup_insert_ne, Hc by done; done|].
    rewrite lookup_alter_ne by done. destruct (decide (e = d)) as [->|]; [by rewrite lookup_insert_eq|by rewrite lookup_insert_ne]. }
  assert (mb_told <$> ms' = <[c := delete k (mb_told m)]> (mb_told <$> rm_members rm)) as Et.
  { apply map_eq. intros e. rewrite lookup_fmap, Hms. destruct (decide (e = c)) as [->|]; [by rewrite lookup_insert_eq|].
    rewrite lookup_insert_ne, lookup_fmap by done. destruct (decide (e = d)) as [->|]; [by rewrite Ed|done]. }
  assert (∀ e, owed e (mb_told <$> rm_members rm) ≡ₚ (if decide (e = d) then [ws] else []) ++ owed e (mb_told <$> ms')) as Hw.
  { intros e. apply (Permutation_app_inv_r (calls_to e (delete k (mb_told m)))). rewrite Et.
    rewrite <- (owed_insert e c (mb_told m) _ _) by by rewrite lookup_fmap, Hc.
    assert (calls_to e (mb_told m) ≡ₚ (if decide (e = d) then [ws] else []) ++ calls_to e (delete k (mb_told m))) as ->.
    { rewrite (calls_to_perm e _ _ (delete_Permutation _ _ _ Ek)). unfold calls_to. rewrite filter_cons. cbn [fst].
      destruct (decide (d = e)), (decide (e = d)); by try congruence. }
    solve_Permutation. }
  split; cbn [rm_members].
  - intros e me He. rewrite Hms in He. specialize (Hw e). destruct (decide (e = c)) as [->|Hec].
    + injection He as <-. rewrite decide_False in Hw by done. cbn [mb_attach]. rewrite <- Hw. by apply H1.
    + destruct (decide (e = d)) as [->|]; [|rewrite <- Hw; by apply H1]. injection He as <-. cbn [mb_attach].
      apply (owing_cons ws). rewrite <- Ha. change (ws :: owed d _) with ([ws] ++ owed d (mb_told <$> ms')). rewrite <- Hw. by apply H1.
  - assert (∀ e, is_Some (rm_members rm !! e) → is_Some (ms' !! e)) as Hk.
    { intros e He. rewrite Hms. by repeat (case_decide; [by eexists|]). }
    intros e me x wx He Hin. rewrite Hms in He. destruct (decide (e = c)) as [->|Hec].
    + injection He as <-. cbn [mb_told] in Hin. apply list_elem_of_delete_inv in Hin. destruct (H2 c m x wx Hc Hin). by split; [|apply Hk].
    + destruct (decide (e = d)) as [->|].
      * injection He as <-. destruct (H2 d md x wx Ed Hin). by split; [|apply Hk].
      * destruct (H2 e me x wx He Hin). by split; [|apply Hk].
Qed.

End owing.

Lemma panic_step_owed c k m rm rm' :
  owed_inv submseteq rm → rm_members rm !! c = Some m → Room.panic_step marshal unmarshal_hello unmarshal_size noHistory live c k m rm = Stepped rm' →
  owed_inv submseteq rm'.
Proof.
  intros [H1 H2] Hc (d & ws & md & a & sv & Ek & Ed & _ & Es & ->)%panic_step_spec.
  assert (at_pending a = at_pending (mb_attach m)) as Ea by (cbn [AttachHandler.step] in Es; apply unwind_stepped in Es as (x & Ea & _); cbn [fst] in Ea; by rewrite Ea).
  assert (∀ e, owed e (mb_told <$> <[c := mkMember a []]> (rm_members rm)) ⊆+ owed e (mb_told <$> rm_members rm)) as Hw.
  { intros e. rewrite fmap_insert. cbn [mb_told]. pose proof (owed_insert e c (mb_told m) [] (mb_told <$> rm_members rm) ltac:(by rewrite lookup_fmap, Hc)) as Hp.
    unfold calls_to in Hp at 2. rewrite filter_nil, fmap_nil, app_nil_r in Hp. rewrite <- Hp. apply submseteq_inserts_r. done. }
  split; cbn [rm_members].
  - intros e me He. rewrite Hw. apply lookup_insert_Some in He as [[<- <-]|[_ He]]; [|by apply H1]. cbn [mb_attach]. rewrite Ea. by apply H1.
  - intros e me x wx He Hin. apply lookup_insert_Some in He as [[<- <-]|[_ He]]; [by apply not_elem_of_nil in Hin|].
    destruct (H2 e me x wx He Hin) as [Hx [mx Hmx]]. split; [done|]. destruct (decide (c = x)) as [->|Hcx]; [rewrite lookup_insert_eq; by eexists|].
    rewrite lookup_insert_ne by done. by exists mx.
Qed.

Lemma owed_inv_step Rel `{!Owing Rel} ev rm rm' :
  Rel = submseteq ∨ (∀ c k, ev ≠ RPanic c k) →
  room_inv (λ _ _, True) rm → owed_inv Rel rm → room_step ev rm = Stepped rm' → owed_inv Rel rm'.
Proof.
  intros Hp Hri Hoi E. pose proof Hoi as [H1 H2]. destruct ev as [c|c ev|c k|c k|op]; cbn [Room.room_step] in E.
  - destruct (rm_members rm !! c) eqn:Ec; [done|]. injection E as <-. by apply connect_owed.
  - destruct (rm_members rm !! c) as [m|] eqn:Ec; [|done]. destruct (negb (own ev) || busy ev m) eqn:Eb; [done|].
    apply orb_false_iff in Eb as [Ho%negb_false_iff _]. by apply (member_step_owed Rel c ev m rm).
  - destruct (rm_members rm !! c) as [m|] eqn:Ec; [|done]. by apply (tell_step_owed Rel c k m rm).
  - destruct (rm_members rm !! c) as [m|] eqn:Ec; [|done]. destruct Hp as [-> |Hp]; [|by destruct (Hp c k)]. by apply (panic_step_owed c k m rm).
  - by injection E as <-.
Qed.

Lemma room_run_owed evs rm rm' :
  room_run evs rm = Stepped rm' → room_inv (λ _ _, True) rm → owed_inv submseteq rm → room_inv (λ _ _, True) rm' ∧ owed_inv submseteq rm'.
Proof.
  revert rm. induction evs as [|ev evs IH]; intros rm; cbn [Room.room_run]; [by intros [= <-]|].
  destruct (room_step ev rm) as [| |rm1] eqn:E; [apply IH|done|]. intros Hr Hi Ho. apply (IH rm1 Hr).
  - eapply room_step_inv; [..|exact E|exact Hi]; done.
  - eapply owed_inv_step; [apply _|by left|exact Hi|exact Ho|exact E].
Qed.

Lemma empty_room_owed Rel `{!Owing Rel} (rm : room) : empty_room rm → room_inv (λ _ _, True) rm ∧ owed_inv Rel rm.
Proof.
  intros He. split; [by apply empty_room_inv|]. destruct He as [E1 _]. split.
  - intros d m. by rewrite E1, lookup_empty.
  - intros c m d ws. by rewrite E1, lookup_empty.
Qed.

(** A size a goroutine still has to send is pending for its receiver. *)
Lemma told_pending (rm : room) c m k d ws md :
  owed_inv submseteq rm → rm_members rm !! c = Some m → mb_told m !! k = Some (d, ws) → rm_members rm !! d = Some md → ws ∈ at_pending (mb_attach md).
Proof.
  intros [H1 _] Hc Hk Hd. apply (elem_of_submseteq (owed d (mb_told <$> rm_members rm))); [|by apply H1]. unfold owed. apply list_elem_of_bind.
  exists (c, mb_told m). split; [|apply elem_of_map_to_list; by rewrite lookup_fmap, Hc].
  unfold calls_to. cbn [snd]. apply list_elem_of_fmap. exists (d, ws). split; [done|]. apply list_elem_of_filter. split; [done|].
  by apply list_elem_of_lookup_2 in Hk.
Qed.

(** The model skips no call: one that is owed can be made as soon as the other
    client's queue has room, waits while it is full, and can only panic on a
    closed one. *)
Lemma tell_exact evs rm rm' c m k d ws :
  empty_room rm → room_run evs rm = Stepped rm' → rm_members rm' !! c = Some m → mb_told m !! k = Some (d, ws) →
  ∃ md, rm_members rm' !! d = Some md ∧
    match send (size_frame ws) (mb_attach md), room_step (RTell c k) rm' with
    | Blocked, Blocked => True
    | Panicked, Blocked => ch_closed (at_out (mb_attach md)) = true
    | Stepped a, Stepped rm2 => ∃ m2, rm_members rm2 !! d = Some m2 ∧ flow (mb_attach m2) = flow (mb_attach md) ++ [size_frame ws]
    | _, _ => False
    end.
Proof.
  intros He Hr Hc Hk. destruct (empty_room_owed submseteq rm He) as [Hi Ho]. destruct (room_run_owed evs rm rm' Hr Hi Ho) as [_ [H1 H2]].
  destruct (H2 c m d ws Hc (list_elem_of_lookup_2 _ _ _ Hk)) as [Hdc [md Hd]]. exists md. split; [done|].
  cbn [Room.room_step]. rewrite Hc. unfold tell_step. rewrite Hk, Hd.
  pose proof (told_pending rm' c m k d ws md (conj H1 H2) Hc Hk Hd) as Hin.
  destruct (list_find (λ x, x = ws) (at_pending (mb_attach md))) as [[j y]|] eqn:Ej.
  2:{ apply list_find_None in Ej. rewrite Forall_forall in Ej. by destruct (Ej ws Hin). }
  apply list_find_Some in Ej as (Ej & -> & _). unfold deliver_step. cbn [fst snd]. rewrite Ej.
  destruct (send _ _) as [| |a] eqn:Es; [done| |].
  { unfold send in Es. destruct (ch_closed _); [done|]. by destruct (_ <? _)%nat. }
  eexists. cbn [rm_members].
  rewrite lookup_alter_ne, lookup_insert_eq by done. split; [done|]. cbn [mb_attach].
  apply send_stepped in Es as [_ ->]. exact (flow_with_out (mb_attach md) (size_frame ws)).
Qed.

(** ** A dead client *)

Lemma wedged_run d evs (s s' : sys (T := T) (R := R)) :
  AttachHandler.run marshal unmarshal_hello unmarshal_size noHistory d (live d) evs s = Stepped s' → wedged s.1 → wedged s'.1.
Proof.
  intros Hr W. eapply (run_inv marshal unmarshal_hello unmarshal_size noHistory d (live d) (λ s, wedged s.1)); [|exact W|exact Hr].
  intros ev s1 s2 W1 E. destruct (wedged_step marshal unmarshal_hello unmarshal_size noHistory d (live d) ev s1 W1) as [E'|(s3 & E' & W3 & _)]; congruence.
Qed.

(** Attachment [c] still has to tell [d], and is not at its own [sendSize]. *)
Definition waits_for (c d : conn) (x : pc) (rm : room) : Prop :=
  ∃ m, rm_members rm !! c = Some m ∧ at_pc (mb_attach m) = x ∧ (∃ ws, (d, ws) ∈ mb_told m) ∧ ∀ eff, x ≠ PcSendSize eff.

Definition dead (d : conn) (rm : room) : Prop := ∃ m, rm_members rm !! d = Some m ∧ wedged (mb_attach m).

Lemma owe_pc rs eff d a : at_pc (owe rs eff d a) = at_pc a.
Proof. unfold owe. by destruct (bool_decide _). Qed.

Lemma elem_of_delete_ne {A} k (l : list A) x : x ∈ l → l !! k ≠ Some x → x ∈ delete k l.
Proof.
  revert k. induction l as [|y l IH]; intros k Hx Hk; [by apply not_elem_of_nil in Hx|]. destruct k; cbn in *.
  - apply elem_of_cons in Hx as [->|Hx]; [done|exact Hx].
  - apply elem_of_cons in Hx as [->|Hx]; [left|right]. by apply IH.
Qed.

(** A step of [c] that is not its main goroutine's. *)
Lemma side_pc c ev (s s' : sys (T := T) (R := R)) :
  match ev with EvWriter _ | EvLive | EvDetach => True | _ => False end → step c ev s = Stepped s' →
  at_pc s'.1 = at_pc s.1 ∧ set_op_of unmarshal_hello unmarshal_size c ev (at_pc s.1) = None.
Proof.
  destruct s as [a sv]. destruct ev as [an x|an|an x|werr| |an op|k|op|rop| |]; cbn [AttachHandler.step fst snd]; intros Hev E; try done.
  - destruct (writer_step werr a) as [| |a1] eqn:Ew; try discriminate E. injection E as <-.
    by apply writer_step_flow in Ew as (_ & Ep & _).
  - unfold live_step in E. destruct (at_live a); try discriminate E.
    + destruct (recv_sub _ _) as [[[ck| |]|e] p]; try discriminate E; by injection E as <-.
    + destruct (send _ a) as [| |a1] eqn:Es; try discriminate E. injection E as <-. by apply send_stepped in Es as [_ ->].
  - unfold forcedDetach in E. destruct (at_id a), (at_forced a); try discriminate E; by injection E as <-.
Qed.

Lemma waits_step c d x ev rm rm' :
  owed_inv submseteq rm → dead d rm → waits_for c d x rm → (∀ k, ev ≠ RPanic c k) → room_step ev rm = Stepped rm' → waits_for c d x rm'.
Proof.
  intros [_ H2] (md & Hd & W) (m & Hc & Hx & (ws & Hin) & Hne) Hnp E. destruct (H2 c m d ws Hc Hin) as [Hdc _].
  destruct ev as [e|e ev|e k|e k|op]; cbn [Room.room_step] in E.
  - destruct (rm_members rm !! e) eqn:Ee; [done|]. injection E as <-. exists m. cbn. rewrite lookup_insert_ne by congruence. by eauto.
  - destruct (rm_members rm !! e) as [me|] eqn:Ee; [|done]. destruct (negb (own ev) || busy ev me) eqn:Eb; [done|].
    apply orb_false_iff in Eb as [Ho%negb_false_iff Hb]. apply member_step_spec in E as (a & sv & Es & E).
    destruct (news e ev _ _) as [rs eff] eqn:En. subst rm'. unfold waits_for. cbn [rm_members]. rewrite notify_lookup.
    destruct (decide (e = c)) as [->|Hec].
    + rewrite Ee in Hc. injection Hc as ->. rewrite lookup_insert_eq.
      assert (match ev with EvWriter _ | EvLive | EvDetach => True | _ => False end) as Hs.
      { unfold busy in Hb. destruct (mb_told m) as [|y l]; [by apply not_elem_of_nil in Hin|].
        destruct ev; try done. rewrite Hx in Hb. destruct x; try done. by destruct (Hne eff0). }
      destruct (side_pc c ev _ _ Hs Es) as [Ep _]. eexists. split; [done|]. cbn [mb_attach mb_told]. rewrite owe_pc. split; [by rewrite <- Hx|].
      split; [|done]. exists ws. apply elem_of_app. by left.
    + rewrite lookup_insert_ne, Hc by done. eexists. split; [done|]. cbn [mb_attach mb_told]. rewrite owe_pc. by eauto.
  - destruct (rm_members rm !! e) as [me|] eqn:Ee; [|done].
    apply tell_step_spec in E as (d' & ws' & md' & j & y & a & Ek & Ed & Ej & Es & ->). unfold waits_for. cbn [rm_members].
    assert (d' ≠ d) as Hd'.
    { intros ->. rewrite Hd in Ed. injection Ed as <-. unfold deliver_step in Es. cbn [fst] in Es.
      destruct (at_pending _ !! j); [|done]. by rewrite wedged_send in Es. }
    assert (∃ m', <[d' := mkMember a (mb_told md')]> (rm_members rm) !! c = Some m' ∧ at_pc (mb_attach m') = x ∧ mb_told m' = mb_told m) as (m' & Hm' & Hp & Ht).
    { destruct (decide (d' = c)) as [->|]; [|exists m; by rewrite lookup_insert_ne]. rewrite lookup_insert_eq. eexists. split; [done|]. cbn.
      rewrite Hc in Ed. injection Ed as <-. split; [|done]. rewrite <- Hx. unfold deliver_step in Es. cbn [fst] in Es.
      destruct (at_pending _ !! j); [|done]. destruct (send _ _) as [| |a1] eqn:Esn; try done. injection Es as <-. by apply send_stepped in Esn as [_ ->]. }
    destruct (decide (e = c)) as [->|Hec].
    + rewrite lookup_alter_eq, Hm'. eexists. split; [done|]. cbn [mb_attach mb_told]. split; [done|]. split; [|done]. exists ws.
      rewrite Ee in Hc. injection Hc as ->. rewrite Ht. apply elem_of_delete_ne; [done|]. rewrite Ek. congruence.
    + rewrite lookup_alter_ne by done. exists m'. rewrite Ht. by eauto.
  - destruct (rm_members rm !! e) as [me|] eqn:Ee; [|done]. apply panic_step_spec in E as (d' & ws' & md' & a & sv & _ & _ & _ & _ & ->).
    assert (e ≠ c) by (intros ->; by destruct (Hnp k)). exists m. cbn [rm_members]. rewrite lookup_insert_ne by done. by eauto.
  - injection E as <-. exists m. by eauto.
Qed.

#[local] Abbreviation declared c rm := (set_members (sv_set (rm_server rm)) !! c).

(** Only the main goroutine of an attachment changes its size in the set. *)
Lemma side_declared c ev (s s' : sys (T := T) (R := R)) :
  match ev with EvHello _ _ | EvMain _ | EvRead _ _ | EvUnwind => False | _ => True end →
  step c ev s = Stepped s' → set_members (sv_set s'.2) !! c = set_members (sv_set s.2) !! c.
Proof.
  destruct s as [a sv]. destruct ev as [an x|an|an x|werr| |an op|k|op|rop| |]; cbn [AttachHandler.step fst snd]; intros Hev E; try done.
  - destruct (writer_step werr a); try discriminate E. by injection E as <-.
  - unfold live_step in E. destruct (at_live a); try discriminate E.
    + destruct (recv_sub _ _) as [[[ck| |]|e] p]; try discriminate E; by injection E as <-.
    + destruct (send _ a); try discriminate E. by injection E as <-.
  - unfold other_step in E. case_bool_decide as Hne; [discriminate E|]. cbn [fst snd] in E.
    destruct (set_call marshal an op sv) as [r sv1] eqn:Ec. injection E as <-. apply (f_equal snd) in Ec. cbn [snd] in *.
    by rewrite <- Ec, set_call_set, set_step_other.
  - unfold deliver_step in E. cbn [fst snd] in E. destruct (at_pending a !! k); [|discriminate E].
    destruct (send _ a); try discriminate E. by injection E as <-.
  - by injection E as <-.
  - by injection E as <-.
  - unfold forcedDetach in E. destruct (at_id a), (at_forced a); try discriminate E; by injection E as <-.
Qed.

Lemma side_run c evs (s s' : sys (T := T) (R := R)) :
  Forall (λ e, match e with EvHello _ _ | EvMain _ | EvRead _ _ | EvUnwind => False | _ => True end) evs →
  AttachHandler.run marshal unmarshal_hello unmarshal_size noHistory c (live c) evs s = Stepped s' →
  set_members (sv_set s'.2) !! c = set_members (sv_set s.2) !! c.
Proof.
  intros Hp. revert s. induction Hp as [|e evs He _ IH]; intros s; cbn [AttachHandler.run]; [by intros [= <-]|].
  destruct (step c e s) as [| |s1] eqn:E1; [by apply IH|done|]. intros Hr. rewrite (IH s1 Hr). by apply (side_declared c e).
Qed.

Lemma waits_declared c d x ev rm rm' :
  waits_for c d x rm → (∀ k, ev ≠ RPanic c k) → room_step ev rm = Stepped rm' → declared c rm' = declared c rm.
Proof.
  intros (m & Hc & Hx & (ws & Hin) & Hne) Hnp E.
  destruct (room_step_projects marshal unmarshal_hello unmarshal_size noHistory live c ev rm rm' m E Hc) as (m' & _ & Hr).
  assert (Forall (λ e, match e with EvHello _ _ | EvMain _ | EvRead _ _ | EvUnwind => False | _ => True end)
    (project1 unmarshal_hello unmarshal_size live c ev rm)) as Hp.
  { destruct ev as [e|e ev|e k|e k|op]; cbn [project1].
    - constructor.
    - case_bool_decide as Hec; [subst e|].
      + constructor; [|constructor]. cbn [Room.room_step] in E. rewrite Hc in E. destruct (negb (own ev) || busy ev m) eqn:Eb; [done|].
        apply orb_false_iff in Eb as [Ho%negb_false_iff Hb]. unfold busy in Hb. destruct (mb_told m); [by apply not_elem_of_nil in Hin|].
        destruct ev; try done. rewrite Hx in Hb. destruct x; try done. by destruct (Hne eff).
      + destruct (rm_members rm !! e) as [me|]; [|constructor].
        destruct (ripple_short unmarshal_hello unmarshal_size live e ev (mb_attach me)) as [-> |(y & -> & Hy)]; [constructor|].
        constructor; [by destruct y|constructor].
    - destruct (_ ≫= _) as [[e' ws']|]; [|constructor]. destruct (bool_decide _); [|constructor].
      destruct (_ ≫= _) as [[j y]|]; repeat constructor.
    - case_bool_decide as Hec; [subst e; by destruct (Hnp k)|]. destruct (rm_members rm !! e) as [me|]; [|constructor].
      destruct (ripple_short unmarshal_hello unmarshal_size live e EvUnwind (mb_attach me)) as [-> |(y & -> & Hy)]; [constructor|].
      constructor; [by destruct y|constructor].
    - repeat constructor. }
  exact (side_run c _ _ _ Hp Hr).
Qed.

Lemma dead_step d ev rm rm' : dead d rm → room_step ev rm = Stepped rm' → dead d rm'.
Proof.
  intros (m & Hd & W) E. destruct (room_step_projects marshal unmarshal_hello unmarshal_size noHistory live d ev rm rm' m E Hd) as (m' & Hd' & Hr).
  exists m'. split; [done|]. by apply wedged_run in Hr.
Qed.

(** C8: One dead client stops the others.  In any run of a session from its start,
    let the connection of client [d] be dead: its writer has given up, its queue
    is full, its live goroutine is blocked (see [wedged]); and let client [c] be
    at a join, a resize or a departure in which the size it has changed is still
    to be told to [d] (see [waits_for]).  From then on, whatever else happens,
    short of a panic in a call of its own, the main goroutine of [c] does not
    move and no input of its user is read.  If it is joining or resizing, it stays
    in the set with the size it has declared; if it is leaving, it is out of the
    set already, but its handler never returns. *)
Theorem dead_client_stops_others evs rm rm1 c d x evs' rm2 :
  empty_room rm → room_run evs rm = Stepped rm1 → dead d rm1 → waits_for c d x rm1 → room_run evs' rm1 = Stepped rm2 →
  Forall (λ ev, ∀ k, ev ≠ RPanic c k) evs' →
  waits_for c d x rm2 ∧ (∀ an f, room_step (RStep c (EvRead an f)) rm2 = Blocked) ∧
  declared c rm2 = declared c rm1 ∧ (joined x ↔ is_Some (declared c rm1)).
Proof.
  intros He Hr1 Hd Hw Hr2 Hnp. destruct (empty_room_owed submseteq rm He) as [Hi Ho].
  destruct (room_run_owed evs rm rm1 Hr1 Hi Ho) as [Hi1 Ho1]. destruct (room_run_owed evs' rm1 rm2 Hr2 Hi1 Ho1) as [[Hi2 _] _].
  assert (joined x ↔ is_Some (declared c rm1)) as Hj.
  { destruct Hw as (m & Hc & Hx & _). destruct (proj1 Hi1 c m Hc) as [[Hm _] _]. cbn [fst snd] in Hm. unfold AttachHandler.member in Hm. by rewrite <- Hx, Hm. }
  assert (waits_for c d x rm2 ∧ declared c rm2 = declared c rm1) as [Hw2 Hdec].
  { clear Hr1 Hi Ho Hi2 Hj. revert rm1 Hi1 Ho1 Hd Hw Hr2. induction Hnp as [|ev evs' Hev _ IH]; intros rm1 Hi1 Ho1 Hd Hw; cbn [Room.room_run]; [by intros [= <-]|].
    destruct (room_step ev rm1) as [| |rm3] eqn:E; [by apply IH|done|]. rewrite <- (waits_declared c d x ev rm1 rm3 Hw Hev E). apply IH.
    - eapply room_step_inv; [..|exact E|exact Hi1]; done.
    - eapply owed_inv_step; [apply _|by left|exact Hi1|exact Ho1|exact E].
    - by eapply dead_step.
    - eapply waits_step; [exact Ho1|done..|exact E]. }
  split; [done|]. destruct Hw2 as (m & Hc & Hx & (ws & Hin) & _). split; [|done].
  - intros an f. cbn [Room.room_step]. rewrite Hc. cbn [own negb orb]. unfold busy.
    destruct (mb_told m); [by apply not_elem_of_nil in Hin|done].
Qed.
End clients.

(** The connection of client 1 dies under output and its client hangs up; then
    client 2 makes its window smaller. *)
Definition ex_dead : list room_event :=
  ex_join 1 ++ ex_join 2 ++ RStep 1 (EvWriter (Some (ErrIO 32))) ::
  concat (repeat [RPty (PChunk 0 [65]); RStep 1 EvLive; RStep 1 EvLive] 255) ++
  [RStep 1 (EvRead ex_answers (Err (WireIO EOF))); RStep 1 (EvMain ex_answers);
   RStep 2 (EvRead ex_answers (Ok (MsgSize, []))); RStep 2 (EvMain ex_answers)].

Lemma dead_client_stops_others_witness :
  ∃ rm1, ex_room_run ex_dead ex_room = Stepped rm1 ∧ dead 1 rm1 ∧ waits_for 2 1 PcLoop rm1 ∧
    ∃ rm2, ex_room_run [RStep 1 EvDetach; RTell 2 0; RStep 2 (EvRead ex_answers (Ok (MsgInput, [120])))] rm1 = Stepped rm2 ∧
      waits_for 2 1 PcLoop rm2 ∧ p_master (sv_pty (rm_server rm2)) = sink [].
Proof.
  assert (∃ rm1 m1 m2, ex_room_run ex_dead ex_room = Stepped rm1 ∧ rm_members rm1 !! 1%nat = Some m1 ∧ wedged (mb_attach m1) ∧
    rm_members rm1 !! 2%nat = Some m2 ∧ at_pc (mb_attach m2) = PcLoop ∧ mb_told m2 = [(1%nat, mkSize 70 20)] ∧
    ∃ rm2, ex_room_run [RStep 1 EvDetach; RTell 2 0; RStep 2 (EvRead ex_answers (Ok (MsgInput, [120])))] rm1 = Stepped rm2 ∧
      p_master (sv_pty (rm_server rm2)) = sink [])
    as (rm1 & m1 & m2 & H1 & Hm1 & W & Hm2 & Hp & Ht & rm2 & H2 & Hin).
  { do 3 eexists. split; [vm_compute; reflexivity|]. split; [reflexivity|].
    split; [split; [reflexivity|split; [reflexivity|split; [apply Nat.leb_le; vm_compute; reflexivity|split; eexists; reflexivity]]]|].
    split; [reflexivity|]. split; [reflexivity|]. split; [reflexivity|]. eexists. split; vm_compute; reflexivity. }
  assert (dead 1 rm1) as Hd by exact (ex_intro _ m1 (conj Hm1 W)).
  assert (waits_for 2 1 PcLoop rm1) as Hw.
  { exists m2. split; [exact Hm2|]. split; [exact Hp|]. split; [exists (mkSize 70 20); rewrite Ht; left|discriminate]. }
  exists rm1. split; [exact H1|]. split; [exact Hd|]. split; [exact Hw|]. exists rm2. split; [exact H2|].
  split; [|exact Hin].
  exact (proj1 (dead_client_stops_others (IG := counter_gen) (λ _, None) ex_hello ex_size false id ex_dead ex_room rm1 2 1 PcLoop
    [RStep 1 EvDetach; RTell 2 0; RStep 2 (EvRead ex_answers (Ok (MsgInput, [120])))] rm2 (conj eq_refl eq_refl) H1 Hd Hw H2
    ltac:(repeat constructor; intros k H; discriminate H))).
Defined.
