(* ===== verification/RoomSizes.v ===== *)
(** * Who knows the size in force

    The [AttachSet] chooses one size for the session; every client has to hear of
    it.  When no two of its calls overlap, everyone's last [Size] frame is that
    size; when they do, the frames of two calls can reach a client in the other
    order, and it keeps the old one. *)
From S2P Require Import Prelude GoBase StreamFilter QueryStripper PrimaryFilter Recorder Recording Terminal Channel Wire State ShortId Store Pty PtySafety AttachSet Registry AttachHandler Room RoomClients.
Open Scope Z_scope.

(** The [Size] frames a client has been sent, those it is owed, and the one its
    own goroutine is about to send. *)
Definition size_frames (a : attach) : list wframe := filter (λ f, f.1 = MsgSize) (flow a).

Definition own_size (x : pc) : list wframe :=
  match x with PcFirstSize _ eff | PcSendSize eff => [size_frame eff] | _ => [] end.

Definition promised (a : attach) : list wframe := size_frames a ++ (size_frame <$> at_pending a) ++ own_size (at_pc a).

Definition at_most_one (a : attach) : Prop := at_pending a = [] ∨ (∃ ws, at_pending a = [ws]) ∧ own_size (at_pc a) = [].

Lemma size_frames_snoc a a' f :
  flow a' = flow a ++ [f] → size_frames a' = size_frames a ++ (if decide (f.1 = MsgSize) then [f] else []).
Proof. unfold size_frames. intros ->. by rewrite filter_app. Qed.

Lemma promised_same a a' :
  flow a' = flow a → at_pending a' = at_pending a → own_size (at_pc a') = own_size (at_pc a) →
  promised a' = promised a ∧ (at_most_one a → at_most_one a').
Proof. unfold promised, size_frames, at_most_one. by intros -> -> ->. Qed.

Section sizes.
Context {T : Type} {TO : TermOps T} {R : Type} {IG : IdGen R}.
Context (marshal : StateFile → option (list byte)).
Context (unmarshal_hello : list byte → option Hello) (unmarshal_size : list byte → option PTYSize).
Context (noHistory : bool) (live : conn → chan_id).

#[local] Abbreviation step c := (AttachHandler.step marshal unmarshal_hello unmarshal_size noHistory c (live c)).
#[local] Abbreviation room := (Room.room (T := T) (R := R)).
#[local] Abbreviation room_step := (Room.room_step marshal unmarshal_hello unmarshal_size noHistory live).
#[local] Abbreviation room_run := (Room.room_run marshal unmarshal_hello unmarshal_size noHistory live).
#[local] Abbreviation set_op_of := (Room.set_op_of unmarshal_hello unmarshal_size).
#[local] Abbreviation room_inv := (Room.room_inv (T := T) (R := R)).

(** Nothing is owed and nobody is inside a call. *)
Definition quiet_room (rm : room) : Prop :=
  map_Forall (λ _ m, mb_told m = [] ∧ own_size (at_pc (mb_attach m)) = []) (rm_members rm).

#[global] Instance quiet_room_dec rm : Decision (quiet_room rm).
Proof. unfold quiet_room. apply _. Defined.

(** The guard: a step that makes an [AttachSet] call finds the room quiet, and no
    [sendSize] call panics. *)
Definition call_apart (ev : room_event) (rm : room) : Prop :=
  match ev with
  | RStep c ev =>
      match rm_members rm !! c with
      | Some m => set_op_of c ev (at_pc (mb_attach m)) = None ∨ quiet_room rm
      | None => True
      end
  | RPanic _ _ => False
  | _ => True
  end.

#[global] Instance call_apart_dec ev rm : Decision (call_apart ev rm).
Proof. unfold call_apart. destruct ev as [|c ev| | |]; try apply _. destruct (rm_members rm !! c); apply _. Defined.

(** [AttachSet] calls are made one at a time. *)
Fixpoint apart (evs : list room_event) (rm : room) : Prop :=
  match evs with
  | [] => True
  | ev :: evs' =>
      call_apart ev rm ∧
      match room_step ev rm with
      | Stepped rm' => apart evs' rm'
      | Blocked => apart evs' rm
      | Panicked => True
      end
  end.

#[global] Instance apart_dec evs rm : Decision (apart evs rm).
Proof. revert rm. induction evs as [|ev evs IH]; intros rm; cbn [apart]; [apply _|]. apply and_dec; [apply _|]. destruct (room_step ev rm); [apply IH|apply _|apply IH]. Defined.

(** A step without an [AttachSet] call. *)
Definition plain (s s' : sys (T := T) (R := R)) : Prop :=
  sv_set s'.2 = sv_set s.2 ∧
  (joined (at_pc s'.1) → joined (at_pc s.1) ∧ (at_most_one s.1 → promised s'.1 = promised s.1 ∧ at_most_one s'.1)).

Lemma plain_same (a a' : attach) (sv sv' : server T R) :
  sv_set sv' = sv_set sv → flow a' = flow a → at_pending a' = at_pending a →
  (joined (at_pc a') → joined (at_pc a) ∧ own_size (at_pc a') = own_size (at_pc a)) → plain (a, sv) (a', sv').
Proof.
  intros Es Ef Ep Ej. split; [done|]. cbn [fst]. intros Hj. destruct (Ej Hj) as [Hj' Eo]. split; [done|]. intros H1.
  destruct (promised_same a a' Ef Ep Eo). auto.
Qed.

(** A frame that is not a [Size] is sent, or the one the goroutine had promised. *)
Lemma plain_send f x (s s' : sys (T := T) (R := R)) :
  send_then f x s = Stepped s' → joined (at_pc s.1) → own_size x = [] →
  own_size (at_pc s.1) = (if decide (f.1 = MsgSize) then [f] else []) → plain s s'.
Proof.
  intros E Hj Hx Ho. pose proof E as (Es & Epc & Ef & _)%send_then_spec. split; [by rewrite Es|]. intros _. split; [done|].
  assert (at_pending s'.1 = at_pending s.1) as Ep.
  { unfold send_then in E. destruct (send f s.1) as [| |a1] eqn:Esn; try discriminate E. injection E as <-. exact (send_pending _ _ _ Esn). }
  unfold promised, at_most_one. rewrite (size_frames_snoc _ _ _ Ef), Ep, Epc, Hx, Ho, app_nil_r.
  destruct (decide (f.1 = MsgSize)) as [Hf|Hf]; intros [H|[(ws & H) H']]; rewrite ?H; cbn [fmap list_fmap app]; rewrite ?app_nil_r.
  - split; [done|by left].
  - discriminate H'.
  - split; [done|by left].
  - split; [done|right; by eauto].
Qed.

Lemma main_plain c an (s s' : sys (T := T) (R := R)) :
  set_op_of c (EvMain an) (at_pc s.1) = None → step c (EvMain an) s = Stepped s' → plain s s'.
Proof.
  destruct s as [a sv]. cbn [fst snd AttachHandler.step Room.set_op_of]. unfold main_step. intros Hop E.
  destruct (at_pc a) as [|h eff|h| |sb sc|sc| | |eff|r|r|r|r|r|r|r|] eqn:Epc; try discriminate E; try discriminate Hop.
  - apply (plain_send _ _ _ _ E); cbn [fst]; rewrite ?Epc; try done.
  - unfold register_step, goto in E. cbn [fst snd] in E. destruct (sv_reg sv) as [[g dk]|];
      [destruct (Registry.Add _ _ _ _ _ _ _ _) as [[[id|e] g'] dk']|]; injection E as <-; apply plain_same; cbn; rewrite ?Epc; done.
  - unfold subscribe_step in E. cbn [fst snd] in E.
    destruct (SubscribeWithSnapshotParts _ _) as [[[sb sc]|e] p]; injection E as <-; apply plain_same; cbn; rewrite ?Epc; done.
  - apply (plain_send _ _ _ _ E); cbn [fst]; rewrite ?Epc; done.
  - destruct (send_then _ _ _) as [| |[a1 sv1]] eqn:Es; try discriminate E. injection E as <-.
    assert (plain (a, sv) (a1, sv1)) as Hp by (apply (plain_send _ _ _ _ Es); cbn [fst]; rewrite ?Epc; done). exact Hp.
  - apply (plain_send _ _ _ _ E); cbn [fst]; rewrite ?Epc; done.
  - apply (plain_send _ _ _ _ E); cbn [fst]; rewrite ?Epc; done.
  - injection E as <-. apply plain_same; cbn; rewrite ?Epc; done.
  - destruct (at_live a); try discriminate E. injection E as <-. apply plain_same; cbn; rewrite ?Epc; done.
  - injection E as <-. apply plain_same; cbn; rewrite ?Epc; done.
  - destruct (writer_done _); [|discriminate E]. injection E as <-. apply plain_same; cbn; rewrite ?Epc; done.
  - injection E as <-. apply plain_same; [|by cbn; rewrite ?Epc..].
    destruct sv as [p ss [[g dk]|]], (at_id a); cbn; try done. by destruct (Registry.Remove _ _ _ _ _).
Qed.

Lemma own_plain c ev (s s' : sys (T := T) (R := R)) :
  own ev = true → set_op_of c ev (at_pc s.1) = None → step c ev s = Stepped s' → plain s s'.
Proof.
  intros Ho Hop E. destruct s as [a sv]. destruct ev as [an x|an|an x|werr| |an op|k|op|rop| |]; try discriminate Ho; cbn [fst snd] in *.
  - cbn [AttachHandler.step fst] in E. destruct (at_pc a) eqn:Epc; try discriminate E. unfold hello_step, goto in E. cbn [Room.set_op_of] in Hop.
    destruct x as [[typ payload]|e]; [|injection E as <-; by apply plain_same].
    destruct (typ =? MsgHello); [|injection E as <-; by apply plain_same]. cbn [negb] in E.
    destruct (unmarshal_hello payload) as [h|]; [|injection E as <-; by apply plain_same]. cbn in Hop. unfold positive in Hop.
    destruct (_ || _); [injection E as <-; by apply plain_same|discriminate Hop].
  - by apply (main_plain c an).
  - cbn [AttachHandler.step fst] in E. destruct (at_pc a) eqn:Epc; try discriminate E. unfold read_step, goto in E. cbn [Room.set_op_of fst snd] in *.
    destruct x as [[typ payload]|e]; [|injection E as <-; apply plain_same; cbn; rewrite ?Epc; done].
    destruct (typ =? MsgInput).
    { destruct (Pty.Write payload _) as [[u|e] p]; injection E as <-; apply plain_same; cbn; rewrite ?Epc; done. }
    destruct (typ =? MsgSize).
    { destruct (unmarshal_size payload) as [ws|]; [|injection E as <-; apply plain_same; cbn; rewrite ?Epc; done]. cbn in Hop. unfold positive in Hop.
      destruct (_ || _); [injection E as <-; by apply plain_same|discriminate Hop]. }
    repeat (match type of E with context [if ?b then _ else _] => destruct b end); injection E as <-; apply plain_same; cbn; rewrite ?Epc; done.
  - pose proof (own_pending marshal unmarshal_hello unmarshal_size noHistory live c _ _ _ Ho E) as Ep. cbn [AttachHandler.step fst snd] in E.
    destruct (writer_step werr a) as [| |a1] eqn:Ew; try discriminate E. injection E as <-.
    apply writer_step_flow in Ew as (Ef & Epc & _). apply plain_same; rewrite ?Epc; done.
  - pose proof (own_pending marshal unmarshal_hello unmarshal_size noHistory live c _ _ _ Ho E) as Ep. cbn [AttachHandler.step] in E. unfold live_step in E.
    destruct (at_live a); try discriminate E.
    + destruct (recv_sub _ _) as [[[ck| |]|e] p]; try discriminate E; injection E as <-; by apply plain_same.
    + destruct (send _ a) as [| |a1] eqn:Es; try discriminate E. injection E as <-. apply send_stepped in Es as [_ ->].
      split; [done|]. intros Hj. split; [exact Hj|]. intros H1.
      assert (size_frames (with_live LRunning (at_recv a) (with_out (mkChan (ch_buf (at_out a) ++ [(MsgOutput, chunk)]) (ch_cap (at_out a)) false) a)) = size_frames a) as Esf.
      { erewrite size_frames_snoc; [|exact (flow_with_out a (MsgOutput, chunk))]. rewrite decide_False by done. by rewrite app_nil_r. }
      split; [|exact H1]. unfold promised. cbn [fst]. refine (eq_trans _ (f_equal (λ l, l ++ _) Esf)). reflexivity.
  - cbn [AttachHandler.step fst snd] in E. unfold forcedDetach in E. destruct (at_id a), (at_forced a); try discriminate E; injection E as <-; by apply plain_same.
Qed.

Definition told_current (a : attach) (sv : server T R) : Prop :=
  joined (at_pc a) → at_most_one a ∧ last (promised a) = Some (size_frame (set_current (sv_set sv))).

Definition told_inv (rm : room) : Prop := ∀ d m, rm_members rm !! d = Some m → told_current (mb_attach m) (rm_server rm).

Lemma plain_told (s s' : sys (T := T) (R := R)) : plain s s' → told_current s.1 s.2 → told_current s'.1 s'.2.
Proof. intros [Es H] Ht Hj. destruct (H Hj) as [Hj' Hp]. destruct (Ht Hj') as [H1 H2]. destruct (Hp H1) as [-> H3]. by rewrite Es. Qed.

(** What an [AttachSet] operation gives, changed or not. *)
Lemma set_step_news op a d :
  res_eff (set_step op a) = set_current (res_set (set_step op a)) ∧
  (d ∉ res_receivers (set_step op a) → is_Some (set_members (res_set (set_step op a)) !! d) → (∀ ws, op ≠ SAdd d ws) →
   set_current (res_set (set_step op a)) = set_current a).
Proof.
  destruct (set_step_cases op a) as [->|(a1 & -> & Ec)]; [done|].
  destruct (finish_op_spec (step_receivers op) a1) as (_ & Em & He & _ & Er & _). split; [done|]. rewrite Er, Em, <- Ec.
  case_bool_decide as Hb; [done|]. rewrite elem_of_receivers. intros Hn Hd Ha. destruct Hn. split; [done|].
  destruct op as [c ws|c ws|c]; try done. intros ->. by destruct (Ha ws).
Qed.

(** An attachment with nothing outstanding is told of a change, or there was none. *)
Lemma owe_told rs eff d (a : attach) (sv sv' : server T R) :
  at_pending a = [] → own_size (at_pc a) = [] → told_current a sv →
  eff = set_current (sv_set sv') → (d ∉ rs → joined (at_pc a) → set_current (sv_set sv') = set_current (sv_set sv)) →
  told_current (owe rs eff d a) sv'.
Proof.
  intros Hp Ho Ht -> Hs. unfold owe. case_bool_decide as Hd.
  - intros _. unfold at_most_one, promised. cbn [at_pending with_pending at_pc]. rewrite Hp, Ho. split; [right; by eauto|]. apply last_snoc.
  - intros Hj. rewrite Hs by done. by apply Ht.
Qed.

(** The caller of an [AttachSet] operation: it sends its own [Size] itself. *)
Lemma caller_told c ev an op (a a' : attach) (sv sv' : server T R) :
  set_op_of c ev (at_pc a) = Some (an, op) → step c ev (a, sv) = Stepped (a', sv') →
  (at_pc a ≠ PcHello → AttachHandler.member c sv) → at_pending a = [] → told_current a sv → told_current a' sv'.
Proof.
  intros Hop Es Hm Hp Ht. destruct (set_op_server _ _ _ _ _ _ _ _ _ _ _ _ _ Hop Es) as [Hc Esv].
  assert (∀ eff, own_size (at_pc a') = [size_frame eff] → at_pending a' = at_pending a →
    eff = set_current (sv_set sv') → told_current a' sv') as Hown.
  { intros eff Hx Ep -> _. unfold at_most_one, promised. rewrite Ep, Hx, Hp. split; [by left|]. apply last_snoc. }
  pose proof (set_call_set marshal an op sv) as Ess. rewrite <- Esv in Ess.
  destruct (set_step_news op (sv_set sv) c) as [Heff Hsame].
  destruct ev as [an' x|an'|an' x|werr| |an' op'|k|op'|rop| |]; cbn [Room.set_op_of AttachHandler.step fst snd] in *; try discriminate Hop.
  - destruct x as [[typ payload]|e]; [|discriminate Hop]. destruct (at_pc a) eqn:Epc; try discriminate Hop. unfold hello_step in Es.
    destruct (typ =? MsgHello); [|discriminate Hop]. cbn [negb] in Es.
    destruct (unmarshal_hello payload) as [h|]; [|discriminate Hop]. cbn in Hop. unfold positive in Hop.
    destruct (_ || _); [discriminate Hop|]. injection Hop as <- <-. cbn [snd fst] in Es.
    destruct (set_call _ _ _ _) as [r sv1] eqn:E. injection Es as <- <-.
    assert (r = set_step (SAdd c (hello_Size h)) (sv_set sv)) as -> by (unfold set_call in E; congruence).
    apply (Hown (res_eff (set_step (SAdd c (hello_Size h)) (sv_set sv)))); [done|done|]. by rewrite Ess.
  - destruct (at_pc a) eqn:Epc; try discriminate Hop. unfold main_step in Es. rewrite Epc in Es. by injection Es as <- _.
  - destruct x as [[typ payload]|e]; [|by destruct (at_pc a); discriminate Hop]. destruct (at_pc a) eqn:Epc; try discriminate Hop. unfold read_step in Es.
    destruct (Z.eqb_spec typ MsgSize) as [->|]; [|discriminate Hop]. cbn [Z.eqb MsgSize MsgInput Pos.eqb] in Es.
    destruct (unmarshal_size payload) as [ws|]; [|discriminate Hop]. cbn in Hop. unfold positive in Hop.
    destruct (_ || _); [discriminate Hop|]. injection Hop as <- <-. cbn [snd fst] in Es.
    destruct (set_call _ _ _ _) as [r sv1] eqn:E. injection Es as <- <-.
    assert (r = set_step (SUpdate c ws) (sv_set sv)) as -> by (unfold set_call in E; congruence).
    case_bool_decide as Hin; [apply (Hown (res_eff (set_step (SUpdate c ws) (sv_set sv)))); [done|done|by rewrite Ess]|].
    intros Hj. rewrite Ess, Hsame; [by apply Ht|done| |done]. apply set_step_self; [done|]. by apply Hm.
Qed.

Lemma set_op_joined c ev x an op : set_op_of c ev x = Some (an, op) → x ≠ PcHello → joined x.
Proof.
  destruct ev as [an' y|an'|an' y|werr| |an' op'|k|op'|rop| |], x; cbn [Room.set_op_of joined]; try done; try (destruct y as [[typ payload]|e]; done).
Qed.

Lemma member_step_told c ev m rm rm' :
  room_inv (λ _ _, True) rm → owed_inv (≡ₚ) rm → told_inv rm → rm_members rm !! c = Some m → own ev = true →
  (set_op_of c ev (at_pc (mb_attach m)) ≠ None → quiet_room rm) →
  member_step marshal unmarshal_hello unmarshal_size noHistory live c ev m rm = Stepped rm' → told_inv rm'.
Proof.
  intros [Hri _] [Hpend _] Ht Hc Ho Hq (a & sv & Es & E)%member_step_spec. pose proof (own_plain c ev (mb_attach m, rm_server rm) (a, sv) Ho) as Hplain.
  destruct (set_op_of c ev (at_pc (mb_attach m))) as [[an op]|] eqn:Hop.
  - specialize (Hq ltac:(done)).
    assert (∀ d md, rm_members rm !! d = Some md → at_pending (mb_attach md) = [] ∧ own_size (at_pc (mb_attach md)) = []) as Hidle.
    { intros d md Hd. split; [|by apply (Hq d md)]. apply Permutation_nil_r. rewrite <- (Hpend d md Hd). rewrite owed_none; [done|].
      intros e l. rewrite lookup_fmap_Some. intros (me & <- & He). by destruct (Hq e me He) as [-> _]. }
    destruct (set_op_server _ _ _ _ _ _ _ _ _ _ _ _ _ Hop Es) as [Hcn Esv].
    pose proof (set_call_set marshal an op (rm_server rm)) as Ess. rewrite <- Esv in Ess.
    unfold news in E. rewrite Hop in E. subst rm'. intros d md'. cbn [rm_members rm_server]. rewrite notify_lookup.
    destruct (decide (c = d)) as [<-|Hcd].
    + rewrite lookup_insert_eq. intros [= <-]. cbn [mb_attach]. unfold owe. rewrite bool_decide_eq_false_2 by (rewrite list_elem_of_filter; naive_solver).
      eapply caller_told; [exact Hop|exact Es| |by apply (Hidle c m)|exact (Ht c m Hc)].
      intros Hne. apply (Hri c m Hc). by apply (set_op_joined _ _ _ _ _ Hop).
    + rewrite lookup_insert_ne by done. destruct (rm_members rm !! d) as [md|] eqn:Ed; [|done]. intros [= <-]. cbn [mb_attach].
      destruct (set_step_news op (sv_set (rm_server rm)) d) as [Heff Hsame]. destruct (Hidle d md Ed) as [Hp Hown].
      apply (owe_told _ _ _ _ (rm_server rm)); [done|done|exact (Ht d md Ed)|by rewrite Ess|].
      intros Hn Hj. rewrite Ess. apply Hsame; [intros Hin; apply Hn, list_elem_of_filter; naive_solver| |intros ws ->; by apply Hcd].
      rewrite set_step_other by congruence. destruct (Hri d md Ed) as [[Hm _] _]. by apply Hm.
  - specialize (Hplain Hop Es). unfold news in E. rewrite Hop in E. subst rm'. intros d md'. cbn [rm_members rm_server]. rewrite notify_lookup.
    assert (∀ b, owe [] (mkSize 0 0) d b = b) as Hnil by (intros b; unfold owe; by rewrite bool_decide_eq_false_2 by apply not_elem_of_nil).
    destruct (decide (c = d)) as [<-|Hcd].
    + rewrite lookup_insert_eq. intros [= <-]. cbn [mb_attach]. rewrite Hnil. apply (plain_told _ _ Hplain). exact (Ht c m Hc).
    + rewrite lookup_insert_ne by done. destruct (rm_members rm !! d) as [md|] eqn:Ed; [|done]. intros [= <-]. cbn [mb_attach]. rewrite Hnil.
      intros Hj. destruct Hplain as [Ess _]. cbn [snd] in Ess. rewrite Ess. exact (Ht d md Ed Hj).
Qed.

Lemma tell_step_told c k m rm rm' : told_inv rm → tell_step c k m rm = Stepped rm' → told_inv rm'.
Proof.
  intros Ht (d & ws & md & j & y & a & Ek & Ed & Ej & Es & ->)%tell_step_spec. apply list_find_Some in Ej as (Ej & -> & _).
  assert (told_current a (rm_server rm)) as Ha.
  { intros Hj. unfold deliver_step in Es. cbn [fst snd] in Es. rewrite Ej in Es. destruct (send _ _) as [| |a1] eqn:Esn; try done. injection Es as <-.
    apply send_stepped in Esn as [_ ->]. cbn [at_pc with_pending with_out at_pending] in *. destruct (Ht d md Ed Hj) as [[H1|[[ws1 H1] H2]] Hl]; rewrite H1 in Ej; [done|].
    destruct j; [|done]. injection Ej as ->. unfold at_most_one, promised in *. cbn [at_pending with_pending with_out at_pc]. rewrite H1 in *. cbn [delete list_delete] in *.
    split; [by left|]. rewrite <- Hl, H2. erewrite (size_frames_snoc (mb_attach md)); [|exact (flow_with_out (mb_attach md) (size_frame ws))].
    by rewrite decide_True, !app_nil_r. }
  intros e me. cbn [rm_members rm_server]. intros He.
  assert (told_current (mb_attach me) (rm_server rm)) as Hme; [|exact Hme].
  assert (∀ q mq, <[d := mkMember a (mb_told md)]> (rm_members rm) !! q = Some mq → told_current (mb_attach mq) (rm_server rm)) as Hq.
  { intros q mq Hmq. apply lookup_insert_Some in Hmq as [[_ <-]|[_ Hmq]]; [exact Ha|exact (Ht q mq Hmq)]. }
  apply lookup_alter_Some in He as [(-> & mq & Hmq & ->)|[_ He]]; [exact (Hq _ mq Hmq)|exact (Hq e me He)].
Qed.

Lemma room_step_told ev rm rm' :
  room_inv (λ _ _, True) rm → owed_inv (≡ₚ) rm → told_inv rm →
  call_apart ev rm → room_step ev rm = Stepped rm' → told_inv rm'.
Proof.
  intros Hri Hoi Ht Hq E. destruct ev as [c|c ev|c k|c k|op]; cbn [Room.room_step] in E.
  - destruct (rm_members rm !! c); [done|]. injection E as <-. intros d m. cbn [rm_members rm_server].
    intros [[_ <-]|[_ Hm]]%lookup_insert_Some; [by intros Hj|exact (Ht d m Hm)].
  - destruct (rm_members rm !! c) as [m|] eqn:Ec; [|done]. destruct (negb (own ev) || busy ev m) eqn:Eb; [done|].
    apply orb_false_iff in Eb as [Ho%negb_false_iff _]. unfold call_apart in Hq. rewrite Ec in Hq.
    eapply (member_step_told c ev m rm rm'); [done..| |done]. by destruct Hq.
  - destruct (rm_members rm !! c) as [m|] eqn:Ec; [|done]. by eapply tell_step_told.
  - done.
  - injection E as <-. intros d m Hm. exact (Ht d m Hm).
Qed.

Lemma room_step_set ev rm rm' : room_step ev rm = Stepped rm' → set_inv (sv_set (rm_server rm)) → set_inv (sv_set (rm_server rm')).
Proof.
  intros E Hs. destruct ev as [c|c ev|c k|c k|op]; cbn [Room.room_step] in E.
  - destruct (rm_members rm !! c); [done|]. by injection E as <-.
  - destruct (rm_members rm !! c) as [m|] eqn:Ec; [|done]. destruct (negb (own ev) || busy ev m) eqn:Eb; [done|].
    apply orb_false_iff in Eb as [Ho%negb_false_iff _]. apply member_step_spec in E as (a & sv & Es & E).
    assert (sv_set (rm_server rm') = sv_set sv) as -> by (destruct (news _ _ _ _ _ _); by subst rm').
    destruct (set_op_of c ev (at_pc (mb_attach m))) as [[an op]|] eqn:Hop.
    + destruct (set_op_server _ _ _ _ _ _ _ _ _ _ _ _ _ Hop Es) as [_ ->]. rewrite set_call_set. by apply set_step_inv.
    + destruct (own_plain c ev (mb_attach m, rm_server rm) (a, sv) Ho Hop Es) as [Ess _]. cbn [snd] in Ess. by rewrite Ess.
  - destruct (rm_members rm !! c) as [m|] eqn:Ec; [|done]. by apply tell_step_spec in E as (d & ws & md & j & y & a & _ & _ & _ & _ & ->).
  - destruct (rm_members rm !! c) as [m|] eqn:Ec; [|done]. apply panic_step_spec in E as (d & ws & md & a & sv & _ & _ & _ & Es & ->).
    cbn [rm_server]. cbn [AttachHandler.step] in Es. apply unwind_stepped in Es as (x & _ & Hx). cbn [snd] in Hx. by destruct x; subst.
  - by injection E as <-.
Qed.

Lemma room_run_set evs rm rm' : room_run evs rm = Stepped rm' → set_inv (sv_set (rm_server rm)) → set_inv (sv_set (rm_server rm')).
Proof.
  revert rm. induction evs as [|ev evs IH]; intros rm; cbn [Room.room_run]; [by intros [= <-]|].
  destruct (room_step ev rm) as [| |rm1] eqn:E; [apply IH|done|]. intros Hr Hs. apply (IH rm1 Hr). by eapply room_step_set.
Qed.

(** C22: Everyone hears of the size in force.  A session from its start, any number
    of clients, any schedule in which no [AttachSet] call starts while another
    one's [Size] frames are still being handed out, and none of these calls finds a
    queue closed: whenever nothing is left to hand out, the last [Size] frame put in the queue of each attached client is the
    size the set has chosen, which is the componentwise minimum of the sizes its
    attached clients declared. *)
Theorem sizes_agree evs rm rm' :
  empty_room rm → apart evs rm → room_run evs rm = Stepped rm' → quiet_room rm' →
  set_inv (sv_set (rm_server rm')) ∧
  ∀ d m, rm_members rm' !! d = Some m → joined (at_pc (mb_attach m)) →
  last (size_frames (mb_attach m)) = Some (size_frame (set_current (sv_set (rm_server rm')))).
Proof.
  intros He Ha Hr Hq. split; [apply (room_run_set evs rm rm' Hr); left; apply He|]. intros d m Hd Hj. destruct (empty_room_owed (≡ₚ) rm He) as [Hi Ho].
  assert (told_inv rm) as Ht by (intros q mq; by rewrite (proj1 He), lookup_empty). clear He.
  assert (owed_inv (≡ₚ) rm' ∧ told_inv rm') as [[Hp _] Ht'].
  { clear Hq Hd. revert rm Ha Hr Hi Ho Ht. induction evs as [|ev evs IH]; intros rm; cbn [Room.room_run apart]; [by intros _ [= <-]|].
    intros [Hev Hk]. destruct (room_step ev rm) as [| |rm1] eqn:E; [by apply IH|done|]. intros Hr Hi Ho Ht. apply (IH rm1 Hk Hr).
    - eapply room_step_inv; [..|exact E|exact Hi]; done.
    - eapply owed_inv_step; [apply _|right; intros c k Hck; by rewrite Hck in Hev|exact Hi|exact Ho|exact E].
    - by eapply room_step_told. }
  destruct (Ht' d m Hd Hj) as [_ Hl]. unfold promised in Hl. destruct (Hq d m Hd) as [_ Hown].
  assert (at_pending (mb_attach m) = []) as Hpe.
  { apply Permutation_nil_r. rewrite <- (Hp d m Hd). rewrite owed_none; [done|]. intros e l. rewrite lookup_fmap_Some.
    intros (me & <- & Hm). by destruct (Hq e me Hm) as [-> _]. }
  by rewrite Hpe, Hown, app_nil_r in Hl.
Qed.
End sizes.

(** Three clients; 2 and 3 shrink their windows one after the other. *)
Definition ex_hello3 (p : list byte) : option Hello := Some (mkHello (mkSize 80 24) (mkOrigin [] [] [] [] [])).
Definition ex_size3 (p : list byte) : option PTYSize := Some (mkSize (Z.of_nat (length p)) 20).

Definition ex_room3_run := room_run (IG := counter_gen) (λ _, None) ex_hello3 ex_size3 false id.
Definition ex_shrink (c : conn) (cols : nat) : room_event := RStep c (EvRead ex_answers (Ok (MsgSize, repeat 32 cols))).
Definition ex_three : list room_event := ex_join 1 ++ ex_join 2 ++ ex_join 3.

Definition ex_in_turn : list room_event :=
  ex_three ++ [ex_shrink 2 70; RTell 2 0; RTell 2 0; RStep 2 (EvMain ex_answers);
               ex_shrink 3 60; RStep 3 (EvMain ex_answers); RTell 3 0; RTell 3 0].

(** The second call starts before the first has told client 1, and overtakes it. *)
Definition ex_overlap : list room_event :=
  ex_three ++ [ex_shrink 2 70; ex_shrink 3 60; RTell 3 0; RTell 3 0; RStep 3 (EvMain ex_answers); RTell 2 0; RTell 2 0; RStep 2 (EvMain ex_answers)].

Definition last_size (c : conn) (o : outcome (room (T := tape) (R := Z))) : option wframe :=
  match o with Stepped rm => rm_members rm !! c ≫= λ m, last (size_frames (mb_attach m)) | _ => None end.

Lemma sizes_agree_witness :
  ∃ rm, ex_room3_run ex_in_turn ex_room = Stepped rm ∧ quiet_room rm ∧ set_current (sv_set (rm_server rm)) = mkSize 60 20 ∧
    ∀ m, rm_members rm !! 1%nat = Some m → last (size_frames (mb_attach m)) = Some (size_frame (mkSize 60 20)).
Proof.
  assert (∃ rm m, ex_room3_run ex_in_turn ex_room = Stepped rm ∧ bool_decide (quiet_room rm) = true ∧
    set_current (sv_set (rm_server rm)) = mkSize 60 20 ∧ rm_members rm !! 1%nat = Some m ∧ at_pc (mb_attach m) = PcLoop)
    as (rm & m & H1 & Hq & Hs & Hm & Hp).
  { do 2 eexists. split; [vm_compute; reflexivity|]. split; [vm_compute; reflexivity|]. split; [reflexivity|]. split; reflexivity. }
  apply bool_decide_eq_true_1 in Hq. exists rm. split; [exact H1|]. split; [exact Hq|]. split; [exact Hs|].
  intros m' Hm'. rewrite <- Hs.
  assert (bool_decide (apart (IG := counter_gen) (λ _, None) ex_hello3 ex_size3 false id ex_in_turn ex_room) = true) as Ha by (vm_compute; reflexivity).
  apply bool_decide_eq_true_1 in Ha.
  refine (proj2 (sizes_agree (IG := counter_gen) (λ _, None) ex_hello3 ex_size3 false id ex_in_turn ex_room rm (conj eq_refl eq_refl) Ha H1 Hq) 1%nat m' Hm' _).
  rewrite Hm in Hm'. injection Hm' as <-. rewrite Hp. exact I.
Defined.

(** When two calls overlap, the older size can be the last one everybody hears. *)
Theorem sizes_race :
  ∃ rm, ex_room3_run ex_overlap ex_room = Stepped rm ∧ quiet_room rm ∧
    set_current (sv_set (rm_server rm)) = mkSize 60 20 ∧
    ∀ c, c ∈ [1; 2; 3]%nat → last_size c (Stepped rm) = Some (size_frame (mkSize 70 20)).
Proof.
  assert (∃ rm, ex_room3_run ex_overlap ex_room = Stepped rm ∧ bool_decide (quiet_room rm) = true ∧
    set_current (sv_set (rm_server rm)) = mkSize 60 20 ∧
    (λ c, last_size c (Stepped rm)) <$> [1; 2; 3]%nat = repeat (Some (size_frame (mkSize 70 20))) 3) as (rm & H1 & Hq & Hs & Hl)
    by (eexists; split; [vm_compute; reflexivity|]; split; [vm_compute; reflexivity|]; split; vm_compute; reflexivity).
  apply bool_decide_eq_true_1 in Hq. exists rm. split; [exact H1|]. split; [exact Hq|]. split; [exact Hs|].
  injection Hl as H_1 H_2 H_3. intros c Hc. rewrite !elem_of_cons in Hc. destruct Hc as [->|[->|[->|Hc]]]; [exact H_1|exact H_2|exact H_3|]. destruct (not_elem_of_nil _ Hc).
Qed.
