(* ===== verification/RoomPanics.v ===== *)
(** * What a panic leaves behind

    [closeOut] runs before the deferred [set.Remove]: in between, a [sendSize]
    call to this client is a send on a closed channel.  It panics in the goroutine
    of the client that makes the call, and [net/http] recovers it.  The deferred
    calls of that goroutine run, but [serveOne] defers [set.Remove] only after
    [set.Add] has returned. *)
From S2P Require Import Prelude GoBase StreamFilter QueryStripper PrimaryFilter Recorder Recording Terminal Channel Wire State ShortId Store Pty PtySafety AttachSet Registry AttachHandler Room RoomClients RoomSizes.
Open Scope Z_scope.

Section panics.
Context {T : Type} {TO : TermOps T} {R : Type} {IG : IdGen R}.
Context (marshal : StateFile → option (list byte)).
Context (unmarshal_hello : list byte → option Hello) (unmarshal_size : list byte → option PTYSize).
Context (noHistory : bool) (live : conn → chan_id).

#[local] Abbreviation step c := (AttachHandler.step marshal unmarshal_hello unmarshal_size noHistory c (live c)).
#[local] Abbreviation run c := (AttachHandler.run marshal unmarshal_hello unmarshal_size noHistory c (live c)).
#[local] Abbreviation room := (Room.room (T := T) (R := R)).
#[local] Abbreviation room_step := (Room.room_step marshal unmarshal_hello unmarshal_size noHistory live).
#[local] Abbreviation room_run := (Room.room_run marshal unmarshal_hello unmarshal_size noHistory live).
#[local] Abbreviation declared c rm := (set_members (sv_set (rm_server rm)) !! c).

Lemma lost_step c ev (s s' : sys (T := T) (R := R)) :
  step c ev s = Stepped s' → at_pc s.1 = PcLost →
  at_pc s'.1 = PcLost ∧ set_members (sv_set s'.2) !! c = set_members (sv_set s.2) !! c.
Proof.
  destruct s as [a sv]. cbn [fst snd]. intros E Hl. destruct ev as [an x|an|an x|werr| |an op|k|op|rop| |]; cbn [AttachHandler.step fst snd] in E.
  - by rewrite Hl in E.
  - unfold main_step in E. by rewrite Hl in E.
  - by rewrite Hl in E.
  - destruct (writer_step werr a) as [| |a1] eqn:Ew; try discriminate E. injection E as <-.
    apply writer_step_flow in Ew as (_ & Ep & _). cbn [fst snd]. by rewrite Ep.
  - unfold live_step in E. destruct (at_live a); try discriminate E.
    + destruct (recv_sub _ _) as [[[ck| |]|e] p]; try discriminate E; by injection E as <-.
    + destruct (send _ a) as [| |a1] eqn:Es; try discriminate E. injection E as <-. by apply send_stepped in Es as [_ ->].
  - unfold other_step in E. case_bool_decide as Hne; [discriminate E|]. cbn [fst snd] in E.
    destruct (set_call marshal an op sv) as [r sv1] eqn:Ec. injection E as <-. cbn [fst snd]. apply (f_equal snd) in Ec. cbn [snd] in Ec.
    rewrite <- Ec, set_call_set, set_step_other by exact Hne. split; [by destruct (bool_decide _)|done].
  - unfold deliver_step in E. cbn [fst snd] in E. destruct (at_pending a !! k); [|discriminate E].
    destruct (send _ a) as [| |a1] eqn:Es; try discriminate E. injection E as <-. by apply send_stepped in Es as [_ ->].
  - by injection E as <-.
  - by injection E as <-.
  - unfold forcedDetach in E. destruct (at_id a), (at_forced a); try discriminate E; by injection E as <-.
  - unfold unwind_step in E. by rewrite Hl in E.
Qed.

Lemma lost_run c evs (rm rm' : room) m :
  room_run evs rm = Stepped rm' → rm_members rm !! c = Some m → at_pc (mb_attach m) = PcLost →
  declared c rm' = declared c rm ∧ ∃ m', rm_members rm' !! c = Some m' ∧ at_pc (mb_attach m') = PcLost.
Proof.
  intros Hr Hc Hl. destruct (room_run_projects _ _ _ _ _ c evs rm rm' m Hr Hc) as (m' & Hc' & Hp).
  assert (at_pc (mb_attach m', rm_server rm').1 = PcLost ∧ declared c rm' = declared c rm) as [H1 H2].
  { apply (run_inv marshal unmarshal_hello unmarshal_size noHistory c (live c)
      (λ s, at_pc s.1 = PcLost ∧ set_members (sv_set s.2) !! c = declared c rm)) in Hp; [exact Hp| |done].
    intros ev s s' [H1 H2] E. destruct (lost_step c ev s s' E H1) as [-> ->]. done. }
  split; [done|]. by exists m'.
Qed.

(** C10: A panic leaves a ghost.  In any run of a session from its start, let the
    [sendSize] call of a client [c] that is joining (it is inside [set.Add]) find
    the queue of another client closed.  Its [serveOne] is over, but nothing will
    ever remove it from the set: whatever happens from then on, the size it
    declared stays there, and the size the set chooses for the session, which it
    applies at every join, resize and departure, is never larger than it.  (Only
    [POST /pty/resize] can still make the PTY larger; it bypasses the set.) *)
Theorem panic_leaves_ghost evs rm rm1 c k m h eff rm2 evs' rm3 :
  empty_room rm → room_run evs rm = Stepped rm1 → rm_members rm1 !! c = Some m → at_pc (mb_attach m) = PcFirstSize h eff →
  room_step (RPanic c k) rm1 = Stepped rm2 → room_run evs' rm2 = Stepped rm3 →
  (∃ m3, rm_members rm3 !! c = Some m3 ∧ at_pc (mb_attach m3) = PcLost) ∧
  ∃ ws, declared c rm1 = Some ws ∧ declared c rm3 = Some ws ∧
    Cols (set_current (sv_set (rm_server rm3))) <= Cols ws ∧ Rows (set_current (sv_set (rm_server rm3))) <= Rows ws.
Proof.
  intros He Hr1 Hc Hp Hs Hr3. destruct (room_run_inv marshal unmarshal_hello unmarshal_size noHistory live (λ _ _, True) ltac:(done) ltac:(done) evs rm rm1 Hr1 He) as [Hi _].
  destruct (Hi c m Hc) as [[Hm _] _]. cbn [fst] in Hm. rewrite Hp in Hm. destruct Hm as [_ Hm]. destruct (Hm I) as [ws Hws]. cbn [snd] in Hws.
  pose proof Hs as Hs'. cbn [Room.room_step] in Hs'. rewrite Hc in Hs'. apply panic_step_spec in Hs' as (d & ws' & md & a & sv & _ & _ & _ & Es & ->).
  cbn [AttachHandler.step] in Es. unfold unwind_step, goto in Es. rewrite Hp in Es. injection Es as <- <-.
  destruct (lost_run c evs' _ rm3 (mkMember (with_pc PcLost (mb_attach m)) []) Hr3 (lookup_insert_eq _ _ _) eq_refl) as [Hd Hl]. cbn [rm_server] in Hd.
  split; [exact Hl|]. exists ws. split; [done|]. rewrite Hd. split; [done|].
  assert (set_inv (sv_set (rm_server rm3))) as [Hem|(Hmin & _)].
  { eapply room_run_set; [exact Hr3|]. eapply room_step_set; [exact Hs|]. eapply room_run_set; [exact Hr1|]. left. apply He. }
  - rewrite Hem, lookup_empty in Hd. congruence.
  - apply (Hmin c ws). by rewrite Hd.
Qed.
End panics.

(** Client 1 hangs up; between its [closeOut] and its [set.Remove] client 2 joins
    from a smaller window.  Client 3 attaches later, to a session nobody else is
    attached to any more, and still gets the size of client 2. *)
Definition ex_ghost_hello (p : list byte) : option Hello :=
  Some (mkHello (mkSize (Z.of_nat (length p)) 24) (mkOrigin [] [] [] [] [])).
Definition ex_ghost_run := room_run (IG := counter_gen) (λ _, None) ex_ghost_hello ex_size false id.
Definition ex_enter (c : conn) (cols : nat) : list room_event := [RConnect c; RStep c (EvHello ex_answers (Ok (MsgHello, repeat 32 cols)))].
Definition ex_hang_up (c : conn) : list room_event :=
  [RStep c (EvRead ex_answers (Err (WireIO EOF))); RStep c (EvMain ex_answers); RStep c EvLive; RStep c (EvMain ex_answers); RStep c (EvMain ex_answers)].

Definition ex_clash : list room_event :=
  ex_enter 1 80 ++ repeat (RStep 1 (EvMain ex_answers)) 5 ++ ex_hang_up 1 ++ ex_enter 2 40.

Definition ex_later : list room_event :=
  repeat (RStep 1 (EvWriter None)) 4 ++ repeat (RStep 1 (EvMain ex_answers)) 3 ++ ex_enter 3 100.

Lemma panic_leaves_ghost_witness :
  ∃ rm1 rm2 rm3, ex_ghost_run ex_clash ex_room = Stepped rm1 ∧
    Room.room_step (IG := counter_gen) (λ _, None) ex_ghost_hello ex_size false id (RPanic 2 0) rm1 = Stepped rm2 ∧
    ex_ghost_run ex_later rm2 = Stepped rm3 ∧
    (∃ m1, rm_members rm3 !! 1%nat = Some m1 ∧ at_pc (mb_attach m1) = PcDone (Ok tt)) ∧
    (∃ m3, rm_members rm3 !! 3%nat = Some m3 ∧ ∃ h, at_pc (mb_attach m3) = PcFirstSize h (mkSize 40 24)) ∧
    Cols (set_current (sv_set (rm_server rm3))) <= 40.
Proof.
  assert (∃ rm1 m h eff rm2 rm3, ex_ghost_run ex_clash ex_room = Stepped rm1 ∧ rm_members rm1 !! 2%nat = Some m ∧ at_pc (mb_attach m) = PcFirstSize h eff ∧
    set_members (sv_set (rm_server rm1)) !! 2%nat = Some (mkSize 40 24) ∧
    Room.room_step (IG := counter_gen) (λ _, None) ex_ghost_hello ex_size false id (RPanic 2 0) rm1 = Stepped rm2 ∧
    ex_ghost_run ex_later rm2 = Stepped rm3 ∧ (∃ m1, rm_members rm3 !! 1%nat = Some m1 ∧ at_pc (mb_attach m1) = PcDone (Ok tt)) ∧
    (∃ m3, rm_members rm3 !! 3%nat = Some m3 ∧ ∃ h, at_pc (mb_attach m3) = PcFirstSize h (mkSize 40 24)))
    as (rm1 & m & h & eff & rm2 & rm3 & H1 & Hm & Hp & Hd & Hs & H3 & Hm1 & Hm3).
  { do 6 eexists. split; [vm_compute; reflexivity|]. split; [reflexivity|]. split; [reflexivity|]. split; [reflexivity|].
    split; [vm_compute; reflexivity|]. split; [vm_compute; reflexivity|]. split; [eexists; split; reflexivity|].
    eexists. split; [reflexivity|]. eexists. reflexivity. }
  exists rm1, rm2, rm3. do 3 (split; [first [exact H1|exact Hs|exact H3]|]). split; [exact Hm1|]. split; [exact Hm3|].
  destruct (panic_leaves_ghost (IG := counter_gen) (λ _, None) ex_ghost_hello ex_size false id ex_clash ex_room rm1 2 0 m h eff rm2 ex_later rm3
    (conj eq_refl eq_refl) H1 Hm Hp Hs H3) as (_ & ws & Ew & _ & Hcols & _).
  rewrite Hd in Ew. injection Ew as <-. exact Hcols.
Defined.
