(* ===== verification/RoomViews.v ===== *)
(** * What every client of a session sees

    [EndToEnd] follows one attachment with the rest of the world as events; its
    theorems ask that the others keep to channels of their own.  In a [Room] they
    do: each attachment makes its channel when it subscribes and uses no other.
    So what was proved of one attachment holds of all of them at once, over the
    one output of the session. *)
From S2P Require Import Prelude GoBase StreamFilter QueryStripper PrimaryFilter Recorder Recording Terminal Channel Wire State ShortId Store Pty PtySafety Delivery AttachSet Registry AttachHandler Hud Restorer AttachClient EndToEnd Room.
Open Scope Z_scope.

Section views.
Context {T : Type} {TO : TermOps T} {R : Type} {IG : IdGen R}.
Context (marshal : StateFile → option (list byte)).
Context (unmarshal_hello : list byte → option Hello) (unmarshal_size : list byte → option PTYSize).
Context (noHistory : bool) (live : conn → chan_id).
Context (Hlive : ∀ c d, live c = live d → c = d).

#[local] Abbreviation step c := (AttachHandler.step marshal unmarshal_hello unmarshal_size noHistory c (live c)).
#[local] Abbreviation run c := (AttachHandler.run marshal unmarshal_hello unmarshal_size noHistory c (live c)).
#[local] Abbreviation keeps_up c := (EndToEnd.keeps_up marshal unmarshal_hello unmarshal_size noHistory c (live c)).
#[local] Abbreviation room := (Room.room (T := T) (R := R)).
#[local] Abbreviation room_step := (Room.room_step marshal unmarshal_hello unmarshal_size noHistory live).
#[local] Abbreviation room_run := (Room.room_run marshal unmarshal_hello unmarshal_size noHistory live).
#[local] Abbreviation ripple := (Room.ripple unmarshal_hello unmarshal_size live).
#[local] Abbreviation project1 := (Room.project1 (T := T) (R := R) unmarshal_hello unmarshal_size live).
#[local] Abbreviation project := (Room.project marshal unmarshal_hello unmarshal_size noHistory live).
#[local] Abbreviation room_pty rm := (sv_pty (rm_server rm)).

(** What the read loop and the HTTP routes do, at the state they do it in. *)
Fixpoint at_pty (Q : pty_op → LibghosttyPTY T → Prop) (evs : list room_event) (rm : room) : Prop :=
  match evs with
  | [] => True
  | ev :: evs' =>
      match ev with RPty op => Q op (room_pty rm) | _ => True end ∧
      match room_step ev rm with
      | Stepped rm' => at_pty Q evs' rm'
      | Blocked => at_pty Q evs' rm
      | Panicked => True
      end
  end.

(** The routes make their own channels. *)
Definition polite (op : pty_op) (p : LibghosttyPTY T) : Prop := (∀ c, op_chan op ≠ Some (live c)) ∧ fresh_op op p.

(** The output of the session. *)
Definition room_output (evs : list room_event) : list byte :=
  concat ((λ ev, match ev with RPty op => op_bytes op | _ => [] end) <$> evs).

(** ** Channels *)

Lemma op_chans_none op id p :
  pty_inv p → op_chan op ≠ Some id → p_chans p !! id = None → p_chans (pty_run1 op p).2 !! id = None.
Proof.
  intros Hi Hj Hn. assert (∀ j q, Some j ≠ Some id → touches_only j p q → p_chans q !! id = None) as Ht.
  { intros j q Hne [_ H]. destruct (H id) as [_ ->]; [congruence|done]. }
  destruct op as [now ck|ss now c r|data|cap j|j|j|j|j|room rc]; cbn [pty_run1 op_chan result snd] in *.
  - unfold readLoop_chunk, pty_do. destruct ck as [|b ck]; [done|]. destruct (p_closed p); [done|].
    destruct (feed_action_ok now (b :: ck) p Hi) as (p' & -> & _ & _ & _ & _ & _ & Ec). cbn [snd]. rewrite Ec, Hn. by destruct (p_subs p !! id).
  - unfold Pty.Resize. destruct ss; [|exact Hn]. unfold mbind, st_bind, pty_do. destruct (p_closed p); [exact Hn|]. unfold resize_action.
    destruct (p_term p) as [t|]; [|exact Hn]. destruct (TermResize c r t) as [[|e] t']; [|exact Hn]. cbn [p_primaryTerm set_terms].
    destruct (p_primaryTerm p) as [q|]; [|exact Hn]. destruct (TermResize c r q) as [[|] q']; exact Hn.
  - unfold Pty.Write, mbind, st_bind, master_write. destruct (GoBase.Write data (p_master p)) as [[|] w]; done.
  - eapply Ht; [exact Hj|apply subscribe_cap_touches].
  - eapply Ht; [exact Hj|apply subscribe_snapshot_touches].
  - eapply Ht; [exact Hj|apply subscribe_snapshot_touches].
  - eapply Ht; [exact Hj|apply cancel_touches].
  - eapply Ht; [exact Hj|apply recv_touches].
  - destruct (Close_keeps id room rc p Hi) as [_ _]. unfold Pty.Close. destruct (p_closed p); [done|]. destruct room; [|done].
    destruct (close_subs_ok (map_to_list (p_subs p)).*1 p) as (p1 & E & _ & _ & _ & Hout & Hin).
    { apply NoDup_fst_map_to_list. }
    { intros i ([k s] & -> & Hk)%list_elem_of_fmap. apply elem_of_map_to_list in Hk. by exists s. }
    { done. }
    unfold mbind, st_bind. cbn [st_get]. rewrite E. cbn.
    destruct (decide (id ∈ (map_to_list (p_subs p)).*1)) as [Hm|Hm]; [by destruct (Hin id Hm) as (_ & c' & Hc' & _); congruence|].
    by destruct (Hout id Hm) as [_ ->].
Qed.

Definition before_sub (x : pc) : Prop :=
  match x with PcHello | PcFirstSize _ _ | PcRegister _ | PcSubscribe => True | _ => False end.

(** Nobody has used the channel of a client that has not subscribed. *)
Definition chans_inv (rm : room) : Prop :=
  pty_inv (room_pty rm) ∧
  ∀ c, match rm_members rm !! c with Some m => before_sub (at_pc (mb_attach m)) | None => True end → p_chans (room_pty rm) !! live c = None.

(** What an attachment's step does to the PTY, and with whose channel. *)
Definition own_op (c : conn) (x : pc) (op : pty_op) : Prop :=
  match op with
  | PResize _ _ _ _ | PInput _ => True
  | PParts id => id = live c ∧ x = PcSubscribe
  | PCancel id | PRecv id => id = live c
  | _ => False
  end.

Lemma ripple_own c ev a op : EvPty op ∈ ripple c ev a → own_op c (at_pc a) op.
Proof.
  unfold Room.ripple. destruct (set_op_of _ _ c ev (at_pc a)) as [[an o]|]; [by intros Hin%list_elem_of_singleton|].
  destruct ev as [an x|an|an x|werr| |an o|k|o|rop| |]; try (by intros Hin%not_elem_of_nil).
  - destruct (at_pc a); try (by intros Hin%not_elem_of_nil); try (by intros [= ->]%list_elem_of_singleton); try (by intros Hin%list_elem_of_singleton).
    destruct (at_id a); [by intros Hin%list_elem_of_singleton|by intros Hin%not_elem_of_nil].
  - destruct x as [[typ payload]|e]; [|by intros Hin%not_elem_of_nil]. destruct (typ =? MsgInput); [|by intros Hin%not_elem_of_nil].
    by intros [= ->]%list_elem_of_singleton.
  - destruct (at_live a); try (by intros Hin%not_elem_of_nil). by intros [= ->]%list_elem_of_singleton.
  - destruct (at_pc a); try (by intros Hin%not_elem_of_nil); by intros [= ->]%list_elem_of_singleton.
Qed.

Lemma env_pty d ev (s s' : sys (T := T) (R := R)) :
  match ev with EvOther _ _ | EvReg _ | EvPty _ => True | _ => False end → step d ev s = Stepped s' →
  sv_pty s'.2 = sv_pty s.2 ∨ ∃ op, sv_pty s'.2 = (pty_run1 op (sv_pty s.2)).2 ∧ ((∃ ss now cols rows, op = PResize ss now cols rows) ∨ ev = EvPty op).
Proof.
  destruct s as [a sv]. destruct ev as [an x|an|an x|werr| |an o|k|o|rop| |]; try done; cbn [AttachHandler.step fst snd]; intros _ E.
  - unfold other_step in E. destruct (bool_decide _); [done|]. unfold set_call, size_applier in E. cbn [snd] in E.
    destruct (res_apply _) as [ws|]; injection E as <-; [|by left]. right. exists (PResize (an_setsize an) (an_now an) (Cols ws) (Rows ws)).
    split; [done|left; by eauto].
  - injection E as <-. right. exists o. by split; [|right].
  - injection E as <-. by left.
Qed.

Lemma own_before c ev (s s' : sys (T := T) (R := R)) :
  own ev = true → step c ev s = Stepped s' → before_sub (at_pc s'.1) → before_sub (at_pc s.1).
Proof.
  intros Ho. destruct s as [a sv]. destruct ev as [an x|an|an x|werr| |an op|k|op|rop| |]; try discriminate Ho; cbn [AttachHandler.step fst snd]; intros E.
  - destruct (at_pc a); try discriminate E. done.
  - unfold main_step, send_then, register_step, subscribe_step, goto in E. cbn [fst snd] in E.
    destruct (at_pc a) eqn:Epc; try discriminate E; try done;
      try (destruct (send _ a) as [| |a1] eqn:Es; try discriminate E; by injection E as <-);
      repeat (case_match; try discriminate E); by simplify_eq.
  - destruct (at_pc a) eqn:Epc; try discriminate E. unfold read_step, goto in E.
    repeat (case_match; try discriminate E); simplify_eq; cbn [fst with_pc at_pc]; rewrite ?Epc; try done.
  - destruct (writer_step werr a) as [| |a1] eqn:Ew; try discriminate E. injection E as <-.
    apply writer_step_flow in Ew as (_ & Ep & _). cbn [fst]. by rewrite Ep.
  - unfold live_step in E. destruct (at_live a); try discriminate E.
    + destruct (recv_sub _ _) as [[[ck| |]|e] p]; try discriminate E; by injection E as <-.
    + destruct (send _ a) as [| |a1] eqn:Es; try discriminate E. injection E as <-. by apply send_stepped in Es as [_ ->].
  - unfold forcedDetach in E. destruct (at_id a), (at_forced a); try discriminate E; by injection E as <-.
Qed.

Lemma parts_after c ev a (sv : server T R) a' sv' id :
  EvPty (PParts id) ∈ ripple c ev a → step c ev (a, sv) = Stepped (a', sv') → ¬ before_sub (at_pc a').
Proof.
  intros Hin E. pose proof (ripple_own _ _ _ _ Hin) as [_ Epc]. destruct ev as [an x|an|an x|werr| |an o|k|o|rop| |]; cbn [AttachHandler.step fst snd] in E.
  - by rewrite Epc in E.
  - unfold main_step in E. rewrite Epc in E. unfold subscribe_step in E. cbn [fst snd] in E.
    destruct (SubscribeWithSnapshotParts _ _) as [[[sb sc]|e] p]; injection E as <- _; by intros Hb.
  - by rewrite Epc in E.
  - unfold Room.ripple in Hin. rewrite Epc in Hin. by apply not_elem_of_nil in Hin.
  - unfold Room.ripple in Hin. cbn in Hin. destruct (at_live a); try (by apply not_elem_of_nil in Hin). by apply list_elem_of_singleton in Hin.
  - unfold Room.ripple in Hin. cbn in Hin. by apply not_elem_of_nil in Hin.
  - unfold Room.ripple in Hin. cbn in Hin. by apply not_elem_of_nil in Hin.
  - unfold Room.ripple in Hin. cbn in Hin. by apply not_elem_of_nil in Hin.
  - unfold Room.ripple in Hin. cbn in Hin. by apply not_elem_of_nil in Hin.
  - unfold Room.ripple in Hin. cbn in Hin. by apply not_elem_of_nil in Hin.
  - unfold Room.ripple in Hin. cbn in Hin. by rewrite Epc in Hin; apply not_elem_of_nil in Hin.
Qed.

Lemma own_step_pty c ev a (sv : server T R) a' sv' :
  own ev = true → step c ev (a, sv) = Stepped (a', sv') →
  sv_pty sv' = sv_pty sv ∨
  ∃ op, sv_pty sv' = (pty_run1 op (sv_pty sv)).2 ∧ own_op c (at_pc a) op ∧ (∀ id, op = PParts id → ¬ before_sub (at_pc a')).
Proof.
  intros Ho Es. pose proof (ripple_run marshal unmarshal_hello unmarshal_size noHistory live c (S c) ev a sv a' sv' new_attach ltac:(lia) Ho Es) as Hr.
  destruct (news _ _ _ _ _ _) as [rs eff]. destruct (ripple_short unmarshal_hello unmarshal_size live c ev a) as [E|(e & E & He)].
  - rewrite E in Hr. injection Hr as _ <-. by left.
  - rewrite E in Hr. cbn [AttachHandler.run] in Hr. destruct (AttachHandler.step _ _ _ _ _ _ e (new_attach, sv)) as [| |s1] eqn:E1; [|done|].
    + injection Hr as _ <-. by left.
    + injection Hr as ->. destruct (env_pty (S c) e _ _ He E1) as [Hp|(op & Hp & [(ss & now & cols & rows & ->)| ->])]; [by left|right; by eexists|].
      right. exists op. split; [done|]. assert (EvPty op ∈ ripple c ev a) as Hin by (rewrite E; by left).
      split; [by apply (ripple_own c ev)|]. intros id ->. by apply (parts_after c ev a sv a' sv' id).
Qed.

Lemma own_op_chan c x op id : own_op c x op → id ≠ live c → op_chan op ≠ Some id.
Proof. intros Ho Hne. destruct op; cbn in *; try done; try (destruct Ho; congruence); congruence. Qed.

Lemma own_op_fresh c a op (p : LibghosttyPTY T) :
  own_op c (at_pc a) op → (before_sub (at_pc a) → p_chans p !! live c = None) → fresh_op op p.
Proof. intros Ho Hf. destruct op; cbn in *; try done. destruct Ho as [-> E]. apply Hf. by rewrite E. Qed.

(** Its own operations leave a channel alone that it has not made yet. *)
Lemma own_op_unmade c x op (p : LibghosttyPTY T) :
  pty_inv p → own_op c x op → (∀ id, op ≠ PParts id) → p_chans p !! live c = None → p_chans (pty_run1 op p).2 !! live c = None.
Proof.
  intros Hi Ho Hn Hc. destruct op as [now ck|ss now cols rows|data|cap j|j|j|j|j|room rc]; cbn in Ho; try done.
  - by apply op_chans_none.
  - by apply op_chans_none.
  - by destruct (Hn j).
  - subst j. cbn [pty_run1]. unfold cancel, pty_do. destruct (p_closed p); [done|]. destruct (p_subs p !! live c) as [s|] eqn:Es; [|done].
    destruct (proj1 Hi _ _ Es) as (ch & Hch & _). congruence.
  - subst j. cbn [pty_run1 result snd]. unfold recv_sub. by rewrite Hc.
Qed.

(** Unwinding uses no channel that is not its own either. *)
Lemma unwind_pty c a (sv : server T R) a' sv' :
  step c EvUnwind (a, sv) = Stepped (a', sv') →
  (sv_pty sv' = sv_pty sv ∨ sv_pty sv' = (pty_run1 (PCancel (live c)) (sv_pty sv)).2) ∧ (before_sub (at_pc a') → False).
Proof.
  cbn [AttachHandler.step]. intros (x & Ea & Hx)%unwind_stepped. cbn [fst snd] in *. subst a'. cbn [with_pc at_pc].
  destruct x; try done; subst sv'; (split; [|done]); first [by left|by right].
Qed.

Lemma panic_chans c k m rm rm' :
  chans_inv rm → rm_members rm !! c = Some m →
  panic_step marshal unmarshal_hello unmarshal_size noHistory live c k m rm = Stepped rm' → chans_inv rm'.
Proof.
  intros [Hi Hf] Ec (d & ws & md & a & sv & _ & _ & _ & Es & ->)%panic_step_spec. destruct (unwind_pty c _ _ _ _ Es) as [Hp Hb].
  assert (∀ e, match <[c := mkMember a []]> (rm_members rm) !! e with Some me => before_sub (at_pc (mb_attach me)) | None => True end →
    e ≠ c ∧ match rm_members rm !! e with Some me => before_sub (at_pc (mb_attach me)) | None => True end) as Hm.
  { intros e. destruct (decide (c = e)) as [<-|Hce]; [rewrite lookup_insert_eq; by intros He|]. rewrite lookup_insert_ne by done. by split. }
  unfold chans_inv. cbn [rm_server rm_members]. destruct Hp as [-> | ->].
  - split; [exact Hi|]. intros e He. by apply Hf, Hm.
  - split; [by apply (pty_run1_inv (PCancel (live c)))|]. intros e He. destruct (Hm e He) as [Hec Hbe].
    apply (op_chans_none (PCancel (live c))); [done| |by apply Hf]. intros [= El]. by apply Hec, Hlive.
Qed.

Lemma chans_step ev rm rm' :
  chans_inv rm → match ev with RPty op => polite op (room_pty rm) | _ => True end → room_step ev rm = Stepped rm' → chans_inv rm'.
Proof.
  intros [Hi Hf] Hev E. destruct ev as [c|c ev|c k|c k|op]; cbn [Room.room_step] in E.
  - destruct (rm_members rm !! c) eqn:Ec; [done|]. injection E as <-. split; [exact Hi|]. intros d Hd. cbn [rm_server rm_members] in *.
    apply Hf. destruct (decide (c = d)) as [<-|Hcd]; [by rewrite Ec|]. by rewrite lookup_insert_ne in Hd.
  - destruct (rm_members rm !! c) as [m|] eqn:Ec; [|done]. destruct (negb (own ev) || busy ev m) eqn:Eb; [done|].
    apply orb_false_iff in Eb as [Ho%negb_false_iff _]. apply member_step_spec in E as (a & sv & Es & E).
    assert (rm_server rm' = sv) as Esv by (destruct (news _ _ _ _ _ _); by subst rm').
    assert (∀ e, match rm_members rm' !! e with Some me => before_sub (at_pc (mb_attach me)) | None => True end →
      match rm_members rm !! e with Some me => before_sub (at_pc (mb_attach me)) | None => True end ∧ (e = c → before_sub (at_pc a))) as Hm.
    { intros e. destruct (news _ _ _ _ _ _) as [rs eff]. subst rm'. cbn [rm_members]. rewrite notify_lookup. destruct (decide (c = e)) as [<-|Hce].
      - rewrite lookup_insert_eq, Ec. cbn [fmap option_fmap option_map mb_attach]. unfold owe. intros Hb.
        assert (before_sub (at_pc a)) as Hb' by by destruct (bool_decide _). split; [by apply (own_before c ev _ _ Ho Es)|done].
      - rewrite lookup_insert_ne by done. destruct (rm_members rm !! e); [|by intros _; split; [|congruence]]. cbn [fmap option_fmap option_map mb_attach].
        unfold owe. intros Hb. split; [by destruct (bool_decide _)|congruence]. }
    unfold chans_inv. rewrite Esv. assert (before_sub (at_pc (mb_attach m)) → p_chans (room_pty rm) !! live c = None) as Hc by (intros Hb; apply Hf; by rewrite Ec).
    destruct (own_step_pty c ev _ _ _ _ Ho Es) as [-> |(op & -> & Hop & Hpa)].
    + split; [exact Hi|]. intros e He. apply Hf. by apply Hm.
    + split; [apply (pty_run1_inv op); [by apply (own_op_fresh c (mb_attach m))|exact Hi]|]. intros e He. destruct (Hm e He) as [He' Hea].
      destruct (decide (e = c)) as [->|Hec].
      * rewrite Ec in He'. apply (own_op_unmade c (at_pc (mb_attach m))); [done|done| |by apply Hc]. intros id ->. by apply (Hpa id eq_refl), Hea.
      * apply op_chans_none; [done| |by apply Hf]. apply (own_op_chan c (at_pc (mb_attach m))); [done|]. intros El. by apply Hec, Hlive.
  - destruct (rm_members rm !! c) as [m|] eqn:Ec; [|done]. apply tell_step_spec in E as (d & ws & md & j & y & a & _ & Ed & _ & Es & ->).
    split; [exact Hi|]. intros e He. cbn [rm_members rm_server] in *. apply Hf.
    assert (at_pc a = at_pc (mb_attach md)) as Ep.
    { unfold deliver_step in Es. cbn [fst] in Es. destruct (at_pending _ !! j); [|done]. destruct (send _ _) as [| |a1] eqn:Esn; try done.
      injection Es as <-. by apply send_stepped in Esn as [_ ->]. }
    destruct (decide (e = d)) as [->|Hed].
    + rewrite Ed, <- Ep. destruct (decide (c = d)) as [->|Hcd]; [rewrite lookup_alter_eq in He|rewrite lookup_alter_ne in He by done]; by rewrite lookup_insert_eq in He.
    + destruct (decide (c = e)) as [->|Hce]; [rewrite lookup_alter_eq in He|rewrite lookup_alter_ne in He by done]; rewrite lookup_insert_ne in He by done; [|done].
      by destruct (rm_members rm !! e).
  - destruct (rm_members rm !! c) as [m|] eqn:Ec; [|done]. by apply (panic_chans c k m rm).
  - injection E as <-. destruct Hev as [Hp Hfr]. split; [by apply pty_run1_inv|]. intros e He. cbn [rm_server rm_members] in *.
    apply op_chans_none; [done|apply Hp|by apply Hf].
Qed.

(** ** The projection keeps up *)

Lemma keeps_up_app d evs1 evs2 s s1 :
  run d evs1 s = Stepped s1 → keeps_up d evs1 s → keeps_up d evs2 s1 → keeps_up d (evs1 ++ evs2) s.
Proof.
  revert s. induction evs1 as [|ev evs1 IH]; intros s; cbn [AttachHandler.run EndToEnd.keeps_up app]; [by intros [= ->]|].
  destruct (step d ev s) as [| |s2]; intros Hr [Hev Hk] H2; try done; (split; [exact Hev|by apply IH]).
Qed.

Lemma keeps_up_one d ev s :
  match ev with EvPty op => op_chan op ≠ Some (live d) ∧ fresh_op op (sv_pty s.2) ∧ room_for (live d) op (sv_pty s.2) | _ => True end →
  keeps_up d [ev] s.
Proof. intros H. cbn. split; [exact H|]. by destruct (step d ev s). Qed.

Lemma step_keeps_up d ev rm rm' m :
  chans_inv rm → room_step ev rm = Stepped rm' → rm_members rm !! d = Some m →
  match ev with RPty op => polite op (room_pty rm) ∧ room_for (live d) op (room_pty rm) | _ => True end →
  keeps_up d (project1 d ev rm) (mb_attach m, rm_server rm).
Proof.
  intros [Hi Hf] E Hd Hev. destruct ev as [c|c ev|c k|c k|op]; cbn [Room.room_step Room.project1] in *.
  - done.
  - destruct (rm_members rm !! c) as [mc|] eqn:Ec; [|done]. destruct (negb (own ev) || busy ev mc) eqn:Eb; [done|].
    apply orb_false_iff in Eb as [Ho%negb_false_iff _]. case_bool_decide as Hcd; [apply keeps_up_one; by destruct ev|].
    destruct (ripple_short unmarshal_hello unmarshal_size live c ev (mb_attach mc)) as [-> |(e & Er & He)]; [done|]. rewrite Er. apply keeps_up_one. destruct e as [| | | | | | |op| | |]; try done.
    assert (own_op c (at_pc (mb_attach mc)) op) as Hop by (apply (ripple_own c ev); rewrite Er; by left).
    split; [apply (own_op_chan c (at_pc (mb_attach mc))); [done|]; intros El; by apply Hcd, Hlive|]. cbn [snd]. split; [|by destruct op].
    apply (own_op_fresh c (mb_attach mc)); [done|]. intros Hb. apply Hf. by rewrite Ec.
  - destruct (_ ≫= _) as [[e ws]|]; [|done]. destruct (bool_decide _); [|done]. destruct (_ ≫= _) as [[j y]|]; [|done]. by apply keeps_up_one.
  - destruct (rm_members rm !! c) as [mc|] eqn:Ec; [|done]. case_bool_decide as Hcd; [by apply keeps_up_one|].
    destruct (ripple_short unmarshal_hello unmarshal_size live c EvUnwind (mb_attach mc)) as [-> |(e & Er & He)]; [done|]. rewrite Er. apply keeps_up_one. destruct e as [| | | | | | |op| | |]; try done.
    assert (own_op c (at_pc (mb_attach mc)) op) as Hop by (apply (ripple_own c EvUnwind); rewrite Er; by left).
    split; [apply (own_op_chan c (at_pc (mb_attach mc))); [done|]; intros El; by apply Hcd, Hlive|]. cbn [snd]. split; [|by destruct op].
    apply (own_op_fresh c (mb_attach mc)); [done|]. intros Hb. apply Hf. by rewrite Ec.
  - apply keeps_up_one. destruct Hev as [[H1 H2] H3]. by split.
Qed.

Lemma room_keeps_up d evs rm rm' m :
  chans_inv rm → room_run evs rm = Stepped rm' → rm_members rm !! d = Some m →
  at_pty polite evs rm → at_pty (room_for (live d)) evs rm →
  keeps_up d (project d evs rm) (mb_attach m, rm_server rm).
Proof.
  revert rm m. induction evs as [|ev evs IH]; intros rm m Hi; cbn [Room.room_run Room.project at_pty]; [done|].
  destruct (room_step ev rm) as [| |rm1] eqn:E; intros Hr Hd [Hp1 Hp] [Hf1 Hf]; [by apply IH|done|].
  destruct (room_step_projects _ _ _ _ _ d ev rm rm1 m E Hd) as (m1 & Hd1 & Hr1).
  apply (keeps_up_app d _ _ _ (mb_attach m1, rm_server rm1)); [exact Hr1| |].
  - apply (step_keeps_up d ev rm rm1); [done..|]. by destruct ev.
  - apply IH; try done. apply (chans_step ev rm); [done| |done]. by destruct ev.
Qed.

(** The output in the projection is the output of the session. *)
Lemma output_app evs1 evs2 : output (evs1 ++ evs2) = output evs1 ++ output evs2.
Proof. unfold output. by rewrite fmap_app, concat_app. Qed.

Lemma output_one ev : output [ev] = event_bytes ev.
Proof. apply app_nil_r. Qed.

Lemma ripple_output c ev a : output (ripple c ev a) = [].
Proof.
  destruct (ripple_short unmarshal_hello unmarshal_size live c ev a) as [-> |(e & Er & He)]; [done|]. rewrite Er, output_one. destruct e as [| | | | | | |op| | |]; try done.
  assert (own_op c (at_pc a) op) as Hop by (apply (ripple_own c ev); rewrite Er; by left). by destruct op.
Qed.

Lemma project1_output d ev rm : room_step ev rm ≠ Blocked → output (project1 d ev rm) = match ev with RPty op => op_bytes op | _ => [] end.
Proof.
  intros Hb. destruct ev as [c|c ev|c k|c k|op]; cbn [Room.project1].
  - done.
  - cbn [Room.room_step] in Hb. destruct (rm_members rm !! c) as [mc|] eqn:Ec; [|done].
    destruct (own ev) eqn:Ho; [|done]. case_bool_decide; [|apply ripple_output]. rewrite output_one. by destruct ev.
  - destruct (_ ≫= _) as [[e ws]|]; [|done]. destruct (bool_decide _); [|done]. by destruct (_ ≫= _) as [[j y]|].
  - cbn [Room.room_step] in Hb. destruct (rm_members rm !! c) as [mc|] eqn:Ec; [|done]. case_bool_decide; [done|apply ripple_output].
  - apply output_one.
Qed.

Lemma project_output d evs rm rm' : room_run evs rm = Stepped rm' → output (project d evs rm) = room_output evs.
Proof.
  revert rm. induction evs as [|ev evs IH]; intros rm; cbn [Room.room_run Room.project]; [done|].
  unfold room_output. cbn [fmap list_fmap concat]. fold (room_output evs).
  destruct (room_step ev rm) as [| |rm1] eqn:E; [|done|]; intros Hr.
  - rewrite (IH rm Hr). by destruct ev.
  - rewrite output_app, (IH rm1 Hr), project1_output by congruence. done.
Qed.

Lemma chans_run evs rm rm' : room_run evs rm = Stepped rm' → at_pty polite evs rm → chans_inv rm → chans_inv rm'.
Proof.
  revert rm. induction evs as [|ev evs IH]; intros rm; cbn [Room.room_run at_pty]; [by intros [= <-]|].
  destruct (room_step ev rm) as [| |rm1] eqn:E; [intros Hr [_ Hp]; by apply IH|done|]. intros Hr [Hev Hp] Hi. apply (IH rm1 Hr Hp).
  apply (chans_step ev rm); [done| |done]. by destruct ev.
Qed.

(** What holds of a client of a session from its start. *)
Lemma room_client evs rm rm' d m :
  empty_room rm → room_run evs rm = Stepped rm' → rm_members rm' !! d = Some m → order_inv (mb_attach m) ∧ wire_ok (mb_attach m).
Proof.
  intros He Hr Hd.
  assert (room_inv (λ _ (s : sys (T := T) (R := R)), order_inv s.1 ∧ wire_ok s.1) rm') as [H _].
  { eapply room_run_inv; [| |exact Hr|exact He].
    - intros d' sv _. split; [done|by constructor].
    - intros d' ev s s' [H1 H2] E. split; [by eapply step_order|by eapply step_wire]. }
  by apply (H d m Hd).
Qed.

(** C3: Every client of a session sees the session.  A session from its start,
    any number of clients, any schedule of all their goroutines, of the read loop
    and of the HTTP routes; client [d] subscribes while the PTY is live, and its
    channel, of 256 chunks, is never found full afterwards.  Then, wherever [d]'s
    connection is cut, what [d] shows is a prefix of: the scrollback and the screen
    of the moment it subscribed, with its status line, and then the query-stripped
    output the session has had since, byte for byte; all of it once its queues are
    empty.  Apart from that it shows two notices of the server at most: that of
    [hoot detach], if that was called for [d], and behind everything the error with
    which its own handler has ended ([noticed]).  The other clients cannot add to
    it, take from it or reorder it. *)
Theorem room_end_to_end text evs1 rm rm1 d m1 an rm1' evs2 rm2 m2 fs sb sc size_of hud label ls rows k fin n out err att r :
  empty_room rm → chans_inv rm → room_run evs1 rm = Stepped rm1 → at_pty polite evs1 rm →
  rm_members rm1 !! d = Some m1 → at_pc (mb_attach m1) = PcSubscribe →
  p_closed (room_pty rm1) = false → is_Some (p_term (room_pty rm1)) → snapshotPartsLocked (room_pty rm1) = Ok (sb, sc) →
  room_step (RStep d (EvMain an)) rm1 = Stepped rm1' → room_run evs2 rm1' = Stepped rm2 →
  at_pty polite evs2 rm1' → at_pty (room_for (live d)) evs2 rm1' →
  rm_members rm2 !! d = Some m2 → received text (mb_attach m2) fs → (length fs < n)%nat →
  let view := full_view hud label rows (if noHistory then [] else sb, sc) (Filter (room_output evs2) newStripper).1 in
  let '(e, c) := runServerLoop size_of hud label n ls rows
      (Reader (take k (enc_frames fs)) fin) (mkClient (sink out) err att r) in
  (∃ cause, e = Some (SlRead (WireIO cause))) ∧
  ∃ shown body, cl_stdout c = sink (out ++ body) ∧ noticed text (mb_attach m2) shown body ∧ shown `prefix_of` view ∧
    (caught_up (live d) (mb_attach m2, rm_server rm2) → (length (enc_frames fs) <= k)%nat → shown = view).
Proof.
  intros He Hc Hr1 Hp1 Hd1 Hpc Hcl Ht Hsn Es Hr2 Hp2 Hf2 Hd2 Hrc Hn.
  pose proof (chans_run evs1 rm rm1 Hr1 Hp1 Hc) as Hc1. destruct (room_client evs1 rm rm1 d m1 He Hr1 Hd1) as [Ho1 Hw1].
  destruct (room_step_projects _ _ _ _ _ d _ rm1 rm1' m1 Es Hd1) as (m1' & Hd1' & Hs). cbn [Room.project1] in Hs.
  rewrite bool_decide_eq_true_2 in Hs by done. cbn [AttachHandler.run] in Hs.
  destruct (step d (EvMain an) (mb_attach m1, rm_server rm1)) as [| |s1] eqn:E1; [|done|].
  { cbn [Room.room_step] in Es. rewrite Hd1 in Es. destruct (_ || _); [done|]. unfold member_step in Es. by rewrite E1 in Es. }
  injection Hs as ->.
  assert (attached (live d) [] (if noHistory then [] else sb, sc) (mb_attach m1', rm_server rm1')) as Ha.
  { eapply (subscribe_attached marshal unmarshal_hello unmarshal_size noHistory d (live d) an (mb_attach m1, rm_server rm1)); try done.
    - apply Hc1.
    - apply (proj2 Hc1). by rewrite Hd1, Hpc. }
  assert (chans_inv rm1') as Hc1' by by apply (chans_step (RStep d (EvMain an)) rm1 rm1').
  destruct (room_run_projects _ _ _ _ _ d evs2 rm1' rm2 m1' Hr2 Hd1') as (m & Hd & Hrun). rewrite Hd2 in Hd. injection Hd as <-.
  pose proof (room_keeps_up d evs2 rm1' rm2 m1' Hc1' Hr2 Hd1' Hp2 Hf2) as Hk.
  eapply run_attached in Hk; [|exact Ha|exact Hrun].
  rewrite (project_output d evs2 rm1' rm2 Hr2) in Hk.
  assert (room_run (evs1 ++ RStep d (EvMain an) :: evs2) rm = Stepped rm2) as Hr by (rewrite (room_run_app _ _ _ _ _ _ _ _ _ Hr1); cbn [Room.room_run]; by rewrite Es).
  destruct (room_client _ rm rm2 d m2 He Hr Hd2) as [_ Hw2]. exact (client_view (live d) text fs _ _ (mb_attach m2, rm_server rm2) size_of hud label ls rows k fin n out err att r Hk Hw2 Hrc Hn).
Qed.
End views.

(** Client 2 is there; client 1 attaches while a query goes by in two chunks of
    output, and its connection breaks inside a frame. *)
Definition ex_before : list room_event :=
  ex_join 2 ++ [RConnect 1; RStep 1 (EvHello ex_answers (Ok (MsgHello, []))); RStep 1 (EvMain ex_answers); RStep 1 (EvMain ex_answers)].

Definition ex_after : list room_event :=
  [RStep 1 (EvMain ex_answers); RPty (PChunk 0 [66; 27]); RStep 1 (EvMain ex_answers); RStep 2 EvLive; RPty (PChunk 1 [91; 99; 67]);
   RStep 1 EvLive; RStep 1 EvLive; RStep 1 (EvWriter None); RStep 2 (EvRead ex_answers (Ok (MsgInput, [120]))); RStep 1 EvLive;
   RStep 1 (EvWriter None); RStep 1 (EvWriter None); RStep 1 EvLive; RStep 1 (EvWriter None); RStep 1 (EvWriter None)].

Lemma room_end_to_end_witness :
  ∃ rm1 rm1' rm2 m2, ex_room_run ex_before ex_room = Stepped rm1 ∧ ex_room_step (RStep 1 (EvMain ex_answers)) rm1 = Stepped rm1' ∧
    ex_room_run ex_after rm1' = Stepped rm2 ∧ rm_members rm2 !! 1%nat = Some m2 ∧
    let '(_, c) := runServerLoop no_size None ex_label 9 (80, 24) 24
      (Reader (take 43 (enc_frames (at_wire (mb_attach m2)))) EOF) (mkClient (sink []) [] false None) in
    ∃ shown, cl_stdout c = sink shown ∧
      shown `prefix_of` full_view None ex_label 24 ([], [65]) (Filter [66; 27; 91; 99; 67] newStripper).1.
Proof.
  assert (∃ rm1 m1 rm1' rm2 m2, ex_room_run ex_before ex_room = Stepped rm1 ∧ rm_members rm1 !! 1%nat = Some m1 ∧ at_pc (mb_attach m1) = PcSubscribe ∧
    (p_closed (sv_pty (rm_server rm1)) = false ∧ is_Some (p_term (sv_pty (rm_server rm1))) ∧ snapshotPartsLocked (sv_pty (rm_server rm1)) = Ok ([], [65])) ∧
    ex_room_step (RStep 1 (EvMain ex_answers)) rm1 = Stepped rm1' ∧ ex_room_run ex_after rm1' = Stepped rm2 ∧ rm_members rm2 !! 1%nat = Some m2 ∧
    at_pty (IG := counter_gen) (λ _, None) ex_hello ex_size false id (room_for 1) ex_after rm1' ∧
    at_pty (IG := counter_gen) (λ _, None) ex_hello ex_size false id (polite id) ex_after rm1' ∧
    (length (at_wire (mb_attach m2)) <? 9)%nat = true ∧ at_forced (mb_attach m2) = FIdle ∧ at_pc (mb_attach m2) = PcLoop)
    as (rm1 & m1 & rm1' & rm2 & m2 & H1 & Hm1 & Hpc & (Hcl & Ht & Hsn) & Hs & H2 & Hm2 & Hf & Hp & Hn & Hfi & Hl).
  { do 5 eexists. split; [vm_compute; reflexivity|]. split; [reflexivity|]. split; [reflexivity|].
    split; [split; [reflexivity|split; [by eexists|reflexivity]]|]. split; [vm_compute; reflexivity|]. split; [vm_compute; reflexivity|].
    split; [reflexivity|]. split; [vm_compute; repeat split; try discriminate; intros c [= <-]; vm_compute; lia|].
    split; [vm_compute; repeat split; discriminate|repeat split; reflexivity]. }
  exists rm1, rm1', rm2, m2. do 3 (split; [first [exact H1|exact Hs|exact H2]|]). split; [exact Hm2|].
  assert (chans_inv id ex_room) as Hc by (split; [split; intros i x; cbn; by rewrite lookup_empty|]; intros c _; apply lookup_empty).
  assert (at_pty (IG := counter_gen) (λ _, None) ex_hello ex_size false id (polite id) ex_before ex_room) as Hp1 by (vm_compute; repeat split).
  pose proof (room_end_to_end (IG := counter_gen) (λ _, None) ex_hello ex_size false id (λ c d H, H)
    ex_text ex_before ex_room rm1 1 m1 ex_answers rm1' ex_after rm2 m2 (at_wire (mb_attach m2)) [] [65] no_size None ex_label (80, 24) 24 43 EOF 9 [] [] false None
    (conj eq_refl eq_refl) Hc H1 Hp1 Hm1 Hpc Hcl Ht Hsn Hs H2 Hp Hf Hm2 (received_wire _ _) (proj1 (Nat.ltb_lt _ _) Hn)) as H.
  destruct (runServerLoop _ _ _ _ _ _ _ _) as [e c].
  destruct H as (_ & shown & body & Eo & Hno & Hpre & _). exists shown. split; [|exact Hpre].
  rewrite Eo. f_equal. cbn [app]. apply (noticed_plain ex_text (mb_attach m2)); [exact Hfi|intros r; rewrite Hl; discriminate|exact Hno].
Defined.
