(* ===== verification/RoomRest.v ===== *)
(** * A session comes to rest

    The goroutines of the attachments of a session wait for each other: a main
    goroutine for room in its own queue, for its live goroutine, for its writer,
    and, in a [sendSize] call, for room in another client's queue.  Here: none of
    this is a deadlock.  As long as the connections work, from every state of a
    session its own goroutines can bring everything that is under way to its end. *)
From S2P Require Import Prelude GoBase StreamFilter QueryStripper PrimaryFilter Recorder Recording Terminal Channel Wire State ShortId Store Pty PtySafety Delivery PtyLive AttachSet Registry AttachHandler Hud Restorer AttachClient EndToEnd Room RoomClients RoomViews.
Open Scope Z_scope.

Section rest.
Context {T : Type} {TO : TermOps T} {R : Type} {IG : IdGen R}.
Context (marshal : StateFile → option (list byte)).
Context (unmarshal_hello : list byte → option Hello) (unmarshal_size : list byte → option PTYSize).
Context (noHistory : bool) (live : conn → chan_id).
Context (Hlive : ∀ c d, live c = live d → c = d).

#[local] Abbreviation step c := (AttachHandler.step marshal unmarshal_hello unmarshal_size noHistory c (live c)).
#[local] Abbreviation room := (Room.room (T := T) (R := R)).
#[local] Abbreviation room_step := (Room.room_step marshal unmarshal_hello unmarshal_size noHistory live).
#[local] Abbreviation room_run := (Room.room_run marshal unmarshal_hello unmarshal_size noHistory live).
#[local] Abbreviation room_pty rm := (sv_pty (rm_server rm)).
#[local] Abbreviation chans_inv := (RoomViews.chans_inv (T := T) (R := R) live).

(** ** An attachment and its subscription *)

(** From the subscription to the end of the read loop. *)
Definition subscribed (x : pc) : Prop :=
  match x with PcScrollback _ _ | PcScreen _ | PcLoop | PcPong | PcSendSize _ | PcCancelSub _ | PcJoinLive _ => True | _ => False end.

Definition live_started (x : pc) : Prop :=
  match x with PcLoop | PcPong | PcSendSize _ | PcCancelSub _ | PcJoinLive _ => True | _ => False end.

Record fit (id : chan_id) (a : attach) (p : LibghosttyPTY T) : Prop := {
  fit_open : open_inv a;
  fit_cap : ch_cap (at_out a) = 256%nat;
  fit_done : at_writer a = WDone → ch_closed (at_out a) = true ∧ ch_buf (at_out a) = [];
  fit_live : live_started (at_pc a) → at_live a ≠ LNone;
  fit_chan : subscribed (at_pc a) → chan_live id p;
  fit_gone : match at_pc a with PcJoinLive _ => p_subs p !! id = None | _ => True end;
  fit_begun : before_sub (at_pc a) → at_live a = LNone;
  fit_ended : at_live a = LDone → p_subs p !! id = None
}.

Lemma new_fit id (p : LibghosttyPTY T) : fit id new_attach p.
Proof. by split. Qed.

(** Only the program counter moves, and not into the subscription. *)
Lemma fit_goto x id (a : attach) (p q : LibghosttyPTY T) :
  fit id a p → open_inv (with_pc x a) → (subscribed x → chan_live id q) → (live_started x → at_live a ≠ LNone) →
  match x with PcJoinLive _ => p_subs q !! id = None | _ => True end → (before_sub x → before_sub (at_pc a)) →
  (p_subs p !! id = None → p_subs q !! id = None) → fit id (with_pc x a) q.
Proof.
  intros F Ho Hc Hl Hg Hb Hn. split; [done|apply F|apply F|done|done|done|by intros Hx; apply F, Hb|by intros Hx; apply Hn, F].
Qed.

(** The PTY changes, the attachment does not. *)
Lemma fit_pty id a (p q : LibghosttyPTY T) :
  fit id a p → (chan_live id p → chan_live id q) → (p_subs p !! id = None → p_subs q !! id = None) → fit id a q.
Proof. intros [F1 F2 F3 F4 F5 F6 F7 F8] Hc Hn. split; try done; [intros Hs; by apply Hc, F5| |by intros Hx; apply Hn, F8]. destruct (at_pc a); try done. by apply Hn. Qed.

Lemma fit_pending id l a (p : LibghosttyPTY T) : fit id a p → fit id (with_pending l a) p.
Proof. intros [F1 F2 F3 F4 F5 F6 F7 F8]. by split. Qed.

Lemma fit_owe id rs eff d a (p : LibghosttyPTY T) : fit id a p → fit id (owe rs eff d a) p.
Proof. unfold owe. destruct (bool_decide _); [apply fit_pending|done]. Qed.

Lemma send_fit id f a a' (p : LibghosttyPTY T) : send f a = Stepped a' → fit id a p → fit id a' p.
Proof.
  intros Es [F1 F2 F3 F4 F5 F6 F7 F8]. pose proof (send_open _ _ _ Es F1) as Ho. apply send_stepped in Es as [Hc ->]. split; try done.
  intros Hw. destruct (F3 Hw) as [Hc' _]. congruence.
Qed.

Lemma writer_fit id werr a a' (p : LibghosttyPTY T) : writer_step werr a = Stepped a' → fit id a p → fit id a' p.
Proof.
  intros Ew [F1 F2 F3 F4 F5 F6 F7 F8]. pose proof (writer_step_flow _ _ _ Ew) as (_ & Ep & El & _ & _ & Ec).
  assert (ch_cap (at_out a') = ch_cap (at_out a) ∧ (at_writer a' = WDone → ch_closed (at_out a') = true ∧ ch_buf (at_out a') = [])) as [H1 H2].
  { unfold writer_step in Ew. destruct (at_writer a); try discriminate Ew. unfold recv in Ew. destruct (ch_buf (at_out a)) eqn:Eb.
    - destruct (ch_closed (at_out a)) eqn:Ecl; [|discriminate Ew]. injection Ew as <-. cbn. by rewrite Eb.
    - destruct (_ <? _); [by injection Ew as <-|]. destruct werr; [by injection Ew as <-|]. by destruct (at_forced a); injection Ew as <-. }
  split; rewrite ?Ep, ?El, ?H1; try done. by apply (open_same a).
Qed.

(** [AttachSet] calls resize the PTY at most. *)
Lemma set_call_pty an op (sv : server T R) :
  p_subs (sv_pty (set_call marshal an op sv).2) = p_subs (sv_pty sv) ∧ p_chans (sv_pty (set_call marshal an op sv).2) = p_chans (sv_pty sv).
Proof.
  unfold set_call, size_applier. cbn [snd]. destruct (res_apply _) as [ws|]; [|done]. cbn [sv_pty].
  by destruct (Resize_same (an_setsize an) (an_now an) (Cols ws) (Rows ws) (sv_pty sv)) as (H1 & H2 & _).
Qed.

(** The side conditions of [fit_goto], by where the main goroutine is. *)
#[local] Ltac at_pc_done := first [done | apply cancel_gone | repeat case_match; done | cbn [at_pc with_out with_id with_live]; match goal with H : at_pc _ = _ |- _ => by rewrite H end].

(** A step of the main goroutine. *)
Lemma main_fit c an (s s' : sys (T := T) (R := R)) :
  pty_inv (sv_pty s.2) → released (sv_pty s.2) → (before_sub (at_pc s.1) → p_chans (sv_pty s.2) !! live c = None) →
  main_step marshal noHistory c (live c) an s = Stepped s' → fit (live c) s.1 (sv_pty s.2) → fit (live c) s'.1 (sv_pty s'.2).
Proof.
  intros Hi Hr Hn E F. pose proof (main_open _ _ _ _ _ _ _ E (fit_open _ _ _ F)) as Ho. destruct s as [a sv]. cbn [fst snd] in *.
  unfold main_step, send_then, register_step, subscribe_step, goto in E. cbn [fst snd] in E.
  destruct (at_pc a) as [|h eff|h| |sb sc|sc| | |eff|r|r|r|r|r|r|r|] eqn:Epc; try discriminate E;
    try (destruct (send _ a) as [| |a1] eqn:Es; try discriminate E; injection E as <-; pose proof (send_fit _ _ _ _ _ Es F) as F1;
         apply send_stepped in Es as [_ ->]; pose proof (fit_live _ _ _ F) as Hl; pose proof (fit_chan _ _ _ F) as Hc; rewrite Epc in Hl, Hc).
  - apply (fit_goto _ _ _ _ _ F1); at_pc_done.
  - destruct (sv_reg sv) as [[g dk]|]; [destruct (Registry.Add _ _ _ _ _ _ _ _) as [[[i|e] g'] dk']|]; injection E as <-; cbn [fst snd sv_pty];
      try (apply (fit_goto _ _ _ _ _ F); at_pc_done). destruct F as [F1 F2 F3 F4 F5 F6 F7 F8]. split; try done. intros _. apply F7. by rewrite Epc.
  - destruct (SubscribeWithSnapshotParts _ _) as [[[sb sc]|e] p] eqn:Esub; injection E as <-; cbn [fst snd sv_pty with_pty];
      destruct F as [F1 F2 F3 F4 F5 F6 F7 F8]; (split; try done; [..|cbn; by rewrite F7 by by rewrite Epc]).
    intros _. by apply (subscribed_live (live c) (sv_pty sv) _ _ Hi (Hn I) Esub).
  - apply (fit_goto _ _ _ _ _ F1); at_pc_done.
  - destruct F1 as [F1 F2 F3 F4 F5 F6 F7 F8]. by split.
  - apply (fit_goto _ _ _ _ _ F1); [done|by intros _; apply Hc|by intros _; apply Hl|done|at_pc_done|done].
  - apply (fit_goto _ _ _ _ _ F1); [done|by intros _; apply Hc|by intros _; apply Hl|done|at_pc_done|done].
  - injection E as <-. cbn [fst snd]. pose proof (fit_chan _ _ _ F) as Hc. pose proof (fit_live _ _ _ F) as Hl. rewrite Epc in Hc, Hl.
    destruct (cancel_live (live c) (sv_pty sv) Hi Hr (Hc I)) as [H1 H2]. apply (fit_goto _ _ _ _ _ F); at_pc_done.
  - destruct (at_live a); try discriminate E. injection E as <-. apply (fit_goto _ _ _ _ _ F); at_pc_done.
  - injection E as <-. cbn [fst snd] in *. destruct F as [F1 F2 F3 F4 F5 F6 F7 F8]. split; try done. intros Hw. destruct (F3 Hw) as [_ Hb]. by split.
  - destruct (writer_done _); [|discriminate E]. injection E as <-. apply (fit_goto _ _ _ _ _ F); at_pc_done.
  - injection E as <-. apply (fit_goto _ _ _ _ _ F); at_pc_done.
  - injection E as <-. apply (fit_goto _ _ _ _ _ F); try at_pc_done.
    intros Hx. exact (eq_trans (f_equal (lookup (live c)) (proj1 (set_call_pty an (SRemove c) sv))) Hx).
Qed.

Lemma fit_same_pty id a (p q : LibghosttyPTY T) : p_subs q = p_subs p → p_chans q = p_chans p → fit id a p → fit id a q.
Proof. intros Es Ec F. apply (fit_pty _ _ p); [done|apply live_same; by rewrite ?Es, ?Ec|by rewrite Es]. Qed.

(** Leaving the read loop, or staying in it. *)
Lemma fit_loop x id a (p q : LibghosttyPTY T) :
  fit id a p → at_pc a = PcLoop → open_inv (with_pc x a) → match x with PcHello | PcFirstSize _ _ | PcRegister _ | PcSubscribe | PcJoinLive _ => False | _ => True end →
  p_subs q = p_subs p → p_chans q = p_chans p → fit id (with_pc x a) q.
Proof.
  intros F Epc Ho Hx Es Ec. pose proof (fit_chan _ _ _ F) as Hc. pose proof (fit_live _ _ _ F) as Hl. rewrite Epc in Hc, Hl.
  apply (fit_goto _ _ _ p); [done|done| |by intros _; apply Hl|by destruct x|by rewrite Epc; destruct x|by rewrite Es]. intros _. apply (live_same id p); [by rewrite Es|by rewrite Ec|by apply Hc].
Qed.

Lemma read_fit c an x (s s' : sys (T := T) (R := R)) :
  read_step marshal unmarshal_size c an x s = Stepped s' → at_pc s.1 = PcLoop → open_inv s'.1 → fit (live c) s.1 (sv_pty s.2) → fit (live c) s'.1 (sv_pty s'.2).
Proof.
  destruct s as [a sv]. unfold read_step, goto. cbn [fst snd]. intros E Epc Ho F.
  destruct x as [[typ payload]|e]; [|injection E as <-; by apply (fit_loop _ _ _ _ _ F)].
  destruct (typ =? MsgInput).
  { destruct (Write_same payload (sv_pty sv)) as (Hs & Hc & _).
    destruct (Pty.Write payload _) as [[u|e] p]; injection E as <-; cbn [fst snd sv_pty with_pty] in *; [by apply (fit_same_pty _ _ _ _ Hs Hc)|by apply (fit_loop _ _ _ _ _ F)]. }
  destruct (typ =? MsgSize).
  { destruct (unmarshal_size payload) as [ws|]; [|injection E as <-; by apply (fit_loop _ _ _ _ _ F)].
    destruct (_ || _); [by injection E as <-|]. pose proof (set_call_pty an (SUpdate c ws) sv) as [Hs Hc].
    destruct (set_call _ _ _ _) as [r sv']. injection E as <-. cbn [fst snd] in *.
    destruct (bool_decide _); [by apply (fit_loop _ _ _ _ _ F)|by apply (fit_same_pty _ _ _ _ Hs Hc)]. }
  destruct (typ =? MsgPing); [injection E as <-; by apply (fit_loop _ _ _ _ _ F)|].
  destruct (typ =? MsgHello); [injection E as <-; by apply (fit_loop _ _ _ _ _ F)|].
  destruct (_ || _); injection E as <-; by apply (fit_loop _ _ _ _ _ F).
Qed.

Lemma own_fit c ev (s s' : sys (T := T) (R := R)) :
  pty_inv (sv_pty s.2) → released (sv_pty s.2) → (before_sub (at_pc s.1) → p_chans (sv_pty s.2) !! live c = None) →
  own ev = true → step c ev s = Stepped s' → fit (live c) s.1 (sv_pty s.2) → fit (live c) s'.1 (sv_pty s'.2).
Proof.
  intros Hi Hr Hn Ho E F. pose proof (step_open _ _ _ _ _ c ev _ _ E (fit_open _ _ _ F)) as Hop.
  destruct s as [a sv]. cbn [fst snd] in *. destruct ev as [an x|an|an x|werr| |an op|k|op|rop| |]; try discriminate Ho; cbn [AttachHandler.step fst snd] in E.
  - destruct (at_pc a) eqn:Epc; try discriminate E. unfold hello_step, goto in E. cbn [fst snd] in E.
    destruct x as [[typ payload]|e]; [|injection E as <-; by apply (fit_goto _ _ _ _ _ F)].
    destruct (negb _); [injection E as <-; by apply (fit_goto _ _ _ _ _ F)|].
    destruct (unmarshal_hello payload) as [h|]; [|injection E as <-; by apply (fit_goto _ _ _ _ _ F)].
    destruct (_ || _); [injection E as <-; by apply (fit_goto _ _ _ _ _ F)|].
    match type of E with context [set_call _ _ ?op _] => destruct (set_call_pty an op sv) as [Hs Hc] end.
    destruct (set_call _ _ _ _) as [r sv']. injection E as <-. cbn [fst snd] in *. apply (fit_goto _ _ _ _ _ F); try done; [by rewrite Epc|by rewrite Hs].
  - by apply (main_fit c an (a, sv) s').
  - destruct (at_pc a) eqn:Epc; try discriminate E. by apply (read_fit c an x (a, sv) s').
  - destruct (writer_step werr a) as [| |a1] eqn:Ew; try discriminate E. injection E as <-. by apply (writer_fit _ werr a).
  - unfold live_step in E. destruct (at_live a) eqn:El; try discriminate E.
    + pose proof (recv_live (live c) (sv_pty sv)) as Hl. pose proof (recv_closed (live c) (sv_pty sv)) as Hend.
      destruct (recv_sub _ _) as [[[ck| |]|e] p] eqn:Er; try discriminate E; injection E as <-; cbn [fst snd sv_pty with_pty] in *;
        destruct F as [F1 F2 F3 F4 F5 F6 F7 F8]; split; try done; try (by intros Hs; apply Hl, F5); try (by intros Hs; specialize (F7 Hs); congruence); try (by intros _; by apply (Hend p));
        (cbn [at_pc with_live]; destruct (at_pc a); try done; destruct (Hl (F5 I)) as [_ ->]; done).
    + destruct (send _ a) as [| |a1] eqn:Es; try discriminate E. injection E as <-. pose proof (send_fit _ _ _ _ _ Es F) as [F1 F2 F3 F4 F5 F6 F7 F8]. split; try done.
      apply send_stepped in Es as [_ ->]. intros Hs. specialize (F7 Hs). cbn in F7. congruence.
  - unfold forcedDetach in E. destruct (at_id a), (at_forced a); try discriminate E; injection E as <-; destruct F as [F1 F2 F3 F4 F5 F6 F7 F8]; by split.
Qed.

(** ** The room *)

Record room_fit (rm : room) : Prop := {
  rf_chans : chans_inv rm;
  rf_released : released (room_pty rm);
  rf_fit : ∀ d m, rm_members rm !! d = Some m → fit (live d) (mb_attach m) (room_pty rm)
}.

Lemma own_op_shuts c x op : own_op live c x op → shuts_down op.
Proof. by destruct op. Qed.

(** What another attachment does to the PTY. *)
Lemma fit_other id op a (p : LibghosttyPTY T) :
  pty_inv p → op_chan op ≠ Some id → shuts_down op → fit id a p → fit id a (pty_run1 op p).2.
Proof. intros Hi Hne Hs F. apply (fit_pty _ _ p); [done|by apply op_live|by apply op_gone]. Qed.

Lemma member_step_fit c ev m rm rm' :
  rm_members rm !! c = Some m → own ev = true →
  member_step marshal unmarshal_hello unmarshal_size noHistory live c ev m rm = Stepped rm' → chans_inv rm' → room_fit rm → room_fit rm'.
Proof.
  intros Hc Ho E Hch [[Hi Hf] Hr F]. apply member_step_spec in E as (a & sv & Es & E).
  assert (before_sub (at_pc (mb_attach m)) → p_chans (room_pty rm) !! live c = None) as Hn by (intros Hb; apply Hf; by rewrite Hc).
  pose proof (own_fit c ev (mb_attach m, rm_server rm) (a, sv) Hi Hr Hn Ho Es (F c m Hc)) as Fc. cbn [fst snd] in Fc.
  assert (released (sv_pty sv) ∧ ∀ d x, d ≠ c → fit (live d) x (room_pty rm) → fit (live d) x (sv_pty sv)) as [Hr' Hd].
  { destruct (own_step_pty marshal unmarshal_hello unmarshal_size noHistory live c ev _ _ _ _ Ho Es) as [-> |(op & -> & Hop & _)]; [by split|]. split.
    - apply op_released; [done|by eapply own_op_shuts|done].
    - intros d x Hdc. apply fit_other; [done| |by eapply own_op_shuts]. apply (own_op_chan live c (at_pc (mb_attach m))); [done|]. intros El. by apply Hdc, Hlive. }
  destruct (news _ _ _ _ _ _) as [rs eff]. subst rm'. split; [done|done|]. cbn [rm_members rm_server]. intros d md. rewrite notify_lookup.
  destruct (decide (c = d)) as [<-|Hcd]; [rewrite lookup_insert_eq|rewrite lookup_insert_ne by done; destruct (rm_members rm !! d) as [md0|] eqn:Ed; [|done]];
    intros [= <-]; cbn [mb_attach]; apply fit_owe; [exact Fc|apply Hd; [done|by apply F]].
Qed.

Lemma deliver_fit id j a a' (sv sv' : server T R) p : deliver_step j (a, sv) = Stepped (a', sv') → fit id a p → fit id a' p.
Proof.
  unfold deliver_step. cbn [fst snd]. destruct (at_pending a !! j); [|done]. destruct (send _ a) as [| |a1] eqn:Es; try done.
  intros [= <- _] F. by eapply fit_pending, send_fit.
Qed.

Lemma panic_step_fit c k m rm rm' :
  rm_members rm !! c = Some m →
  panic_step marshal unmarshal_hello unmarshal_size noHistory live c k m rm = Stepped rm' → chans_inv rm' → room_fit rm → room_fit rm'.
Proof.
  intros Hc (d & ws & md & a & sv & _ & _ & _ & Es & ->)%panic_step_spec Hch [[Hi _] Hr F].
  pose proof (step_open _ _ _ _ _ c EvUnwind _ _ Es (fit_open _ _ _ (F c m Hc))) as Hop. destruct (unwind_pty marshal unmarshal_hello unmarshal_size noHistory live c _ _ _ _ Es) as [Hp _].
  assert (fit (live c) a (sv_pty sv)) as Fc.
  { cbn [AttachHandler.step] in Es. apply unwind_stepped in Es as (x & Ea & Hx). cbn [fst snd] in Ea, Hx. subst a.
    apply (fit_goto _ _ _ (room_pty rm)); [by apply F|done|by destruct x|by destruct x|by destruct x|by destruct x|].
    destruct Hp as [-> | ->]; [done|apply cancel_gone]. }
  split; [done| |]; cbn [rm_members rm_server].
  - destruct Hp as [-> | ->]; [done|]. by apply (op_released (PCancel (live c))).
  - intros e me [[<- <-]|[Hce He]]%lookup_insert_Some; [exact Fc|]. destruct Hp as [-> | ->]; [by apply F|].
    apply (fit_other _ (PCancel (live c))); [done| |done|by apply F]. intros [= El]. by apply Hce, Hlive.
Qed.

Lemma room_fit_step ev rm rm' :
  match ev with RPty op => polite live op (room_pty rm) ∧ shuts_down op | _ => True end → room_step ev rm = Stepped rm' → room_fit rm → room_fit rm'.
Proof.
  intros Hev E Hrf. assert (chans_inv rm') as Hch.
  { eapply chans_step; [exact Hlive|by apply Hrf| |exact E]. destruct ev; try done. apply Hev. }
  destruct ev as [c|c ev|c k|c k|op]; cbn [Room.room_step] in E.
  - destruct (rm_members rm !! c) eqn:Ec; [done|]. injection E as <-. split; [done|apply Hrf|]. cbn [rm_members rm_server].
    intros d m [[<- <-]|[_ Hd]]%lookup_insert_Some; [apply new_fit|by apply Hrf].
  - destruct (rm_members rm !! c) as [m|] eqn:Ec; [|done]. destruct (negb (own ev) || busy ev m) eqn:Eb; [done|].
    apply orb_false_iff in Eb as [Ho%negb_false_iff _]. by eapply member_step_fit.
  - destruct (rm_members rm !! c) as [m|] eqn:Ec; [|done]. apply tell_step_spec in E as (d & ws & md & j & y & a & _ & Ed & _ & Es & ->).
    split; [done|apply Hrf|]. cbn [rm_members rm_server].
    assert (∀ q mq, <[d := mkMember a (mb_told md)]> (rm_members rm) !! q = Some mq → fit (live q) (mb_attach mq) (room_pty rm)) as Hq.
    { intros q mq [[<- <-]|[_ Hmq]]%lookup_insert_Some; [|by apply Hrf]. eapply deliver_fit; [exact Es|by apply Hrf]. }
    intros e me He. apply lookup_alter_Some in He as [(<- & mq & Hmq & ->)|[_ He]]; [exact (Hq c mq Hmq)|exact (Hq e me He)].
  - destruct (rm_members rm !! c) as [m|] eqn:Ec; [|done]. by eapply panic_step_fit.
  - destruct Hev as [[Hp Hfr] Hs]. injection E as <-. destruct Hrf as [[Hi _] Hr F]. split; [done|by apply op_released|]. cbn [rm_members rm_server].
    intros d m Hd. apply fit_other; [done|apply Hp|done|by apply F].
Qed.

(** ** Who is telling *)

(** Where a main goroutine is while it tells the others: past [set.Add], in
    [set.Update], past [set.Remove]. *)
Definition telling (x : pc) : Prop := match x with PcFirstSize _ _ | PcLoop | PcSendSize _ | PcDone _ => True | _ => False end.

Definition tellers (rm : room) : Prop := map_Forall (λ _ m, mb_told m ≠ [] → telling (at_pc (mb_attach m))) (rm_members rm).

Lemma own_telling c ev m (sv sv' : server T R) a :
  own ev = true → busy ev m = false → step c ev (mb_attach m, sv) = Stepped (a, sv') → (mb_told m ≠ [] → telling (at_pc (mb_attach m))) →
  mb_told m ≠ [] ∨ is_Some (set_op_of unmarshal_hello unmarshal_size c ev (at_pc (mb_attach m))) → telling (at_pc a).
Proof.
  intros Ho Hb E Ht Hn. assert (at_pc a = at_pc (mb_attach m) → set_op_of unmarshal_hello unmarshal_size c ev (at_pc (mb_attach m)) = None → telling (at_pc a)) as Hsame.
  { intros -> Hno. destruct Hn as [Hn|[? Hn]]; [by apply Ht|congruence]. }
  destruct ev as [an x|an|an x|werr| |an op|k|op|rop| |]; try discriminate Ho; cbn [AttachHandler.step fst snd] in E; unfold busy in Hb.
  - destruct (at_pc (mb_attach m)) eqn:Epc; try discriminate E. destruct (mb_told m); [|discriminate Hb]. destruct Hn as [?|[y Hy]]; [done|].
    unfold hello_step, goto in E. cbn [fst snd set_op_of] in E, Hy. destruct x as [[typ payload]|e]; [|done]. destruct (typ =? MsgHello); [|done].
    cbn [negb] in E. destruct (unmarshal_hello payload) as [h|]; [|done]. cbn in Hy. unfold positive in Hy. destruct (_ || _); [done|]. cbn in Hy. destruct (set_call _ _ _ _) as [r sv1]. by injection E as <- _.
  - destruct (at_pc (mb_attach m)) eqn:Epc; try (destruct (mb_told m); [|discriminate Hb]; by destruct Hn as [?|[? [=]]]).
    + unfold main_step in E. rewrite Epc in E. unfold send_then in E. destruct (send _ _) as [| |a1] eqn:Es; try discriminate E. by injection E as <- _.
    + unfold main_step in E. rewrite Epc in E. by injection E as <- _.
  - destruct (at_pc (mb_attach m)) eqn:Epc; try discriminate E. destruct (mb_told m); [|discriminate Hb]. destruct Hn as [?|[y Hy]]; [done|].
    unfold read_step, goto in E. cbn [fst snd set_op_of] in E, Hy. destruct x as [[typ payload]|e]; [|done]. destruct (typ =? MsgSize) eqn:Et; [|done].
    apply Z.eqb_eq in Et. subst typ. cbn in E. destruct (unmarshal_size payload) as [ws|]; [|done]. cbn in Hy. unfold positive in Hy. destruct (_ || _); [done|].
    injection E as <- _. case_bool_decide; [done|]. by rewrite Epc.
  - destruct (writer_step werr _) as [| |a1] eqn:Ew; try discriminate E. injection E as <- _. apply writer_step_flow in Ew as (_ & Ep & _). by apply Hsame.
  - assert (at_pc a = at_pc (mb_attach m)) as Ep; [|by apply Hsame]. unfold live_step in E. destruct (at_live (mb_attach m)); try discriminate E.
    + destruct (recv_sub _ _) as [[[ck| |]|e] p]; try discriminate E; by injection E as <- _.
    + destruct (send _ _) as [| |a1] eqn:Es; try discriminate E. injection E as <- _. by apply send_stepped in Es as [_ ->].
  - assert (at_pc a = at_pc (mb_attach m)) as Ep; [|by apply Hsame]. unfold forcedDetach in E. destruct (at_id (mb_attach m)), (at_forced (mb_attach m)); try discriminate E; by injection E as <- _.
Qed.

Lemma deliver_pc j a a' (sv sv' : server T R) : deliver_step j (a, sv) = Stepped (a', sv') → at_pc a' = at_pc a.
Proof.
  unfold deliver_step. cbn [fst snd]. destruct (at_pending a !! j); [|done]. destruct (send _ a) as [| |a1] eqn:Es; try done. apply send_stepped in Es as [_ ->].
  by intros [= <- _].
Qed.

Lemma tellers_step ev rm rm' : room_step ev rm = Stepped rm' → tellers rm → tellers rm'.
Proof.
  intros E Ht. destruct ev as [c|c ev|c k|c k|op]; cbn [Room.room_step] in E; [..|by injection E as <-].
  all: destruct (rm_members rm !! c) as [m|] eqn:Ec; try discriminate E.
  - injection E as <-. intros d md Hd. cbn [rm_members] in Hd. apply lookup_insert_Some in Hd as [[<- <-]|[_ Hd]]; [done|by apply (Ht d)].
  - destruct (negb (own ev) || busy ev m) eqn:Eb; [done|]. apply orb_false_iff in Eb as [Ho%negb_false_iff Hb]. apply member_step_spec in E as (a & sv & Es & E).
    pose proof (own_telling c ev m _ _ _ Ho Hb Es (Ht c m Ec)) as Ha. unfold news in E.
    assert (∀ l : list (conn * PTYSize), (is_Some (set_op_of unmarshal_hello unmarshal_size c ev (at_pc (mb_attach m))) ∨ l = []) → mb_told m ++ l ≠ [] → telling (at_pc a)) as Hl.
    { intros l Hs Hn. apply Ha. destruct Hs as [Hs| ->]; [by right|left]. by rewrite app_nil_r in Hn. }
    destruct (set_op_of _ _ c ev _) as [[an op]|]; subst rm'; intros d md Hd; cbn [rm_members] in Hd; rewrite notify_lookup in Hd;
      (destruct (decide (c = d)) as [<-|Hcd]; [rewrite lookup_insert_eq in Hd|rewrite lookup_insert_ne in Hd by done; destruct (rm_members rm !! d) as [md0|] eqn:Ed; [|done]]);
      injection Hd as <-; cbn [mb_told mb_attach]; rewrite owe_pc; [by apply Hl; left|by apply (Ht d)|by apply Hl; right|by apply (Ht d)].
  - apply tell_step_spec in E as (d & ws & md & j & y & a & Hk & Ed & _ & Es & ->). apply deliver_pc in Es.
    intros e me He. cbn [rm_members] in He. apply lookup_alter_Some in He as [(<- & mq & Hmq & ->)|[_ He]].
    + cbn [mb_told mb_attach]. intros _. assert (mb_told m ≠ []) as Hn by (intros Hn; by rewrite Hn in Hk).
      apply lookup_insert_Some in Hmq as [[-> <-]|[_ Hmq]]; cbn [mb_attach]; [rewrite Es; assert (md = m) as -> by congruence; by apply (Ht c)|].
      assert (mq = m) as -> by congruence. by apply (Ht c).
    + apply lookup_insert_Some in He as [[<- <-]|[_ He]]; [|by apply (Ht e)]. cbn [mb_told mb_attach]. rewrite Es. by apply (Ht d).
  - apply panic_step_spec in E as (d & ws & md & a & sv & _ & _ & _ & Es & ->). intros e me He. cbn [rm_members] in He. apply lookup_insert_Some in He as [[<- <-]|[_ He]]; [done|by apply (Ht e)].
Qed.

(** ** What is under way *)

(** The live goroutine has nothing to do but wait for output. *)
Definition live_quiet (c : conn) (a : attach) (p : LibghosttyPTY T) : Prop :=
  match at_live a with LHolding _ => False | LRunning => ∃ q, recv_sub (live c) p = (Ok RecvBlocks, q) | _ => True end.

Definition writer_quiet (a : attach) : Prop := ch_buf (at_out a) = [] ∧ (ch_closed (at_out a) = true → at_writer a ≠ WRunning).

Definition main_quiet (x : pc) : Prop := match x with PcHello | PcLoop | PcDone _ | PcLost => True | _ => False end.

(** Everybody waits for the outside: a frame of the client, output of the PTY;
    what was sent is on the connections. *)
Definition at_rest (rm : room) : Prop :=
  map_Forall (λ c m, mb_told m = [] ∧ main_quiet (at_pc (mb_attach m)) ∧ writer_quiet (mb_attach m) ∧ live_quiet c (mb_attach m) (room_pty rm)) (rm_members rm).

(** The connection of an attachment works. *)
Definition ok_attach (a : attach) : Prop := (at_writer a = WRunning ∨ at_writer a = WDone) ∧ at_forced a = FIdle.
Definition working (rm : room) : Prop := map_Forall (λ _ m, ok_attach (mb_attach m)) (rm_members rm).

(** The one way for a working session not to get there: a frame longer than the
    protocol allows, which ends a writer. *)
Definition oversize (rm : room) : Prop :=
  ∃ c m f, rm_members rm !! c = Some m ∧ at_writer (mb_attach m) = WFailed f (ErrPayloadMax (Z.of_nat (length f.2))) ∧ MaxPayload < Z.of_nat (length f.2).

(** The steps that bring it there. *)
Definition inner (an : size_answers) (ev : room_event) : Prop :=
  match ev with RStep _ (EvWriter None) | RStep _ EvLive | RTell _ _ | RPanic _ _ => True | RStep _ (EvMain an') => an' = an | _ => False end.

#[global] Instance live_quiet_dec c a p : Decision (live_quiet c a p).
Proof.
  unfold live_quiet. destruct (at_live a); try apply _. destruct (recv_sub (live c) p) as [[[x| |]|e] q];
    first [left; by eexists|right; by intros [? [=]]].
Defined.
#[global] Instance writer_quiet_dec a : Decision (writer_quiet a).
Proof.
  unfold writer_quiet. apply and_dec; [apply _|]. destruct (ch_closed (at_out a)); [|left; done].
  destruct (at_writer a); first [left; done|right; intros H; by apply H].
Defined.
#[global] Instance main_quiet_dec x : Decision (main_quiet x).
Proof. destruct x; apply _. Defined.

(** Steps left to the main goroutine. *)
Definition pc_weight (x : pc) : nat :=
  match x with
  | PcHello | PcDone _ | PcLost => 0
  | PcFirstSize _ _ => 12 | PcRegister _ => 11 | PcSubscribe => 10 | PcScrollback _ _ => 9 | PcScreen _ => 8
  | PcPong | PcSendSize _ => 8 | PcLoop => 7
  | PcCancelSub _ => 6 | PcJoinLive _ => 5 | PcCloseOut _ => 4 | PcJoinWriter _ => 3 | PcUnregister _ => 2 | PcRemove _ => 1
  end%nat.

Definition chunks (p : LibghosttyPTY T) (id : chan_id) : nat := match p_chans p !! id with Some c => length (ch_buf c) | None => 0%nat end.

(** Work left to the others. *)
Definition work (p : LibghosttyPTY T) (c : conn) (m : member) : nat :=
  (3 * length (mb_told m) + length (ch_buf (at_out (mb_attach m))) + match at_writer (mb_attach m) with WRunning => 1 | _ => 0 end +
   match at_live (mb_attach m) with LRunning => 1 | LHolding _ => 3 | _ => 0 end + 5 * chunks p (live c))%nat.

Definition total (f : conn → member → nat) (ms : gmap conn member) : nat := sum_list_with (λ x, f x.1 x.2) (map_to_list ms).
Definition main_work (rm : room) : nat := total (λ _ m, pc_weight (at_pc (mb_attach m))) (rm_members rm).
Definition side_work (rm : room) : nat := total (work (room_pty rm)) (rm_members rm).

Lemma sum_perm {A} (f : A → nat) l l' : l ≡ₚ l' → sum_list_with f l = sum_list_with f l'.
Proof. induction 1; cbn; lia. Qed.

Lemma total_delete f c m ms : ms !! c = Some m → total f ms = (f c m + total f (delete c ms))%nat.
Proof.
  intros Hc. unfold total. rewrite <- (insert_id ms c m Hc) at 1. rewrite <- (insert_delete_eq ms).
  by rewrite (sum_perm _ _ _ (map_to_list_insert _ _ _ (lookup_delete_eq _ _))).
Qed.

Lemma total_insert f c m' ms : total f (<[c := m']> ms) = (f c m' + total f (delete c ms))%nat.
Proof. rewrite (total_delete f c m') by apply lookup_insert_eq. by rewrite delete_insert_eq. Qed.

Lemma total_ext f g ms : (∀ c m, ms !! c = Some m → f c m = g c m) → total f ms = total g ms.
Proof.
  intros H. unfold total. assert (Forall (λ x, f x.1 x.2 = g x.1 x.2) (map_to_list ms)) as Hf.
  { apply Forall_forall. intros [c m] Hin. apply elem_of_map_to_list in Hin. by apply H. }
  induction Hf as [|x l Hx _ IH]; cbn; [done|]. by rewrite Hx, IH.
Qed.

Lemma total_notify f rs eff ms :
  (∀ c m, f c (mkMember (owe rs eff c (mb_attach m)) (mb_told m)) = f c m) → total f (notify rs eff ms) = total f ms.
Proof.
  intros H. induction ms as [|c m ms Hc IH] using map_ind; [done|]. unfold notify in *. rewrite map_imap_insert_Some with (y := mkMember (owe rs eff c (mb_attach m)) (mb_told m)) by done.
  unfold total in *. rewrite (sum_perm _ _ _ (map_to_list_insert _ _ _ Hc)).
  rewrite (sum_perm _ _ _ (map_to_list_insert (map_imap _ ms) c _ ltac:(by rewrite map_lookup_imap, Hc))). cbn [sum_list_with fst snd]. by rewrite IH, H.
Qed.

(** ** One more step *)

(** A step that concerns nobody else. *)
Lemma side_step c ev m rm a sv :
  rm_members rm !! c = Some m → match ev with EvWriter _ | EvLive => True | _ => False end → step c ev (mb_attach m, rm_server rm) = Stepped (a, sv) →
  room_step (RStep c ev) rm = Stepped (mkRoom (<[c := mkMember a (mb_told m)]> (rm_members rm)) sv).
Proof.
  intros Hc Hev E. cbn [Room.room_step]. rewrite Hc. assert (negb (own ev) || busy ev m = false) as -> by (unfold busy; destruct ev; try done; by destruct (mb_told m)).
  unfold member_step. rewrite E. unfold news. assert (set_op_of unmarshal_hello unmarshal_size c ev (at_pc (mb_attach m)) = None) as -> by by destruct ev.
  cbn [fmap list_fmap]. rewrite app_nil_r. do 2 f_equal. apply map_eq. intros d. rewrite notify_lookup. unfold owe. rewrite bool_decide_eq_false_2 by apply not_elem_of_nil.
  by destruct (_ !! d) as [[]|].
Qed.

(** A room state with less to do. *)
Definition less (rm' rm : room) : Prop :=
  (main_work rm' < main_work rm)%nat ∨ main_work rm' = main_work rm ∧ (side_work rm' < side_work rm)%nat.

Lemma less_one c m m' rm sv :
  rm_members rm !! c = Some m → pc_weight (at_pc (mb_attach m')) = pc_weight (at_pc (mb_attach m)) →
  (∀ d md, rm_members rm !! d = Some md → d ≠ c → work (sv_pty sv) d md = work (room_pty rm) d md) →
  (work (sv_pty sv) c m' < work (room_pty rm) c m)%nat → less (mkRoom (<[c := m']> (rm_members rm)) sv) rm.
Proof.
  intros Hc Hp Hd Hw. right. unfold main_work, side_work. cbn [rm_members rm_server].
  rewrite !total_insert, !(total_delete _ c m (rm_members rm) Hc), Hp. split; [done|].
  rewrite (total_ext (work (sv_pty sv)) (work (room_pty rm))); [lia|]. intros d md [Hdc Hd']%lookup_delete_Some. by apply Hd.
Qed.

(** The writer takes a frame, or sees the end of the queue. *)
Lemma writer_goes c m (rm : room) :
  rm_members rm !! c = Some m → fit (live c) (mb_attach m) (room_pty rm) → ok_attach (mb_attach m) → ¬ writer_quiet (mb_attach m) →
  ∃ rm', room_step (RStep c (EvWriter None)) rm = Stepped rm' ∧ less rm' rm.
Proof.
  intros Hc F [Hw Hf] Hq. assert (∃ a, writer_step None (mb_attach m) = Stepped a ∧ at_pc a = at_pc (mb_attach m) ∧ at_live a = at_live (mb_attach m) ∧
    (length (ch_buf (at_out a)) + match at_writer a with WRunning => 1 | _ => 0 end < length (ch_buf (at_out (mb_attach m))) + match at_writer (mb_attach m) with WRunning => 1 | _ => 0 end)%nat)
    as (a & Ew & Hp & Hl & Hlt).
  { destruct F as [_ _ F3 _ _ _ _ _]. unfold writer_quiet in Hq. unfold writer_step, recv. rewrite Hf.
    destruct Hw as [Hw|Hw]; [|destruct (F3 Hw) as [_ Hb]; destruct Hq; split; [done|congruence]]. rewrite Hw.
    destruct (ch_buf (at_out (mb_attach m))) as [|f b] eqn:Eb.
    - destruct (ch_closed (at_out (mb_attach m))) eqn:Ec; [|by destruct Hq]. eexists. split; [done|]. cbn. rewrite Eb. cbn. split; [done|]. split; [done|lia].
    - destruct (MaxPayload <? _); (eexists; split; [done|]; cbn; split; [done|]; split; [done|lia]). }
  eexists. split.
  - apply (side_step c (EvWriter None) m rm a (rm_server rm)); [done|done|]. cbn [AttachHandler.step fst snd]. by rewrite Ew.
  - apply less_one with (m := m); [done|by f_equal|done|]. unfold work. cbn [mb_attach mb_told]. rewrite Hl. lia.
Qed.

Lemma send_goes f a :
  ch_closed (at_out a) = false → ch_buf (at_out a) = [] → ch_cap (at_out a) = 256%nat →
  send f a = Stepped (with_out (mkChan [f] 256 false) a).
Proof. intros Hc Hb Hp. unfold send. by rewrite Hc, Hb, Hp. Qed.

Lemma chunks_other (p q : LibghosttyPTY T) c d m : touches_only (live c) p q → d ≠ c → work q d m = work p d m.
Proof.
  intros [_ H] Hdc. unfold work, chunks. destruct (H (live d)) as [_ ->]; [|done]. intros El. by apply Hdc, Hlive.
Qed.

(** The live goroutine takes a chunk, sends one, or sees the end. *)
Lemma live_goes c m (rm : room) :
  rm_members rm !! c = Some m → fit (live c) (mb_attach m) (room_pty rm) → writer_quiet (mb_attach m) → ¬ live_quiet c (mb_attach m) (room_pty rm) →
  ∃ rm', room_step (RStep c EvLive) rm = Stepped rm' ∧ less rm' rm.
Proof.
  intros Hc F [Hb _] Hq. unfold live_quiet in Hq. destruct (at_live (mb_attach m)) as [| |ck|] eqn:El; try (by destruct Hq).
  - pose proof (recv_touches (live c) (room_pty rm)) as Ht. destruct (recv_sub (live c) (room_pty rm)) as [[x|e] q] eqn:Er.
    2:{ unfold recv_sub in Er. destruct (p_chans _ !! _); [|done]. by destruct (recv _). }
    assert (∃ a, step c EvLive (mb_attach m, rm_server rm) = Stepped (a, with_pty q (rm_server rm)) ∧ at_pc a = at_pc (mb_attach m) ∧ at_out a = at_out (mb_attach m) ∧
      at_writer a = at_writer (mb_attach m) ∧
      (match at_live a with LRunning => 1 | LHolding _ => 3 | _ => 0 end + 5 * chunks q (live c) < 1 + 5 * chunks (room_pty rm) (live c))%nat) as (a & Es & Hp & Ho & Hw & Hlt).
    { cbn [AttachHandler.step]. unfold live_step. rewrite El, Er. unfold chunks. unfold recv_sub in Er.
      destruct (p_chans (room_pty rm) !! live c) as [ch|] eqn:Ech; [|injection Er as <- <-; destruct Hq; by eexists].
      destruct (recv ch) as [y ch'] eqn:Ey. injection Er as <- <-. unfold recv in Ey. destruct (ch_buf ch) as [|k b] eqn:Eb.
      - destruct (ch_closed ch); injection Ey as <- <-; [|destruct Hq; by eexists]. eexists. split; [done|]. cbn. rewrite lookup_insert_eq, Eb. cbn. do 3 (split; [done|]). lia.
      - injection Ey as <- <-. eexists. split; [done|]. cbn. rewrite lookup_insert_eq. cbn. do 3 (split; [done|]). lia. }
    eexists. split; [by apply (side_step c EvLive m)|]. apply less_one with (m := m); [done|by f_equal| |].
    + intros d md _ Hdc. by apply (chunks_other _ _ c).
    + unfold work. cbn [mb_attach mb_told sv_pty with_pty]. rewrite Ho, Hw, El. lia.
  - assert (ch_closed (at_out (mb_attach m)) = false) as Hcl by (apply open_at; [by apply F|right; by rewrite El]).
    eexists. split.
    + apply (side_step c EvLive m rm (with_live LRunning (at_recv (mb_attach m)) (with_out (mkChan [(MsgOutput, ck)] 256 false) (mb_attach m))) (rm_server rm)); [done|done|]. cbn [AttachHandler.step]. unfold live_step. rewrite El.
      rewrite (send_goes _ _ Hcl Hb (fit_cap _ _ _ F)). done.
    + apply less_one with (m := m); [done|by f_equal|done|]. unfold work. cbn. rewrite Hb, El. cbn. lia.
Qed.

(** A call is made; the other client's queue has room. *)
Lemma tell_goes c m d ws md (rm : room) :
  owed_inv submseteq rm → rm_members rm !! c = Some m → mb_told m !! 0%nat = Some (d, ws) → rm_members rm !! d = Some md →
  ch_closed (at_out (mb_attach md)) = false → ch_buf (at_out (mb_attach md)) = [] → ch_cap (at_out (mb_attach md)) = 256%nat →
  ∃ rm', room_step (RTell c 0) rm = Stepped rm' ∧ less rm' rm.
Proof.
  intros [H1 H2] Hc Hk Hd Hcl Hb Hcap. destruct (H2 c m d ws Hc (list_elem_of_lookup_2 _ _ _ Hk)) as [Hdc _].
  pose proof (told_pending rm c m 0 d ws md (conj H1 H2) Hc Hk Hd) as Hin.
  destruct (list_find (λ x, x = ws) (at_pending (mb_attach md))) as [[j y]|] eqn:Ej.
  2:{ apply list_find_None in Ej. rewrite Forall_forall in Ej. by destruct (Ej ws Hin). }
  pose proof Ej as (Ej' & -> & _)%list_find_Some.
  set (a := with_pending (delete j (at_pending (mb_attach md))) (with_out (mkChan [size_frame ws] 256 false) (mb_attach md))).
  set (m' := mkMember (mb_attach m) (delete 0%nat (mb_told m))).
  assert (room_step (RTell c 0) rm = Stepped (mkRoom (<[c := m']> (<[d := mkMember a (mb_told md)]> (rm_members rm))) (rm_server rm))) as E.
  { cbn [Room.room_step]. rewrite Hc. unfold tell_step. rewrite Hk, Hd, Ej. unfold deliver_step. cbn [fst snd]. rewrite Ej', (send_goes _ _ Hcl Hb Hcap). do 2 f_equal.
    apply map_eq. intros e. destruct (decide (c = e)) as [<-|]; [|by rewrite lookup_alter_ne, (lookup_insert_ne _ c) by done].
    rewrite lookup_alter_eq, lookup_insert_eq, lookup_insert_ne by congruence. rewrite Hc. done. }
  eexists. split; [exact E|]. right. unfold main_work, side_work. cbn [rm_members rm_server].
  rewrite !total_insert, !delete_insert_ne, !total_insert by congruence. rewrite !(total_delete _ c m (rm_members rm) Hc), !(total_delete _ d md (delete c (rm_members rm))) by (by rewrite lookup_delete_ne by congruence).
  split; [done|]. destruct (mb_told m) as [|t l] eqn:Et; [done|]. unfold work, m', a. cbn. rewrite Et, Hb. cbn. lia.
Qed.

(** A call meets a closed queue: the main goroutine that makes it is unwound. *)
Lemma panic_goes c m d ws md (rm : room) :
  rm_members rm !! c = Some m → mb_told m !! 0%nat = Some (d, ws) → rm_members rm !! d = Some md → ch_closed (at_out (mb_attach md)) = true →
  telling (at_pc (mb_attach m)) → ∃ rm', room_step (RPanic c 0) rm = Stepped rm' ∧ less rm' rm.
Proof.
  intros Hc Hk Hd Hcl Ht. cbn [Room.room_step]. rewrite Hc. unfold panic_step. rewrite Hk. cbn [mbind option_bind fst]. rewrite Hd, Hcl.
  cbn [AttachHandler.step]. unfold unwind_step, goto. cbn [fst snd].
  destruct (at_pc (mb_attach m)) eqn:Epc; try (by destruct Ht); (eexists; split; [reflexivity|]).
  4:{ apply less_one with (m := m); [done|cbn; by rewrite Epc|done|]. destruct (mb_told m) as [|t l] eqn:Et; [done|]. unfold work. cbn. rewrite Et. cbn. lia. }
  all: left; unfold main_work; cbn [rm_members]; rewrite total_insert, (total_delete _ c m (rm_members rm) Hc); cbn [mb_attach at_pc with_pc pc_weight]; rewrite Epc; cbn; lia.
Qed.

(** The main goroutine goes on: it waits for nobody any more. *)
Lemma main_can c an a (sv : server T R) :
  fit (live c) a (sv_pty sv) → closing_inv a → writer_quiet a → live_quiet c a (sv_pty sv) → ¬ main_quiet (at_pc a) →
  ∃ s', main_step marshal noHistory c (live c) an (a, sv) = Stepped s' ∧ (pc_weight (at_pc s'.1) < pc_weight (at_pc a))%nat.
Proof.
  intros F Hci [Hb Hwq] Hlq Hq. unfold closing_inv in Hci. pose proof (λ f Hc, send_goes f a Hc Hb (fit_cap _ _ _ F)) as Hs. pose proof (open_at a (fit_open _ _ _ F)) as Hop.
  pose proof (fit_live _ _ _ F) as Hl. pose proof (fit_chan _ _ _ F) as Hch. pose proof (fit_gone _ _ _ F) as Hg. pose proof (proj2 (fit_open _ _ _ F)) as Hcl. pose proof (proj1 (fit_open _ _ _ F)) as Hdn.
  unfold main_step, send_then, register_step, subscribe_step, goto. cbn [fst snd].
  destruct (at_pc a) as [|h eff|h| |sb sc|sc| | |eff|r|r|r|r|r|r|r|] eqn:Epc; try (by destruct Hq);
    try (rewrite Hs by (apply Hop; by left); eexists; split; [reflexivity|cbn; lia]).
  - destruct (sv_reg sv) as [[g dk]|]; [destruct (Registry.Add _ _ _ _ _ _ _ _) as [[[i|e] g'] dk']|]; (eexists; split; [reflexivity|cbn; lia]).
  - destruct (SubscribeWithSnapshotParts _ _) as [[[sb sc]|e] p]; (eexists; split; [reflexivity|cbn; lia]).
  - eexists; split; [reflexivity|cbn; lia].
  - assert (at_live a = LDone) as ->; [|eexists; split; [reflexivity|cbn; lia]].
    unfold live_quiet in Hlq. destruct (at_live a); [by destruct Hl| |done|done]. destruct Hlq as [q Eq]. by destruct (recv_ended (live c) (sv_pty sv) (Hch I) Hg q).
  - eexists; split; [reflexivity|cbn; lia].
  - assert (writer_done (at_writer a) = true) as ->; [|eexists; split; [reflexivity|cbn; lia]].
    destruct (at_writer a) eqn:Ew; try done. by destruct (Hwq Hci).
  - eexists; split; [reflexivity|cbn; lia].
  - eexists; split; [reflexivity|cbn; lia].
Qed.

Lemma main_goes c m an (rm : room) :
  rm_members rm !! c = Some m → fit (live c) (mb_attach m) (room_pty rm) → closing_inv (mb_attach m) → mb_told m = [] →
  writer_quiet (mb_attach m) → live_quiet c (mb_attach m) (room_pty rm) → ¬ main_quiet (at_pc (mb_attach m)) →
  ∃ rm', room_step (RStep c (EvMain an)) rm = Stepped rm' ∧ less rm' rm.
Proof.
  intros Hc F Hci Ht Hw Hl Hq. destruct (main_can c an (mb_attach m) (rm_server rm) F Hci Hw Hl Hq) as ([a sv] & Es & Hlt).
  cbn [Room.room_step]. rewrite Hc. assert (negb (own (EvMain an)) || busy (EvMain an) m = false) as -> by (unfold busy; by rewrite Ht).
  unfold member_step. cbn [AttachHandler.step]. rewrite Es. destruct (news _ _ _ _ _ _) as [rs eff]. eexists. split; [done|]. left. unfold main_work. cbn [rm_members].
  rewrite total_notify by (intros d md; cbn [mb_attach]; by rewrite owe_pc). rewrite total_insert, (total_delete _ c m (rm_members rm) Hc). cbn [mb_attach]. cbn [fst] in Hlt. lia.
Qed.

(** A connection that works goes on working, but for a frame that is too long. *)
Lemma main_ok c an (s s' : sys (T := T) (R := R)) :
  main_step marshal noHistory c (live c) an s = Stepped s' → at_writer s'.1 = at_writer s.1 ∧ at_forced s'.1 = at_forced s.1.
Proof.
  destruct s as [a sv]. unfold main_step, send_then, register_step, subscribe_step, goto. cbn [fst snd]. intros E.
  destruct (at_pc a); try discriminate E;
    try (destruct (send _ a) as [| |a1] eqn:Es; try discriminate E; apply send_stepped in Es as [_ ->]; by injection E as <-);
    repeat (case_match; try discriminate E); by simplify_eq.
Qed.

Lemma inner_ok c ev an (s s' : sys (T := T) (R := R)) :
  inner an (RStep c ev) → step c ev s = Stepped s' → ok_attach s.1 →
  ok_attach s'.1 ∨ ∃ f, at_writer s'.1 = WFailed f (ErrPayloadMax (Z.of_nat (length f.2))) ∧ MaxPayload < Z.of_nat (length f.2).
Proof.
  destruct s as [a sv]. cbn [inner fst]. destruct ev as [an' x|an'|an' x|[werr|]| |an' op|k|op|rop| |]; try done; cbn [AttachHandler.step fst snd]; intros _ E [Hw Hf].
  - apply main_ok in E as [E1 E2]. cbn [fst] in *. left. split; congruence.
  - destruct (writer_step None a) as [| |a1] eqn:Ew; try discriminate E. injection E as <-. unfold writer_step in Ew. rewrite Hf in Ew.
    destruct (at_writer a) eqn:Eat; try discriminate Ew. destruct (recv (at_out a)) as [[f| |] q]; try discriminate Ew.
    + destruct (Z.ltb_spec MaxPayload (Z.of_nat (length f.2))); injection Ew as <-; [right; by exists f|left]. by split; [left|].
    + injection Ew as <-. left. by split; [right|].
  - unfold live_step in E. destruct (at_live a); try discriminate E.
    + destruct (recv_sub _ _) as [[[ck| |]|e] p]; try discriminate E; injection E as <-; by left.
    + destruct (send _ a) as [| |a1] eqn:Es; try discriminate E. injection E as <-. apply send_stepped in Es as [_ ->]. by left.
Qed.

Lemma working_step an ev rm rm' : inner an ev → room_step ev rm = Stepped rm' → working rm → working rm' ∨ oversize rm'.
Proof.
  intros Hin E Hw. destruct ev as [c|c ev|c k|c k|op]; try done; cbn [Room.room_step] in E.
  - destruct (rm_members rm !! c) as [m|] eqn:Ec; [|done]. destruct (_ || _); [done|]. apply member_step_spec in E as (a & sv & Es & E).
    assert (∀ rs eff d x, at_writer (owe rs eff d x) = at_writer x ∧ at_forced (owe rs eff d x) = at_forced x) as Ho by (intros rs eff d x; unfold owe; by destruct (bool_decide _)).
    destruct (inner_ok c ev an _ _ Hin Es (Hw c m Ec)) as [Hok|(f & Hf & Hl)]; destruct (news _ _ _ _ _ _) as [rs eff]; subst rm'; cbn [fst] in *.
    + left. intros d md. cbn [rm_members]. rewrite notify_lookup. unfold ok_attach.
      destruct (decide (c = d)) as [<-|Hcd]; [rewrite lookup_insert_eq|rewrite lookup_insert_ne by done; destruct (rm_members rm !! d) as [md0|] eqn:Ed; [|done]];
        intros [= <-]; cbn [mb_attach]; destruct (Ho rs eff c a) as [-> ->] || destruct (Ho rs eff d (mb_attach md0)) as [-> ->]; [exact Hok|exact (Hw d md0 Ed)].
    + right. exists c. eexists _, f. cbn [rm_members]. rewrite notify_lookup, lookup_insert_eq. split; [done|]. cbn [mb_attach]. by destruct (Ho rs eff c a) as [-> _].
  - destruct (rm_members rm !! c) as [m|] eqn:Ec; [|done]. apply tell_step_spec in E as (d & ws & md & j & y & a & _ & Ed & _ & Es & ->). left. cbn [rm_members].
    assert (ok_attach a) as Ha.
    { unfold deliver_step in Es. cbn [fst snd] in Es. destruct (_ !! j); [|done]. destruct (send _ _) as [| |a1] eqn:Esn; try done. injection Es as <-.
      apply send_stepped in Esn as [_ ->]. exact (Hw d md Ed). }
    intros e me He. cbn [rm_members] in He. apply lookup_alter_Some in He as [(<- & mq & Hmq & ->)|[_ He]]; [cbn [mb_attach]|];
      match goal with H : <[d := _]> _ !! _ = Some _ |- _ => apply lookup_insert_Some in H as [[_ <-]|[_ H]]; [exact Ha|exact (Hw _ _ H)] end.
  - destruct (rm_members rm !! c) as [m|] eqn:Ec; [|done]. apply panic_step_spec in E as (d & ws & md & a & sv & _ & _ & _ & Es & ->). left.
    cbn [AttachHandler.step] in Es. apply unwind_stepped in Es as (x & Ea & _). cbn [fst] in Ea. subst a.
    intros e me He. cbn [rm_members] in He. apply lookup_insert_Some in He as [[<- <-]|[_ He]]; [exact (Hw c m Ec)|exact (Hw e me He)].
Qed.

(** ** It comes to rest *)

Record sound (rm : room) : Prop := {
  so_inv : room_inv (T := T) (R := R) (λ _ _, True) rm;
  so_owed : owed_inv submseteq rm;
  so_fit : room_fit rm;
  so_tell : tellers rm
}.

Lemma sound_step ev rm rm' :
  match ev with RPty op => polite live op (room_pty rm) ∧ shuts_down op | _ => True end → room_step ev rm = Stepped rm' → sound rm → sound rm'.
Proof.
  intros Hev E [H1 H2 H3 H4]. split; [|eapply owed_inv_step; [apply _|by left|exact H1|exact H2|exact E]|by eapply room_fit_step|by eapply tellers_step].
  eapply room_step_inv; [..|exact E|exact H1]; done.
Qed.

(** Not at rest: somebody can go on. *)
Lemma goes_on an rm :
  sound rm → working rm → at_rest rm ∨ ∃ ev rm', inner an ev ∧ room_step ev rm = Stepped rm' ∧ less rm' rm.
Proof.
  intros [Hi Ho [Hc Hr Hf] Htl] Hw.
  destruct (decide (map_Forall (λ _ m, writer_quiet (mb_attach m)) (rm_members rm))) as [Hwq|(c & m & Hcm & Hn)%map_not_Forall]; [| |apply _].
  2:{ right. destruct (writer_goes c m rm Hcm (Hf c m Hcm) (Hw c m Hcm) Hn) as (rm' & E & Hl). by exists (RStep c (EvWriter None)), rm'. }
  destruct (decide (map_Forall (λ _ m, mb_told m = []) (rm_members rm))) as [Ht|(c & m & Hcm & Hn)%map_not_Forall]; [| |apply _].
  2:{ right. destruct (mb_told m !! 0%nat) as [[d ws]|] eqn:Hk; [|by destruct (mb_told m)].
      destruct (proj2 Ho c m d ws Hcm (list_elem_of_lookup_2 _ _ _ Hk)) as [Hdc [md Hd]].
      destruct (ch_closed (at_out (mb_attach md))) eqn:Ecl.
      { destruct (panic_goes c m d ws md rm Hcm Hk Hd Ecl (Htl c m Hcm Hn)) as (rm' & E & Hl). by exists (RPanic c 0), rm'. }
      destruct (tell_goes c m d ws md rm Ho Hcm Hk Hd Ecl (proj1 (Hwq d md Hd)) (fit_cap _ _ _ (Hf d md Hd))) as (rm' & E & Hl). by exists (RTell c 0), rm'. }
  destruct (decide (map_Forall (λ c m, live_quiet c (mb_attach m) (room_pty rm)) (rm_members rm))) as [Hlq|(c & m & Hcm & Hn)%map_not_Forall]; [| |apply _].
  2:{ right. destruct (live_goes c m rm Hcm (Hf c m Hcm) (Hwq c m Hcm) Hn) as (rm' & E & Hl). by exists (RStep c EvLive), rm'. }
  destruct (decide (map_Forall (λ _ m, main_quiet (at_pc (mb_attach m))) (rm_members rm))) as [Hmq|(c & m & Hcm & Hn)%map_not_Forall]; [| |apply _].
  2:{ right. destruct (proj1 Hi c m Hcm) as [[_ Hci] _].
      destruct (main_goes c m an rm Hcm (Hf c m Hcm) Hci (Ht c m Hcm) (Hwq c m Hcm) (Hlq c m Hcm) Hn) as (rm' & E & Hl). by exists (RStep c (EvMain an)), rm'. }
  left. intros c m Hcm. split; [exact (Ht c m Hcm)|]. split; [exact (Hmq c m Hcm)|]. split; [exact (Hwq c m Hcm)|exact (Hlq c m Hcm)].
Qed.

Lemma less_wf : well_founded less.
Proof.
  intros rm. remember (main_work rm) as p eqn:Ep. revert rm Ep. induction p as [p IHp] using lt_wf_ind. intros rm. remember (side_work rm) as q eqn:Eq. revert rm Eq.
  induction q as [q IHq] using lt_wf_ind. intros rm -> ->. constructor. intros rm' [H|[H1 H2]]; [by eapply IHp|]. by eapply IHq.
Qed.

Lemma comes_to_rest an rm :
  sound rm → working rm →
  ∃ evs rm', Forall (inner an) evs ∧ room_run evs rm = Stepped rm' ∧ (sound rm' ∧ working rm' ∧ at_rest rm' ∨ oversize rm').
Proof.
  induction (less_wf rm) as [rm _ IH]. intros Hs Hw. destruct (goes_on an rm Hs Hw) as [H|(ev & rm1 & Hin & E & Hl)]; [exists [], rm; split; [constructor|]; by auto 6|].
  destruct (working_step an ev rm rm1 Hin E Hw) as [Hw1|Ho].
  - destruct (IH rm1 Hl) as (evs & rm' & H1 & H2 & H3); [eapply sound_step; [|exact E|exact Hs]; by destruct ev|done|]. exists (ev :: evs), rm'. split; [by constructor|]. cbn [Room.room_run]. by rewrite E.
  - exists [ev], rm1. split; [by repeat constructor|]. cbn [Room.room_run]. rewrite E. auto.
Qed.

Lemma sound_run evs rm rm' :
  room_run evs rm = Stepped rm' → at_pty marshal unmarshal_hello unmarshal_size noHistory live (λ op p, polite live op p ∧ shuts_down op) evs rm → sound rm → sound rm'.
Proof.
  revert rm. induction evs as [|ev evs IH]; intros rm; cbn [Room.room_run at_pty]; [by intros [= <-]|].
  destruct (room_step ev rm) as [| |rm1] eqn:E; [intros Hr [_ Hp]; by apply IH|done|]. intros Hr [Hev Hp] Hs. apply (IH rm1 Hr Hp).
  apply (sound_step ev rm); [|done|done]. by destruct ev.
Qed.

(** At rest, in the read loop and with its subscription: caught up. *)
Lemma rest_caught_up rm c m :
  sound rm → working rm → at_rest rm → rm_members rm !! c = Some m → at_pc (mb_attach m) = PcLoop →
  p_closed (room_pty rm) = false → is_Some (p_subs (room_pty rm) !! live c) → caught_up (live c) (mb_attach m, rm_server rm).
Proof.
  intros [Hi Ho [[[Hp _] _] Hr Hf] _] Hw Hrest Hcm Hpc Hcl [s Hs]. destruct (Hrest c m Hcm) as (_ & _ & [Hb _] & Hq). destruct (Hw c m Hcm) as [Hwr _].
  destruct (Hf c m Hcm) as [F1 F2 F3 F4 F5 F6 F7 F8]. rewrite Hpc in F4. destruct (Hp (live c) s Hs) as (ch & Hch & Hopen).
  unfold live_quiet in Hq. unfold caught_up. cbn [fst snd]. rewrite Hch. split; [done|]. split.
  { destruct Hwr as [Hwr|Hwr]; [done|]. destruct (F3 Hwr) as [Hc _]. rewrite (open_at _ F1) in Hc; [done|left; by rewrite Hpc]. }
  split; [done|]. destruct (at_live (mb_attach m)) eqn:El; [by destruct (F4 I)| |done|by rewrite F8 in Hs]. split; [done|]. split; [done|]. split; [by eexists|].
  destruct Hq as [q Eq]. unfold recv_sub in Eq. rewrite Hch in Eq. unfold recv in Eq. cbn. destruct (ch_buf ch); [done|]. by injection Eq.
Qed.

(** C9: A session comes to rest.  Take any state a session can reach, with any
    number of clients and panics included, by any schedule in which the routes make
    channels of their own and the PTY, if it was closed, did not find its action
    queue full ([shuts_down]; it then leaves its subscribers waiting for ever,
    [LeftBehind.close_full_strands]), and in which the connections of the
    attachments still work (no write has failed, nobody was detached by force).
    Then nobody waits for ever: the attachments' own goroutines, whatever the
    world answers them, can bring the session to a state where every [sendSize]
    call has returned, every queue is empty and on the wire, every live goroutine
    has forwarded all the output there was, and every main goroutine is waiting
    for its client's next frame or has returned; unless on the way a frame is
    longer than the protocol allows.  A [sendSize] call that meets a closed queue
    panics, and this ends its attachment; it keeps nobody waiting.  At rest, whoever
    is in its read loop is caught up with the session. *)
Theorem room_rests evs rm rm1 an :
  empty_room rm → chans_inv rm → released (room_pty rm) → room_run evs rm = Stepped rm1 →
  at_pty marshal unmarshal_hello unmarshal_size noHistory live (λ op p, polite live op p ∧ shuts_down op) evs rm → working rm1 →
  ∃ evs' rm2, Forall (inner an) evs' ∧ room_run evs' rm1 = Stepped rm2 ∧
    (oversize rm2 ∨
     at_rest rm2 ∧ ∀ c m, rm_members rm2 !! c = Some m → at_pc (mb_attach m) = PcLoop →
       p_closed (room_pty rm2) = false → is_Some (p_subs (room_pty rm2) !! live c) → caught_up (live c) (mb_attach m, rm_server rm2)).
Proof.
  intros He Hc Hr Hr1 Hp Hw. destruct (empty_room_owed submseteq rm He) as [Hi Ho].
  assert (sound rm1) as Hs.
  { apply (sound_run evs rm); [done|done|]. split; [done|done| |]; [split; [done|done|]|]; intros d m; by rewrite (proj1 He), lookup_empty. }
  destruct (comes_to_rest an rm1 Hs Hw) as (evs' & rm2 & H1 & H2 & H3). exists evs', rm2. split; [done|]. split; [done|].
  destruct H3 as [(Hs2 & Hw2 & Hrest)|H3]; [right|by left]. split; [done|]. intros c m Hcm Hpc Hcl Hsub. by apply (rest_caught_up rm2).
Qed.
End rest.

(** Two clients have joined, one asks for a small window, the session writes, and
    the other one hangs up: its output, its frames, and the call that tells it the
    new size are all still under way. *)
Definition ex_under_way : list room_event :=
  ex_join 1 ++ ex_join 2 ++
  [RStep 1 (EvRead ex_answers (Ok (MsgSize, []))); RPty (PChunk 0 [66; 67]); RStep 1 EvLive; RStep 2 (EvRead ex_answers (Err (WireIO EOF)))].

Lemma room_rests_witness :
  ∃ rm1 evs' rm2, ex_room_run ex_under_way ex_room = Stepped rm1 ∧ Forall (inner ex_answers) evs' ∧ ex_room_run evs' rm1 = Stepped rm2 ∧
    (oversize rm2 ∨ at_rest id rm2).
Proof.
  assert (∃ rm1, ex_room_run ex_under_way ex_room = Stepped rm1 ∧
    at_pty (IG := counter_gen) (λ _, None) ex_hello ex_size false id (λ op p, polite id op p ∧ shuts_down op) ex_under_way ex_room ∧
    Forall (λ x, ok_attach (mb_attach x.2)) (map_to_list (rm_members rm1))) as (rm1 & H1 & Hp & Hw).
  { eexists. split; [vm_compute; reflexivity|].
    split; [vm_compute; repeat split; try discriminate|]. vm_compute. repeat (constructor; [split; [left|]; reflexivity|]). constructor. }
  assert (chans_inv id ex_room) as Hc by (split; [split; intros i x; cbn; by rewrite lookup_empty|]; intros c _; apply lookup_empty).
  assert (working rm1) as Hw1.
  { intros c m Hm. rewrite Forall_forall in Hw. exact (Hw (c, m) (proj2 (elem_of_map_to_list _ _ _) Hm)). }
  destruct (room_rests (IG := counter_gen) (λ _, None) ex_hello ex_size false id (λ c d H, H) ex_under_way ex_room rm1 ex_answers
    (conj eq_refl eq_refl) Hc ltac:(intros H; vm_compute in H; discriminate H) H1 Hp Hw1) as (evs' & rm2 & Hin & H2 & Hx).
  exists rm1, evs', rm2. split; [exact H1|]. split; [exact Hin|]. split; [exact H2|]. destruct Hx as [Hx|[Hx _]]; [left; exact Hx|right; exact Hx].
Defined.
