(* ===== verification/LeftBehind.v ===== *)
(** * Goroutines left behind

    Two ways for a goroutine of an attachment to wait for ever for something that
    nobody will do: [serveOne] returns before its teardown and does not close
    [outCh]; [Close] of the PTY finds its queue full and does not close the
    subscribers.  And a writer that ends early: a snapshot longer than a frame may
    be is never sent. *)
From S2P Require Import Prelude GoBase StreamFilter QueryStripper PrimaryFilter Recorder Recording Terminal Channel Wire State ShortId Store Pty PtySafety Delivery PtyLive AttachSet Registry AttachHandler Hud Restorer AttachClient EndToEnd Room RoomClients RoomViews.
Open Scope Z_scope.

Section left_behind.
Context {T : Type} {TO : TermOps T} {R : Type} {IG : IdGen R}.
Context (marshal : StateFile → option (list byte)).
Context (unmarshal_hello : list byte → option Hello) (unmarshal_size : list byte → option PTYSize).
Context (noHistory : bool) (self : conn) (liveCh : chan_id).

#[local] Abbreviation sys := (AttachHandler.sys (T := T) (R := R)).
#[local] Abbreviation step := (AttachHandler.step marshal unmarshal_hello unmarshal_size noHistory self liveCh).
#[local] Abbreviation run := (AttachHandler.run marshal unmarshal_hello unmarshal_size noHistory self liveCh).

(** ** The writer of a refused client *)

(** [serveOne] has returned, [outCh] is empty and open, and nobody is about to
    send on it. *)
Record forgotten (s : sys) : Prop := {
  fg_pc : ∃ r, at_pc s.1 = PcDone r;
  fg_out : ch_buf (at_out s.1) = [] ∧ ch_closed (at_out s.1) = false;
  fg_writer : at_writer s.1 = WRunning;
  fg_live : at_live s.1 = LNone;
  fg_pending : at_pending s.1 = [];
  fg_member : ¬ AttachHandler.member self s.2
}.

Lemma forgotten_blocked werr (s : sys) : forgotten s → writer_step werr s.1 = Blocked.
Proof. intros [_ [Hb Hc] Hw _ _ _]. unfold writer_step, recv. by rewrite Hw, Hb, Hc. Qed.

Lemma forgotten_step ev (s s' : sys) : step ev s = Stepped s' → forgotten s → forgotten s'.
Proof.
  destruct s as [a sv]. intros E F. pose proof (λ w, forgotten_blocked w _ F) as Hw. destruct F as [[r Hp] Ho Hr Hl Hn Hm]. cbn [fst snd] in *.
  destruct ev as [an x|an|an x|werr| |an op|k|op|rop| |]; cbn [AttachHandler.step fst snd] in E.
  - by rewrite Hp in E.
  - unfold main_step in E. by rewrite Hp in E.
  - by rewrite Hp in E.
  - by rewrite Hw in E.
  - unfold live_step in E. by rewrite Hl in E.
  - unfold other_step in E. cbn [fst snd] in E. case_bool_decide as Hop; [done|]. pose proof (set_call_member marshal self an op sv) as Hsm.
    rewrite bool_decide_eq_false_2 in Hsm by done. unfold set_call in E. case_bool_decide as Hin.
    + apply receivers_members in Hin. rewrite set_step_other in Hin by done. by destruct Hm.
    + injection E as <-. split; try done; [by eexists|]. cbn [snd]. unfold set_call in Hsm. cbn [snd] in Hsm. by rewrite Hsm.
  - unfold deliver_step in E. cbn [fst snd] in E. by rewrite Hn, lookup_nil in E.
  - injection E as <-. split; try done. by eexists.
  - injection E as <-. split; try done. by eexists.
  - unfold forcedDetach in E. destruct (at_id a), (at_forced a); try done; injection E as <-; (split; try done; by eexists).
  - unfold unwind_step, goto in E. cbn [fst] in E. rewrite Hp in E. injection E as <-. split; try done. by eexists.
Qed.

(** A client that was refused by the registry, or whose snapshot failed, leaves its
    writer goroutine behind: when [serveOne] has returned it waits on [outCh],
    which is open, and whatever happens it never runs again. *)
Theorem refused_writer_waits evs (s s' : sys) werr :
  forgotten s → run evs s = Stepped s' → at_writer s'.1 = WRunning ∧ writer_step werr s'.1 = Blocked.
Proof.
  intros F Hr. assert (forgotten s') as F' by (eapply run_inv; [|exact F|exact Hr]; intros ev x y Hx E; by eapply forgotten_step).
  split; [apply F'|by apply forgotten_blocked].
Qed.

(** ** A snapshot that is too long *)

(** Nothing limits the scrollback a snapshot carries (10000 lines by default), but
    a frame is limited: if it is longer, the writer goroutine ends at that frame
    and the client is never shown anything; attaching again does not help. *)
Theorem oversize_snapshot_blank evs (sv : server T R) (s : sys) p :
  run evs (new_attach, sv) = Stepped s → at_parts s.1 = Some p → MaxPayload < Z.of_nat (length p.1) → content (at_wire s.1) = [].
Proof.
  intros Hr Hp Hlen. assert (order_inv s.1) as (E & _ & _).
  { apply (run_inv marshal unmarshal_hello unmarshal_size noHistory self liveCh (λ s, order_inv s.1) evs (new_attach, sv)); [|apply new_attach_order|exact Hr]. intros ev s1 s2. by apply step_order. }
  assert (wire_ok s.1) as Hw.
  { apply (run_inv marshal unmarshal_hello unmarshal_size noHistory self liveCh (λ s, wire_ok s.1) evs (new_attach, sv)); [|by constructor|exact Hr]. intros ev s1 s2 H1 H2. by eapply step_wire. }
  unfold flow in E. rewrite Hp in E. destruct (content (at_wire s.1)) as [|f l] eqn:Ec; [done|exfalso].
  assert (f = (MsgSnapshotScrollback, p.1)) as Ef.
  { unfold content in *. rewrite filter_app, <- app_assoc, Ec in E. unfold expected, transcript in E. destruct (at_pc s.1); cbn in E; try discriminate E; by injection E. }
  assert (f ∈ at_wire s.1) as Hin by (assert (f ∈ content (at_wire s.1)) as H by (rewrite Ec; left); by apply list_elem_of_filter in H as [_ H]).
  unfold wire_ok, on_wire in Hw. rewrite Forall_app, !Forall_forall in Hw. destruct Hw as [Hw _]. specialize (Hw f Hin). rewrite Ef in Hw. unfold frame_ok in Hw. cbn in Hw. lia.
Qed.

(** ** The live goroutines of a PTY that was closed while busy *)

(** The PTY is closed and a subscriber's channel is open. *)
Definition abandoned (id : chan_id) (p : LibghosttyPTY T) : Prop :=
  p_closed p = true ∧ ∃ c, p_chans p !! id = Some c ∧ ch_closed c = false.

Lemma close_full_abandons rc id s (p : LibghosttyPTY T) :
  pty_inv p → p_closed p = false → p_subs p !! id = Some s → abandoned id (Pty.Close false rc p).2 ∧ p_rec (Pty.Close false rc p).2 = p_rec p.
Proof.
  intros [H _] Hc Hs. destruct (H id s Hs) as (c & Hch & Ho). unfold Pty.Close. rewrite Hc. cbn. split; [|done]. split; [done|]. by exists c.
Qed.

Lemma op_abandoned op id (p : LibghosttyPTY T) :
  match op with PSubscribe _ j | PSnap j | PParts j => j ≠ id | _ => True end → abandoned id p → abandoned id (pty_run1 op p).2.
Proof.
  intros Hne [Hcl (c & Hc & Ho)]. assert (∀ j q, touches_only j p q → j ≠ id → abandoned id q) as Ht.
  { intros j q [Ec Hq] Hj. destruct (Hq id) as [_ Eq]; [congruence|]. split; [congruence|]. exists c. by rewrite Eq. }
  pose proof (op_touches op p) as Hto. unfold abandoned. destruct op as [now ck|ss now cl r|data|cap j|j|j|j|j|room rc];
    try (destruct Hto as (_ & -> & ->); split; [done|by exists c]); try (by apply (Ht j)).
  - cbn [pty_run1]. unfold readLoop_chunk, pty_do. destruct ck as [|b ck]; cbn [snd mret]; [split; [done|by exists c]|]. rewrite Hcl. split; [done|by exists c].
  - cbn [pty_run1]. unfold cancel, pty_do. rewrite Hcl. split; [done|by exists c].
  - cbn [pty_run1 result snd]. unfold recv_sub. destruct (decide (j = id)) as [->|Hj]; [|by apply (Ht j)].
    rewrite Hc. unfold recv. destruct (ch_buf c); cbn; rewrite lookup_insert_eq; (split; [done|]); by eexists.
  - cbn [pty_run1]. unfold Pty.Close. rewrite Hcl. split; [done|by exists c].
Qed.

(** An attachment of it, past its snapshot. *)
Record stranded (s : sys) : Prop := {
  st_pty : abandoned liveCh (sv_pty s.2);
  st_pc : match at_pc s.1 with PcLoop | PcPong | PcSendSize _ | PcCancelSub _ | PcJoinLive _ => True | _ => False end;
  st_live : match at_live s.1 with LRunning | LHolding _ => True | _ => False end
}.

(** No panic, and nobody else subscribes with its channel. *)
Definition undisturbed (ev : event) : Prop :=
  match ev with EvUnwind | EvPty (PSubscribe _ _) | EvPty (PSnap _) | EvPty (PParts _) => False | _ => True end.

Lemma stranded_step ev (s s' : sys) : undisturbed ev → step ev s = Stepped s' → stranded s → stranded s'.
Proof.
  destruct s as [a sv]. intros Hu E [Hp Hpc Hl]. cbn [fst snd] in *. assert (∀ op, abandoned liveCh (sv_pty (set_call marshal (match ev with EvRead an _ | EvOther an _ => an | _ => ex_answers end) op sv).2)) as Hset.
  { intros op. unfold set_call, size_applier. cbn [snd]. destruct (res_apply _) as [ws|]; [|done]. exact (op_abandoned (PResize _ _ _ _) liveCh _ I Hp). }
  destruct ev as [an x|an|an x|werr| |an op|k|op|rop| |]; cbn [AttachHandler.step fst snd] in E; try done.
  - by destruct (at_pc a).
  - unfold main_step, send_then, goto in E. cbn [fst snd] in E. destruct (at_pc a) eqn:Epc; try done.
    + destruct (send _ a) as [| |a1] eqn:Es; try done. injection E as <-. by apply send_stepped in Es as [_ ->].
    + destruct (send _ a) as [| |a1] eqn:Es; try done. injection E as <-. by apply send_stepped in Es as [_ ->].
    + injection E as <-. split; [|done|done]. exact (op_abandoned (PCancel liveCh) liveCh _ I Hp).
    + by destruct (at_live a).
  - destruct (at_pc a) eqn:Epc; try done. unfold read_step, goto in E. cbn [fst snd] in E.
    destruct x as [[typ payload]|e]; [|injection E as <-; by split].
    destruct (typ =? MsgInput).
    { pose proof (op_abandoned (PInput payload) liveCh _ I Hp) as Hi. cbn [pty_run1] in Hi. destruct (Pty.Write payload _) as [[u|e] p]; injection E as <-; split; cbn; by rewrite ?Epc. }
    destruct (typ =? MsgSize).
    { destruct (unmarshal_size payload) as [ws|]; [|injection E as <-; by split]. destruct (_ || _); [injection E as <-; split; cbn; by rewrite ?Epc|].
      specialize (Hset (SUpdate self ws)). destruct (set_call _ _ _ _) as [r sv']. injection E as <-. case_bool_decide; split; cbn; by rewrite ?Epc. }
    destruct (typ =? MsgPing); [injection E as <-; by split|]. destruct (typ =? MsgHello); [injection E as <-; by split|].
    destruct (_ || _); injection E as <-; by split.
  - destruct (writer_step werr a) as [| |a1] eqn:Ew; try done. injection E as <-. apply writer_step_flow in Ew as (_ & E1 & E2 & _). split; cbn; by rewrite ?E1, ?E2.
  - unfold live_step in E. destruct (at_live a) eqn:El; try done.
    + pose proof (op_abandoned (PRecv liveCh) liveCh _ I Hp) as Hr. cbn [pty_run1 result snd] in Hr. destruct Hp as [_ (c & Hc & Ho)].
      assert (∀ q, recv_sub liveCh (sv_pty sv) ≠ (Ok RecvClosed, q)) as Hn.
      { intros q. unfold recv_sub. rewrite Hc. unfold recv. destruct (ch_buf c); [rewrite Ho|]; by intros [=]. }
      destruct (recv_sub _ _) as [[[ck| |]|e] p] eqn:Er; try done; [injection E as <-; by split|by destruct (Hn p)].
    + destruct (send _ a) as [| |a1] eqn:Es; try done. injection E as <-. by apply send_stepped in Es as [_ ->].
  - unfold other_step in E. case_bool_decide; [done|]. specialize (Hset op). destruct (set_call _ _ _ _) as [r sv']. injection E as <-. by case_bool_decide.
  - unfold deliver_step in E. cbn [fst snd] in E. destruct (at_pending a !! k); [|done]. destruct (send _ a) as [| |a1] eqn:Es; try done. injection E as <-.
    by apply send_stepped in Es as [_ ->].
  - injection E as <-. split; [|done|done]. apply op_abandoned; [by destruct op|done].
  - by injection E as <-.
  - unfold forcedDetach in E. destruct (at_id a), (at_forced a); try done; by injection E as <-.
Qed.

(** When [Close] finds the queue of the dispatcher full it skips its shutdown
    action: an attachment of the session then never ends, and its client is never
    told, not even when it hangs up. *)
Theorem close_full_strands rc evs (a : attach) (sv : server T R) x s' :
  pty_inv (sv_pty sv) → p_closed (sv_pty sv) = false → p_subs (sv_pty sv) !! liveCh = Some x →
  at_pc a = PcLoop → at_live a = LRunning → Forall undisturbed evs →
  run (EvPty (PClose false rc) :: evs) (a, sv) = Stepped s' → stranded s'.
Proof.
  intros Hi Hc Hs Hpc Hl Hev. cbn [AttachHandler.run AttachHandler.step fst snd]. destruct (close_full_abandons rc liveCh x _ Hi Hc Hs) as [Ha _].
  assert (stranded (a, with_pty (pty_run1 (PClose false rc) (sv_pty sv)).2 sv)) as Hst by (split; cbn [fst snd]; rewrite ?Hpc, ?Hl; done).
  revert Hst. generalize (a, with_pty (pty_run1 (PClose false rc) (sv_pty sv)).2 sv). clear - Hev. induction Hev as [|ev evs Hu _ IH]; intros s Hst; cbn [AttachHandler.run]; [by intros [= <-]|].
  destruct (step ev s) as [| |s1] eqn:E; [by apply IH|done|]. apply IH. by eapply stranded_step.
Qed.
End left_behind.

(** A client that attaches to a session whose PTY is closed is sent the size, then
    the notice, and its writer stays. *)
Definition ex_closed : server tape Z := with_pty (Pty.Close true None (sv_pty ex_server)).2 ex_server.

Definition ex_refused : list event :=
  EvHello ex_answers (Ok (MsgHello, [])) :: repeat (EvMain ex_answers) 5 ++ [EvWriter None].

Example refused_forgotten :
  ∃ s, ex_run ex_refused (new_attach, ex_closed) = Stepped s ∧ at_pc s.1 = PcDone (Err (AeSnapshot PtyClosed)) ∧ forgotten 1 s.
Proof.
  eexists. split; [vm_compute; reflexivity|]. split; [reflexivity|].
  split; [by eexists|done|done|done|done|]. intros [ws Hws]. vm_compute in Hws. discriminate.
Qed.
