(* ===== verification/Http.v ===== *)
(** * URLs and routes: [net/url], [net/http.ServeMux] as [hoot] uses them

    [url.PathEscape] in the clients, the path cleaning and the pattern matching
    of the two muxes on the other side: the one of [hoot serve]
    ([cmd/hoot/serve.go], [register]) and the one of a session ([session.go],
    [service.go], [pty_libghostty_routes.go]), which the proxy of [hoot serve]
    puts behind [/sessions/{key}/]. *)
From S2P Require Import Prelude GoBase QueryStripper Wire State GoStrings Paths Ssh Cli Main.
Open Scope Z_scope.

(** ** [url.PathEscape], [url.PathUnescape] *)

(** [shouldEscape] for a path segment: what is not escaped. *)
Definition segment_byte (c : byte) : bool :=
  ((chr "a" <=? c) && (c <=? chr "z")) || ((chr "A" <=? c) && (c <=? chr "Z")) ||
  ((chr "0" <=? c) && (c <=? chr "9")) ||
  existsb (Z.eqb c) [chr "-"; chr "_"; chr "."; chr "~"; chr "$"; chr "&"; chr "+"; chr ":"; chr "="; chr "@"].

Definition upperhex (d : Z) : byte := if d <? 10 then 48 + d else 55 + d.

Definition escape_byte (c : byte) : gostring :=
  if segment_byte c then [c] else [37; upperhex (c / 16); upperhex (c mod 16)].

Definition PathEscape (s : gostring) : gostring := s ≫= escape_byte.

Fixpoint PathUnescape (s : gostring) : option gostring :=
  match s with
  | [] => Some []
  | c :: s' =>
      if c =? 37 then
        match s' with
        | a :: b :: s'' =>
            match hex_val a, hex_val b, PathUnescape s'' with
            | Some x, Some y, Some r => Some (x * 16 + y :: r)
            | _, _, _ => None
            end
        | _ => None
        end
      else cons c <$> PathUnescape s'
  end.

(** ** [ServeMux] *)

(** [cleanPath] of [net/http]. *)
Definition cleanPath (p : gostring) : gostring :=
  match p with
  | [] => [slash]
  | c :: _ =>
      let p := if c =? slash then p else slash :: p in
      let np := Clean p in
      if bool_decide (last p = Some slash) && negb (bool_decide (np = [slash])) then np ++ [slash] else np
  end.

(** A segment as patterns see it: unescaped, or as it is if it cannot be. *)
Definition pathUnescape (s : gostring) : gostring := default s (PathUnescape s).

Inductive mux_path := MuxRedirect (p : gostring) | MuxSegments (segs : list gostring).

(** The segments of a path; those of an unclean path are not looked at. *)
Definition mux_segments (p : gostring) : mux_path :=
  if bool_decide (cleanPath p = p) then MuxSegments (drop 1 (split_on slash p)) else MuxRedirect (cleanPath p).

(** *** [hoot serve] *)

Inductive serve_route :=
| RSessions | RSession (key : gostring) | RResolve (key : gostring) | RAttach (key : gostring)
| RAttachRaw (key : gostring) | RProxy (key path : gostring) | RHealth | RRedirect (p : gostring) | RNotFound.

(** The patterns; a literal segment wins over [{path...}]. *)
Definition serve_patterns (segs : list gostring) : serve_route :=
  match segs with
  | [s] => if bool_decide (pathUnescape s = B"sessions") then RSessions
           else if bool_decide (pathUnescape s = B"healthz") then RHealth else RNotFound
  | s :: k :: rest =>
      if bool_decide (pathUnescape s = B"sessions") && negb (bool_decide (k = [])) then
        let key := pathUnescape k in
        match rest with
        | [] => RSession key
        | [v] => if bool_decide (pathUnescape v = B"resolve") then RResolve key
                 else if bool_decide (pathUnescape v = B"attach") then RAttach key
                 else if bool_decide (pathUnescape v = B"attach-raw") then RAttachRaw key
                 else RProxy key (pathUnescape v)
        | _ => RProxy key (pathUnescape (Join rest [slash]))
        end
      else RNotFound
  | [] => RNotFound
  end.

(** [register] mounts each pattern bare and, if there is one, under the prefix
    (which is not itself under a bare pattern). *)
Definition serve_mux (prefix p : gostring) : serve_route :=
  match mux_segments p with
  | MuxRedirect q => RRedirect q
  | MuxSegments segs =>
      match serve_patterns segs with
      | RNotFound =>
          match prefix, strip_prefix prefix p with
          | _ :: _, Some rest => serve_patterns (drop 1 (split_on slash rest))
          | _, _ => RNotFound
          end
      | r => r
      end
  end.

(** *** A session *)

Inductive session_route :=
| SrState | SrEvents | SrAttach | SrAttachments | SrAttachment (id : gostring) | SrSignal | SrClone
| SrPty (verb : gostring) | SrNotFound.

(** [LibghosttyPTY.RegisterRoutes] *)
Definition pty_verbs : list gostring := [B"text"; B"html"; B"vt"; B"stream"; B"input"; B"resize"].

(** On the decoded path, which is what the proxy sets. *)
Definition session_mux (p : gostring) : session_route :=
  match mux_segments p with
  | MuxRedirect _ => SrNotFound
  | MuxSegments segs =>
      match segs with
      | [s] => if bool_decide (s = B"state") then SrState else if bool_decide (s = B"events") then SrEvents
               else if bool_decide (s = B"attach") then SrAttach
               else if bool_decide (s = B"attachments") then SrAttachments
               else if bool_decide (s = B"signal") then SrSignal
               else if bool_decide (s = B"clone") then SrClone else SrNotFound
      | [s; t] => if bool_decide (s = B"attachments") && negb (bool_decide (t = [])) then SrAttachment t
                  else if bool_decide (s = B"pty") &&
                          bool_decide (t ∈ pty_verbs) then SrPty t
                  else SrNotFound
      | _ => SrNotFound
      end
  end.

(** [proxySession]: the path on the session's mux. *)
Definition upstream_path (path : gostring) : gostring := slash :: path.

(** ** Escaping is undone *)

Lemma hex_val_upper d : 0 <= d < 16 → hex_val (upperhex d) = Some d.
Proof.
  intros H. assert (d = 0 ∨ d = 1 ∨ d = 2 ∨ d = 3 ∨ d = 4 ∨ d = 5 ∨ d = 6 ∨ d = 7 ∨ d = 8 ∨ d = 9 ∨
    d = 10 ∨ d = 11 ∨ d = 12 ∨ d = 13 ∨ d = 14 ∨ d = 15) as Hd by lia.
  destruct_or?; subst; reflexivity.
Qed.

Lemma PathEscape_app a b : PathEscape (a ++ b) = PathEscape a ++ PathEscape b.
Proof. apply bind_app. Qed.

Lemma PathUnescape_Escape s : bytes_ok s → PathUnescape (PathEscape s) = Some s.
Proof.
  induction 1 as [|c s Hc _ IH]; [done|]. change (PathEscape (c :: s)) with (escape_byte c ++ PathEscape s).
  unfold escape_byte. destruct (segment_byte c) eqn:E; cbn [app PathUnescape].
  - rewrite (proj2 (Z.eqb_neq c 37)) by (intros ->; by vm_compute in E). by rewrite IH.
  - change (37 =? 37) with true. cbn iota. unfold is_byte in Hc. rewrite !hex_val_upper, IH by lia. do 2 f_equal. lia.
Qed.

Lemma pathUnescape_Escape s : bytes_ok s → pathUnescape (PathEscape s) = s.
Proof. intros H. unfold pathUnescape. by rewrite PathUnescape_Escape. Qed.

(** An escaped segment is a segment. *)
Lemma escape_byte_no_slash c : is_byte c → Forall (λ b, b ≠ slash) (escape_byte c).
Proof.
  intros Hc. unfold escape_byte. destruct (segment_byte c) eqn:E.
  - apply Forall_singleton. intros ->. by vm_compute in E.
  - unfold is_byte in Hc. unfold upperhex, slash. repeat apply Forall_cons_2; try done; case_match; lia.
Qed.

Lemma PathEscape_no_slash s : bytes_ok s → Forall (λ b, b ≠ slash) (PathEscape s).
Proof.
  induction 1 as [|c s Hc _ IH]; [done|]. change (PathEscape (c :: s)) with (escape_byte c ++ PathEscape s).
  apply Forall_app. split; [by apply escape_byte_no_slash|done].
Qed.

Lemma PathEscape_plain s : bytes_ok s → s ≠ [] → s ≠ dot → s ≠ dotdot → plain_name (PathEscape s).
Proof.
  intros Hs H0 H1 H2. pose proof (PathUnescape_Escape s Hs) as E.
  split; [|split; [|split; [|by apply PathEscape_no_slash]]]; intros Ee;
    rewrite Ee in E; vm_compute in E; by injection E as <-.
Qed.

Lemma split_on_join comps :
  comps ≠ [] → Forall (λ c, Forall (λ b, b ≠ slash) c) comps → split_on slash (Join comps [slash]) = comps.
Proof.
  intros Hn H. induction H as [|c comps Hc Hcs IH]; [done|]. destruct comps as [|d comps]; [by apply split_on_none|].
  change (Join (c :: d :: comps) [slash]) with (c ++ slash :: Join (d :: comps) [slash]).
  rewrite split_on_one by done. by rewrite IH.
Qed.

Lemma foldl_push_plain comps st : Forall plain_name comps → foldl (push_comp true) st comps = rev comps ++ st.
Proof.
  intros H. revert st. induction H as [|c comps Hc _ IH]; intros st; [done|].
  cbn [foldl rev]. by rewrite push_plain, IH, <- app_assoc.
Qed.

Lemma Forall_plain_slash comps : Forall plain_name comps → Forall (λ c, Forall (λ b, b ≠ slash) c) comps.
Proof. intros H. eapply Forall_impl; [exact H|]. by intros c (_ & _ & _ & ?). Qed.

(** A path of plain segments is clean, and its segments are those. *)
Lemma mux_segments_plain comps :
  comps ≠ [] → Forall plain_name comps → mux_segments (slash :: Join comps [slash]) = MuxSegments comps.
Proof.
  intros Hn H. assert (Clean (slash :: Join comps [slash]) = slash :: Join comps [slash]) as Ec.
  { unfold Clean, is_rooted. cbn [head]. rewrite bool_decide_eq_true_2 by done.
    cbn [split_on]. change (slash =? slash) with true. cbn iota.
    rewrite split_on_join by first [done | by apply Forall_plain_slash]. cbn [foldl].
    change (push_comp true [] []) with (@nil gostring).
    rewrite foldl_push_plain, app_nil_r by done. rewrite rev_involutive. done. }
  unfold mux_segments, cleanPath. change (slash =? slash) with true. cbn iota zeta. rewrite Ec.
  assert (bool_decide (last (slash :: Join comps [slash]) = Some slash) = false) as ->.
  { apply bool_decide_eq_false. destruct (list_snoc_case comps) as [->|(k & c & ->)]; [done|].
    apply Forall_app in H as [_ H]. apply Forall_singleton in H as (Hc & _ & _ & Hs).
    assert (∃ pre, slash :: Join (k ++ [c]) [slash] = pre ++ c) as [pre ->].
    { destruct k as [|y k]; [by exists [slash]|]. rewrite Join_snoc by done. exists (slash :: Join (y :: k) [slash] ++ [slash]).
      cbn [app]. by rewrite <- app_assoc. }
    rewrite last_app. destruct (last c) as [x|] eqn:El; [|by apply last_None in El].
    intros [= ->]. apply last_Some in El as [c' ->].
    apply Forall_app in Hs as [_ Hs]. by inversion Hs. }
  cbn [andb]. rewrite bool_decide_eq_true_2 by done. cbn [split_on]. change (slash =? slash) with true. cbn iota.
  rewrite split_on_join by first [done | by apply Forall_plain_slash]. done.
Qed.

(** ** What the clients ask for *)

(** The URLs of [hoot kill], [write], [clone], [detach], [resolve] and [attach]
    under [--remote]; of the ones to a session's own socket, the path. *)
Definition session_url (key : gostring) (verb : list gostring) : gostring :=
  B"/" ++ Join (B"sessions" :: PathEscape key :: verb) [slash].

(** A segment a client may send: not empty, not a dot segment. *)
Definition segment (s : gostring) : Prop := bytes_ok s ∧ s ≠ [] ∧ s ≠ dot ∧ s ≠ dotdot.

Lemma plain_segment s : segment s → plain_name (PathEscape s).
Proof. intros (H & H0 & H1 & H2). by apply PathEscape_plain. Qed.

Lemma serve_segments prefix key verb :
  segment key → Forall plain_name verb → serve_patterns (B"sessions" :: PathEscape key :: verb) ≠ RNotFound →
  serve_mux prefix (session_url key verb) = serve_patterns (B"sessions" :: PathEscape key :: verb).
Proof.
  intros Hk Hv Hr. unfold serve_mux, session_url. cbn [app].
  change (B"/" ++ ?x) with (slash :: x). rewrite mux_segments_plain; [by destruct (serve_patterns _)|done|].
  apply Forall_cons. split; [apply (bool_decide_unpack _); vm_compute; exact I|].
  apply Forall_cons. split; [by apply plain_segment|done].
Qed.

Lemma serve_patterns_key key verb :
  segment key →
  serve_patterns (B"sessions" :: PathEscape key :: verb) =
  match verb with
  | [] => RSession key
  | [v] => if bool_decide (pathUnescape v = B"resolve") then RResolve key
           else if bool_decide (pathUnescape v = B"attach") then RAttach key
           else if bool_decide (pathUnescape v = B"attach-raw") then RAttachRaw key
           else RProxy key (pathUnescape v)
  | _ => RProxy key (pathUnescape (Join verb [slash]))
  end.
Proof.
  intros H. unfold serve_patterns. rewrite (bool_decide_eq_true_2 (pathUnescape B"sessions" = B"sessions")) by done.
  pose proof (plain_segment key H) as (Hn & _). rewrite bool_decide_eq_false_2 by done. cbn [andb negb].
  destruct H as (Hb & _). by rewrite pathUnescape_Escape.
Qed.

Ltac plain_names := repeat first
  [apply Forall_cons; split; [first [apply plain_segment; assumption | apply (bool_decide_unpack _); vm_compute; exact I]|]
  | apply Forall_nil; exact I].

Lemma serve_verb prefix key verb r :
  segment key → Forall plain_name verb → r ≠ RNotFound →
  serve_patterns (B"sessions" :: PathEscape key :: verb) = r → serve_mux prefix (session_url key verb) = r.
Proof. intros ??? <-. by apply serve_segments. Qed.

Lemma escaped_attachment id : segment id →
  pathUnescape (Join [B"attachments"; PathEscape id] [slash]) = B"attachments/" ++ id.
Proof.
  intros (Hb & _). change (Join [B"attachments"; PathEscape id] [slash]) with (B"attachments/" ++ PathEscape id).
  unfold pathUnescape.
  assert (∀ pre s, Forall (λ c, c ≠ 37) pre → PathUnescape (pre ++ s) = app pre <$> PathUnescape s) as Hp.
  { intros pre s. induction 1 as [|c pre Hc _ IH]; [cbn [app]; by destruct (PathUnescape s)|]. cbn [app PathUnescape].
    rewrite (proj2 (Z.eqb_neq c 37)), IH by done. by destruct (PathUnescape s). }
  rewrite (Hp (B"attachments/")), PathUnescape_Escape; [done|done|]. apply (bool_decide_unpack _). vm_compute. exact I.
Qed.

(** [dialAttachRaw] puts the key into its URL as it is. *)
Definition attach_raw_url (key : gostring) : gostring := B"/sessions/" ++ key ++ B"/attach-raw".

Lemma PathEscape_id s : Forall (λ c, segment_byte c = true) s → PathEscape s = s.
Proof.
  intros H. unfold PathEscape. induction H as [|c s Hc _ IH]; [done|].
  cbn [mbind list_bind]. rewrite IH. unfold escape_byte. by rewrite Hc.
Qed.

Lemma attach_raw_url_plain key :
  Forall (λ c, segment_byte c = true) key → attach_raw_url key = session_url key [B"attach-raw"].
Proof. intros H. unfold session_url. cbn [Join]. by rewrite PathEscape_id. Qed.

(** A key with a slash: another session is asked, for something else. *)
Lemma attach_raw_misroutes :
  serve_mux [] (attach_raw_url B"a/b") = RProxy B"a" B"b/attach-raw" ∧
  serve_mux [] (session_url B"a/b" [B"attach-raw"]) = RAttachRaw B"a/b".
Proof. split; vm_compute; reflexivity. Qed.

(** A key the mux cleans away: [PathEscape] leaves dots as they are. *)
Lemma dot_keys_misroute :
  serve_mux [] (session_url B".." [B"signal"]) = RRedirect B"/signal" ∧
  serve_mux [] (session_url B"." [B"signal"]) = RRedirect B"/sessions/signal" ∧
  serve_mux [] (session_url [] [B"signal"]) = RRedirect B"/sessions/signal".
Proof. split_and!; vm_compute; reflexivity. Qed.

(** C39: Every remote verb reaches its session.  For every key of bytes but three
    (the empty one, [.] and [..], which [PathEscape] leaves as they are and the mux
    cleans away, [dot_keys_misroute]), with blanks, slashes or percent signs in it,
    the URL a client builds from it is a clean path that [hoot serve] routes with
    exactly that key: [resolve] to its handler, every other verb to the proxy, and
    the path the proxy asks the session for is routed to that verb's handler; for
    [hoot detach] of one attachment, with exactly its id, when that is no dot
    segment either and has no slash.  [attach-raw], whose URL is built without
    escaping, reaches its handler for a key of unreserved characters. *)
Theorem remote_urls_route prefix key id :
  segment key → segment id → slash ∉ id →
  serve_mux prefix (session_url key []) = RSession key ∧
  serve_mux prefix (session_url key [B"resolve"]) = RResolve key ∧
  (Forall (λ c, segment_byte c = true) key → serve_mux prefix (attach_raw_url key) = RAttachRaw key) ∧
  Forall (λ '(verb, route, h), serve_mux prefix (session_url key verb) = RProxy key route ∧
                               session_mux (upstream_path route) = h)
    [([B"signal"], B"signal", SrSignal); ([B"clone"], B"clone", SrClone);
     ([B"attachments"], B"attachments", SrAttachments);
     ([B"pty"; B"input"], B"pty/input", SrPty B"input");
     ([B"attachments"; PathEscape id], B"attachments/" ++ id, SrAttachment id)].
Proof.
  intros Hk Hi Hs. assert (∀ verb r, Forall plain_name verb → r ≠ RNotFound →
    serve_patterns (B"sessions" :: PathEscape key :: verb) = r → serve_mux prefix (session_url key verb) = r) as V
    by (intros; by apply serve_verb).
  split; [|split; [|split]].
  1,2: apply V; [plain_names|done|rewrite serve_patterns_key by done; vm_compute; reflexivity].
  { intros Hc. rewrite attach_raw_url_plain by done.
    apply V; [plain_names|done|rewrite serve_patterns_key by done; vm_compute; reflexivity]. }
  repeat apply Forall_cons_2; [..|done]; (split; [apply V; [plain_names|done|rewrite serve_patterns_key by done]|]);
    try (vm_compute; reflexivity).
  - by rewrite escaped_attachment.
  - unfold upstream_path, session_mux. change (B"attachments/" ++ id) with (Join [B"attachments"; id] [slash]).
    rewrite mux_segments_plain; [|done|].
    + rewrite (bool_decide_eq_true_2 (B"attachments" = B"attachments")) by done.
      destruct Hi as (_ & Hi & _). by rewrite bool_decide_eq_false_2.
    + apply Forall_cons_2; [apply (bool_decide_unpack _); vm_compute; exact I|]. apply Forall_singleton.
      destruct Hi as (_ & H0 & H1 & H2). split; [done|]. split; [done|]. split; [done|].
      apply Forall_forall. intros b Hb ->. done.
Qed.

Lemma remote_urls_route_witness :
  serve_mux B"/api" (session_url B"a b/c%" [B"signal"]) = RProxy B"a b/c%" B"signal" ∧
  session_url B"a b/c%" [B"signal"] = B"/sessions/a%20b%2Fc%25/signal".
Proof.
  split; [|reflexivity].
  destruct (remote_urls_route B"/api" B"a b/c%" B"k3x") as (_ & _ & _ & H).
  - repeat split; try discriminate. apply (bool_decide_unpack _). vm_compute. exact I.
  - repeat split; try discriminate. apply (bool_decide_unpack _). vm_compute. exact I.
  - apply (bool_decide_unpack _). vm_compute. exact I.
  - apply Forall_cons in H as [[H _] _]. exact H.
Defined.
