(* ===== verification/Spawn.v ===== *)
(** * Starting a session: [cmd/hoot/spawn.go], [cmd/hoot/session.go]

    [hoot run] and [hoot serve] start [hoot __session] as a detached child and
    hand it the PTY: [spawnSessionFromSpec] writes its command line and
    environment, [cmdSession] reads them.  The system calls are answers; the
    calls made are events, in order. *)
From S2P Require Import Prelude GoBase QueryStripper State GoStrings Paths Cli Service Main Flags.
Open Scope Z_scope.

(** [filepath.Abs]; [getwd] is [os.Getwd]'s answer, asked for a relative path. *)
Definition Abs (getwd : option gostring) (p : gostring) : option gostring :=
  if is_rooted p then Some (Clean p)
  else match getwd with None => None | Some wd => Some (path_Join [wd; p]) end.

(** [defaultStateDir]; [home] is [os.UserHomeDir]. *)
Definition defaultStateDir (home : option gostring) : gostring :=
  match home with None => B".hoot" | Some h => path_Join [h; B".hoot"] end.

(** [resolveRunCWD], [resolveServeCWD] *)
Definition resolveRunCWD (getwd : option gostring) (flag : gostring) : option gostring :=
  match flag with [] => getwd | _ => Abs getwd flag end.
Definition resolveServeCWD (getwd : option gostring) (req : gostring) : option gostring :=
  match req with [] => getwd | _ => Abs getwd req end.

Definition resolveDefaultShell (SHELL : gostring) : gostring :=
  match SHELL with [] => B"/bin/sh" | _ => SHELL end.

(** ** [spawnSpec] *)

Record spawnSpec := mkSpec {
  sp_Argv : list gostring; sp_CWD : gostring; sp_EnvOverrides : gmap gostring gostring;
  sp_Cols : Z; sp_Rows : Z; sp_NoHistory : bool
}.

Definition normalized (s : spawnSpec) : spawnSpec :=
  mkSpec (sp_Argv s) (sp_CWD s) (sp_EnvOverrides s)
    (if sp_Cols s =? 0 then 80 else sp_Cols s) (if sp_Rows s =? 0 then 24 else sp_Rows s) (sp_NoHistory s).

(** ** [mergeEnv] *)

Definition env_entry (nv : gostring * gostring) : gostring := nv.1 ++ B"=" ++ nv.2.

(** The first loop: the new entry, and the name if it is an override's. *)
Definition merge_entry (overrides : gmap gostring gostring) (kv : gostring) : gostring * option gostring :=
  match cut_at (chr "=") kv with
  | None => (kv, None)
  | Some (name, _) =>
      if negb (bool_decide (default [] (overrides !! name) = []))
      then (env_entry (name, default [] (overrides !! name)), Some name)
      else match overrides !! name with
           | Some v => (env_entry (name, v), Some name)
           | None => (kv, None)
           end
  end.

(** [order] is the order in which [range overrides] visits the map. *)
Definition mergeEnv (base : list gostring) (overrides : gmap gostring gostring)
    (order : list (gostring * gostring)) : list gostring :=
  if bool_decide (overrides = ∅) then base
  else
    let out := merge_entry overrides <$> base in
    let seen := omap snd out in
    (fst <$> out) ++ (env_entry <$> filter (λ nv, nv.1 ∉ seen) order).

(** ** [waitForSocket]

    [clock k] is the [k]-th reading of the clock and [stat k] whether the file
    exists at the [k]-th look.  The fuel bounds the looks. *)
Inductive wait_socket := SocketUp | SocketTimeout | SocketFuel.

Fixpoint wait_loop (fuel : nat) (deadline : Z) (clock : nat → Z) (stat : nat → bool) (k : nat) : wait_socket :=
  match fuel with
  | O => SocketFuel
  | S fuel' =>
      if clock (S k) <? deadline then
        if stat k then SocketUp else wait_loop fuel' deadline clock stat (S k)
      else SocketTimeout
  end.

Definition pollInterval : Z := 25.
Definition socketTimeout : Z := 3000.

(** In milliseconds; [clock 0] sets the deadline. *)
Definition waitForSocket (clock : nat → Z) (stat : nat → bool) (timeout : Z) : wait_socket :=
  wait_loop (S (Z.to_nat (timeout / pollInterval + 1))) (clock 0%nat + timeout) clock stat 0.

(** ** [spawnSessionFromSpec] *)

Inductive spawn_error :=
| SpNoArgv | SpNoCWD | SpAbs | SpPTY | SpSetsize | SpExecutable | SpFork | SpTimeout.

Record child := mkChild { ch_Path : gostring; ch_Args : list gostring; ch_Dir : gostring; ch_Env : list gostring }.

Inductive spawn_event :=
| PtyOpen | Setsize (cols rows : Z) | Start (c : child) | CloseMaster | CloseSlave | ReleaseChild.

(** What the system answers to one spawn. *)
Record spawn_os := mkSpawnOS {
  so_getwd : option gostring; so_pty : bool; so_setsize : bool; so_exe : option gostring;
  so_start : bool; so_environ : list gostring; so_order : list (gostring * gostring);
  so_clock : nat → Z; so_stat : nat → bool
}.

Definition hootArgs (absStateDir key : gostring) (s : spawnSpec) : list gostring :=
  [B"__session"; B"--state-dir"; absStateDir; B"--key"; key; B"--cwd"; sp_CWD s] ++
  (if sp_NoHistory s then [B"--no-history"] else []) ++ [B"--"] ++ sp_Argv s.

Definition rpc_sock (dir key : gostring) : gostring := path_Join [dir; key; B"rpc.sock"].

Definition spawnSessionFromSpec (stateDir key : gostring) (spec : spawnSpec) (os : spawn_os)
  : list spawn_event * res spawn_error gostring :=
  let spec := normalized spec in
  match sp_Argv spec with
  | [] => ([], Err SpNoArgv)
  | _ =>
      match sp_CWD spec with
      | [] => ([], Err SpNoCWD)
      | _ =>
          match Abs (so_getwd os) stateDir with
          | None => ([], Err SpAbs)
          | Some absStateDir =>
              if negb (so_pty os) then ([], Err SpPTY)
              else if negb (so_setsize os) then
                ([PtyOpen; Setsize (sp_Cols spec) (sp_Rows spec); CloseMaster; CloseSlave], Err SpSetsize)
              else
                let opened := [PtyOpen; Setsize (sp_Cols spec) (sp_Rows spec)] in
                match so_exe os with
                | None => (opened ++ [CloseMaster; CloseSlave], Err SpExecutable)
                | Some self =>
                    let c := mkChild self (hootArgs absStateDir key spec) (sp_CWD spec)
                               (mergeEnv (so_environ os) (sp_EnvOverrides spec) (so_order os)) in
                    if negb (so_start os) then (opened ++ [CloseMaster; CloseSlave], Err SpFork)
                    else
                      (opened ++ [Start c; CloseSlave; CloseMaster; ReleaseChild],
                       match waitForSocket (so_clock os) (so_stat os) socketTimeout with
                       | SocketUp => Ok (rpc_sock absStateDir key)
                       | _ => Err SpTimeout
                       end)
                end
          end
      end
  end.

(** ** [cmdSession] *)

Definition session_flags : flagset :=
  [(B"state-dir", FValue); (B"key", FValue); (B"cwd", FValue); (B"no-history", FBool)].

Inductive session_error :=
| SeFlag (e : flag_error) | SeNoKey | SeNoCommand | SeNoCWD | SeMkdir | SeNoMaster | SeRecorder | SePTY | SeRun.

(** [SessionConfig], as far as it is data; the service is [RunCmdService]. *)
Record SessionConfig := mkSession {
  sc_StateDir : gostring; sc_Key : gostring; sc_Argv : list gostring; sc_CWD : gostring;
  sc_Service : RunCmdService; sc_NoHistory : bool
}.

Record session_os := mkSessionOS {
  ss_home : option gostring; ss_mkdir : bool; ss_log : bool; ss_mkdir2 : bool; ss_fd3 : bool;
  ss_size : option (Z * Z); ss_recorder : bool; ss_pty : bool; ss_run : bool
}.

Inductive session_event :=
| MkdirAll (dir : gostring) | OpenLog (path : gostring) | CloseLog
| NewRec (path : gostring) (cols rows : Z) | NewPTY (cols rows : Z) | ClosePTY
| RunSession (cfg : SessionConfig).

(** The flags and arguments. *)
Definition session_config (home : option gostring) (args : list gostring) : res session_error SessionConfig :=
  match Parse session_flags args with
  | Err e => Err (SeFlag e)
  | Ok p =>
      let stateDir := string_flag B"state-dir" (defaultStateDir home) p in
      let key := string_flag B"key" [] p in
      let cwd := string_flag B"cwd" [] p in
      match key, p.2, cwd with
      | [], _, _ => Err SeNoKey
      | _, [], _ => Err SeNoCommand
      | _, _, [] => Err SeNoCWD
      | _, cmd :: cargs, _ =>
          Ok (mkSession stateDir key p.2 cwd (mkService cmd cargs stateDir key) (bool_flag B"no-history" p))
      end
  end.

(** The size of the PTY, 80 by 24 unless the terminal has one. *)
Definition session_size (size : option (Z * Z)) : Z * Z :=
  match size with
  | Some (c, r) => if (0 <? c) && (0 <? r) then (c, r) else (80, 24)
  | None => (80, 24)
  end.

Definition cmdSession (args : list gostring) (os : session_os) : list session_event * res session_error unit :=
  match session_config (ss_home os) args with
  | Err e => ([], Err e)
  | Ok cfg =>
      let dir := path_Join [sc_StateDir cfg; sc_Key cfg] in
      let logPath := path_Join [sc_StateDir cfg; sc_Key cfg; B"session.log"] in
      let mk := [MkdirAll (path_Dir logPath)] in
      if negb (ss_mkdir os) then (mk, Err SeMkdir)
      else
        let '(opened, closed) := if ss_log os then ([OpenLog logPath], [CloseLog]) else ([], []) in
        if negb (ss_fd3 os) then (mk ++ opened ++ closed, Err SeNoMaster)
        else
          let '(cols, rows) := session_size (ss_size os) in
          let rec := [MkdirAll dir; NewRec (path_Join [dir; B"pty.hootty.log"]) cols rows] in
          if negb (ss_mkdir2 os) then (mk ++ opened ++ [MkdirAll dir] ++ closed, Err SeMkdir)
          else if negb (ss_recorder os) then (mk ++ opened ++ rec ++ closed, Err SeRecorder)
          else if negb (ss_pty os) then (mk ++ opened ++ rec ++ [NewPTY cols rows] ++ closed, Err SePTY)
          else (mk ++ opened ++ rec ++ [NewPTY cols rows; RunSession cfg; ClosePTY] ++ closed,
                if ss_run os then Ok tt else Err SeRun)
  end.

(** ** The child reads what the parent wrote *)

Lemma session_parse absStateDir key s :
  Parse session_flags (tail (hootArgs absStateDir key s)) =
    Ok ([(B"state-dir", absStateDir); (B"key", key); (B"cwd", sp_CWD s)] ++
        (if sp_NoHistory s then [(B"no-history", B"true")] else []), sp_Argv s).
Proof.
  unfold hootArgs. cbn [tail app].
  change (B"--state-dir") with (B"--" ++ B"state-dir"). change (B"--key") with (B"--" ++ B"key").
  change (B"--cwd") with (B"--" ++ B"cwd"). change (B"--no-history") with (B"--" ++ B"no-history").
  rewrite !Parse_value by flag_ok.
  destruct (sp_NoHistory s); cbn [app]; [rewrite Parse_bool by flag_ok|]; by rewrite Parse_end.
Qed.

Lemma started_child stateDir key spec os c :
  Start c ∈ (spawnSessionFromSpec stateDir key spec os).1 →
  ∃ abs, Abs (so_getwd os) stateDir = Some abs ∧ sp_Argv spec ≠ [] ∧ sp_CWD spec ≠ [] ∧
    ch_Args c = hootArgs abs key (normalized spec) ∧ ch_Dir c = sp_CWD spec ∧
    ch_Env c = mergeEnv (so_environ os) (sp_EnvOverrides spec) (so_order os).
Proof.
  unfold spawnSessionFromSpec. cbn [normalized sp_Argv sp_CWD].
  destruct (sp_Argv spec) as [|a argv] eqn:EA; [set_solver|]. destruct (sp_CWD spec) as [|w cwd] eqn:EW; [set_solver|].
  destruct (Abs _ _) as [abs|]; [|set_solver].
  destruct (so_pty os), (so_setsize os); cbn [negb]; try set_solver.
  destruct (so_exe os) as [self|]; [|set_solver]. destruct (so_start os); cbn [negb app fst]; [|set_solver].
  rewrite !elem_of_cons. intros H. assert (c = mkChild self (hootArgs abs key (normalized spec)) (sp_CWD spec)
    (mergeEnv (so_environ os) (sp_EnvOverrides spec) (so_order os))) as ->.
  { rewrite EW. destruct H as [?|[?|[[= ->]|H]]]; [done..| |]. { unfold normalized. by rewrite EA, EW. } set_solver. }
  exists abs. unfold normalized. by rewrite ?EA, ?EW.
Qed.

Lemma handed_over home abs key spec cmd args :
  key ≠ [] → sp_CWD spec ≠ [] → sp_Argv spec = cmd :: args →
  session_config home (tail (hootArgs abs key (normalized spec))) =
    Ok (mkSession abs key (sp_Argv spec) (sp_CWD spec) (mkService cmd args abs key) (sp_NoHistory spec)).
Proof.
  intros Hk Hw Ha. unfold session_config. rewrite session_parse. cbn [normalized sp_Argv sp_CWD sp_NoHistory].
  rewrite Ha. destruct key as [|k key]; [done|]. destruct (sp_CWD spec) as [|w cwd]; [done|].
  by destruct (sp_NoHistory spec).
Qed.

(** A spawn that succeeds started one child. *)
Lemma spawn_ok stateDir key spec os evs sock :
  spawnSessionFromSpec stateDir key spec os = (evs, Ok sock) →
  ∃ abs c, Abs (so_getwd os) stateDir = Some abs ∧ Start c ∈ evs ∧ sock = rpc_sock abs key.
Proof.
  intros E. pose proof E as E'. revert E. unfold spawnSessionFromSpec.
  destruct (sp_Argv (normalized spec)); [done|]. destruct (sp_CWD (normalized spec)); [done|].
  destruct (Abs _ _) as [abs|] eqn:EA; [|done]. destruct (so_pty os), (so_setsize os); cbn [negb]; try done.
  destruct (so_exe os) as [self|]; [|done]. destruct (so_start os); cbn [negb]; [|done].
  intros [= <- H]. eexists abs, _. split; [done|]. split; [do 2 right; left|]. by destruct (waitForSocket _ _ _); simplify_eq.
Qed.

(** C38: Handing a session over.  Whatever the state directory, the key, the
    directory and the command contain (blanks, options, equals signs, quotes),
    the child that [spawnSessionFromSpec] starts is dispatched to [__session]
    and reads exactly the session that was asked for: the absolute state
    directory, the key, the command with every argument, the working directory
    (also its own) and the history flag. *)
Theorem spawn_starts_session stateDir key spec os c home :
  key ≠ [] → Start c ∈ (spawnSessionFromSpec stateDir key spec os).1 →
  ∃ abs cmd args, Abs (so_getwd os) stateDir = Some abs ∧ sp_Argv spec = cmd :: args ∧
    dispatchTopLevel (ch_Args c) = (B"__session", tail (ch_Args c), true) ∧
    session_config home (tail (ch_Args c)) =
      Ok (mkSession abs key (sp_Argv spec) (sp_CWD spec) (mkService cmd args abs key) (sp_NoHistory spec)) ∧
    ch_Dir c = sp_CWD spec.
Proof.
  intros Hk Hc. destruct (started_child _ _ _ _ _ Hc) as (abs & Habs & Ha & Hw & Eargs & Ed & _).
  destruct (sp_Argv spec) as [|cmd args] eqn:EA; [done|]. exists abs, cmd, args.
  split; [done|]. split; [done|]. rewrite Eargs. split; [done|]. split; [|by rewrite Ed].
  rewrite <- EA. by apply handed_over.
Qed.

(** ** Descriptors *)

Definition count_ev (P : spawn_event → bool) (l : list spawn_event) : nat := length (filter (λ e, P e = true) l).
Definition is_open (e : spawn_event) : bool := match e with PtyOpen => true | _ => false end.
Definition is_close_master (e : spawn_event) : bool := match e with CloseMaster => true | _ => false end.
Definition is_close_slave (e : spawn_event) : bool := match e with CloseSlave => true | _ => false end.
Definition is_start (e : spawn_event) : bool := match e with Start _ => true | _ => false end.

(** However a spawn ends, both ends of the PTY it opened are closed once; a
    socket path is returned only for a child that was started. *)
Lemma spawn_closes_pty stateDir key spec os :
  let '(evs, r) := spawnSessionFromSpec stateDir key spec os in
  count_ev is_close_master evs = count_ev is_open evs ∧ count_ev is_close_slave evs = count_ev is_open evs ∧
  (is_ok r = true → count_ev is_start evs = 1%nat).
Proof.
  unfold spawnSessionFromSpec. destruct (sp_Argv (normalized spec)); [done|].
  destruct (sp_CWD (normalized spec)); [done|]. destruct (Abs _ _); [|done].
  destruct (so_pty os), (so_setsize os); cbn [negb]; try done.
  destruct (so_exe os); [|done]. by destruct (so_start os).
Qed.

(** ** Waiting for the socket *)

Section wait.
Context (clock : nat → Z) (stat : nat → bool) (deadline : Z).
Context (steady : ∀ n, clock (S n) + pollInterval <= clock (S (S n))).

Lemma wait_loop_fuel fuel k :
  (0 < fuel)%nat → deadline <= clock (S k) + pollInterval * (Z.of_nat fuel - 1) →
  wait_loop fuel deadline clock stat k ≠ SocketFuel.
Proof.
  revert k. induction fuel as [|fuel IH]; intros k H0 Hf; [lia|]. cbn [wait_loop].
  destruct (Z.ltb_spec (clock (S k)) deadline) as [Hk|]; [|done]. destruct (stat k); [done|].
  pose proof (steady k). unfold pollInterval in *.
  destruct fuel as [|fuel]; [lia|]. apply IH; lia.
Qed.

Lemma wait_loop_up fuel k :
  wait_loop fuel deadline clock stat k = SocketUp → ∃ n, (k <= n)%nat ∧ stat n = true ∧ clock (S n) < deadline.
Proof.
  revert k. induction fuel as [|fuel IH]; intros k; cbn [wait_loop]; [done|].
  destruct (Z.ltb_spec (clock (S k)) deadline) as [Hk|]; [|done]. destruct (stat k) eqn:E.
  - intros _. by exists k.
  - intros (n & Hn & ?)%IH. exists n. split; [lia|done].
Qed.

Lemma wait_loop_timeout fuel k :
  wait_loop fuel deadline clock stat k = SocketTimeout →
  ∀ n, (k <= n)%nat → clock (S n) < deadline → (∀ m, clock (S m) <= clock (S (S m))) → stat n = false.
Proof.
  intros H n Hn Hd mono. revert k H Hn. induction fuel as [|fuel IH]; intros k; cbn [wait_loop]; [done|].
  assert (∀ a d, clock (S a) <= clock (S (a + d))) as M.
  { intros a d. induction d as [|d IHd]; [by rewrite Nat.add_0_r|]. specialize (mono (a + d)%nat).
    replace (a + S d)%nat with (S (a + d)) by lia. lia. }
  destruct (Z.ltb_spec (clock (S k)) deadline) as [Hk|Hk].
  - destruct (stat k) eqn:E; [done|]. intros H Hkn. destruct (decide (n = k)) as [->|]; [done|]. apply (IH (S k)); [done|lia].
  - intros _ Hkn. specialize (M k (n - k)%nat). replace (k + (n - k))%nat with n in M by lia. lia.
Qed.
End wait.

(** The wait ends, and is exact: with a clock that moves at least by the
    sleep between two looks it never runs out of looks, it succeeds only if the
    socket was seen before the deadline, and times out only if it was missing at
    every look before the deadline. *)
Theorem waitForSocket_exact clock stat timeout :
  0 <= timeout → clock 0%nat <= clock 1%nat → (∀ n, clock (S n) + pollInterval <= clock (S (S n))) →
  match waitForSocket clock stat timeout with
  | SocketUp => ∃ n, stat n = true ∧ clock (S n) < clock 0%nat + timeout
  | SocketTimeout => ∀ n, clock (S n) < clock 0%nat + timeout → stat n = false
  | SocketFuel => False
  end.
Proof.
  intros Ht H0 Hs. destruct (waitForSocket clock stat timeout) eqn:E.
  - apply wait_loop_up in E as (n & _ & ? & ?). by exists n.
  - intros n Hn. apply (wait_loop_timeout _ _ _ _ _ E n); [lia|done|]. intros m. specialize (Hs m).
    unfold pollInterval in Hs. lia.
  - revert E. apply wait_loop_fuel; [done|lia|]. unfold pollInterval. lia.
Qed.

(** A socket file left by a session that was killed is taken for the new
    session's: the wait ends at its first look, before the child has started. *)
Lemma stale_socket_taken clock stat :
  clock 1%nat < clock 0%nat + socketTimeout → stat 0%nat = true →
  waitForSocket clock stat socketTimeout = SocketUp.
Proof.
  intros Hc Hs. unfold waitForSocket. cbn [wait_loop]. by rewrite (proj2 (Z.ltb_lt _ _)), Hs.
Qed.

(** ** The environment *)

Lemma merge_entry_eq ov kv :
  merge_entry ov kv =
  match cut_at (chr "=") kv with
  | None => (kv, None)
  | Some (n, _) => match ov !! n with Some v => (env_entry (n, v), Some n) | None => (kv, None) end
  end.
Proof.
  unfold merge_entry. destruct (cut_at _ kv) as [[n w]|]; [|done].
  destruct (ov !! n) as [[|b v]|] eqn:E; cbn [default]; try by rewrite bool_decide_eq_true_2.
  by rewrite bool_decide_eq_false_2.
Qed.

Lemma values_of_env_entry name nv env :
  chr "=" ∉ nv.1 →
  values_of name (env_entry nv :: env) = if decide (nv.1 = name) then nv.2 :: values_of name env else values_of name env.
Proof. intros H. rewrite values_of_cons. unfold env_entry. by rewrite cut_at_entry. Qed.

Lemma merge_entry_values ov name base :
  values_of name (fst <$> (merge_entry ov <$> base)) =
  match ov !! name with Some v => const v <$> values_of name base | None => values_of name base end.
Proof.
  induction base as [|kv base IH]; [by destruct (ov !! name)|]. rewrite !fmap_cons, merge_entry_eq, (values_of_cons name kv).
  destruct (cut_at (chr "=") kv) as [[n w]|] eqn:E; cbn [fst].
  2:{ rewrite values_of_cons, E. done. }
  destruct (cut_at_Some (chr "=") kv n w) as [H _]. destruct (H E) as [_ Hn].
  destruct (ov !! n) as [v|] eqn:Ev; cbn [fst].
  - rewrite values_of_env_entry by done. cbn [fst snd]. destruct (decide (n = name)) as [->|]; [|done].
    rewrite IH, Ev. done.
  - rewrite values_of_cons, E. destruct (decide (n = name)) as [->|]; [|done]. by rewrite IH, Ev.
Qed.

(** The names the first loop has replaced. *)
Lemma seen_spec ov name base :
  name ∈ omap snd (merge_entry ov <$> base) ↔ is_Some (ov !! name) ∧ values_of name base ≠ [].
Proof.
  induction base as [|kv base IH]; [split; [by intros ?%elem_of_nil|by intros []]|].
  rewrite fmap_cons, merge_entry_eq, values_of_cons.
  destruct (cut_at (chr "=") kv) as [[n w]|] eqn:E; [|done].
  destruct (ov !! n) as [v|] eqn:Ev; cbn [omap list_omap snd].
  - rewrite elem_of_cons, IH. destruct (decide (n = name)) as [->|]; [|naive_solver]. rewrite Ev. naive_solver.
  - rewrite IH. destruct (decide (n = name)) as [->|]; [|done]. rewrite Ev. by split; intros [[]].
Qed.

Lemma values_of_order name order (P : gostring * gostring → Prop) `{∀ nv, Decision (P nv)} :
  Forall (λ nv, chr "=" ∉ nv.1) order →
  values_of name (env_entry <$> filter P order) = (filter (λ nv, nv.1 = name) (filter P order)).*2.
Proof.
  induction 1 as [|nv order Hn _ IH]; [done|]. rewrite filter_cons. destruct (decide (P nv)); [|done].
  rewrite fmap_cons, values_of_env_entry by done. rewrite filter_cons. destruct (decide (nv.1 = name)); [|done].
  cbn [fmap list_fmap]. by rewrite IH.
Qed.

(** The override of a name, wherever the map's order puts it. *)
Lemma filter_key_none (l : list (gostring * gostring)) name :
  name ∉ l.*1 → (filter (λ nv, nv.1 = name) l).*2 = [].
Proof.
  induction l as [|[n v] l IH]; [done|]. rewrite fmap_cons, not_elem_of_cons. intros [? ?].
  rewrite filter_cons_False by (cbn in *; congruence). by apply IH.
Qed.

Lemma filter_key_one (l : list (gostring * gostring)) name v :
  NoDup l.*1 → (name, v) ∈ l → (filter (λ nv, nv.1 = name) l).*2 = [v].
Proof.
  induction l as [|[n w] l IH]; intros Hd Hin; [by apply elem_of_nil in Hin|].
  rewrite fmap_cons in Hd. apply NoDup_cons in Hd as [Hn Hd]. cbn [fst] in Hn. apply elem_of_cons in Hin as [[= -> ->]|Hin].
  - rewrite filter_cons_True by done. rewrite fmap_cons, filter_key_none by done. done.
  - rewrite filter_cons_False; [by apply IH|]. cbn. intros ->. apply Hn, list_elem_of_fmap. by exists (name, v).
Qed.

Lemma order_lookup (ov : gmap gostring gostring) order name :
  order ≡ₚ map_to_list ov →
  (filter (λ nv, nv.1 = name) order).*2 = match ov !! name with Some v => [v] | None => [] end.
Proof.
  intros Ho. assert (NoDup order.*1) as Hd by (rewrite Ho; apply NoDup_fst_map_to_list).
  destruct (ov !! name) as [v|] eqn:E.
  - apply filter_key_one; [done|]. rewrite Ho. by apply elem_of_map_to_list.
  - apply filter_key_none. rewrite Ho. intros (nv & -> & H)%list_elem_of_fmap.
    destruct nv as [n v]. apply elem_of_map_to_list in H. cbn in E. congruence.
Qed.

Lemma filter_filter_key (l : list (gostring * gostring)) (seen : list gostring) name :
  filter (λ nv, nv.1 = name) (filter (λ nv, nv.1 ∉ seen) l) =
  if decide (name ∈ seen) then [] else filter (λ nv, nv.1 = name) l.
Proof.
  induction l as [|[n v] l IH]; [by destruct (decide _)|]. rewrite (filter_cons (λ nv, nv.1 ∉ seen)). cbn [fst].
  destruct (decide (n ∉ seen)) as [Hn|Hn]; rewrite !filter_cons; cbn [fst]; destruct (decide (n = name)) as [->|];
    rewrite IH; destruct (decide (name ∈ seen)); done.
Qed.

(** [mergeEnv], as an environment: an override replaces every value its name
    has, or gives it one; no other name changes. *)
Lemma mergeEnv_values base ov order name :
  order ≡ₚ map_to_list ov → Forall (λ nv, chr "=" ∉ nv.1) order →
  values_of name (mergeEnv base ov order) =
  match ov !! name with
  | Some v => match values_of name base with [] => [v] | vs => const v <$> vs end
  | None => values_of name base
  end.
Proof.
  intros Ho Hn. unfold mergeEnv. case_bool_decide as E0; [by rewrite E0|].
  rewrite values_of_app, merge_entry_values, values_of_order, filter_filter_key by done.
  pose proof (seen_spec ov name base) as Hs. pose proof (order_lookup ov order name Ho) as Hl.
  destruct (ov !! name) as [v|] eqn:E.
  - destruct (values_of name base) as [|w ws] eqn:Ev.
    + rewrite decide_False; [by rewrite Hl|]. rewrite Hs. by intros [_ []].
    + rewrite decide_True; [by rewrite app_nil_r|]. rewrite Hs. split; [by eexists|done].
  - rewrite decide_False; [by rewrite Hl, app_nil_r|]. rewrite Hs. by intros [[] _].
Qed.

(** The environment of a session's command.  With the overrides of [hoot
    run --env], in whatever order Go's map yields them, the child of the session
    that [spawnSessionFromSpec] starts has an override's value for each name
    overridden, what the server has for the others, and for TERM, TMUX, TMUX_PANE
    and HOOT_SESSION what [sanitizeChildEnv] says, overridden or not. *)
Theorem session_env stateDir key spec os c name :
  so_order os ≡ₚ map_to_list (sp_EnvOverrides spec) → Forall (λ nv, chr "=" ∉ nv.1) (so_order os) →
  Start c ∈ (spawnSessionFromSpec stateDir key spec os).1 →
  values_of name (sanitizeChildEnv (ch_Env c) key) =
  if decide (name = B"TERM") then [childTerm]
  else if decide (name = hootSessionEnv) then match key with [] => [] | _ => [key] end
  else if decide (name = B"TMUX" ∨ name = B"TMUX_PANE") then []
  else match sp_EnvOverrides spec !! name with
       | Some v => match values_of name (so_environ os) with [] => [v] | vs => const v <$> vs end
       | None => values_of name (so_environ os)
       end.
Proof.
  intros Ho Hn Hc. destruct (started_child _ _ _ _ _ Hc) as (abs & _ & _ & _ & _ & _ & ->).
  rewrite sanitizeChildEnv_values. by rewrite mergeEnv_values.
Qed.

Definition ex_spec : spawnSpec :=
  mkSpec [B"sh"; B"-c"; B"--key=x"] B"/work dir" {[B"A" := B"1"]} 0 0 true.
Definition ex_os : spawn_os :=
  mkSpawnOS (Some B"/home/al") true true (Some B"/bin/hoot") true [B"A=0"; B"TERM=tmux"] [(B"A", B"1")]
    (λ k, 25 * Z.of_nat k) (λ k, (2 <=? k)%nat).
Definition ex_child : child :=
  mkChild B"/bin/hoot" (hootArgs B"/home/al/.hoot" B"--cwd" (normalized ex_spec)) B"/work dir" [B"A=1"; B"TERM=tmux"].

Lemma ex_started : Start ex_child ∈ (spawnSessionFromSpec B".hoot" B"--cwd" ex_spec ex_os).1.
Proof.
  assert ((spawnSessionFromSpec B".hoot" B"--cwd" ex_spec ex_os).1 =
    [PtyOpen; Setsize 80 24; Start ex_child; CloseSlave; CloseMaster; ReleaseChild]) as -> by (vm_compute; reflexivity).
  do 2 apply list_elem_of_further. apply list_elem_of_here.
Defined.

Lemma spawn_starts_session_witness :
  session_config None (tail (ch_Args ex_child)) =
    Ok (mkSession B"/home/al/.hoot" B"--cwd" (sp_Argv ex_spec) B"/work dir"
          (mkService B"sh" [B"-c"; B"--key=x"] B"/home/al/.hoot" B"--cwd") true).
Proof.
  destruct (spawn_starts_session B".hoot" B"--cwd" ex_spec ex_os ex_child None) as (abs & cmd & args & Ha & Ec & _ & H & _).
  - discriminate.
  - exact ex_started.
  - vm_compute in Ha. injection Ha as <-. vm_compute in Ec. injection Ec as <- <-. exact H.
Defined.

Lemma waitForSocket_exact_witness : ∃ n, (2 <=? n)%nat = true ∧ 25 * Z.of_nat (S n) < 0 + 3000.
Proof.
  pose proof (waitForSocket_exact (λ k, 25 * Z.of_nat k) (λ k, (2 <=? k)%nat) 3000) as H.
  assert (waitForSocket (λ k, 25 * Z.of_nat k) (λ k, (2 <=? k)%nat) 3000 = SocketUp) as E by reflexivity.
  rewrite E in H. apply H; [lia|lia|]. intros n. unfold pollInterval. lia.
Defined.

Lemma session_env_witness : values_of B"A" (sanitizeChildEnv (ch_Env ex_child) B"--cwd") = [B"1"].
Proof.
  rewrite (session_env B".hoot" B"--cwd" ex_spec ex_os ex_child B"A").
  - vm_compute. reflexivity.
  - vm_compute. reflexivity.
  - apply Forall_cons. split; [|constructor]. apply (bool_decide_unpack _). vm_compute. exact I.
  - exact ex_started.
Defined.
