(* ===== verification/Serve.v ===== *)
(** * [cmd/hoot/serve.go], [serve_spawn.go], [serve_bridge.go], [clone.go]: the gateway

    The handlers of [hoot serve] over the sessions' directory ([Store]) and the
    start of a session ([Spawn]), and [cloneSession], which the session's own
    [/clone] route and [hoot clone] share.  A handler maps the request and the
    system's answers to the processes started and a reply; writing JSON is left
    to the reply's data. *)
From S2P Require Import Prelude GoBase Utf8 QueryStripper Wire State GoStrings Paths Ssh Cli Service Main Flags Spawn ShortId Store.
Open Scope Z_scope.

(** ** [splitCmd] *)

Record splitter := mkSplit { spl_out : list gostring; spl_cur : list rune; spl_quote : rune }.

Definition spl_flush (s : splitter) : splitter :=
  match spl_cur s with [] => s | cur => mkSplit (spl_out s ++ [of_runes cur]) [] (spl_quote s) end.

Definition split_rune (s : splitter) (r : rune) : splitter :=
  if negb (spl_quote s =? 0) then
    if r =? spl_quote s then mkSplit (spl_out s) (spl_cur s) 0
    else mkSplit (spl_out s) (spl_cur s ++ [r]) (spl_quote s)
  else if (r =? 34) || (r =? sq) then mkSplit (spl_out s) (spl_cur s) r
  else if (r =? 32) || (r =? 9) || (r =? 10) then spl_flush s
  else mkSplit (spl_out s) (spl_cur s ++ [r]) (spl_quote s).

(** The error names the quote. *)
Definition splitCmd (s : gostring) : res rune (list gostring) :=
  let st := foldl split_rune (mkSplit [] [] 0) (runes s) in
  if negb (spl_quote st =? 0) then Err (spl_quote st) else Ok (spl_out (spl_flush st)).

(** ** Replies *)

Inductive reply_body :=
| BNone | BText | BAmbiguous (query : gostring) (matches : list gostring) | BKey (key : gostring)
| BState (st : StateFile) | BSession (st : StateFile) (sock : gostring)
| BSessions (l : list (StateFile * bool)) | BHealth (stateDir : gostring).

Record reply := mkReply { rp_status : Z; rp_body : reply_body }.

Definition text_error (code : Z) : reply := mkReply code BText.

(** [writeResolveError] *)
Definition writeResolveError (e : store_error) : reply :=
  match e with
  | ErrResolve (AmbiguousID q ms) => mkReply 409 (BAmbiguous q ms)
  | ErrResolve (IDNotFound _) => text_error 404
  | ErrResolve (IDTooShort _) => text_error 400
  | _ => text_error 500
  end.

(** The methods the handlers tell apart. *)
Inductive serve_method := GET | POST | DELETE | OtherMethod.
#[export] Instance serve_method_eq_dec : EqDecision serve_method.
Proof. solve_decision. Defined.

Record createSessionReq := mkCreate {
  cr_Cmd : gostring; cr_Argv : list gostring; cr_Key : gostring; cr_CWD : gostring;
  cr_Env : gmap gostring gostring; cr_NoHistory : bool
}.

(** [serveState]: the store's directory as a path and as the flag's text. *)
Record serveState := mkServe { sv_dir : path; sv_stateDir : gostring }.

(** What the system answers to one request: the entries of the state directory,
    the disk before and after the session was started, the environment. *)
Record serve_os := mkServeOS {
  so_entries : readdir; so_before : world; so_after : world;
  so_SHELL : gostring; so_wd : option gostring; so_spawn : spawn_os
}.

Inductive clone_error :=
| ClResolve (e : store_error) | ClCorrupt (key : gostring) | ClGenerate | ClAlive (key : gostring)
| ClSpawn (e : spawn_error) | ClLoad (e : store_error).

Section serve.
Context (unmarshal : list byte → option StateFile) (ToLower : gostring → gostring).
Context (rand_Read : nat → nat → res io_error (list byte)).

Abbreviation Resolve := (Store_Resolve unmarshal ToLower).

(** [generateKey] ([run.go]) *)
Inductive key_error := KeyList (e : store_error) | KeyGen (e : gen_error).

Definition existing_keys (states : list StateFile) : gset gostring :=
  list_to_set ((λ st, ss_Key (sf_Session st)) <$> states).

Definition generateKey (dir : path) (entries : readdir) (w : world) : res key_error gostring :=
  match List_ unmarshal dir entries w with
  | Err e => Err (KeyList e)
  | Ok states => match Generate rand_Read (existing_keys states) with Err e => Err (KeyGen e) | Ok k => Ok k end
  end.

(** The key asked for, or a new one. *)
Definition pick_key (dir : path) (entries : readdir) (w : world) (asked : gostring) : res key_error gostring :=
  match asked with [] => generateKey dir entries w | _ => Ok asked end.

(** *** [createSession] *)

(** The command to run, or the refusal. *)
Definition create_argv (SHELL : gostring) (body : createSessionReq) : res reply (list gostring) :=
  match cr_Argv body with
  | [] =>
      match TrimSpace (cr_Cmd body) with
      | [] => Ok [resolveDefaultShell SHELL]
      | cmd => match splitCmd cmd with
               | Err _ => Err (text_error 400)
               | Ok [] => Err (text_error 400)
               | Ok argv => Ok argv
               end
      end
  | argv => Ok argv
  end.

(** [body] is [None] when it does not decode. *)
Definition createSession (s : serveState) (body : option createSessionReq) (os : serve_os)
  : list spawn_event * reply :=
  match body with
  | None => ([], text_error 400)
  | Some body =>
      match create_argv (so_SHELL os) body with
      | Err r => ([], r)
      | Ok argv =>
          match pick_key (sv_dir s) (so_entries os) (so_before os) (cr_Key body) with
          | Err _ => ([], text_error 500)
          | Ok key =>
              if IsAlive (sv_dir s) key (so_before os) then ([], text_error 409)
              else match resolveServeCWD (so_wd os) (cr_CWD body) with
                   | None => ([], text_error 400)
                   | Some cwd =>
                       let '(evs, r) := spawnSessionFromSpec (sv_stateDir s) key
                         (mkSpec argv cwd (cr_Env body) 80 24 (cr_NoHistory body)) (so_spawn os) in
                       match r with
                       | Err _ => (evs, text_error 500)
                       | Ok sock =>
                           match Load unmarshal (sv_dir s) key (so_after os) with
                           | Err _ => (evs, text_error 500)
                           | Ok st => (evs, mkReply 201 (BSession st sock))
                           end
                       end
                   end
          end
      end
  end.

(** *** [cloneSession] *)

Definition cloneSession (s : serveState) (sourceQuery newKey : gostring) (env : gmap gostring gostring)
    (os : serve_os) : list spawn_event * res clone_error (StateFile * gostring) :=
  match Resolve (sv_dir s) (so_entries os) sourceQuery (so_before os) with
  | Err e => ([], Err (ClResolve e))
  | Ok source =>
      let src := sf_Session source in
      if bool_decide (ss_Argv src = []) || bool_decide (ss_CWD src = []) then ([], Err (ClCorrupt (ss_Key src)))
      else
        match pick_key (sv_dir s) (so_entries os) (so_before os) newKey with
        | Err _ => ([], Err ClGenerate)
        | Ok key =>
            if IsAlive (sv_dir s) key (so_before os) then ([], Err (ClAlive key))
            else
              let '(evs, r) := spawnSessionFromSpec (sv_stateDir s) key
                (mkSpec (ss_Argv src) (ss_CWD src) env 80 24 false) (so_spawn os) in
              match r with
              | Err e => (evs, Err (ClSpawn e))
              | Ok sock =>
                  match Load unmarshal (sv_dir s) key (so_after os) with
                  | Err e => (evs, Err (ClLoad e))
                  | Ok st => (evs, Ok (st, sock))
                  end
              end
        end
  end.

(** [writeCloneError] *)
Definition writeCloneError (e : clone_error) : reply :=
  match e with
  | ClAlive _ => text_error 409
  | ClResolve e => writeResolveError e
  | _ => text_error 500
  end.

(** [RunCmdService.handleClone]: the session clones itself, by its key. *)
Definition handleClone (s : serveState) (self : gostring) (m : serve_method)
    (body : option (gostring * gmap gostring gostring)) (os : serve_os) : list spawn_event * reply :=
  if negb (bool_decide (m = POST)) then ([], text_error 405)
  else match body with
       | None => ([], text_error 400)
       | Some (key, env) =>
           match cloneSession s self key env os with
           | (evs, Err e) => (evs, writeCloneError e)
           | (evs, Ok (st, sock)) => (evs, mkReply 201 (BSession st sock))
           end
       end.

(** *** The other handlers *)

(** [closeSession]; [find] is [os.FindProcess], [sigterm] what [Signal] answers.
    The signals sent. *)
Definition closeSession (s : serveState) (key : gostring) (w : world) (find : bool) (sigterm : signal_answer)
  : list delivered * reply :=
  match key with
  | [] => ([], text_error 400)
  | _ =>
      match Load unmarshal (sv_dir s) key w with
      | Err _ => ([], text_error 404)
      | Ok st =>
          let pid := ss_PID (sf_Session st) in
          if pid =? 0 then ([], text_error 409)
          else if negb find then ([], text_error 500)
          else match sigterm with
               | SignalSent => ([ToChild pid 15], mkReply 204 BNone)
               | ProcessDone => ([], mkReply 204 BNone)
               | SignalFailed => ([], text_error 500)
               end
      end
  end.

Definition getSessions (s : serveState) (entries : readdir) (w : world) : reply :=
  match List_ unmarshal (sv_dir s) entries w with
  | Err _ => text_error 500
  | Ok states => mkReply 200 (BSessions ((λ st, (st, IsAlive (sv_dir s) (ss_Key (sf_Session st)) w)) <$> states))
  end.

Definition handleState (s : serveState) (key : gostring) (w : world) : reply :=
  match key with
  | [] => text_error 400
  | _ => match Load unmarshal (sv_dir s) key w with Err _ => text_error 404 | Ok st => mkReply 200 (BState st) end
  end.

Definition handleResolve (s : serveState) (m : serve_method) (key : gostring) (entries : readdir) (w : world) : reply :=
  if negb (bool_decide (m = GET)) then text_error 405
  else match key with
       | [] => text_error 400
       | _ => match Resolve (sv_dir s) entries key w with
              | Err e => writeResolveError e
              | Ok st => mkReply 200 (BKey (ss_Key (sf_Session st)))
              end
       end.

(** [proxySession]: the socket the request goes to, and the path asked of it. *)
Inductive proxied := ProxyReply (r : reply) | ProxyTo (sock path : gostring).

Definition proxySession (s : serveState) (key path : gostring) (entries : readdir) (w : world) : proxied :=
  match key with
  | [] => ProxyReply (text_error 400)
  | _ => match Resolve (sv_dir s) entries key w with
         | Err e => ProxyReply (writeResolveError e)
         | Ok st => ProxyTo (rpc_sock (sv_stateDir s) (ss_Key (sf_Session st))) (slash :: path)
         end
  end.

(** [handleSessions] and [handleSession], by method. *)
Definition handleSessions (s : serveState) (m : serve_method) (body : option createSessionReq) (os : serve_os)
  : list spawn_event * reply :=
  match m with
  | GET => ([], getSessions s (so_entries os) (so_before os))
  | POST => createSession s body os
  | _ => ([], text_error 405)
  end.

Definition handleSession (s : serveState) (m : serve_method) (key : gostring) (w : world) (find : bool)
    (sigterm : signal_answer) : list delivered * reply :=
  match m with
  | GET => ([], handleState s key w)
  | DELETE => closeSession s key w find sigterm
  | _ => ([], text_error 405)
  end.

Definition handleHealth (s : serveState) : reply := mkReply 200 (BHealth (sv_stateDir s)).
End serve.

(** [listenServeBind]: the stale socket removed, and where it listens. *)
Inductive listen_error := LiNoPath | LiMkdir | LiRemove | LiListen.
Inductive listener := ListenTCP (addr : gostring) | ListenUnix (path : gostring).

(** [remove]: the error of [os.Remove], which may be "no such file". *)
Inductive remove_answer := Removed | NotExist | RemoveFailed.

Definition listenServeBind (bind : gostring) (mkdir : bool) (remove : remove_answer) (listen : bool)
  : list gostring * res listen_error listener :=
  match strip_prefix B"unix:" bind with
  | None => ([], if listen then Ok (ListenTCP bind) else Err LiListen)
  | Some [] => ([], Err LiNoPath)
  | Some sockPath =>
      if negb mkdir then ([], Err LiMkdir)
      else match remove with
           | RemoveFailed => ([], Err LiRemove)
           | Removed => ([sockPath], if listen then Ok (ListenUnix sockPath) else Err LiListen)
           | NotExist => ([], if listen then Ok (ListenUnix sockPath) else Err LiListen)
           end
  end.

(** [cmdServe]: where it listens, with which state directory and prefix, until
    the server stops.  [served] is what [Serve] returns: after a shutdown (a
    signal, on a unix socket) [http.ErrServerClosed], which is no error.  The
    socket is removed at the end. *)
Inductive serve_end := ServerClosed | ServeFailed.
Inductive serve_event := SvMkdir (dir : gostring) | SvRemoved (path : gostring) | SvListen (l : listener) (stateDir prefix : gostring) | SvClosed (l : listener).

Definition serve_flags : flagset := [(B"bind", FValue); (B"state-dir", FValue); (B"prefix", FValue)].

Definition cmdServe (home : option gostring) (mkstate mkdir : bool) (remove : remove_answer) (listen : bool) (served : serve_end)
    (args : list gostring) : list serve_event * cmd_result :=
  match Parse serve_flags args with
  | Err _ => ([], CmdError)
  | Ok p =>
      match string_flag B"bind" [] p with
      | [] => ([], CmdError)
      | bind =>
          let stateDir := string_flag B"state-dir" (defaultStateDir home) p in
          if negb mkstate then ([], CmdError)
          else
            let '(removed, l) := listenServeBind bind mkdir remove listen in
            let before := SvMkdir stateDir :: (SvRemoved <$> removed) in
            match l with
            | Err _ => (before, CmdError)
            | Ok l => (before ++ [SvListen l stateDir (string_flag B"prefix" [] p); SvClosed l],
                       match served with ServerClosed => CmdOk | ServeFailed => CmdError end)
            end
      end
  end.

(** It serves only where it was told to, and stops listening there. *)
Lemma cmdServe_listens home mkstate mkdir remove listen served args evs :
  cmdServe home mkstate mkdir remove listen served args = (evs, CmdOk) →
  served = ServerClosed ∧ ∃ p l before, Parse serve_flags args = Ok p ∧
    (l = ListenTCP (string_flag B"bind" [] p) ∨ ∃ path, B"unix:" ++ path = string_flag B"bind" [] p ∧ path ≠ [] ∧ l = ListenUnix path) ∧
    evs = before ++ [SvListen l (string_flag B"state-dir" (defaultStateDir home) p) (string_flag B"prefix" [] p); SvClosed l].
Proof.
  unfold cmdServe. destruct (Parse serve_flags args) as [p|]; [|done]. destruct (string_flag B"bind" [] p) as [|b bind] eqn:Eb; [done|].
  destruct mkstate; [|done]. cbn [negb]. destruct (listenServeBind _ _ _ _) as [removed [l|e]] eqn:El; [|done].
  destruct served; [|done]. intros [= <-]. split; [done|]. exists p, l, (SvMkdir (string_flag B"state-dir" (defaultStateDir home) p) :: (SvRemoved <$> removed)).
  split; [done|]. split; [|done]. rewrite Eb. revert El. unfold listenServeBind.
  destruct (strip_prefix B"unix:" (b :: bind)) as [sock|] eqn:Es; [|destruct listen; [|done]; intros [= _ <-]; by left].
  destruct sock as [|c sock]; [done|]. destruct mkdir; [|done]. cbn [negb]. right. exists (c :: sock).
  apply strip_prefix_spec in Es. split; [by symmetry|]. split; [done|]. by destruct remove, listen; simplify_eq.
Qed.

(** ** What a created session is *)

Section spec.
Context (unmarshal : list byte → option StateFile).
Context (rand_Read : nat → nat → res io_error (list byte)).
Hypothesis rand_fills : ∀ k n bs, rand_Read k n = Ok bs → length bs = n ∧ bytes_ok bs.

(** The key of a new session: the one asked for, or a new id. *)
Definition new_key (dir : path) (entries : readdir) (w : world) (asked key : gostring) : Prop :=
  match asked with
  | [] => id_ok key ∧ ∀ states, List_ unmarshal dir entries w = Ok states → key ∉ (λ st, ss_Key (sf_Session st)) <$> states
  | _ => key = asked
  end.

Lemma generateKey_new dir entries w key :
  generateKey unmarshal rand_Read dir entries w = Ok key → new_key dir entries w [] key.
Proof.
  unfold generateKey. destruct (List_ _ _ _ _) as [states|] eqn:El; [|done].
  destruct (Generate _ _) as [k|] eqn:Eg; [|done]. intros [= ->].
  apply (gen_lengths_ok _ rand_fills) in Eg as (Hn & Hl & Hc). split; [split; [unfold minIDLen, maxIDLen in *; lia|done]|].
  intros states' Hs. rewrite El in Hs. injection Hs as <-. intros Hin. apply Hn. unfold existing_keys. by apply elem_of_list_to_set.
Qed.

Lemma id_ok_nonempty k : id_ok k → k ≠ [].
Proof. intros [[H _] _] ->. unfold minIDLen in H. cbn in H. lia. Qed.

(** A session started under a new key: the child is dispatched to [__session],
    runs in the directory asked for, reads exactly its command, directory and
    history flag, and its environment is the server's with the overrides. *)
Definition launched (s : serveState) (os : serve_os) (asked key : gostring) (argv : list gostring) (cwd : gostring)
    (env : gmap gostring gostring) (noHistory : bool) (evs : list spawn_event) (sock : gostring) : Prop :=
  ∃ abs c cmd args, new_key (sv_dir s) (so_entries os) (so_before os) asked key ∧
    Abs (so_getwd (so_spawn os)) (sv_stateDir s) = Some abs ∧
    argv = cmd :: args ∧ Start c ∈ evs ∧ ch_Dir c = cwd ∧
    dispatchTopLevel (ch_Args c) = (B"__session", tail (ch_Args c), true) ∧
    ch_Env c = mergeEnv (so_environ (so_spawn os)) env (so_order (so_spawn os)) ∧
    (∀ home, session_config home (tail (ch_Args c)) = Ok (mkSession abs key argv cwd (mkService cmd args abs key) noHistory)) ∧
    sock = rpc_sock abs key.

(** The same, when nobody held the key's lock, with the state it wrote. *)
Definition started (s : serveState) (os : serve_os) (asked : gostring) (argv : list gostring) (cwd : gostring)
    (env : gmap gostring gostring) (noHistory : bool) (evs : list spawn_event) (st : StateFile) (sock : gostring) : Prop :=
  ∃ key, launched s os asked key argv cwd env noHistory evs sock ∧
    IsAlive (sv_dir s) key (so_before os) = false ∧ Load unmarshal (sv_dir s) key (so_after os) = Ok st.

Lemma new_key_nonempty dir entries w asked key : new_key dir entries w asked key → key ≠ [].
Proof. destruct asked; [by intros [H%id_ok_nonempty _]|by intros ->]. Qed.

Lemma spawn_launched s os asked key argv cwd env cols rows nh evs sock :
  new_key (sv_dir s) (so_entries os) (so_before os) asked key →
  spawnSessionFromSpec (sv_stateDir s) key (mkSpec argv cwd env cols rows nh) (so_spawn os) = (evs, Ok sock) →
  launched s os asked key argv cwd env nh evs sock.
Proof.
  intros Hk Es. destruct (spawn_ok _ _ _ _ _ _ Es) as (abs & c & Habs & Hc & ->).
  assert (Start c ∈ (spawnSessionFromSpec (sv_stateDir s) key (mkSpec argv cwd env cols rows nh) (so_spawn os)).1) as Hc'
    by by rewrite Es.
  destruct (started_child _ _ _ _ _ Hc') as (abs' & Habs' & Hargv & Hcwd & Eargs & Edir & Eenv).
  rewrite Habs in Habs'. injection Habs' as <-. cbn [sp_Argv sp_CWD] in *.
  destruct argv as [|cmd args]; [done|]. exists abs, c, cmd, args. split_and!; try done; [by rewrite Eargs|].
  intros home. rewrite Eargs. eapply (handed_over home abs key (mkSpec (cmd :: args) cwd env cols rows nh)); [|done|done].
  by eapply new_key_nonempty.
Qed.

Lemma spawn_started s os asked key argv cwd env nh evs st sock :
  new_key (sv_dir s) (so_entries os) (so_before os) asked key →
  IsAlive (sv_dir s) key (so_before os) = false →
  spawnSessionFromSpec (sv_stateDir s) key (mkSpec argv cwd env 80 24 nh) (so_spawn os) = (evs, Ok sock) →
  Load unmarshal (sv_dir s) key (so_after os) = Ok st →
  started s os asked argv cwd env nh evs st sock.
Proof. intros Hk Ha Es El. exists key. split; [by eapply spawn_launched|done]. Qed.

Lemma asked_key s os asked key :
  pick_key unmarshal rand_Read (sv_dir s) (so_entries os) (so_before os) asked = Ok key →
  new_key (sv_dir s) (so_entries os) (so_before os) asked key.
Proof. unfold pick_key. destruct asked; [apply generateKey_new|by intros [= <-]]. Qed.

(** What a 201 is. *)
Definition created (s : serveState) (body : option createSessionReq) (os : serve_os) (evs : list spawn_event) (r : reply) : Prop :=
  ∃ b argv cwd st sock, body = Some b ∧ create_argv (so_SHELL os) b = Ok argv ∧
    resolveServeCWD (so_wd os) (cr_CWD b) = Some cwd ∧
    started s os (cr_Key b) argv cwd (cr_Env b) (cr_NoHistory b) evs st sock ∧ rp_body r = BSession st sock.

Lemma createSession_cases s body os :
  let '(evs, r) := createSession unmarshal rand_Read s body os in
  match rp_status r with
  | 201 => created s body os evs r
  | 400 => evs = [] ∧ match body with
      | None => True
      | Some b => is_ok (create_argv (so_SHELL os) b) = false ∨ resolveServeCWD (so_wd os) (cr_CWD b) = None
      end
  | 409 => evs = [] ∧ ∃ b key, body = Some b ∧ IsAlive (sv_dir s) key (so_before os) = true
  | 500 => True
  | _ => False
  end.
Proof.
  unfold createSession. destruct body as [b|]; [|done].
  destruct (create_argv (so_SHELL os) b) as [argv|r] eqn:Ea.
  2:{ unfold create_argv in Ea. repeat case_match; simplify_eq; (split; [done|by left]). }
  destruct (pick_key _ _ _ _ _ _) as [key|] eqn:Ek; [|done]. apply asked_key in Ek.
  destruct (IsAlive _ _ _) eqn:Eal; [split; [done|by exists b, key]|].
  destruct (resolveServeCWD _ _) as [cwd|] eqn:Ec; [|split; [done|by right]].
  destruct (spawnSessionFromSpec _ _ _ _) as [evs [sock|]] eqn:Es; [|done].
  destruct (Load _ _ _ _) as [st|] eqn:El; [|done].
  exists b, argv, cwd, st, sock. split_and!; try done. by eapply spawn_started.
Qed.

(** [POST /sessions].  A 201 means that a session was started, under the key
    asked for or a fresh id, not alive before, whose process runs exactly the
    command asked for (the arguments, else the split command line, else the
    default shell) in the directory asked for, with the overrides asked for, and
    the reply is the state it wrote; a 400 or 409 means that nothing was started. *)
Theorem createSession_spec s body os :
  let '(evs, r) := createSession unmarshal rand_Read s body os in
  match rp_status r with
  | 201 => created s body os evs r
  | 400 => evs = [] ∧ match body with
      | None => True
      | Some b => is_ok (create_argv (so_SHELL os) b) = false ∨ resolveServeCWD (so_wd os) (cr_CWD b) = None
      end
  | 409 => evs = [] ∧ ∃ b key, body = Some b ∧ IsAlive (sv_dir s) key (so_before os) = true
  | 500 => True
  | _ => False
  end.
Proof. apply createSession_cases. Qed.

Context (ToLower : gostring → gostring).

(** A clone runs what its source runs.  When [cloneSession] succeeds, the
    session named by the query was found, with a command and a directory, and a
    session was started with exactly that command and directory, under the key
    asked for or a fresh id that no listed session has; unless the spawn itself
    failed, an error means that nothing was started. *)
Theorem cloneSession_spec s query newKey env os :
  match cloneSession unmarshal ToLower rand_Read s query newKey env os with
  | (evs, Ok (st, sock)) => ∃ source,
      Store_Resolve unmarshal ToLower (sv_dir s) (so_entries os) query (so_before os) = Ok source ∧
      started s os newKey (ss_Argv (sf_Session source)) (ss_CWD (sf_Session source)) env false evs st sock
  | (evs, Err (ClSpawn _ | ClLoad _)) => True
  | (evs, Err e) => evs = [] ∧ rp_status (writeCloneError e) ∈ [400; 404; 409; 500]
  end.
Proof.
  unfold cloneSession. destruct (Store_Resolve _ _ _ _ _ _) as [source|e] eqn:Er.
  2:{ split; [done|]. cbn. unfold writeResolveError. repeat case_match; set_solver. }
  destruct (_ || _); [split; [done|set_solver]|].
  destruct (pick_key _ _ _ _ _ _) as [key|] eqn:Ek; [|split; [done|set_solver]]. apply asked_key in Ek.
  destruct (IsAlive _ _ _) eqn:Eal; [split; [done|set_solver]|].
  destruct (spawnSessionFromSpec _ _ _ _) as [evs [sock|]] eqn:Es; [|done].
  destruct (Load _ _ _ _) as [st|] eqn:El; [|done]. exists source. split; [done|]. by eapply spawn_started.
Qed.
End spec.

Definition ex_serve : serveState := mkServe [B"s"] B"/s".
Definition ex_after : world := mkWorld {[state_json ([B"s"] ++ [B"k3x"]) := [1]]} ∅ ∅.
Definition ex_serve_os : serve_os :=
  mkServeOS DirNotExist (mkWorld ∅ ∅ ∅) ex_after [] (Some B"/home/al") ex_os.
Definition ex_body : createSessionReq := mkCreate B"sh -c ls" [] B"k3x" [] ∅ false.

Definition ex_source : StateFile :=
  mkStateFile (mkSessionState B"src" 7 None [B"vi"; B"a b"] B"/w" (mkSize 80 24) false []) [].
Definition ex_unmarshal (b : list byte) : option StateFile :=
  match b with [1] => Some empty_state | [2] => Some ex_source | _ => None end.
Definition ex_clone_os : serve_os :=
  mkServeOS (DirEntries [(B"src", true)]) (mkWorld {[state_json ([B"s"] ++ [B"src"]) := [2]]} ∅ ∅) ex_after []
    (Some B"/home/al") ex_os.

Lemma count_rand_fills k n bs : count_rand k n = Ok bs → length bs = n ∧ bytes_ok bs.
Proof.
  intros [= <-]. rewrite length_replicate. split; [done|]. apply Forall_replicate. unfold is_byte. lia.
Qed.

Lemma createSession_spec_witness :
  ∃ argv cwd st sock, create_argv [] ex_body = Ok argv ∧
    started ex_unmarshal ex_serve ex_serve_os B"k3x" argv cwd ∅ false
      (createSession ex_unmarshal count_rand ex_serve (Some ex_body) ex_serve_os).1 st sock.
Proof.
  pose proof (createSession_spec ex_unmarshal count_rand count_rand_fills ex_serve (Some ex_body) ex_serve_os) as H.
  destruct (createSession ex_unmarshal count_rand ex_serve (Some ex_body) ex_serve_os) as [evs r] eqn:E.
  assert (rp_status r = 201) as Er.
  { assert (rp_status (createSession ex_unmarshal count_rand ex_serve (Some ex_body) ex_serve_os).2 = 201) as E'
      by (vm_compute; reflexivity). rewrite E in E'. exact E'. }
  rewrite Er in H. destruct H as (b & argv & cwd & st & sock & [= <-] & Ha & _ & Hs & _).
  exists argv, cwd, st, sock. split; [exact Ha|exact Hs].
Defined.

Lemma cloneSession_spec_witness :
  ∃ source evs st sock, Store_Resolve ex_unmarshal id [B"s"] (DirEntries [(B"src", true)]) B"src" (so_before ex_clone_os) = Ok source ∧
    started ex_unmarshal ex_serve ex_clone_os B"k3x" (ss_Argv (sf_Session source)) (ss_CWD (sf_Session source)) ∅ false evs st sock.
Proof.
  pose proof (cloneSession_spec ex_unmarshal count_rand count_rand_fills id ex_serve B"src" B"k3x" ∅ ex_clone_os) as H.
  destruct (cloneSession ex_unmarshal id count_rand ex_serve B"src" B"k3x" ∅ ex_clone_os) as [evs r] eqn:E.
  assert (is_ok r = true) as Er.
  { assert (is_ok (cloneSession ex_unmarshal id count_rand ex_serve B"src" B"k3x" ∅ ex_clone_os).2 = true) as E'
      by (vm_compute; reflexivity). rewrite E in E'. exact E'. }
  destruct r as [[st sock]|e]; [|discriminate Er]. destruct H as (source & Hr & Hs).
  exists source, evs, st, sock. split; [exact Hr|exact Hs].
Defined.
