(* ===== verification/Picker.v ===== *)
(** * [cmd/hoot/picker.go]: which session a verb is about

    [resolveSessionKey] turns the argument of [attach], [clone], [kill] and
    [detach] into a session key: an id or prefix of a listed session, else the
    line picked in fzf, whose answer is an argument.  A remote's answer to
    [GET /sessions] is the decoded reply of [Serve.getSessions]. *)
From S2P Require Import Prelude GoBase QueryStripper Utf8 Wire State GoStrings ShortId Store Hud Serve.
Open Scope Z_scope.

Record pickerOptions := mkPicker { po_Verb : gostring; po_AliveOnly : bool }.

(** [cmd.Output] of fzf. *)
Inductive fzf_answer := FzfOut (out : gostring) | FzfExit (code : Z) | FzfFailed.

Inductive picker_error :=
| PkFZFNotFound | PkCancelled | PkNoMatch | PkFailed | PkMalformed (line : gostring) | PkField (field : gostring).

(** [strings.TrimRight(s, "\n")] *)
Fixpoint TrimNewlines (s : gostring) : gostring :=
  match s with
  | [] => []
  | c :: s' => match TrimNewlines s' with
               | [] => if c =? 10 then [] else [c]
               | t => c :: t
               end
  end.

(** [strings.HasSuffix(s, "]")] *)
Definition ends_bracket (s : gostring) : bool := bool_decide (last s = Some (chr "]")).

Section picker.
Context (home : gostring) (ToLower : gostring → gostring).

(** The line of the [i]th session, without its newline. *)
Definition picker_line (i : nat) (sm : SessionWithMeta) : gostring := Itoa (Z.of_nat i + 1) ++ tab ++ Format home sm.

Definition picker_input (states : list SessionWithMeta) : gostring :=
  concat (imap (λ i sm, picker_line i sm ++ [10]) states).

Definition arrow_up : gostring := [226; 134; 145].
Definition arrow_down : gostring := [226; 134; 147].
Definition middle_dot : gostring := [194; 183].

Definition fzf_args (verb preseed : gostring) : list gostring :=
  [B"--ansi"; B"--no-sort"; B"--delimiter=" ++ tab; B"--with-nth=2.."; B"--prompt=" ++ verb ++ B"> ";
   B"--header=" ++ arrow_up ++ arrow_down ++ B" select " ++ middle_dot ++ B" enter " ++ verb ++ B" " ++ middle_dot ++ B" esc cancel";
   B"--height=40%"; B"--reverse"; B"--no-mouse"] ++
  match preseed with [] => [] | _ => [B"--query=" ++ preseed; B"--select-1"; B"--exit-0"] end.

(** The id field of the line fzf printed. *)
Definition picked_key (out : gostring) : res picker_error gostring :=
  let line := TrimNewlines out in
  match split_on 9 line with
  | _ :: bracketed :: _ =>
      if negb (HasPrefix bracketed B"[") || negb (ends_bracket bracketed) then Err (PkField bracketed)
      else Ok (drop 1 (take (length bracketed - 1) bracketed))
  | _ => Err (PkMalformed line)
  end.

(** [found]: fzf is on [PATH]. *)
Definition runFZFPicker (found : bool) (fzf : list gostring → gostring → fzf_answer)
    (states : list SessionWithMeta) (preseed : gostring) (opts : pickerOptions) : res picker_error gostring :=
  if negb found then Err PkFZFNotFound
  else match states with
       | [] => Err PkNoMatch
       | _ =>
           let verb := match po_Verb opts with [] => B"attach" | v => v end in
           match fzf (fzf_args verb preseed) (picker_input states) with
           | FzfExit code => if code =? 1 then Err PkNoMatch else if code =? 130 then Err PkCancelled else Err PkFailed
           | FzfFailed => Err PkFailed
           | FzfOut out => picked_key out
           end
       end.

(** *** The candidates *)

Context (unmarshal : list byte → option StateFile).

(** The two shapes of [loadSessionList]: [remote] is the display name and the
    answer to [GET /sessions]. *)
Definition loadSessionList (remote : option (gostring * option reply)) (dir : path) (entries : readdir) (w : world)
  : option (list SessionWithMeta) :=
  match remote with
  | Some (display, answer) =>
      match answer with
      | Some (mkReply 200 (BSessions l)) => Some ((λ '(st, alive), mkMeta (Some st) alive display) <$> l)
      | _ => None
      end
  | None =>
      match List_ unmarshal dir entries w with
      | Err _ => None
      | Ok states => Some ((λ st, mkMeta (Some st) (IsAlive dir (ss_Key (sf_Session st)) w) B"local") <$> states)
      end
  end.

(** *** [resolveSessionKey] *)

(** What it reads: the terminal, the state directory, the remote, fzf. *)
Record pick_os := mkPickOS {
  pk_tty : bool; pk_remote : option (gostring * option reply);
  pk_entries : readdir; pk_world : world;
  pk_found : bool; pk_fzf : list gostring → gostring → fzf_answer
}.

Definition alive_only (opts : pickerOptions) (states : list SessionWithMeta) : list SessionWithMeta :=
  if po_AliveOnly opts then filter (λ sm, sm_Alive sm = true) states else states.

Definition picker_code (e : picker_error) : Z :=
  match e with PkFZFNotFound => 2 | PkCancelled => 130 | PkNoMatch => 2 | _ => 1 end.

Definition pick (arg : gostring) (states : list SessionWithMeta) (os : pick_os) (opts : pickerOptions) : res Z gostring :=
  match runFZFPicker (pk_found os) (pk_fzf os) states arg opts with
  | Ok key => Ok key
  | Err e => Err (picker_code e)
  end.

(** The key, or the exit code. *)
Definition resolveSessionKey (arg : gostring) (strict : bool) (dir : path) (os : pick_os) (opts : pickerOptions)
  : res Z gostring :=
  if strict then
    match arg with
    | [] => Err 2
    | _ =>
        match pk_remote os with
        | Some _ => Ok arg
        | None => match Store_Resolve unmarshal ToLower dir (pk_entries os) arg (pk_world os) with
                  | Err _ => Err 2
                  | Ok st => Ok (ss_Key (sf_Session st))
                  end
        end
    end
  else if bool_decide (arg = []) && negb (pk_tty os) then Err 2
  else
    match loadSessionList (pk_remote os) dir (pk_entries os) (pk_world os) with
    | None => Err 1
    | Some states =>
        match alive_only opts states with
        | [] => Err 2
        | states =>
            match arg with
            | [] => pick arg states os opts
            | _ =>
                match IDResolve ToLower states arg with
                | Ok sm => match sm_State sm with Some st => Ok (ss_Key (sf_Session st)) | None => Err 2 end
                | Err (AmbiguousID _ _) => Err 2
                | Err _ => if negb (pk_tty os) then Err 2 else pick arg states os opts
                end
            end
        end
    end.
End picker.

(** ** A picked line is its session *)

Section picked.
Context (home : gostring).

(** A session that is one line in the picker, with an id field of its own. *)
Definition one_line (sm : SessionWithMeta) : Prop :=
  (10 ∉ Format home sm) ∧ match sm_State sm with None => False | Some f => 9 ∉ ss_Key (sf_Session f) end.

Definition meta_key (sm : SessionWithMeta) : gostring :=
  match sm_State sm with None => [] | Some f => ss_Key (sf_Session f) end.

Lemma TrimNewlines_line s : 10 ∉ s → TrimNewlines (s ++ [10]) = s.
Proof.
  induction s as [|c s IH]; [done|]. intros [Hc Hs]%not_elem_of_cons. cbn [app TrimNewlines]. rewrite IH by done.
  destruct s; [|done]. by rewrite (proj2 (Z.eqb_neq c 10)) by congruence.
Qed.

Lemma digits_not n c : 0 <= n → c < 48 → (c ∉ Itoa n).
Proof.
  intros Hn Hc Hi. destruct (Itoa_value n Hn) as [_ H]. rewrite Forall_forall in H. specialize (H c Hi). lia.
Qed.

Lemma Format_fields sm : one_line sm → ∃ rest, Format home sm = (B"[" ++ meta_key sm ++ B"]") ++ tab ++ rest.
Proof.
  intros [_ H]. unfold Format, meta_key. destruct (sm_State sm) as [f|]; [|done].
  eexists. cbn [Join]. rewrite <- ?app_assoc. done.
Qed.

Lemma picker_line_nl i sm : one_line sm → (10 ∉ picker_line home i sm).
Proof.
  intros [Hn _]. unfold picker_line. rewrite !not_elem_of_app. split; [apply digits_not; lia|]. split; [set_solver|done].
Qed.

(** fzf's answer, when it is the line of a session. *)
Lemma picked_line i sm : one_line sm → picked_key (picker_line home i sm ++ [10]) = Ok (meta_key sm).
Proof.
  intros H. pose proof H as [Hn Hk]. destruct (Format_fields sm H) as [rest E]. unfold picked_key.
  rewrite TrimNewlines_line by by apply picker_line_nl.
  unfold picker_line. rewrite E. unfold tab. cbn [app].
  rewrite split_on_one by (apply Forall_forall; intros x Hx ->; by eapply digits_not in Hx; lia).
  rewrite split_on_one.
  2:{ rewrite Forall_forall. intros x Hx ->. unfold meta_key in Hx. destruct (sm_State sm); [|done].
      apply elem_of_app in Hx as [Hx|Hx]; [by vm_compute in Hx; set_solver|].
      apply elem_of_app in Hx as [Hx|Hx]; [done|]. by vm_compute in Hx; set_solver. }
  assert (HasPrefix (B"[" ++ meta_key sm ++ B"]") B"[" = true) as -> by (apply HasPrefix_spec; by eexists).
  assert (ends_bracket (B"[" ++ meta_key sm ++ B"]") = true) as ->.
  { apply bool_decide_eq_true_2. rewrite app_assoc. exact (last_snoc (chr "]") (B"[" ++ meta_key sm)). }
  cbn [negb orb]. f_equal. rewrite !length_app. replace (_ + (_ + _) - 1)%nat with (length (B"[" ++ meta_key sm))
    by (rewrite length_app; cbn; lia).
  rewrite app_assoc, take_app_length. done.
Qed.

Lemma input_lines states :
  Forall one_line states → split_on 10 (picker_input home states) = imap (picker_line home) states ++ [[]].
Proof.
  unfold picker_input. assert (∀ k, Forall one_line states →
    split_on 10 (concat (imap (λ i sm, picker_line home (k + i) sm ++ [10]) states)) =
    imap (λ i sm, picker_line home (k + i) sm) states ++ [[]]) as H; [|exact (H 0%nat)].
  induction states as [|sm states IH]; intros k Hs; [done|]. apply Forall_cons in Hs as [[Hn Hk] Hs].
  rewrite !imap_cons. rewrite Nat.add_0_r.
  assert (∀ X (f : nat → SessionWithMeta → X), imap ((λ i, f (k + i)%nat) ∘ S) states = imap (λ i, f (S k + i)%nat) states) as Hk'.
  { intros X f. apply imap_ext. intros i x _. unfold compose. by rewrite <- Nat.add_succ_comm. }
  rewrite (Hk' _ (λ i sm, picker_line home i sm ++ [10])), (Hk' _ (λ i sm, picker_line home i sm)).
  cbn [concat]. rewrite <- app_assoc. change ([10] ++ ?x) with (10 :: x).
  rewrite split_on_one.
  - cbn [app]. f_equal. exact (IH (S k) Hs).
  - rewrite Forall_forall. intros x Hx ->. by apply (picker_line_nl k sm).
Qed.

(** What fzf documents: it prints a line of its input. *)
Definition fzf_prints (fzf : list gostring → gostring → fzf_answer) : Prop :=
  ∀ args input out, fzf args input = FzfOut out → ∃ line, line ∈ split_on 10 input ∧ out = line ++ [10].

Lemma runFZFPicker_ok found fzf states preseed opts key :
  fzf_prints fzf → Forall one_line states → runFZFPicker home found fzf states preseed opts = Ok key →
  ∃ i sm, states !! i = Some sm ∧ key = meta_key sm ∧
    fzf (fzf_args (match po_Verb opts with [] => B"attach" | v => v end) preseed) (picker_input home states)
      = FzfOut (picker_line home i sm ++ [10]).
Proof.
  intros Hf Hs. unfold runFZFPicker. destruct found; [|done]. cbn [negb]. destruct states as [|s0 states]; [done|].
  remember (s0 :: states) as l. cbv zeta. destruct (fzf _ _) as [out|code|] eqn:E; [|by repeat case_match|done].
  destruct (Hf _ _ _ E) as (line & Hl & ->). rewrite input_lines in Hl by done. intros Ek.
  apply elem_of_app in Hl as [Hl|Hl]; [|apply list_elem_of_singleton in Hl; by subst line].
  apply elem_of_lookup_imap in Hl as (i & sm & -> & Hi).
  rewrite picked_line in Ek by (eapply Forall_lookup_1 in Hs; [exact Hs|exact Hi]).
  injection Ek as <-. by exists i, sm.
Qed.
End picked.

(** ** The session a verb is about *)

Section target.
Context (home : gostring) (ToLower : gostring → gostring) (unmarshal : list byte → option StateFile).
Context (dir : path) (os : pick_os) (opts : pickerOptions).

Abbreviation listed := (loadSessionList unmarshal (pk_remote os) dir (pk_entries os) (pk_world os)).
Abbreviation resolve := (λ arg strict, resolveSessionKey home ToLower unmarshal arg strict dir os opts).

(** fzf, shown these sessions with [arg] as the query, printed the line of the
    [i]th. *)
Definition picked (arg : gostring) (states : list SessionWithMeta) (i : nat) (sm : SessionWithMeta) : Prop :=
  pk_fzf os (fzf_args (match po_Verb opts with [] => B"attach" | v => v end) arg) (picker_input home states)
    = FzfOut (picker_line home i sm ++ [10]).

Lemma alive_only_elem sm states :
  sm ∈ alive_only opts states → sm ∈ states ∧ (po_AliveOnly opts = true → sm_Alive sm = true).
Proof.
  unfold alive_only. destruct (po_AliveOnly opts); [|done]. intros [H1 H2]%list_elem_of_filter. by split.
Qed.

Lemma IDResolve_elem states arg sm :
  IDResolve ToLower states arg = Ok sm → sm ∈ states ∧ ∃ st, sm_State sm = Some st.
Proof.
  unfold IDResolve. destruct (Resolve _ _ _) as [m|e]; [|done].
  destruct (List.find _ _) as [sm'|] eqn:E; [|done]. intros [= <-].
  apply List.find_some in E as [E1 E2]. split; [by apply list_elem_of_In|].
  unfold has_key in E2. destruct (sm_State sm') as [st|]; [by exists st|done].
Qed.

(** The key is of the line fzf printed when it was given these lines. *)
Lemma pick_ok states arg k :
  fzf_prints (pk_fzf os) → Forall (one_line home) states → pick home arg states os opts = Ok k →
  ∃ i sm, states !! i = Some sm ∧ k = meta_key sm ∧ picked arg states i sm.
Proof.
  intros Hf Hs. unfold pick. destruct (runFZFPicker _ _ _ _ _ _) as [k'|e] eqn:E; [|done]. intros [= ->].
  exact (runFZFPicker_ok home (pk_found os) (pk_fzf os) states arg opts k Hf Hs E).
Qed.

Lemma pick_code states arg c :
  pick home arg states os opts = Err c → c = 1 ∨ c = 2 ∨ c = 130 ∧ ∃ args input, pk_fzf os args input = FzfExit 130.
Proof.
  unfold pick, runFZFPicker. intros H. destruct (pk_found os); cbn [negb] in H; [|injection H as <-; auto].
  destruct states as [|s0 l]; [injection H as <-; auto|]. cbv zeta in H.
  destruct (pk_fzf os _ _) as [out|code|] eqn:E.
  - unfold picked_key in H. repeat case_match; simplify_eq/=; auto.
  - destruct (Z.eqb_spec code 1); [injection H as <-; auto|].
    destruct (Z.eqb_spec code 130) as [->|]; [|injection H as <-; auto].
    injection H as <-. right. right. split; [done|]. eauto.
  - injection H as <-. auto.
Qed.

(** C29: Which session a verb is about.  Without [--strict], of the sessions
    listed (the live ones for [attach], [clone], [kill] and [detach]): an id or a
    prefix that names one is that one, on a terminal or not, and fzf is not
    asked; one that names several is refused; else, on a terminal, fzf is given
    exactly those sessions, and the key is that of the very line it prints (for
    sessions that print as one line each).  With [--strict] it is the id as given
    to a remote, and the store's resolution locally.  A refusal exits with 1, 2,
    or 130 for a picker dismissed. *)
Theorem resolveSessionKey_spec arg strict states :
  fzf_prints (pk_fzf os) → listed = Some states → Forall (one_line home) (alive_only opts states) →
  (∀ sm, strict = false → arg ≠ [] → IDResolve ToLower (alive_only opts states) arg = Ok sm →
     resolve arg strict = Ok (meta_key sm)) ∧
  (∀ q ms, strict = false → arg ≠ [] → IDResolve ToLower (alive_only opts states) arg = Err (AmbiguousID q ms) →
     resolve arg strict = Err 2) ∧
  match resolve arg strict with
  | Ok key =>
      if strict then
        match pk_remote os with
        | Some _ => key = arg
        | None => ∃ st, Store_Resolve unmarshal ToLower dir (pk_entries os) arg (pk_world os) = Ok st ∧ key = ss_Key (sf_Session st)
        end
      else ∃ i sm, alive_only opts states !! i = Some sm ∧ key = meta_key sm ∧
        (sm ∈ states ∧ (po_AliveOnly opts = true → sm_Alive sm = true)) ∧
        (arg ≠ [] ∧ IDResolve ToLower (alive_only opts states) arg = Ok sm ∨
         (arg = [] ∨ is_ok (IDResolve ToLower (alive_only opts states) arg) = false) ∧ pk_tty os = true ∧
         picked arg (alive_only opts states) i sm)
  | Err c => c = 1 ∨ c = 2 ∨ c = 130 ∧ ∃ args input, pk_fzf os args input = FzfExit 130
  end.
Proof.
  intros Hf Hl Hs. unfold resolveSessionKey. rewrite Hl. split; [|split].
  - intros sm -> Ha E. rewrite bool_decide_eq_false_2 by done. cbn [andb].
    destruct (IDResolve_elem _ _ _ E) as [Hin [st Est]]. unfold meta_key. rewrite Est.
    destruct (alive_only opts states) as [|s0 l]; [by apply elem_of_nil in Hin|].
    destruct arg; [done|]. by rewrite E, Est.
  - intros q ms -> Ha E. rewrite bool_decide_eq_false_2 by done. cbn [andb].
    destruct (alive_only opts states) as [|s0 l]; [done|]. destruct arg; [done|]. by rewrite E.
  - destruct strict.
    { destruct arg as [|b arg]; [auto|]. destruct (pk_remote os); [done|].
      destruct (Store_Resolve _ _ _ _ _ _) as [st|e]; [by exists st|auto]. }
    destruct (bool_decide (arg = []) && negb (pk_tty os)) eqn:Et; [auto|].
    pose proof (λ sm, alive_only_elem sm states) as Hin.
    destruct (alive_only opts states) as [|s0 l]; [auto|].
    assert (pk_tty os = true → arg = [] ∨ is_ok (IDResolve ToLower (s0 :: l) arg) = false →
            match pick home arg (s0 :: l) os opts with
            | Ok key => ∃ i sm, (s0 :: l) !! i = Some sm ∧ key = meta_key sm ∧
                (sm ∈ states ∧ (po_AliveOnly opts = true → sm_Alive sm = true)) ∧
                (arg ≠ [] ∧ IDResolve ToLower (s0 :: l) arg = Ok sm ∨
                 (arg = [] ∨ is_ok (IDResolve ToLower (s0 :: l) arg) = false) ∧ pk_tty os = true ∧ picked arg (s0 :: l) i sm)
            | Err c => c = 1 ∨ c = 2 ∨ c = 130 ∧ ∃ args input, pk_fzf os args input = FzfExit 130
            end) as Hp.
    { intros Htty Hno. destruct (pick _ _ _ _ _) as [key|c] eqn:E; [|by eapply pick_code].
      destruct (pick_ok _ _ _ Hf Hs E) as (i & sm & Hi & -> & Hpk). exists i, sm. split; [done|]. split; [done|].
      split; [by apply Hin, (list_elem_of_lookup_2 _ i)|by right]. }
    destruct arg as [|b arg].
    { apply Hp; [|by left]. by destruct (pk_tty os). }
    destruct (IDResolve ToLower (s0 :: l) (b :: arg)) as [sm|e] eqn:E.
    + destruct (IDResolve_elem _ _ _ E) as [H [st Est]]. rewrite Est. apply list_elem_of_lookup in H as [i Hi].
      exists i, sm. unfold meta_key. rewrite Est. split; [done|]. split; [done|].
      split; [by apply Hin, (list_elem_of_lookup_2 _ i)|by left].
    + destruct e; [|auto|]; (destruct (pk_tty os); [by apply Hp; auto|cbn; auto]).
Qed.
End target.

(** ** Examples *)

Definition ex_fzf (args : list gostring) (input : gostring) : fzf_answer :=
  match split_on 10 input with _ :: line :: _ => FzfOut (line ++ [10]) | _ => FzfExit 1 end.

Lemma ex_fzf_prints : fzf_prints ex_fzf.
Proof.
  intros args input out. unfold ex_fzf. destruct (split_on 10 input) as [|x [|line l]]; [done..|].
  intros [= <-]. exists line. split; [set_solver|done].
Qed.

Definition ex_listed (key : gostring) : StateFile :=
  mkStateFile (mkSessionState key 7 None [B"sh"] B"/w" (mkSize 80 24) false []) [].

Definition ex_pick (key1 key2 : gostring) : pick_os :=
  mkPickOS true (Some (B"m4", Some (mkReply 200 (BSessions [(ex_listed key1, true); (ex_listed key2, true)]))))
    DirNotExist (mkWorld ∅ ∅ ∅) true ex_fzf.

Lemma resolveSessionKey_spec_witness :
  resolveSessionKey B"/h" (λ s, s) (λ _, None) B"abc" false [B"s"] (ex_pick B"abc1" B"xyz") (mkPicker B"kill" true) = Ok B"abc1" ∧
  resolveSessionKey B"/h" (λ s, s) (λ _, None) [] false [B"s"] (ex_pick B"abc1" B"xyz") (mkPicker B"kill" true) = Ok B"xyz".
Proof.
  split; [|vm_compute; reflexivity].
  destruct (resolveSessionKey_spec B"/h" (λ s, s) (λ _, None) [B"s"] (ex_pick B"abc1" B"xyz") (mkPicker B"kill" true) B"abc" false
    [mkMeta (Some (ex_listed B"abc1")) true B"m4"; mkMeta (Some (ex_listed B"xyz")) true B"m4"]) as (H & _).
  - exact ex_fzf_prints.
  - reflexivity.
  - repeat apply Forall_cons_2; [..|done]; apply (bool_decide_unpack _); vm_compute; exact I.
  - rewrite (H (mkMeta (Some (ex_listed B"abc1")) true B"m4")); [reflexivity..|done|vm_compute; reflexivity].
Defined.

(** A command with a newline is two lines in the picker: the second one can name
    a session that is not listed. *)
Lemma picker_newline_spoofs :
  let sm := mkMeta (Some (mkStateFile (mkSessionState B"aaa" 7 None [B"x" ++ [10] ++ B"2" ++ [9] ++ B"[zzz]" ++ [9]] B"/w" (mkSize 80 24) false []) [])) true [] in
  runFZFPicker B"/h" true ex_fzf [sm] [] (mkPicker B"kill" true) = Ok B"zzz".
Proof. vm_compute. reflexivity. Qed.
