(* ===== verification/Verbs.v ===== *)
(** * [hoot kill], [write], [detach], [resolve], [list]

    Each subcommand as a function of its arguments and of what the outside
    answers: the terminal, the state directory, fzf and the peer of each HTTP
    request.  What it does is the requests it makes, its output and its result
    ([Main.cmd_result]).  A reply carries the decoded value of its JSON body
    ([Serve.reply]). *)
From S2P Require Import Prelude GoBase QueryStripper Utf8 Wire State Paths GoStrings Ssh Bootstrap Cli ShortId Store Hud Main Flags Spawn Http Serve Picker.
Open Scope Z_scope.

(** ** Requests *)

Inductive request_body := QNone | QBytes (data : list byte) | QSignal (name : gostring) | QClone (key : gostring) (env : gmap gostring gostring) | QCreate (r : createSessionReq).

(** [rq_Sock] is the local socket, [None] the remote. *)
Record request := mkRequest {
  rq_Sock : option gostring; rq_Method : serve_method; rq_Path : gostring; rq_Query : gostring; rq_Body : request_body
}.

(** The libraries outside the repository. *)
Record host_libs := mkLibs {
  hl_ToLower : gostring → gostring; hl_ToUpper : gostring → gostring; hl_signum : gostring → Z;
  hl_url : gostring → option url; hl_url_String : url → gostring;
  hl_unmarshal : list byte → option StateFile; hl_path : gostring → path
}.

(** What one invocation is answered: [$HOME] as a variable and as
    [os.UserHomeDir], the terminal, the state directory, fzf, [GET /sessions] and
    any other request ([None] is a transport error). *)
Record verb_os := mkVerbOS {
  vo_HOME : gostring; vo_home : option gostring; vo_tty : bool;
  vo_entries : readdir; vo_world : world;
  vo_found : bool; vo_fzf : list gostring → gostring → fzf_answer;
  vo_list : option reply; vo_answer : request → option reply
}.

Section verbs.
Context (L : host_libs) (os : verb_os).

Definition result_of (code : Z) : cmd_result := if code =? 0 then CmdOk else CmdExit code.

Definition remote_display (r : remote) : gostring :=
  match r with RemoteHTTP u => hl_url_String L u | RemoteSSH _ display => display end.

(** [parseRemoteFlag] of the two flags every verb has. *)
Definition state_dir_flag (p : parsed) : gostring := string_flag B"state-dir" (defaultStateDir (vo_home os)) p.

Definition remote_flag (p : parsed) : res remote_flag_error (option remote) :=
  parseRemoteFlag (hl_url L) (string_flag B"remote" [] p) (path_Join [state_dir_flag p; B".tunnels"]).

Definition pick_os_of (remote : option remote) : pick_os :=
  mkPickOS (vo_tty os) ((λ r, (remote_display r, vo_list os)) <$> remote) (vo_entries os) (vo_world os)
    (vo_found os) (vo_fzf os).

Definition resolve_key (arg : gostring) (strict : bool) (stateDir : gostring) (remote : option remote) (opts : pickerOptions)
  : res Z gostring :=
  resolveSessionKey (vo_HOME os) (hl_ToLower L) (hl_unmarshal L) arg strict (hl_path L stateDir) (pick_os_of remote) opts.

(** [store.Resolve] *)
Definition store_resolve (stateDir query : gostring) : res store_error StateFile :=
  Store_Resolve (hl_unmarshal L) (hl_ToLower L) (hl_path L stateDir) (vo_entries os) query (vo_world os).

(** One request, and what its status means. *)
Definition send_request (r : request) (status_of : Z → Z) : list request * cmd_result :=
  ([r], match vo_answer os r with None => CmdError | Some a => result_of (status_of (rp_status a)) end).

(** ** [hoot kill] *)

Definition kill_flags : flagset := [(B"state-dir", FValue); (B"remote", FValue); (B"s", FValue); (B"strict", FBool)].

Definition killLocal (stateDir query sig : gostring) : list request * cmd_result :=
  match store_resolve stateDir query with
  | Err _ => ([], CmdExit 3)
  | Ok st => send_request (mkRequest (Some (rpc_sock stateDir (ss_Key (sf_Session st)))) POST B"/signal" [] (QSignal sig)) mapKillStatus
  end.

Definition killRemote (query sig : gostring) : list request * cmd_result :=
  send_request (mkRequest None POST (session_url query [B"signal"]) [] (QSignal sig)) mapKillStatus.

Definition cmdKill (args : list gostring) : list request * cmd_result :=
  match Parse kill_flags args with
  | Err _ => ([], CmdExit 2)
  | Ok p =>
      if (1 <? length p.2)%nat then ([], CmdExit 2)
      else
        let sigSpec := string_flag B"s" B"TERM" p in
        match parseSignal (hl_ToUpper L) (hl_signum L) sigSpec with
        | Err _ => ([], CmdExit 2)
        | Ok _ =>
            match remote_flag p with
            | Err _ => ([], CmdExit 2)
            | Ok remote =>
                match resolve_key (default [] (head p.2)) (bool_flag B"strict" p) (state_dir_flag p) remote (mkPicker B"kill" true) with
                | Err code => ([], CmdExit code)
                | Ok key => match remote with
                            | Some _ => killRemote key sigSpec
                            | None => killLocal (state_dir_flag p) key sigSpec
                            end
                end
            end
        end
  end.

(** ** [hoot write] *)

Definition write_flags : flagset := [(B"state-dir", FValue); (B"remote", FValue); (B"paste", FBool); (B"input-file", FValue)].

Definition paste_query (paste : bool) : gostring := if paste then B"paste=on" else [].

Definition writeLocal (stateDir target : gostring) (body : list byte) (paste : bool) : list request * cmd_result :=
  match store_resolve stateDir target with
  | Err _ => ([], CmdExit 3)
  | Ok st => send_request (mkRequest (Some (rpc_sock stateDir (ss_Key (sf_Session st)))) POST B"/pty/input" (paste_query paste) (QBytes body)) mapWriteStatus
  end.

Definition writeRemote (target : gostring) (body : list byte) (paste : bool) : list request * cmd_result :=
  send_request (mkRequest None POST (session_url target [B"pty"; B"input"]) (paste_query paste) (QBytes body)) mapWriteStatus.

(** [file] is the contents of a file, [stdin] standard input and whether it is a
    terminal. *)
Definition cmdWrite (file : gostring → res body_error gostring) (stdinIsTTY : bool) (stdin : res body_error gostring)
    (args : list gostring) : list request * cmd_result :=
  match Parse write_flags args with
  | Err _ => ([], CmdExit 2)
  | Ok p =>
      match p.2 with
      | [] => ([], CmdExit 2)
      | target :: dataArgs =>
          let inputFile := string_flag B"input-file" [] p in
          match resolveWriteBody inputFile (file inputFile) dataArgs stdinIsTTY stdin with
          | Err _ => ([], CmdExit 2)
          | Ok body =>
              match remote_flag p with
              | Err _ => ([], CmdExit 2)
              | Ok (Some _) => writeRemote target body (bool_flag B"paste" p)
              | Ok None => writeLocal (state_dir_flag p) target body (bool_flag B"paste" p)
              end
          end
      end
  end.

(** ** [hoot detach] *)

Definition detach_flags : flagset := [(B"state-dir", FValue); (B"remote", FValue); (B"strict", FBool)].

(** What [reportDetach] prints. *)
Inductive detach_report := DetachedN (n : Z) | DetachedAll | DetachedOne (id : gostring).

(** [closed] is the count the body of the reply decodes to, if it does. *)
Definition reportDetach (status : Z) (closed : option Z) (attID : gostring) : option detach_report * cmd_result :=
  if negb (status =? 204) then (None, result_of (mapDetachStatus status))
  else (Some (match attID with
              | [] => match closed with Some n => if 0 <=? n then DetachedN n else DetachedAll | None => DetachedAll end
              | _ => DetachedOne attID
              end), CmdOk).

Definition attachment_ids (st : StateFile) : list gostring := ar_ID <$> ss_Attachments (sf_Session st).

(** The outcome: requests, report, result. *)
Definition detach_outcome : Type := list request * option detach_report * cmd_result.

Definition send_detach (closed : reply → option Z) (before : list request) (r : request) (attID : gostring) : detach_outcome :=
  match vo_answer os r with
  | None => (before ++ [r], None, CmdExit 1)
  | Some a => let '(rep, x) := reportDetach (rp_status a) (closed a) attID in (before ++ [r], rep, x)
  end.

Definition detachLocal (closed : reply → option Z) (stateDir sessPrefix attPrefix : gostring) : detach_outcome :=
  match store_resolve stateDir sessPrefix with
  | Err _ => ([], None, CmdExit 3)
  | Ok st =>
      let key := ss_Key (sf_Session st) in
      if negb (IsAlive (hl_path L stateDir) key (vo_world os)) then ([], None, CmdExit 5)
      else
        let send path := send_detach closed [] (mkRequest (Some (rpc_sock stateDir key)) DELETE path [] QNone) attPrefix in
        match attPrefix with
        | [] => send B"/attachments"
        | _ => match ShortId.Resolve (hl_ToLower L) attPrefix (attachment_ids st) with
               | Err _ => ([], None, CmdExit 3)
               | Ok m => send (B"/attachments/" ++ m)
               end
        end
  end.

Definition detachRemote (closed : reply → option Z) (sessPrefix attPrefix : gostring) : detach_outcome :=
  match attPrefix with
  | [] => send_detach closed [] (mkRequest None DELETE (session_url sessPrefix [B"attachments"]) [] QNone) []
  | _ =>
      let get := mkRequest None GET (session_url sessPrefix []) [] QNone in
      match vo_answer os get with
      | None => ([get], None, CmdExit 1)
      | Some (mkReply 200 (BState st)) =>
          match ShortId.Resolve (hl_ToLower L) attPrefix (attachment_ids st) with
          | Err _ => ([get], None, CmdExit 3)
          | Ok m => send_detach closed [get]
              (mkRequest None DELETE (session_url (ss_Key (sf_Session st)) [B"attachments"; PathEscape m]) [] QNone) m
          end
      | Some a => ([get], None, if rp_status a =? 200 then CmdExit 1 else result_of (mapDetachStatus (rp_status a)))
      end
  end.

Definition cmdDetach (closed : reply → option Z) (args : list gostring) : detach_outcome :=
  match Parse detach_flags args with
  | Err _ => ([], None, CmdExit 2)
  | Ok p =>
      if (1 <? length p.2)%nat then ([], None, CmdExit 2)
      else
        match match head p.2 with Some a => splitDetachArg a | None => Ok ([], []) end with
        | Err _ => ([], None, CmdExit 2)
        | Ok (sessPrefix, attPrefix) =>
            match remote_flag p with
            | Err _ => ([], None, CmdExit 2)
            | Ok remote =>
                match resolve_key sessPrefix (bool_flag B"strict" p) (state_dir_flag p) remote (mkPicker B"detach" true) with
                | Err code => ([], None, CmdExit code)
                | Ok key => match remote with
                            | Some _ => detachRemote closed key attPrefix
                            | None => detachLocal closed (state_dir_flag p) key attPrefix
                            end
                end
            end
        end
  end.

(** ** [hoot resolve], [hoot list]: the lines printed *)

Definition cmdResolve (args : list gostring) : list gostring * cmd_result :=
  match Parse [(B"state-dir", FValue); (B"remote", FValue)] args with
  | Err _ => ([], CmdError)
  | Ok p =>
      match p.2 with
      | [query] =>
          match remote_flag p with
          | Err _ => ([], CmdError)
          | Ok (Some _) =>
              match vo_answer os (mkRequest None GET (session_url query [B"resolve"]) [] QNone) with
              | Some (mkReply 200 (BKey key)) => ([key], CmdOk)
              | _ => ([], CmdError)
              end
          | Ok None =>
              match store_resolve (state_dir_flag p) query with
              | Err _ => ([], CmdError)
              | Ok st => ([ss_Key (sf_Session st)], CmdOk)
              end
          end
      | _ => ([], CmdError)
      end
  end.

Definition list_flags : flagset := [(B"state-dir", FValue); (B"remote", FValue); (B"json", FBool); (B"all", FBool)].

(** A line for people, or a state file as JSON. *)
Inductive list_line := LinePlain (line : gostring) | LineJSON (st : StateFile).

Definition cmdList (args : list gostring) : list list_line * cmd_result :=
  match Parse list_flags args with
  | Err _ => ([], CmdError)
  | Ok p =>
      match remote_flag p with
      | Err _ => ([], CmdError)
      | Ok remote =>
          match loadSessionList (hl_unmarshal L) (pk_remote (pick_os_of remote)) (hl_path L (state_dir_flag p)) (vo_entries os) (vo_world os) with
          | None => ([], CmdError)
          | Some states =>
              let shown := filter (λ sm, bool_flag B"all" p || sm_Alive sm = true) states in
              (if bool_flag B"json" p then
                 shown ≫= λ sm, match sm_State sm with Some st => [LineJSON st] | None => [] end
               else (λ sm, LinePlain (Format (vo_HOME os) sm)) <$> shown, CmdOk)
          end
      end
  end.
End verbs.
