(* ===== verification/Control.v ===== *)
(** * [hoot kill] and [hoot write], from the command line to the session

    The verbs ([Verbs]), the routes of [hoot serve] and of a session ([Http],
    [Serve]) and the session's handlers ([Service], [PtyRoutes]) composed: what a
    command does to the process and to the terminal it names. *)
From S2P Require Import Prelude GoBase QueryStripper PrimaryFilter Utf8 Wire State Paths Terminal Pty PtyRoutes GoStrings Ssh Bootstrap Cli Service ShortId Store Hud Main Flags Spawn Http Serve Picker Verbs.
Open Scope Z_scope.

(** ** Where a request arrives *)

Section route.
Context (unmarshal : list byte → option StateFile) (ToLower : gostring → gostring).
Context (s : serveState) (entries : readdir) (w : world).

(** A reply of [hoot serve] itself, or the socket of a session and the path. *)
Inductive routed := RtReply (a : reply) | RtSession (sock path : gostring).

Definition route_request (r : request) : routed :=
  match rq_Sock r with
  | Some sock => RtSession sock (rq_Path r)
  | None =>
      match serve_mux [] (rq_Path r) with
      | RProxy key path =>
          match proxySession unmarshal ToLower s key path entries w with
          | ProxyReply a => RtReply a
          | ProxyTo sock p => RtSession sock p
          end
      | _ => RtReply (text_error 404)
      end
  end.

(** Nothing listens on the socket: an error of the client's own connection, 502
    from the proxy. *)
Definition no_session (r : request) : option reply :=
  match rq_Sock r with Some _ => None | None => Some (text_error 502) end.

Lemma route_refuses r a : route_request r = RtReply a → rp_status a ≠ 204.
Proof.
  assert (rp_status a ∈ [400; 404; 409; 500] → rp_status a ≠ 204) as Hr by (intros H E; rewrite E in H; set_solver).
  intros H. apply Hr. revert H. unfold route_request, proxySession. destruct (rq_Sock r); [done|].
  destruct (serve_mux _ _); try (intros [= <-]; cbn; set_solver).
  destruct key as [|b0 key]; [intros [= <-]; cbn; set_solver|].
  destruct (Store_Resolve _ _ _ _ _ _) as [st|e]; [done|]. intros [= <-].
  destruct e; cbn; try set_solver. destruct e; cbn; set_solver.
Qed.

(** A remote request for a key goes to the session it resolves to. *)
Lemma route_remote key verb route m q b sock p :
  segment key → serve_mux [] (session_url key verb) = RProxy key route →
  route_request (mkRequest None m (session_url key verb) q b) = RtSession sock p →
  p = upstream_path route ∧ ∃ st, Store_Resolve unmarshal ToLower (sv_dir s) entries key w = Ok st ∧
    sock = rpc_sock (sv_stateDir s) (ss_Key (sf_Session st)).
Proof.
  intros Hk E. unfold route_request. cbn [rq_Sock rq_Path]. rewrite E. unfold proxySession.
  destruct key as [|b0 key]; [by destruct Hk as (_ & ? & _)|].
  destruct (Store_Resolve _ _ _ _ _ _) as [st|e]; [|done]. intros [= <- <-]. by eauto.
Qed.
End route.

Lemma result_ok code : result_of code = CmdOk ↔ code = 0.
Proof. unfold result_of. destruct (Z.eqb_spec code 0); split; congruence. Qed.

Lemma mapKillStatus_ok st : mapKillStatus st = 0 ↔ st = 204.
Proof. unfold mapKillStatus. repeat case_match; split; lia. Qed.

Lemma mapWriteStatus_ok st : mapWriteStatus st = 0 ↔ st = 204.
Proof. unfold mapWriteStatus. repeat case_match; split; lia. Qed.

Lemma send_request_ok os r status_of :
  (∀ st, status_of st = 0 ↔ st = 204) →
  (send_request os r status_of).2 = CmdOk ↔ ∃ a, vo_answer os r = Some a ∧ rp_status a = 204.
Proof.
  intros H. unfold send_request. cbn [snd]. destruct (vo_answer os r) as [a|].
  - rewrite result_ok, H. split; [by eauto|]. by intros (a' & [= ->] & E).
  - split; [done|]. by intros (a & ? & _).
Qed.

Lemma signal_route prefix key : segment key → serve_mux prefix (session_url key [B"signal"]) = RProxy key B"signal".
Proof. intros H. apply serve_verb; [done|plain_names|done|]. rewrite serve_patterns_key by done. vm_compute. reflexivity. Qed.

Lemma input_route prefix key : segment key → serve_mux prefix (session_url key [B"pty"; B"input"]) = RProxy key B"pty/input".
Proof. intros H. apply serve_verb; [done|plain_names|done|]. rewrite serve_patterns_key by done. vm_compute. reflexivity. Qed.

Lemma parseSignal_nonempty U sg spec n : parseSignal U sg spec = Ok n → spec ≠ [].
Proof. by intros H ->. Qed.

(** ** The session a verb reaches *)

Section target.
Context (L : host_libs) (os : verb_os) (s : serveState) (rentries : readdir) (rw : world).

(** The socket a query ends at: that of the session it resolves to, here or on
    the remote. *)
Definition reaches (p : parsed) (query sock : gostring) : Prop :=
  match remote_flag L os p with
  | Ok None => ∃ st, store_resolve L os (state_dir_flag os p) query = Ok st ∧
                     sock = rpc_sock (state_dir_flag os p) (ss_Key (sf_Session st))
  | Ok (Some _) => segment query → ∃ st,
      Store_Resolve (hl_unmarshal L) (hl_ToLower L) (sv_dir s) rentries query rw = Ok st ∧
      sock = rpc_sock (sv_stateDir s) (ss_Key (sf_Session st))
  | Err _ => False
  end.
End target.

(** ** [hoot kill] *)

Section kill.
Context (L : host_libs) (os : verb_os) (s : serveState) (rentries : readdir) (rw : world).

(** The sessions that listen: the PTY and the child of each. *)
Context (peers : gostring → option (option (res io_error Z * (Z → res io_error unit)) * option (Z * signal_answer))).

Abbreviation route := (route_request (hl_unmarshal L) (hl_ToLower L) s rentries rw).

Definition session_signal (sock path : gostring) (r : request) : option Service.response :=
  match peers sock with
  | None => None
  | Some (pty, child) =>
      Some match session_mux path with
           | SrSignal => handleSignal (hl_ToUpper L) (hl_signum L) (bool_decide (rq_Method r = POST))
                           (match rq_Body r with QSignal n => Some (Some n) | _ => None end) pty child
           | _ => (404, [])
           end
  end.

(** The answer to a request, and the signals sent. *)
Definition kill_answer (r : request) : option reply * list delivered :=
  match route r with
  | RtReply a => (Some a, [])
  | RtSession sock p =>
      match session_signal sock p r with
      | None => (no_session r, [])
      | Some (code, ds) => (Some (mkReply code BText), ds)
      end
  end.

(** A signal and where it went. *)
Definition hits (sig : Z) (pty : option (res io_error Z * (Z → res io_error unit))) (child : option (Z * signal_answer)) (d : delivered) : Prop :=
  match d with
  | ToGroup g n => n = sig ∧ 1 < g ∧ ∃ kill, pty = Some (Ok g, kill)
  | ToChild pid n => n = sig ∧ child = Some (pid, SignalSent)
  end.

(** One request for a signal: answered with 204 exactly when one went out. *)
Lemma kill_answer_spec r name sig :
  rq_Method r = POST → rq_Body r = QSignal name → name ≠ [] → parseSignal (hl_ToUpper L) (hl_signum L) name = Ok sig →
  match kill_answer r with
  | (Some a, ds) =>
      if rp_status a =? 204 then
        ∃ sock path pty child d, route r = RtSession sock path ∧ peers sock = Some (pty, child) ∧ ds = [d] ∧ hits sig pty child d
      else ds = []
  | (None, ds) => ds = []
  end.
Proof.
  intros Hm Hb Hn Hs. unfold kill_answer, session_signal.
  destruct (route r) as [a|sock path] eqn:Er; [|].
  { apply route_refuses in Er. by rewrite (proj2 (Z.eqb_neq _ _)). }
  destruct (peers sock) as [[pty child]|] eqn:Ep; [|unfold no_session; by destruct (rq_Sock r)].
  destruct (session_mux path); try done.
  rewrite Hm, Hb, bool_decide_eq_true_2 by done.
  pose proof (handleSignal_answered (hl_ToUpper L) (hl_signum L) true (Some (Some name)) pty child) as H.
  assert (requested (hl_ToUpper L) (hl_signum L) (Some (Some name)) = Some (Ok sig)) as Hq
    by (rewrite requested_name, <- Hs; by destruct name).
  rewrite Hq in H.
  destruct (handleSignal _ _ _ _ _ _) as [code ds]. unfold signal_answered in H. cbn [fst snd rp_status] in *.
  destruct ds as [|d ds]; [|destruct ds as [|]; [|by destruct d]].
  - destruct (Z.eqb_spec code 204) as [->|]; [set_solver|done].
  - destruct d as [g n|pid n].
    + destruct H as (-> & Hg & [= ->] & k & -> & _). do 5 eexists. do 3 (split; [done|]). cbn. eauto.
    + destruct H as (-> & -> & [= ->] & _). do 5 eexists. do 3 (split; [done|]). by cbn.
Qed.

Definition signals_sent (reqs : list request) : list delivered := concat ((λ r, (kill_answer r).2) <$> reqs).

(** The target of a command line: its key, on the remote or here. *)
Definition names_key (p : parsed) (opts : pickerOptions) (key : gostring) : Prop :=
  ∃ remote, remote_flag L os p = Ok remote ∧
    resolve_key L os (default [] (head p.2)) (bool_flag B"strict" p) (state_dir_flag os p) remote opts = Ok key.

(** One signal went out, to the session of [key]. *)
Definition killed (p : parsed) (key : gostring) (sig : Z) (reqs : list request) : Prop :=
  ∃ sock pty child d, reaches L os s rentries rw p key sock ∧ peers sock = Some (pty, child) ∧
    signals_sent reqs = [d] ∧ hits sig pty child d.

(** What the client hears: the answer, when it gets through; else an error of its
    own connection, or the proxy's 502. *)
Definition hears (r : request) : Prop :=
  vo_answer os r = (kill_answer r).1 ∨ vo_answer os r = None ∨ vo_answer os r = Some (text_error 502).

Context (Hw : ∀ r, hears r).

(** What one request to kill can come to; [signals_sent] is what is sent if the
    request itself gets through. *)
Definition kill_outcome (p : parsed) (key : gostring) (sig : Z) (out : list request * cmd_result) : Prop :=
  (out.2 = CmdOk ∧ killed p key sig out.1) ∨
  (exit_status out.2 = 1 ∧ killed p key sig out.1) ∨
  (out.2 ≠ CmdOk ∧ signals_sent out.1 = []).

Lemma kill_send r name sig p key :
  rq_Method r = POST → rq_Body r = QSignal name → parseSignal (hl_ToUpper L) (hl_signum L) name = Ok sig →
  (∀ sock path, route r = RtSession sock path → reaches L os s rentries rw p key sock) →
  kill_outcome p key sig (send_request os r mapKillStatus).
Proof.
  intros Hm Hb Hs Hr. pose proof (send_request_ok os r mapKillStatus mapKillStatus_ok) as Hx.
  pose proof (kill_answer_spec r name sig Hm Hb (parseSignal_nonempty _ _ _ _ Hs) Hs) as Ha.
  assert (killed p key sig [r] ∧ (∃ a, (kill_answer r).1 = Some a ∧ rp_status a = 204) ∨
    signals_sent [r] = [] ∧ ∀ a, (kill_answer r).1 = Some a → rp_status a ≠ 204) as Hk.
  { unfold killed, signals_sent. cbn [fmap list_fmap concat]. rewrite app_nil_r.
    destruct (kill_answer r) as [[a|] ds]; cbn [fst snd] in *; [|by right].
    destruct (Z.eqb_spec (rp_status a) 204) as [E|E]; [left|right; split; [done|by intros a' [= <-]]].
    split; [|by exists a]. destruct Ha as (sock & path & pty & child & d & E1 & E2 & -> & H).
    exists sock, pty, child, d. split; [by eapply Hr|done]. }
  unfold kill_outcome. unfold send_request in *. cbn [fst snd] in *. destruct (Hw r) as [E|[E|E]]; rewrite E in *.
  - destruct Hk as [[Hk Hok]|[Hk Hno]]; [left; split; [by apply Hx|done]|do 2 right]. split; [|done].
    intros (a & Ea & E')%Hx. by apply (Hno a).
  - right. destruct Hk as [[Hk _]|[Hk _]]; [by left|by right].
  - right. destruct Hk as [[Hk _]|[Hk _]]; [by left|by right].
Qed.

(** C15: [hoot kill] delivers what it reports.  Local or remote, through the picker
    or not, and even if requests or replies are lost on the way: exit status 0
    means that one signal went out, the one [-s] names (TERM by default), to the
    foreground group or the child of the session the target resolves to; exit
    status 1 that this same signal may have gone out (its reply was lost), and no
    other; any other status that none did. *)
Theorem kill_delivers args :
  let '(reqs, x) := cmdKill L os args in
  (x = CmdOk ∧ ∃ p sig key, Parse kill_flags args = Ok p ∧
     parseSignal (hl_ToUpper L) (hl_signum L) (string_flag B"s" B"TERM" p) = Ok sig ∧
     names_key p (mkPicker B"kill" true) key ∧ killed p key sig reqs) ∨
  (exit_status x = 1 ∧ ∃ p sig key, Parse kill_flags args = Ok p ∧
     parseSignal (hl_ToUpper L) (hl_signum L) (string_flag B"s" B"TERM" p) = Ok sig ∧
     names_key p (mkPicker B"kill" true) key ∧ killed p key sig reqs) ∨
  (x ≠ CmdOk ∧ signals_sent reqs = []).
Proof.
  unfold cmdKill. destruct (Parse kill_flags args) as [p|e] eqn:Ep; [|by do 2 right].
  destruct (_ <? _)%nat; [by do 2 right|]. set (spec := string_flag B"s" B"TERM" p).
  destruct (parseSignal _ _ spec) as [sig|e] eqn:Es; [|by do 2 right].
  destruct (remote_flag L os p) as [remote|e] eqn:Er; [|by do 2 right].
  destruct (resolve_key _ _ _ _ _ _ _) as [key|code] eqn:Ek; [|by do 2 right].
  assert (∀ out, kill_outcome p key sig out →
    let '(reqs, x) := out in
    let sent := ∃ p' sig key, Ok (E := flag_error) p = Ok p' ∧
      parseSignal (hl_ToUpper L) (hl_signum L) (string_flag B"s" B"TERM" p') = Ok sig ∧
      names_key p' (mkPicker B"kill" true) key ∧ killed p' key sig reqs in
    (x = CmdOk ∧ sent) ∨ (exit_status x = 1 ∧ sent) ∨ (x ≠ CmdOk ∧ signals_sent reqs = [])) as Hwrap.
  { intros [reqs x] H. assert (names_key p (mkPicker B"kill" true) key) as Hn by by exists remote.
    destruct H as [[Hx H]|[[Hx H]|H]]; [left|right; left|by do 2 right]; (split; [done|]); by exists p, sig, key. }
  apply Hwrap. destruct remote as [r|].
  - apply (kill_send _ spec sig p key); [done|done|done|]. intros sock path Hr. unfold reaches. rewrite Er. intros Hk.
    by apply (route_remote _ _ _ _ _ key _ B"signal") in Hr as (_ & H); [|done|apply signal_route].
  - unfold killLocal. destruct (store_resolve L os (state_dir_flag os p) key) as [st|e] eqn:E; [|by do 2 right].
    apply (kill_send _ spec sig p key); [done|done|done|]. intros sock path [= <- _]. unfold reaches. rewrite Er. by eauto.
Qed.
End kill.

(** ** [hoot write] *)

Section write.
Context {T : Type} {TO : TermOps T}.
Context (L : host_libs) (os : verb_os) (s : serveState) (rentries : readdir) (rw : world).
(** The terminal of each session that listens. *)
Context (ptys : gostring → option (LibghosttyPTY T)).

Abbreviation route := (route_request (hl_unmarshal L) (hl_ToLower L) s rentries rw).

Definition query_paste (q : gostring) : gostring := TrimPrefix q B"paste=".

(** The answer to a request, and the terminal it changed. *)
Definition write_answer (r : request) : option reply * list (gostring * LibghosttyPTY T) :=
  match route r with
  | RtReply a => (Some a, [])
  | RtSession sock p =>
      match ptys sock with
      | None => (no_session r, [])
      | Some pty =>
          match session_mux p, rq_Body r with
          | SrPty verb, QBytes data =>
              if bool_decide (verb = B"input") then
                let '(a, pty') := handleInput (if decide (rq_Method r = POST) then MethodPost else MethodOther)
                                    (query_paste (rq_Query r)) data None pty in
                (Some (mkReply (status a) BText), [(sock, pty')])
              else (Some (text_error 404), [])
          | _, _ => (Some (text_error 404), [])
          end
      end
  end.

Definition changed (reqs : list request) : list (gostring * LibghosttyPTY T) := concat ((λ r, (write_answer r).2) <$> reqs).

(** The bytes one write puts into a terminal. *)
Definition typed_bytes (paste : bool) (body : list byte) : list byte :=
  if paste then pasteStart ++ body ++ pasteEnd else body.

(** The body reached the terminal of [key]'s session, and nothing else changed. *)
Definition written (p : parsed) (key : gostring) (body : list byte) (reqs : list request) : Prop :=
  ∃ sock pty pty', reaches L os s rentries rw p key sock ∧ ptys sock = Some pty ∧ changed reqs = [(sock, pty')] ∧
    w_out (p_master pty') = w_out (p_master pty) ++ typed_bytes (bool_flag B"paste" p) body ∧
    (bool_flag B"paste" p = true → BracketedPasteActive pty = true).

Definition untouched (reqs : list request) : Prop := Forall (λ '(sock, pty'), ptys sock = Some pty') (changed reqs).

Context (Hw : ∀ r, vo_answer os r = (write_answer r).1).

Lemma query_paste_query paste : query_paste (paste_query paste) = if paste then B"on" else [].
Proof. by destruct paste. Qed.

(** One request to write, at the session's handler. *)
Lemma write_answer_spec r paste data :
  rq_Method r = POST → rq_Body r = QBytes data → rq_Query r = paste_query paste →
  match write_answer r with
  | (None, ch) => ch = []
  | (Some a, ch) =>
      (rp_status a = 204 ∧ ∃ sock path pty pty', route r = RtSession sock path ∧ ptys sock = Some pty ∧ ch = [(sock, pty')] ∧
         w_out (p_master pty') = w_out (p_master pty) ++ typed_bytes paste data ∧
         (paste = true → BracketedPasteActive pty = true)) ∨
      (rp_status a ≠ 204 ∧ (rp_status a = 500 ∨ Forall (λ '(sock, pty'), ptys sock = Some pty') ch))
  end.
Proof.
  intros Hm Hb Hq. unfold write_answer. destruct (route r) as [a|sock path] eqn:Er.
  { right. split; [by eapply route_refuses|by right]. }
  destruct (ptys sock) as [pty|] eqn:Ep; [|unfold no_session; destruct (rq_Sock r); [done|right; split; [done|by right]]].
  destruct (session_mux path) as [| | | | | | |verb|]; try (right; split; [done|by right]).
  rewrite Hb, Hm, Hq, query_paste_query, decide_True by done.
  case_bool_decide; [|right; split; [done|by right]].
  pose proof (handleInput_cases MethodPost (if paste then B"on" else []) data None pty) as H'.
  destruct (handleInput _ _ _ _ _) as [a pty']. cbn [rp_status].
  destruct H' as [(E & _ & _ & payload & Eo & Hcase)|[(E & ->)|E]].
  - left. split; [done|]. exists sock, path, pty, pty'. do 3 (split; [done|]). rewrite Eo. destruct paste.
    + destruct Hcase as [[[?|?] _]|(_ & Ha & -> & _)]; [done|done|by split].
    + destruct Hcase as [[_ ->]|(? & _)]; [done|done].
  - right. split; [intros E'; rewrite E' in E; set_solver|]. right. by apply Forall_singleton.
  - right. split; [by rewrite E|]. by left.
Qed.

Lemma write_send r p key body :
  rq_Method r = POST → rq_Body r = QBytes body → rq_Query r = paste_query (bool_flag B"paste" p) →
  (∀ sock path, route r = RtSession sock path → reaches L os s rentries rw p key sock) →
  let '(reqs, x) := send_request os r mapWriteStatus in
  (x = CmdOk ∧ written p key body reqs) ∨ (x ≠ CmdOk ∧ (x = CmdExit 1 ∨ untouched reqs)).
Proof.
  intros Hm Hb Hq Hr. pose proof (send_request_ok os r mapWriteStatus mapWriteStatus_ok) as Hx.
  pose proof (write_answer_spec r _ body Hm Hb Hq) as Ha.
  unfold send_request in *. unfold written, untouched, changed. cbn [snd fmap list_fmap concat] in *. rewrite app_nil_r.
  rewrite Hw in *. destruct (write_answer r) as [[a|] ch]; cbn [fst snd] in *.
  2:{ right. split; [done|]. right. by rewrite Ha. }
  destruct Ha as [(E & sock & path & pty & pty' & E1 & E2 & -> & H)|[E H]].
  - left. split; [apply Hx; by eauto|]. exists sock, pty, pty'. split; [by eapply Hr|done].
  - right. split; [intros (a' & [= <-] & E')%Hx; done|]. destruct H as [H|H]; [left; by rewrite H|by right].
Qed.

(** C16: [hoot write] types exactly what it was given.  Exit status 0 means that
    the body (the file, the decoded arguments or standard input), in paste
    markers with [--paste] and then only if the program there asked for them,
    was written to the terminal of the session the target resolves to, in one
    write; an exit status other than 0 and 1 means that no terminal was touched. *)
Theorem write_delivers file stdinIsTTY stdin args :
  let '(reqs, x) := cmdWrite L os file stdinIsTTY stdin args in
  (x = CmdOk ∧ ∃ p target data body, Parse write_flags args = Ok p ∧ p.2 = target :: data ∧
     (let f := string_flag B"input-file" [] p in resolveWriteBody f (file f) data stdinIsTTY stdin = Ok body) ∧
     written p target body reqs) ∨
  (x ≠ CmdOk ∧ (x = CmdExit 1 ∨ untouched reqs)).
Proof.
  unfold cmdWrite.
  destruct (Parse write_flags args) as [p|e] eqn:Ep; [|right; split; [done|by right; constructor]].
  destruct p.2 as [|target data] eqn:E2; [right; split; [done|by right; constructor]|].
  destruct (resolveWriteBody _ _ _ _ _) as [body|e] eqn:Eb; [|right; split; [done|by right; constructor]].
  assert (∀ out : list request * cmd_result,
    (let '(reqs, x) := out in (x = CmdOk ∧ written p target body reqs) ∨ (x ≠ CmdOk ∧ (x = CmdExit 1 ∨ untouched reqs))) →
    let '(reqs, x) := out in
    (x = CmdOk ∧ ∃ p' target data body, Ok (E := flag_error) p = Ok p' ∧ p'.2 = target :: data ∧
       (let f := string_flag B"input-file" [] p' in resolveWriteBody f (file f) data stdinIsTTY stdin = Ok body) ∧
       written p' target body reqs) ∨
    (x ≠ CmdOk ∧ (x = CmdExit 1 ∨ untouched reqs))) as Hwrap.
  { intros [reqs x] [(-> & H)|H]; [left|by right]. split; [done|]. by exists p, target, data, body. }
  apply Hwrap. destruct (remote_flag L os p) as [[r|]|e] eqn:Er; [| |right; split; [done|by right; constructor]].
  - apply (write_send _ p target body); [done..|]. intros sock path Hr. unfold reaches. rewrite Er. intros Hk.
    by apply (route_remote _ _ _ _ _ target _ B"pty/input") in Hr as (_ & H); [|done|apply input_route].
  - unfold writeLocal. destruct (store_resolve L os (state_dir_flag os p) target) as [st|e] eqn:E; [|right; split; [done|by right; constructor]].
    apply (write_send _ p target body); [done..|]. intros sock path [= <- _]. unfold reaches. rewrite Er. by eauto.
Qed.
End write.

(** ** Examples *)

Definition ex_libs : host_libs :=
  mkLibs (λ s, s) (λ s, s) (λ _, 15) (λ _, Some (mkUrl B"ssh" B"h" None B"h" [])) (λ _, []) ex_unmarshal (λ _, [B"s"]).

Definition ex_disk : world := so_before ex_clone_os.

Definition ex_verb_os (answer : request → option reply) : verb_os :=
  mkVerbOS [] None false (DirEntries [(B"src", true)]) ex_disk false (λ _ _, FzfFailed) None answer.

(** A session on the remote, with a foreground group. *)
Definition ex_peers (sock : gostring) : option (option (res io_error Z * (Z → res io_error unit)) * option (Z * signal_answer)) :=
  if bool_decide (sock = B"/s/src/rpc.sock") then Some (Some (Ok 42, λ _, Ok tt), None) else None.

Definition ex_kill_answer (r : request) : option reply * list delivered :=
  kill_answer ex_libs ex_serve (DirEntries [(B"src", true)]) ex_disk ex_peers r.

Definition ex_kill_args : list gostring := [B"--remote"; B"h"; B"--strict"; B"-s"; B"TERM"; B"src"].

(** Once with its reply, once without. *)
Lemma kill_delivers_witness :
  (let '(reqs, x) := cmdKill ex_libs (ex_verb_os (λ r, (ex_kill_answer r).1)) ex_kill_args in
   x = CmdOk ∧ ∃ d, concat ((λ r, (ex_kill_answer r).2) <$> reqs) = [d]) ∧
  (let '(reqs, x) := cmdKill ex_libs (ex_verb_os (λ r, if bool_decide (rq_Method r = POST) then None else (ex_kill_answer r).1)) ex_kill_args in
   exit_status x = 1 ∧ ∃ d, concat ((λ r, (ex_kill_answer r).2) <$> reqs) = [d]).
Proof.
  assert (∀ ans, (∀ r, ans r = (ex_kill_answer r).1 ∨ ans r = None) →
    (∃ d, concat ((λ r, (ex_kill_answer r).2) <$> (cmdKill ex_libs (ex_verb_os ans) ex_kill_args).1) = [d]) ∨
    concat ((λ r, (ex_kill_answer r).2) <$> (cmdKill ex_libs (ex_verb_os ans) ex_kill_args).1) = []) as H.
  { intros ans Hans. assert (∀ r, hears ex_libs (ex_verb_os ans) ex_serve (DirEntries [(B"src", true)]) ex_disk ex_peers r) as Hw
      by (intros r; destruct (Hans r) as [E|E]; [left|right; left]; exact E).
    pose proof (kill_delivers ex_libs (ex_verb_os ans) ex_serve (DirEntries [(B"src", true)]) ex_disk ex_peers Hw ex_kill_args) as H.
    destruct (cmdKill _ _ _) as [reqs x].
    destruct H as [(_ & p & sig & key & _ & _ & _ & sock & pty & child & d & _ & _ & Hd & _)|
                   [(_ & p & sig & key & _ & _ & _ & sock & pty & child & d & _ & _ & Hd & _)|[_ Hn]]];
      [left; by exists d|left; by exists d|right; exact Hn]. }
  split.
  - specialize (H (λ r, (ex_kill_answer r).1) (λ r, or_introl eq_refl)).
    destruct (cmdKill _ _ _) as [reqs x] eqn:E. vm_compute in E. injection E as <- <-. split; [reflexivity|].
    destruct H as [H|H]; [exact H|vm_compute in H; discriminate H].
  - specialize (H (λ r, if bool_decide (rq_Method r = POST) then None else (ex_kill_answer r).1)
      ltac:(intros r; cbn beta; destruct (bool_decide _); [right|left]; reflexivity)).
    destruct (cmdKill _ _ _) as [reqs x] eqn:E. vm_compute in E. injection E as <- <-. split; [reflexivity|].
    destruct H as [H|H]; [exact H|vm_compute in H; discriminate H].
Defined.

Definition ex_tty : LibghosttyPTY tape :=
  mkPty (Some []) None (PrimaryFilter.ground false) (sink []) 80 24 ∅ ∅ None false.

Definition ex_write_answer (r : request) : option reply * list (gostring * LibghosttyPTY tape) :=
  write_answer ex_libs ex_serve (DirEntries [(B"src", true)]) ex_disk
    (λ sock, if bool_decide (sock = B"/s/src/rpc.sock") then Some ex_tty else None) r.

Definition ex_write_args : list gostring := [B"src"; B"ls\r"].

Lemma write_delivers_witness :
  let '(reqs, x) := cmdWrite ex_libs (ex_verb_os (λ r, (ex_write_answer r).1)) (λ _, Err BodyOpen) true (Err BodyRead) ([B"--state-dir"; B"/s"] ++ ex_write_args) in
  x = CmdOk ∧ ∃ sock pty', concat ((λ r, (ex_write_answer r).2) <$> reqs) = [(sock, pty')].
Proof.
  pose proof (write_delivers ex_libs (ex_verb_os (λ r, (ex_write_answer r).1)) ex_serve (DirEntries [(B"src", true)]) ex_disk
    (λ sock, if bool_decide (sock = B"/s/src/rpc.sock") then Some ex_tty else None) (λ r, eq_refl)
    (λ _, Err BodyOpen) true (Err BodyRead) ([B"--state-dir"; B"/s"] ++ ex_write_args)) as H.
  assert ((cmdWrite ex_libs (ex_verb_os (λ r, (ex_write_answer r).1)) (λ _, Err BodyOpen) true (Err BodyRead)
    ([B"--state-dir"; B"/s"] ++ ex_write_args)).2 = CmdOk) as E by (vm_compute; reflexivity).
  destruct (cmdWrite _ _ _ _ _ _) as [reqs x]. cbn [snd] in E. split; [exact E|].
  destruct H as [(_ & p & target & data & body & _ & _ & _ & sock & pty & pty' & _ & _ & Hc & _)|[Hx _]];
    [exists sock, pty'; exact Hc|]. destruct (Hx E).
Defined.
