(* ===== verification/Launch.v ===== *)
(** * [hoot run], [shell], [clone], [attach], [log], [install-remote]

    The subcommands that start or join a session, as functions of the command
    line and of what the outside answers.  The attach loop itself is
    [AttachClient.runAttachLoop]; here it is what it was called with, and its
    answer. *)
From S2P Require Import Prelude GoBase QueryStripper PrimaryFilter Utf8 Wire State Paths Terminal Recorder FrameDecoder Replay GoStrings Ssh Bootstrap Cli ShortId Store Hud Restorer AttachClient Main Flags Spawn Http Serve Picker Verbs.
Open Scope Z_scope.

(** ** What the outside answers *)

(** [localAttachTarget] and [remoteAttachTarget]: whom to dial, and the label. *)
Inductive target := LocalTarget (sock key : gostring) | RemoteTarget (url display key : gostring).

Definition target_key (t : target) : gostring := match t with LocalTarget _ key => key | RemoteTarget _ _ key => key end.
Definition target_label (t : target) : attachLabel :=
  match t with LocalTarget _ key => mkLabel key B"local" | RemoteTarget _ display key => mkLabel key display end.

(** The arguments of [runAttachLoop]. *)
Record attach_call := mkAttachCall {
  ac_Target : target; ac_Prefix : byte; ac_Reconnect : bool; ac_HUD : gostring; ac_Restorer : gostring
}.

(** The outside as a verb finds it ([lo_verb]) and as it is once a session was
    started ([lo_then]); the process, the environment, the terminal (its size, if
    there is one), and the attach loop: its exit code, and whether it returned an
    error too. *)
Record launch_os := mkLaunchOS {
  lo_verb : verb_os; lo_then : verb_os; lo_spawn : spawn_os; lo_wd : option gostring;
  lo_env : gostring → option gostring; lo_file : gostring → option gostring;
  lo_term : option (Z * Z); lo_attach : attach_call → Z * bool
}.

Inductive launch_event :=
| LSpawn (evs : list spawn_event) | LRequest (r : request) | LPrint (line : gostring) | LAttach (c : attach_call).

Section launch.
Context (L : host_libs) (os : launch_os) (rand_Read : nat → nat → res io_error (list byte)).

Abbreviation vo := (lo_verb os).
Definition env_value (name : gostring) : gostring := default [] (lo_env os name).

(** *** Attaching *)

Definition localAttachTarget (stateDir key : gostring) : target := LocalTarget (rpc_sock stateDir key) key.
Definition remoteAttachTarget (r : remote) (key : gostring) : target :=
  RemoteTarget (attach_raw_url key) (remote_display L r) key.

Definition loadSessionMeta (now : verb_os) (remote : option remote) (stateDir key : gostring) : option SessionWithMeta :=
  match remote with
  | Some _ =>
      match loadSessionList (hl_unmarshal L) (pk_remote (pick_os_of L now remote)) (hl_path L stateDir) (vo_entries now) (vo_world now) with
      | None => None
      | Some states => List.find (has_key key) states
      end
  | None =>
      match Load (hl_unmarshal L) (hl_path L stateDir) key (vo_world now) with
      | Err _ => None
      | Ok st => Some (mkMeta (Some st) (IsAlive (hl_path L stateDir) key (vo_world now)) B"local")
      end
  end.

Definition loadHUDLine (now : verb_os) (remote : option remote) (stateDir key : gostring) : gostring :=
  match loadSessionMeta now remote stateDir key with None => [] | Some sm => FormatHUD (vo_HOME now) sm end.

(** The call every verb ends with, and the verb's result. *)
Definition attach_result (c : attach_call) : cmd_result :=
  let '(code, err) := lo_attach os c in if negb (code =? 0) || err then CmdExit code else CmdOk.

Definition join_session (before : list launch_event) (o : attachOptions) (remote : option remote) (stateDir key : gostring)
  : list launch_event * cmd_result :=
  let c := match remote with
           | Some r => mkAttachCall (remoteAttachTarget r key) (PrefixByte o) (negb (NoReconnect o)) (loadHUDLine (lo_then os) remote stateDir key) (RestorerName o)
           | None => mkAttachCall (localAttachTarget stateDir key) (PrefixByte o) false (loadHUDLine (lo_then os) None stateDir key) (RestorerName o)
           end in
  (before ++ [LAttach c], attach_result c).

(** ** [hoot attach]: the call, and its exit code *)

Definition attach_flags : flagset :=
  [(B"remote", FValue); (B"state-dir", FValue); (B"no-reconnect", FBool); (B"prefix-key", FValue); (B"strict", FBool); (B"restorer", FValue)].

Definition cmdAttach (now : verb_os) (args : list gostring) : option attach_call * Z :=
  match Parse attach_flags args with
  | Err _ => (None, 2)
  | Ok p =>
      if (1 <? length p.2)%nat then (None, 2)
      else match errIfNestedHootSession (env_value hootSessionEnv) with
           | Some _ => (None, 2)
           | None =>
               match attachOptionsFromFlags (string_flag B"prefix-key" B"C-^" p) (bool_flag B"no-reconnect" p) (string_flag B"restorer" B"hoot" p) with
               | Err _ => (None, 2)
               | Ok o =>
                   match remote_flag L now p with
                   | Err _ => (None, 2)
                   | Ok remote =>
                       let stateDir := state_dir_flag now p in
                       match resolve_key L now (default [] (head p.2)) (bool_flag B"strict" p) stateDir remote (mkPicker B"attach" true) with
                       | Err code => (None, code)
                       | Ok key =>
                           let t := match remote with Some r => remoteAttachTarget r key | None => localAttachTarget stateDir key end in
                           let c := mkAttachCall t (PrefixByte o)
                                      (match remote with Some _ => negb (NoReconnect o) | None => false end)
                                      (loadHUDLine now remote stateDir key) (RestorerName o) in
                           (Some c, (lo_attach os c).1)
                       end
                   end
               end
           end
  end.

(** ** [hoot run], [hoot shell] *)

Definition run_flags : flagset :=
  [(B"state-dir", FValue); (B"key", FValue); (B"remote", FValue); (B"attach", FBool); (B"no-reconnect", FBool);
   (B"prefix-key", FValue); (B"cwd", FValue); (B"no-history", FBool); (B"env", FValue); (B"env-file", FValue)].

Definition env_overrides (p : parsed) : res env_error (gmap gostring gostring) :=
  parseEnvOverrides ((λ f, (f, lo_file os f)) <$> values B"env-file" p) (values B"env" p) (lo_env os).

(** The key of a new session: a new id, or the one asked for if it is free. *)
Definition free_key (stateDir asked : gostring) : option gostring :=
  let dir := hl_path L stateDir in
  match asked with
  | [] => match generateKey (hl_unmarshal L) rand_Read dir (vo_entries vo) (vo_world vo) with Ok k => Some k | Err _ => None end
  | _ => if IsAlive dir asked (vo_world vo) then None else Some asked
  end.

(** The size asked of the PTY. *)
Definition spawn_size : Z * Z := default (80, 24) (lo_term os).

(** A session started on the remote: its key. *)
Definition create_remote (body : createSessionReq) : request * option gostring :=
  let r := mkRequest None POST B"/sessions" [] (QCreate body) in
  (r, match vo_answer vo r with
      | Some (mkReply 201 (BSession st _)) =>
          match ss_Key (sf_Session st) with [] => None | key => Some key end
      | _ => None
      end).

Definition cmdRun (args : list gostring) : list launch_event * cmd_result :=
  match Parse run_flags args with
  | Err _ => ([], CmdError)
  | Ok p =>
      match p.2 with
      | [] => ([], CmdError)
      | rest =>
          let attach := bool_flag B"attach" p in
          if attach && negb (bool_decide (errIfNestedHootSession (env_value hootSessionEnv) = None)) then ([], CmdError)
          else
            match attachOptionsFromFlags (string_flag B"prefix-key" B"C-^" p) (bool_flag B"no-reconnect" p) B"hoot",
                  env_overrides p, resolveRunCWD (lo_wd os) (string_flag B"cwd" [] p), remote_flag L vo p with
            | Ok o, Ok env, Some cwd, Ok remote =>
                let stateDir := state_dir_flag vo p in
                let key := string_flag B"key" [] p in
                let noHistory := bool_flag B"no-history" p in
                match remote with
                | Some _ =>
                    let '(r, answer) := create_remote (mkCreate [] rest key (string_flag B"cwd" [] p) env noHistory) in
                    match answer with
                    | None => ([LRequest r], CmdError)
                    | Some sessionKey =>
                        if attach then join_session [LRequest r] o remote stateDir sessionKey
                        else ([LRequest r; LPrint sessionKey], CmdOk)
                    end
                | None =>
                    match free_key stateDir key with
                    | None => ([], CmdError)
                    | Some key =>
                        let '(evs, sock) := spawnSessionFromSpec stateDir key
                          (mkSpec rest cwd env spawn_size.1 spawn_size.2 noHistory) (lo_spawn os) in
                        match sock with
                        | Err _ => ([LSpawn evs], CmdError)
                        | Ok _ =>
                            if attach then join_session [LSpawn evs] o None stateDir key
                            else ([LSpawn evs; LPrint key], CmdOk)
                        end
                    end
                end
            | _, _, _, _ => ([], CmdError)
            end
      end
  end.

Definition shell_flags : flagset :=
  [(B"state-dir", FValue); (B"key", FValue); (B"remote", FValue); (B"no-reconnect", FBool); (B"prefix-key", FValue)].

Definition cmdShell (args : list gostring) : list launch_event * cmd_result :=
  match Parse shell_flags args with
  | Err _ => ([], CmdError)
  | Ok p =>
      match p.2 with
      | _ :: _ => ([], CmdError)
      | [] =>
          match errIfNestedHootSession (env_value hootSessionEnv),
                attachOptionsFromFlags (string_flag B"prefix-key" B"C-^" p) (bool_flag B"no-reconnect" p) B"hoot",
                remote_flag L vo p with
          | None, Ok o, Ok remote =>
              let stateDir := state_dir_flag vo p in
              let key := string_flag B"key" [] p in
              match remote with
              | Some _ =>
                  let '(r, answer) := create_remote (mkCreate [] [] key [] ∅ false) in
                  match answer with
                  | None => ([LRequest r], CmdError)
                  | Some sessionKey => join_session [LRequest r] o remote stateDir sessionKey
                  end
              | None =>
                  match free_key stateDir key, lo_wd os with
                  | Some key, Some cwd =>
                      let '(evs, sock) := spawnSessionFromSpec stateDir key
                        (mkSpec [resolveDefaultShell (env_value B"SHELL")] cwd ∅ spawn_size.1 spawn_size.2 false) (lo_spawn os) in
                      match sock with
                      | Err _ => ([LSpawn evs], CmdError)
                      | Ok _ => join_session [LSpawn evs] o None stateDir key
                      end
                  | _, _ => ([], CmdError)
                  end
              end
          | _, _, _ => ([], CmdError)
          end
      end
  end.

(** ** [hoot clone] *)

Definition clone_flags : flagset :=
  [(B"state-dir", FValue); (B"key", FValue); (B"remote", FValue); (B"attach", FBool); (B"detach", FBool); (B"strict", FBool);
   (B"env", FValue); (B"env-file", FValue)].

Definition cloneSessionRemote (sourceQuery newKey : gostring) (env : gmap gostring gostring) : request * option gostring :=
  let r := mkRequest None POST (session_url sourceQuery [B"clone"]) [] (QClone newKey env) in
  (r, match vo_answer vo r with
      | Some (mkReply 201 (BSession st _)) =>
          match ss_Key (sf_Session st) with [] => None | key => Some key end
      | _ => None
      end).

(** The [clone] of an attach target, behind the prefix key: the request, and the
    target the client goes on with.  Locally it is the session's own [/clone],
    with an empty object. *)
Definition cloneLocalSession (stateDir key : gostring) : request * option gostring :=
  let r := mkRequest (Some (rpc_sock stateDir key)) POST B"/clone" [] (QClone [] ∅) in
  (r, match vo_answer vo r with
      | Some (mkReply 201 (BSession st _)) =>
          match ss_Key (sf_Session st) with [] => None | key => Some key end
      | _ => None
      end).

Definition localTarget_clone (stateDir key : gostring) : request * option target :=
  let '(r, k) := cloneLocalSession stateDir key in (r, localAttachTarget stateDir <$> k).

Definition remoteTarget_clone (rm : remote) (key : gostring) : request * option target :=
  let '(r, k) := cloneSessionRemote key [] ∅ in (r, remoteAttachTarget rm <$> k).

(** The key printed, and the attach that may follow. *)
Definition clone_done (before : list launch_event) (attach : bool) (key : gostring) (attach_args : list gostring)
  : list launch_event * cmd_result :=
  let out := before ++ [LPrint key] in
  if attach then
    let '(c, code) := cmdAttach (lo_then os) attach_args in
    (out ++ match c with Some c => [LAttach c] | None => [] end, if code =? 0 then CmdOk else CmdError)
  else (out, CmdOk).

Definition cmdClone (args : list gostring) : list launch_event * cmd_result :=
  match Parse clone_flags args with
  | Err _ => ([], CmdError)
  | Ok p =>
      let attach := bool_flag B"attach" p in
      if (1 <? length p.2)%nat || (attach && bool_flag B"detach" p) then ([], CmdError)
      else
        match env_overrides p, remote_flag L vo p with
        | Ok env, Ok remote =>
            let stateDir := state_dir_flag vo p in
            let key := string_flag B"key" [] p in
            match resolve_key L vo (default [] (head p.2)) (bool_flag B"strict" p) stateDir remote (mkPicker B"clone" true) with
            | Err code => ([], CmdExit code)
            | Ok source =>
                match remote with
                | Some _ =>
                    let '(r, answer) := cloneSessionRemote source key env in
                    match answer with
                    | None => ([LRequest r], CmdError)
                    | Some k => clone_done [LRequest r] attach k [B"--remote"; string_flag B"remote" [] p; k]
                    end
                | None =>
                    let '(evs, answer) := cloneSession (hl_unmarshal L) (hl_ToLower L) rand_Read
                      (mkServe (hl_path L stateDir) stateDir) source key env
                      (mkServeOS (vo_entries vo) (vo_world vo) (vo_world (lo_then os)) [] (lo_wd os) (lo_spawn os)) in
                    match answer with
                    | Err _ => ([LSpawn evs], CmdError)
                    | Ok (st, _) => clone_done [LSpawn evs] attach (ss_Key (sf_Session st))
                                      [B"--state-dir"; stateDir; ss_Key (sf_Session st)]
                    end
                end
            end
        | _, _ => ([], CmdError)
        end
  end.
End launch.

(** ** [hoot log] *)

Definition log_flags : flagset := [(B"state-dir", FValue); (B"format", FValue); (B"output", FValue); (B"strict", FBool); (B"all", FBool)].

(** What is run: [runLogAsciinema] or [runLogReplay], on which recording. *)
Inductive log_job := JobAsciinema (logPath statePath : gostring) (out : log_output) | JobReplay (logPath : gostring) (f : ReplayFormat) (out : log_output).

Section log.
Context (L : host_libs) (os : verb_os) (current : gostring).
Context (abs : gostring → res io_error gostring) (stat : gostring → stat_result) (open_ : gostring → res io_error unit).

(** [run]: whether the job ends without an error. *)
Definition cmdLog (run : log_job → bool) (args : list gostring) : option log_job * cmd_result :=
  match Parse log_flags args with
  | Err _ => (None, CmdExit 2)
  | Ok p =>
      if (1 <? length p.2)%nat then (None, CmdExit 2)
      else match resolveLogFormat (vo_tty os) (string_flag B"format" [] p) with
           | None => (None, CmdExit 2)
           | Some format =>
               let stateDir := state_dir_flag os p in
               let outputPath := string_flag B"output" [] p in
               match resolve_key L os (default [] (head p.2)) (bool_flag B"strict" p) stateDir None (mkPicker B"log" (negb (bool_flag B"all" p))) with
               | Err code => (None, CmdExit code)
               | Ok key =>
                   match errIfSelfLogSession current key outputPath with
                   | Some _ => (None, CmdExit 2)
                   | None =>
                       let logPath := path_Join [stateDir; key; B"pty.hootty.log"] in
                       match logOutputWriter abs stat open_ logPath outputPath with
                       | OutputIsSource => (None, CmdExit 2)
                       | OutputErr _ => (None, CmdError)
                       | out =>
                           let job := if bool_decide (format = B"asciinema")
                                      then JobAsciinema logPath (path_Join [stateDir; key; B"state.json"]) out
                                      else JobReplay logPath (if bool_decide (format = B"plain") then ReplayFormatPlain else ReplayFormatVT) out in
                           (Some job, if run job then CmdOk else CmdError)
                       end
                   end
               end
           end
  end.
End log.

(** ** [hoot install-remote] *)

Definition parseSSHTarget (Parse : gostring → option url) (raw : gostring) : option (gostring * gostring * gostring) :=
  let raw := if has_scheme raw then raw else B"ssh://" ++ raw in
  match Parse raw with
  | None => None
  | Some u =>
      if negb (bool_decide (u_Scheme u = B"ssh")) then None
      else match u_Hostname u with
           | [] => None
           | host => Some (default [] (u_User u), host, u_Port u)
           end
  end.

Definition install_flags : flagset := [(B"version", FValue); (B"upload", FBool); (B"from-file", FValue); (B"install-dir", FValue)].

(** The options handed to [bootstrap.Install]; [None] is a usage error. *)
Definition install_options (Parse_url : gostring → option url) (Version : gostring) (args : list gostring) : option Options :=
  match Parse install_flags args with
  | Err _ => None
  | Ok p =>
      match p.2 with
      | [raw] =>
          match parseSSHTarget Parse_url raw with
          | None => None
          | Some (user, host, port) =>
              let fromFile := string_flag B"from-file" [] p in
              let upload := bool_flag B"upload" p in
              let asked := string_flag B"version" [] p in
              let opts mode version := Some (mkInstall user host port mode version fromFile (string_flag B"install-dir" [] p)) in
              let versioned mode :=
                match asked with
                | [] => if bool_decide (Version = B"dev") then None else opts mode Version
                | _ => opts mode asked
                end in
              match fromFile with
              | _ :: _ => if upload then None else opts ModeFromFile asked
              | [] => versioned (if upload then ModeUpload else ModeAuto)
              end
          end
      | _ => None
      end
  end.

Definition cmdInstallRemote (Parse_url : gostring → option url) (Version : gostring) (run : install_action → bool) (args : list gostring)
  : option install_action * cmd_result :=
  match install_options Parse_url Version args with
  | None => (None, CmdError)
  | Some o => match Install o with
              | Err _ => (None, CmdError)
              | Ok a => (Some a, if run a then CmdOk else CmdError)
              end
  end.

(** What the options name is there: the installation is never refused for a
    missing version, tarball or host. *)
Lemma install_options_ok Parse_url Version args o :
  Version ≠ [] → install_options Parse_url Version args = Some o → is_ok (Install o) = true.
Proof.
  intros HV. unfold install_options. destruct (Parse _ _) as [p|]; [|done]. destruct p.2 as [|raw [|]]; try done.
  destruct (parseSSHTarget _ _) as [[[user host] port]|] eqn:E; [|done].
  assert (host ≠ []) as Hh.
  { unfold parseSSHTarget in E. destruct (Parse_url _); [|done]. destruct (negb _); [done|]. by repeat case_match; simplify_eq. }
  cbv zeta. destruct (string_flag B"from-file" [] p) as [|b f].
  - destruct (string_flag B"version" [] p) as [|v asked]; [destruct (bool_decide _); [done|]|];
      destruct (bool_flag _ _); intros [= <-]; unfold Install; cbn; by destruct host, Version.
  - destruct (bool_flag _ _); intros [= <-]. unfold Install; cbn; by destruct host.
Qed.

(** ** [hoot run] starts what it was given *)

Section run.
Context (L : host_libs) (os : launch_os) (rand_Read : nat → nat → res io_error (list byte)).
Hypothesis rand_fills : ∀ k n bs, rand_Read k n = Ok bs → length bs = n ∧ bytes_ok bs.

Abbreviation vo := (lo_verb os).

(** The state directory of a local run, as [Serve.launched] reads it. *)
Definition local_serve (p : parsed) : serveState := mkServe (hl_path L (state_dir_flag vo p)) (state_dir_flag vo p).
Definition local_os : serve_os := mkServeOS (vo_entries vo) (vo_world vo) (vo_world (lo_then os)) [] (lo_wd os) (lo_spawn os).

Lemma free_key_new stateDir asked key :
  free_key L os rand_Read stateDir asked = Some key →
  new_key (hl_unmarshal L) (hl_path L stateDir) (vo_entries vo) (vo_world vo) asked key ∧
  (asked ≠ [] → IsAlive (hl_path L stateDir) key (vo_world vo) = false).
Proof.
  unfold free_key. destruct asked as [|b asked].
  - destruct (generateKey _ _ _ _ _) as [k|e] eqn:E; [|done]. intros [= <-]. split; [|done].
    by apply (generateKey_new _ _ rand_fills).
  - destruct (IsAlive _ (b :: asked) _) eqn:Ea; [done|]. by intros [= <-].
Qed.

(** The last event: the key printed, or the session joined. *)
Definition ends_with (attach : bool) (key : gostring) (l : list launch_event) : Prop :=
  if attach then ∃ c, l = [LAttach c] ∧ target_key (ac_Target c) = key else l = [LPrint key].

Lemma last_event (attach : bool) ev o remote stateDir key evs x :
  (if attach then join_session L os [ev] o remote stateDir key else ([ev; LPrint key], CmdOk)) = (evs, x) →
  ∃ l, evs = ev :: l ∧ ends_with attach key l.
Proof.
  destruct attach; intros [= <- _]; eexists; (split; [done|]); [|done].
  eexists. split; [done|]. by destruct remote.
Qed.

(** The session of a local run: under the key asked for, which was free, or a
    fresh id. *)
Definition run_local (p : parsed) (env : gmap gostring gostring) (evs : list launch_event) : Prop :=
  ∃ cwd key sevs sock l, resolveRunCWD (lo_wd os) (string_flag B"cwd" [] p) = Some cwd ∧
    evs = LSpawn sevs :: l ∧ ends_with (bool_flag B"attach" p) key l ∧
    launched (hl_unmarshal L) (local_serve p) local_os (string_flag B"key" [] p) key p.2 cwd env (bool_flag B"no-history" p) sevs sock ∧
    (string_flag B"key" [] p ≠ [] → IsAlive (hl_path L (state_dir_flag vo p)) key (vo_world vo) = false).

(** The session of a remote run, when [hoot serve] answered the request. *)
Definition run_remote (p : parsed) (env : gmap gostring gostring) (evs : list launch_event) : Prop :=
  ∃ body key l, evs = LRequest (mkRequest None POST B"/sessions" [] (QCreate body)) :: l ∧
    ends_with (bool_flag B"attach" p) key l ∧
    ∀ s ros, vo_answer vo (mkRequest None POST B"/sessions" [] (QCreate body)) =
        Some (createSession (hl_unmarshal L) rand_Read s (Some body) ros).2 →
      ∃ cwd st sock, resolveServeCWD (so_wd ros) (string_flag B"cwd" [] p) = Some cwd ∧ key = ss_Key (sf_Session st) ∧
        started (hl_unmarshal L) s ros (string_flag B"key" [] p) p.2 cwd env (bool_flag B"no-history" p)
          (createSession (hl_unmarshal L) rand_Read s (Some body) ros).1 st sock.

Lemma create_remote_key body r key :
  create_remote os body = (r, Some key) →
  r = mkRequest None POST B"/sessions" [] (QCreate body) ∧ ∃ st sock,
    vo_answer vo r = Some (mkReply 201 (BSession st sock)) ∧ key = ss_Key (sf_Session st).
Proof.
  unfold create_remote. intros [= <- H]. split; [done|].
  destruct (vo_answer vo _) as [[code body']|]; [|done]. repeat case_match; simplify_eq. eexists _, _. by split.
Qed.

(** A remote that answers is one whose [createSession] started the session. *)
Lemma remote_started body a argv s ros :
  cr_Argv body = argv → argv ≠ [] →
  (createSession (hl_unmarshal L) rand_Read s (Some body) ros).2 = a → rp_status a = 201 →
  ∃ cwd st sock, resolveServeCWD (so_wd ros) (cr_CWD body) = Some cwd ∧ rp_body a = BSession st sock ∧
    started (hl_unmarshal L) s ros (cr_Key body) argv cwd (cr_Env body) (cr_NoHistory body)
      (createSession (hl_unmarshal L) rand_Read s (Some body) ros).1 st sock.
Proof.
  intros Ha Hn Er E. pose proof (createSession_cases (hl_unmarshal L) _ rand_fills s (Some body) ros) as H.
  destruct (createSession _ _ _ _ _) as [evs r]. cbn [fst snd] in *. subst r. rewrite E in H.
  destruct H as (b & argv' & cwd & st & sock & [= <-] & Hv & Hc & Hs & Hb).
  exists cwd, st, sock. split; [done|]. split; [done|]. unfold create_argv in Hv. rewrite Ha in Hv.
  destruct argv; [done|]. by injection Hv as <-.
Qed.

(** C17: [hoot run] starts what it was given.  When it succeeds, locally or on a
    remote whose [hoot serve] answered, a session was started whose process runs
    exactly the arguments after the flags, in the directory and with the overrides
    and the history flag asked for, under the key asked for, which was free, or a
    fresh id; the last thing done is to print that key, or with [--attach] to
    attach to it. *)
Theorem run_starts args evs :
  cmdRun L os rand_Read args = (evs, CmdOk) →
  ∃ p env, Parse run_flags args = Ok p ∧ env_overrides os p = Ok env ∧
    match remote_flag L vo p with
    | Ok None => run_local p env evs
    | Ok (Some _) => run_remote p env evs
    | Err _ => False
    end.
Proof.
  unfold cmdRun. destruct (Parse run_flags args) as [p|e] eqn:Ep; [|done].
  destruct p.2 as [|a argv] eqn:E2; [done|]. destruct (_ && _); [done|].
  destruct (attachOptionsFromFlags _ _ _) as [o|e]; [|done]. destruct (env_overrides os p) as [env|e] eqn:Ee; [|done].
  destruct (resolveRunCWD _ _) as [cwd|] eqn:Ec; [|done]. destruct (remote_flag L vo p) as [[r|]|e] eqn:Er; [| |done].
  - destruct (create_remote _ _) as [rq answer] eqn:Ea. destruct answer as [key|]; [|done].
    intros H. exists p, env. split; [done|]. split; [done|]. rewrite Er. apply create_remote_key in Ea as (-> & st & sock & Ea & ->).
    apply last_event in H as (l & -> & Hl). eexists _, _, l. split; [done|]. split; [exact Hl|]. intros s ros E.
    rewrite Ea in E. injection E as E.
    destruct (remote_started
      (mkCreate [] (a :: argv) (string_flag B"key" [] p) (string_flag B"cwd" [] p) env (bool_flag B"no-history" p)) (mkReply 201 (BSession st sock)) (a :: argv) s ros) as (cwd' & st' & sock' & H1 & H2 & H3); [done|done|by symmetry|done|].
    injection H2 as <- <-. exists cwd', st, sock. rewrite E2. by split.
  - destruct (free_key _ _ _ _ _) as [key|] eqn:Ek; [|done]. apply free_key_new in Ek as [Hk Ha].
    destruct (spawnSessionFromSpec _ _ _ _) as [sevs [sock|]] eqn:Es; [|done]. intros H.
    exists p, env. split; [done|]. split; [done|]. rewrite Er.
    apply last_event in H as (l & -> & Hl).
    exists cwd, key, sevs, sock, l. rewrite E2. do 3 (split; [done|]). split; [|done].
    by eapply (spawn_launched _ (local_serve p) local_os).
Qed.
End run.

Definition ex_host : host_libs := mkLibs (λ s, s) (λ s, s) (λ _, 15) (λ _, None) (λ _, []) ex_unmarshal (λ _, [B"s"]).

Definition ex_outside (w : world) : verb_os :=
  mkVerbOS [] (Some B"/home/al") false DirNotExist w false (λ _ _, FzfFailed) None (λ _, None).

Definition ex_launch : launch_os :=
  mkLaunchOS (ex_outside (mkWorld ∅ ∅ ∅)) (ex_outside ex_after) ex_os (Some B"/home/al") (λ _, None) (λ _, None) None (λ _, (0, false)).

Lemma run_starts_witness :
  ∃ p key, Parse run_flags [B"--key"; B"k3x"; B"--"; B"vi"; B"--attach"] = Ok p ∧ p.2 = [B"vi"; B"--attach"] ∧
    ∃ sevs, (cmdRun ex_host ex_launch count_rand [B"--key"; B"k3x"; B"--"; B"vi"; B"--attach"]).1 = [LSpawn sevs; LPrint key].
Proof.
  destruct (cmdRun ex_host ex_launch count_rand [B"--key"; B"k3x"; B"--"; B"vi"; B"--attach"]) as [evs x] eqn:E.
  assert ((cmdRun ex_host ex_launch count_rand [B"--key"; B"k3x"; B"--"; B"vi"; B"--attach"]).2 = CmdOk) as Ex
    by (vm_compute; reflexivity).
  rewrite E in Ex. cbn [snd] in Ex. subst x.
  destruct (run_starts ex_host ex_launch count_rand count_rand_fills _ evs E) as (p & env & Ep & _ & H).
  assert (Parse run_flags [B"--key"; B"k3x"; B"--"; B"vi"; B"--attach"] = Ok ([(B"key", B"k3x")], [B"vi"; B"--attach"])) as Ep'
    by (vm_compute; reflexivity).
  rewrite Ep' in Ep. injection Ep as <-. destruct H as (cwd & key & sevs & sock & l & _ & -> & Hl & _).
  change (l = [LPrint key]) in Hl. subst l.
  exists ([(B"key", B"k3x")], [B"vi"; B"--attach"]), key. split; [reflexivity|]. split; [reflexivity|].
  exists sevs. reflexivity.
Defined.
