(* ===== verification/Tail.v ===== *)
(** * [tailfile.go], [poll.go]: waiting for a file and for a condition

    [TailFile] and [Poll] are driven by a ticker: a run is what each tick finds.
    The clock is an argument. *)
From S2P Require Import Prelude GoBase State.
Open Scope Z_scope.

(** ** [TailFile] *)

(** What a tick finds: [os.Open] and [Stat] first (the size), then what a read
    from the offset on sees of the file at that moment. *)
Inductive tail_tick :=
| TickNotExist | TickOpenErr | TickStatErr
| TickFile (size : nat) (content : list byte) (seekErr readErr : bool) (now : Z).

Inductive tail_error := TailOpen | TailStat | TailSeek | TailRead.
Inductive tail_call := OnGrow (bs : list byte) | OnIdle (idle : Z).

Record tail := mkTail { tl_offset : nat; tl_lastGrowth : Z; tl_calls : list tail_call }.

(** [io.ReadFull] of [n] bytes at [offset]: what it got; a short read is
    [ErrUnexpectedEOF], none at all is [EOF]. *)
Definition read_at (offset n : nat) (content : list byte) : list byte := take n (drop offset content).

(** One tick; [idle] says whether [onIdle] is set. *)
Definition tail_step (idle : bool) (t : tail_tick) (s : tail) : res tail_error tail :=
  match t with
  | TickNotExist => Ok s
  | TickOpenErr => Err TailOpen
  | TickStatErr => Err TailStat
  | TickFile size content seekErr readErr now =>
      if (tl_offset s <? size)%nat then
        if (seekErr : bool) then Err TailSeek else
        let buf := read_at (tl_offset s) (size - tl_offset s) content in
        if (readErr : bool) then Err TailRead
        else match buf with
             | [] => Err TailRead
             | _ => Ok (mkTail (tl_offset s + length buf) now (tl_calls s ++ [OnGrow buf]))
             end
      else Ok (if (idle : bool) then mkTail (tl_offset s) (tl_lastGrowth s) (tl_calls s ++ [OnIdle (now - tl_lastGrowth s)]) else s)
  end.

(** The ticks until the context is cancelled. *)
Fixpoint tail_run (idle : bool) (ticks : list tail_tick) (s : tail) : res tail_error tail :=
  match ticks with
  | [] => Ok s
  | t :: ticks' => match tail_step idle t s with Err e => Err e | Ok s' => tail_run idle ticks' s' end
  end.

Definition TailFile (idle : bool) (start : Z) (ticks : list tail_tick) : res tail_error tail :=
  tail_run idle ticks (mkTail 0 start []).

(** ** [Poll] *)

Inductive poll_result (A : Type) := PollGot (v : A) | PollErr | PollTimeout | PollRunning.
Arguments PollGot {A}. Arguments PollErr {A}. Arguments PollTimeout {A}. Arguments PollRunning {A}.

(** [fn k] is the [k]th call: an error, no value yet, or the value; [clock k] the
    time at the [k]th tick.  The fuel bounds the ticks. *)
Fixpoint poll_loop {A} (fuel : nat) (deadline : Z) (clock : nat → Z) (fn : nat → option (option A)) (k : nat) : poll_result A :=
  match fuel with
  | O => PollRunning
  | S fuel' =>
      if deadline <? clock k then PollTimeout
      else match fn (S k) with
           | None => PollErr
           | Some (Some v) => PollGot v
           | Some None => poll_loop fuel' deadline clock fn (S k)
           end
  end.

Definition Poll {A} (fuel : nat) (start timeout : Z) (clock : nat → Z) (fn : nat → option (option A)) : poll_result A :=
  match fn 0%nat with
  | None => PollErr
  | Some (Some v) => PollGot v
  | Some None => poll_loop fuel (start + timeout) clock fn 0
  end.

(** ** What the callback sees *)

Definition grown (calls : list tail_call) : list byte :=
  concat ((λ c, match c with OnGrow bs => bs | OnIdle _ => [] end) <$> calls).

(** Ticks on a file that only grows: each finds a continuation of what the last
    one found, at least as long as the size it was told. *)
Fixpoint appending (seen : list byte) (ticks : list tail_tick) : Prop :=
  match ticks with
  | [] => True
  | TickFile size content seekErr readErr _ :: ticks' =>
      seekErr = false ∧ readErr = false ∧ seen `prefix_of` content ∧ (length seen <= size <= length content)%nat ∧
      appending (take size content) ticks'
  | TickNotExist :: ticks' => seen = [] ∧ appending [] ticks'
  | _ => False
  end.

(** The contents by the sizes reported. *)
Fixpoint reported (seen : list byte) (ticks : list tail_tick) : list byte :=
  match ticks with
  | [] => seen
  | TickFile size content _ _ _ :: ticks' => reported (take size content) ticks'
  | _ :: ticks' => reported seen ticks'
  end.

Lemma grown_app a b : grown (a ++ b) = grown a ++ grown b.
Proof. unfold grown. by rewrite fmap_app, concat_app. Qed.

Lemma tail_run_appending idle ticks seen last calls :
  appending seen ticks → grown calls = seen →
  ∃ s, tail_run idle ticks (mkTail (length seen) last calls) = Ok s ∧
    tl_offset s = length (reported seen ticks) ∧ grown (tl_calls s) = reported seen ticks.
Proof.
  revert seen last calls. induction ticks as [|t ticks IH]; intros seen last calls Ha Hg; [by eexists|].
  destruct t as [| | |size content seekErr readErr now]; try done; cbn [appending reported tail_run tail_step tl_offset] in *.
  { destruct Ha as [-> Ha]. by apply IH. }
  destruct Ha as (-> & -> & [rest ->] & Hs & Ha).
  destruct (Nat.ltb_spec (length seen) size) as [Hl|Hl].
  - assert (read_at (length seen) (size - length seen) (seen ++ rest) = take (size - length seen) rest) as ->
      by (unfold read_at; by rewrite drop_app_length).
    assert (take size (seen ++ rest) = seen ++ take (size - length seen) rest) as E by (rewrite take_app; by rewrite take_ge by lia).
    rewrite E in Ha. rewrite E. rewrite length_app in Hs.
    destruct (take (size - length seen) rest) as [|b bs] eqn:Et.
    { apply (f_equal length) in Et. rewrite length_take in Et. cbn in Et. lia. }
    rewrite <- length_app. apply IH; [done|]. cbn [tl_calls]. rewrite grown_app, Hg. unfold grown. cbn. by rewrite app_nil_r.
  - assert (take size (seen ++ rest) = seen) as E by (replace size with (length seen) by lia; by rewrite take_app_length).
    rewrite E in *. destruct idle; cbn [tl_calls tl_lastGrowth tl_offset]; apply IH; try done.
    rewrite grown_app, Hg. unfold grown. cbn. by rewrite app_nil_r.
Qed.

(** Tailing a file.  On a file that only grows, whatever grows while it is
    read: the bytes handed to [onGrow], in one piece, are exactly the contents up
    to the last size seen, in order, none twice and none left out, and the loop
    does not stop by itself. *)
Theorem TailFile_exact idle start ticks :
  appending [] ticks → ∃ s, TailFile idle start ticks = Ok s ∧
    grown (tl_calls s) = reported [] ticks ∧ tl_offset s = length (reported [] ticks).
Proof.
  intros H. destruct (tail_run_appending idle ticks [] start [] H eq_refl) as (s & E & Ho & Hg).
  exists s. by split_and!.
Qed.

Definition ex_ticks : list tail_tick :=
  [TickNotExist; TickFile 2 [1; 2; 3] false false 10; TickFile 3 [1; 2; 3] false false 20; TickFile 3 [1; 2; 3; 4] false false 30].

Lemma TailFile_exact_witness : ∃ s, TailFile true 0 ex_ticks = Ok s ∧ grown (tl_calls s) = [1; 2; 3].
Proof.
  destruct (TailFile_exact true 0 ex_ticks) as (s & E & Hg & _); [|exists s; split; [exact E|exact Hg]].
  repeat split; try (by apply prefix_nil); try (by eexists); cbn; lia.
Defined.

(** A file truncated and written again: the new bytes before the old length are
    never seen, and the rest is taken for a continuation. *)
Lemma tail_truncated :
  grown <$> (match TailFile false 0 [TickFile 3 [1; 2; 3] false false 1; TickFile 1 [9] false false 2; TickFile 4 [9; 8; 7; 6] false false 3] with
             | Ok s => Some (tl_calls s) | Err _ => None end) = Some [1; 2; 3; 6].
Proof. reflexivity. Qed.

(** ** [Poll] returns *)

(** It never waits past the first tick after the deadline, and a value or an
    error is that of its last call. *)
Lemma poll_loop_exact {A} fuel deadline clock (fn : nat → option (option A)) k :
  (∃ n, (k <= n < k + fuel)%nat ∧ deadline < clock n) →
  match poll_loop fuel deadline clock fn k with
  | PollGot v => ∃ n, (k < n)%nat ∧ fn n = Some (Some v) ∧ ∀ j, (k < j < n)%nat → fn j = Some None
  | PollErr => ∃ n, (k < n)%nat ∧ fn n = None
  | PollTimeout => ∃ n, (k <= n)%nat ∧ deadline < clock n ∧ ∀ j, (k < j <= n)%nat → fn j = Some None
  | PollRunning => False
  end.
Proof.
  revert k. induction fuel as [|fuel IH]; intros k (n & Hn & Hd); [lia|]. cbn [poll_loop].
  destruct (Z.ltb_spec deadline (clock k)) as [Hk|Hk]; [exists k; split_and!; [lia|done|lia]|].
  destruct (fn (S k)) as [[v|]|] eqn:E; [exists (S k); split_and!; [lia|done|lia]| |exists (S k); split; [lia|done]].
  assert (n ≠ k) by (intros ->; lia). specialize (IH (S k)). destruct (poll_loop _ _ _ _ _).
  - destruct IH as (m & Hm & Ev & Hj); [exists n; split; [lia|done]|]. exists m. split_and!; [lia|done|].
    intros j Hj'. destruct (decide (j = S k)) as [->|]; [done|apply Hj; lia].
  - destruct IH as (m & Hm & Ev); [exists n; split; [lia|done]|]. exists m. split; [lia|done].
  - destruct IH as (m & Hm & Ev & Hj); [exists n; split; [lia|done]|]. exists m. split_and!; [lia|done|].
    intros j Hj'. destruct (decide (j = S k)) as [->|]; [done|apply Hj; lia].
  - destruct IH; exists n; split; [lia|done].
Qed.
