(* ===== verification/Socket.v ===== *)
(** * [session.go], [serve_bridge.go], [attach.go]: sockets with long paths

    A unix socket's path has about a hundred bytes.  For a longer one the program
    changes into the directory and uses the bare name: [listenUnixRelative],
    [dialSock] and [dialUnixSock].  The working directory belongs to the whole
    process, so the first two hold [chdirMu]; [dialUnixSock] does not.  The
    goroutines of a process are a step relation over that directory. *)
From S2P Require Import Prelude GoBase State Paths GoStrings Spawn.
Open Scope Z_scope.

(** ** One call *)

(** What the system answers: to [net.Listen] or [Dial] on the path given, to
    [Getwd], to [Chdir] there, and on the relative name. *)
Record dance_answers := mkDance { da_direct : bool; da_getwd : option gostring; da_chdir : bool; da_relative : bool }.

Inductive dance_event := Direct (path : gostring) | Chdir (dir : gostring) | RemoveStale (path : gostring) | Relative (name : gostring).

(** [dialSock] and [dialUnixSock]; [dirname] and [base] are [filepath.Dir] and
    [filepath.Base]. *)
Definition dialSock (dirname base : gostring → gostring) (sockPath : gostring) (a : dance_answers) : list dance_event * bool :=
  if da_direct a then ([Direct sockPath], true)
  else match da_getwd a with
       | None => ([Direct sockPath], false)
       | Some cwd =>
           if negb (da_chdir a) then ([Direct sockPath; Chdir (dirname sockPath)], false)
           else ([Direct sockPath; Chdir (dirname sockPath); Relative (base sockPath); Chdir cwd], da_relative a)
       end.

Definition listenUnixRelative (stateDir : gostring) (a : dance_answers) : list dance_event * bool :=
  match da_getwd a with
  | None => ([], false)
  | Some cwd =>
      if negb (da_chdir a) then ([Chdir stateDir], false)
      else ([Chdir stateDir; RemoveStale B"rpc.sock"; Relative B"rpc.sock"; Chdir cwd], da_relative a)
  end.

Definition listenSocket (stateDir : gostring) (a : dance_answers) : list dance_event * bool :=
  let sockPath := path_Join [stateDir; B"rpc.sock"] in
  let before := [RemoveStale sockPath; Direct sockPath] in
  if da_direct a then (before, true)
  else if 100 <=? Z.of_nat (length sockPath) then
    let '(evs, ok) := listenUnixRelative stateDir a in (before ++ evs, ok)
  else (before, false).

(** The working directory after the events; a directory that was there stays. *)
Definition cwd_after (cwd : gostring) (evs : list dance_event) : gostring :=
  foldl (λ c e, match e with Chdir d => d | _ => c end) cwd evs.

(** Whatever the system answers, a call that could change directory changes
    back. *)
Lemma dance_returns dirname base sockPath a cwd :
  da_getwd a = Some cwd → da_chdir a = true →
  cwd_after cwd (dialSock dirname base sockPath a).1 = cwd ∧
  ∀ stateDir, cwd_after cwd (listenSocket stateDir a).1 = cwd.
Proof.
  intros Hg Hc. unfold dialSock, listenSocket, listenUnixRelative. rewrite Hg, Hc.
  split; [by destruct (da_direct a)|]. intros d. destruct (da_direct a); [done|]. by destruct (100 <=? _).
Qed.

(** ** The upgrade *)

(** What the peer answers to the upgrade request: the status and what was read
    past the header ([None]: the connection failed). *)
Record upgrade_answer := mkUpgrade { up_status : Z; up_body : list byte; up_buffered : nat }.

Inductive upgrade_error := UpIO | UpBuffered (n : nat) | UpExit2 (msg : gostring) | UpRefused (status : Z).

(** The client's: it reads frames with another reader, so nothing may have been
    read ahead. *)
Definition upgradeAttachConn (a : option upgrade_answer) : res upgrade_error unit :=
  match a with
  | None => Err UpIO
  | Some a =>
      if up_status a =? 101 then (if (0 <? up_buffered a)%nat then Err (UpBuffered (up_buffered a)) else Ok tt)
      else if (up_status a =? 404) || (up_status a =? 409) then Err (UpExit2 (TrimSpace (up_body a)))
      else Err (UpRefused (up_status a))
  end.

(** [localDialer] and [dialAttachRaw]: connect, upgrade, and close on failure
    (the flag). *)
Definition dial_upgraded (connected : bool) (a : option upgrade_answer) : res upgrade_error unit * bool :=
  if negb connected then (Err UpIO, false)
  else match upgradeAttachConn a with Ok _ => (Ok tt, false) | Err e => (Err e, true) end.

(** The bridge's, which keeps its reader. *)
Definition dialAttach (connected : bool) (a : option upgrade_answer) : res upgrade_error nat * bool :=
  if negb connected then (Err UpIO, false)
  else match a with
       | None => (Err UpIO, true)
       | Some a => if up_status a =? 101 then (Ok (up_buffered a), false) else (Err (UpRefused (up_status a)), true)
       end.

(** A connection that is kept was upgraded, and no byte of its frames is lost; one
    that failed is closed. *)
Lemma dial_upgraded_spec connected a :
  match dial_upgraded connected a with
  | (Ok _, closed) => closed = false ∧ ∃ b, a = Some (mkUpgrade 101 b 0)
  | (Err _, closed) => closed = connected
  end.
Proof.
  unfold dial_upgraded, upgradeAttachConn. destruct connected; [|done]. cbn [negb].
  destruct a as [[st b n]|]; [|done]. cbn [up_status up_buffered].
  destruct (Z.eqb_spec st 101) as [->|]; [|by destruct (_ || _)]. destruct n; [|done]. split; [done|]. by exists b.
Qed.

(** ** Goroutines *)

(** Where a goroutine is between the failed direct attempt and its return:
    [where] is the directory in which the kernel resolved the name. *)
Inductive dance_pc :=
| DStart | DLocked | DSaved (orig : gostring) | DMoved (orig : gostring) | DBound (orig where_ : gostring) | DDone (where_ : option gostring).

(** A goroutine: the directory of its socket, whether it takes [chdirMu]. *)
Record dancer := mkDancer { dn_dir : gostring; dn_locks : bool; dn_pc : dance_pc }.

Record process := mkProcess { pr_cwd : gostring; pr_mu : option nat; pr_dancers : gmap nat dancer }.

Section dance.
Context (is_dir : gostring → bool).

Definition at_pc_ (pc : dance_pc) (d : dancer) : dancer := mkDancer (dn_dir d) (dn_locks d) pc.

Definition release (d : dancer) (mu : option nat) : option nat := if dn_locks d then None else mu.

Inductive dance_step : process → process → Prop :=
| ds_lock i d cwd l : l !! i = Some d → dn_pc d = DStart → dn_locks d = true →
    dance_step (mkProcess cwd None l) (mkProcess cwd (Some i) (<[i := at_pc_ DLocked d]> l))
| ds_nolock i d cwd mu l : l !! i = Some d → dn_pc d = DStart → dn_locks d = false →
    dance_step (mkProcess cwd mu l) (mkProcess cwd mu (<[i := at_pc_ DLocked d]> l))
| ds_getwd i d cwd mu l : l !! i = Some d → dn_pc d = DLocked →
    dance_step (mkProcess cwd mu l) (mkProcess cwd mu (<[i := at_pc_ (DSaved cwd) d]> l))
| ds_getwd_err i d cwd mu l : l !! i = Some d → dn_pc d = DLocked →
    dance_step (mkProcess cwd mu l) (mkProcess cwd (release d mu) (<[i := at_pc_ (DDone None) d]> l))
| ds_chdir i d orig cwd mu l : l !! i = Some d → dn_pc d = DSaved orig → is_dir (dn_dir d) = true →
    dance_step (mkProcess cwd mu l) (mkProcess (dn_dir d) mu (<[i := at_pc_ (DMoved orig) d]> l))
| ds_chdir_err i d orig cwd mu l : l !! i = Some d → dn_pc d = DSaved orig → is_dir (dn_dir d) = false →
    dance_step (mkProcess cwd mu l) (mkProcess cwd (release d mu) (<[i := at_pc_ (DDone None) d]> l))
| ds_relative i d orig cwd mu l : l !! i = Some d → dn_pc d = DMoved orig →
    dance_step (mkProcess cwd mu l) (mkProcess cwd mu (<[i := at_pc_ (DBound orig cwd) d]> l))
| ds_back i d orig w cwd mu l : l !! i = Some d → dn_pc d = DBound orig w →
    dance_step (mkProcess cwd mu l)
      (mkProcess (if is_dir orig then orig else cwd) (release d mu) (<[i := at_pc_ (DDone (Some w)) d]> l)).

(** A process: goroutines that have not started, in its own directory. *)
Definition dance_start (home : gostring) (p : process) : Prop :=
  pr_cwd p = home ∧ pr_mu p = None ∧ map_Forall (λ _ d, dn_pc d = DStart) (pr_dancers p).

(** *** With the lock *)

Section locked.
Context (home : gostring) (Hhome : is_dir home = true).

(** What a goroutine knows of the process. *)
Definition dancer_ok (cwd : gostring) (mu : option nat) (i : nat) (d : dancer) : Prop :=
  match dn_pc d with
  | DStart | DDone None => mu ≠ Some i
  | DDone (Some w) => mu ≠ Some i ∧ w = dn_dir d
  | DLocked => mu = Some i ∧ cwd = home
  | DSaved orig => mu = Some i ∧ cwd = home ∧ orig = home
  | DMoved orig => mu = Some i ∧ cwd = dn_dir d ∧ orig = home
  | DBound orig w => mu = Some i ∧ cwd = dn_dir d ∧ orig = home ∧ w = dn_dir d
  end.

Definition dance_inv (p : process) : Prop :=
  map_Forall (λ _ d, dn_locks d = true) (pr_dancers p) ∧
  (pr_mu p = None → pr_cwd p = home) ∧
  map_Forall (dancer_ok (pr_cwd p) (pr_mu p)) (pr_dancers p).

(** The others keep what they know when one moves that holds, takes or gives
    back the lock. *)
Lemma others_ok cwd mu cwd' mu' (l : gmap nat dancer) i d' :
  map_Forall (dancer_ok cwd mu) l → dancer_ok cwd' mu' i d' →
  (mu = None ∨ mu = Some i) → (mu' = None ∨ mu' = Some i) →
  map_Forall (dancer_ok cwd' mu') (<[i := d']> l).
Proof.
  intros H Hd Hm Hm'. apply map_Forall_lookup. intros j d. destruct (decide (i = j)) as [->|Hj].
  - rewrite lookup_insert_eq. by intros [= <-].
  - rewrite lookup_insert_ne by done. intros Hl. specialize (H j d Hl). unfold dancer_ok in *.
    destruct (dn_pc d) as [| | | | |[w|]]; destruct Hm as [->| ->], Hm' as [->| ->]; naive_solver congruence.
Qed.

Lemma locks_insert (l : gmap nat dancer) i d d' :
  map_Forall (λ _ d, dn_locks d = true) l → l !! i = Some d → dn_locks d' = dn_locks d →
  map_Forall (λ _ d, dn_locks d = true) (<[i := d']> l).
Proof. intros H Hl E. apply map_Forall_insert_2; [|done]. rewrite E. by eapply H. Qed.

Lemma dance_step_inv p p' : dance_inv p → dance_step p p' → dance_inv p'.
Proof.
  intros (Hk & Hm & Hd) Hs. assert (∀ i d, pr_dancers p !! i = Some d → dn_locks d = true ∧ dancer_ok (pr_cwd p) (pr_mu p) i d) as H
    by (intros i d Hl; split; [by eapply Hk|by eapply Hd]).
  inversion Hs as [i d cwd l Hl Hp Hlk|i d cwd mu l Hl Hp Hlk|i d cwd mu l Hl Hp|i d cwd mu l Hl Hp|i d orig cwd mu l Hl Hp Hdir
    |i d orig cwd mu l Hl Hp Hdir|i d orig cwd mu l Hl Hp|i d orig w cwd mu l Hl Hp]; subst; cbn [pr_cwd pr_mu pr_dancers] in *;
    destruct (H i d Hl) as [Hld Hok]; try congruence; (split; [by eapply locks_insert|]);
    unfold dancer_ok in Hok; rewrite Hp in Hok; unfold release; rewrite ?Hld;
    repeat match goal with X : _ ∧ _ |- _ => destruct X end; subst;
    (split; [first [done | by rewrite ?Hhome | naive_solver]|]);
    (eapply others_ok; [exact Hd| unfold dancer_ok; cbn; rewrite ?Hhome | by auto | by auto]).
  all: try done. split; [done|by apply Hm].
Qed.

(** The holder is one of the goroutines. *)
Definition held_by (p : process) : Prop := ∀ i, pr_mu p = Some i → is_Some (pr_dancers p !! i).

Lemma dance_step_held p p' : held_by p → dance_step p p' → held_by p'.
Proof.
  unfold held_by. intros H Hs j Hj. inversion Hs; subst; cbn [pr_mu pr_dancers] in *;
    apply lookup_insert_is_Some'; first [left; congruence | right; apply H; unfold release in Hj; by repeat case_match].
Qed.

Lemma dance_start_inv p :
  dance_start home p → map_Forall (λ _ d, dn_locks d = true) (pr_dancers p) → dance_inv p.
Proof.
  intros (Hc & Hm & Hs) Hk. split; [done|]. split; [done|]. intros i d Hl.
  unfold dancer_ok. rewrite (Hs i d Hl), Hm. done.
Qed.

(** The detour through a directory is safe among those who lock.  In a
    process whose goroutines all hold [chdirMu] around it ([dialSock],
    [listenUnixRelative]), however many and however they are scheduled: each
    resolves the bare name in its own directory, whenever the lock is free the
    working directory is the one the process started in, and it is so again when
    all have returned. *)
Theorem chdir_dance p0 p :
  dance_start home p0 → map_Forall (λ _ d, dn_locks d = true) (pr_dancers p0) → rtc dance_step p0 p →
  (pr_mu p = None → pr_cwd p = home) ∧
  map_Forall (λ _ d, ∀ w, dn_pc d = DDone (Some w) → w = dn_dir d) (pr_dancers p) ∧
  (map_Forall (λ _ d, ∃ w, dn_pc d = DDone w) (pr_dancers p) → pr_cwd p = home).
Proof.
  intros H0 Hk Hr. assert (dance_inv p ∧ held_by p) as [(_ & Hm & Hd) Hmu].
  { assert (dance_inv p0) as Hi by by apply dance_start_inv.
    assert (held_by p0) as Hh by (intros i E; destruct H0 as (_ & Hn & _); congruence).
    clear H0 Hk. induction Hr as [|x y z Hxy _ IH]; [done|]. apply IH; [by eapply dance_step_inv|by eapply dance_step_held]. }
  split; [done|]. split.
  - intros i d Hl w Hw. specialize (Hd i d Hl). unfold dancer_ok in Hd. rewrite Hw in Hd. by destruct Hd.
  - intros Hall. apply Hm. destruct (pr_mu p) as [i|] eqn:E; [|done]. destruct (Hmu i E) as [d Hl].
    specialize (Hd i d Hl). destruct (Hall i d Hl) as [w Hw]. unfold dancer_ok in Hd. rewrite Hw in Hd.
    destruct w; naive_solver.
Qed.
End locked.

(** *** Without *)

(** Another goroutine, meanwhile, sees the detour: [resolveServeCWD] of [hoot
    serve] reads the working directory without the lock. *)
Lemma cwd_read_race home dir :
  is_dir dir = true →
  ∃ p, rtc dance_step (mkProcess home None (<[0%nat := mkDancer dir true DStart]> ∅)) p ∧
    resolveServeCWD (Some (pr_cwd p)) [] = Some dir.
Proof.
  intros Hd. eexists. split.
  - eapply rtc_l; [eapply (ds_lock 0%nat); [apply lookup_insert_eq|done|done]|]. rewrite insert_insert_eq.
    eapply rtc_l; [eapply (ds_getwd 0%nat); [apply lookup_insert_eq|done]|]. rewrite insert_insert_eq.
    eapply rtc_l; [eapply (ds_chdir 0%nat); [apply lookup_insert_eq|done|done]|]. apply rtc_refl.
  - done.
Qed.

(** Two goroutines in [dialUnixSock]: the first resolves its name in the other's
    directory, the other in the process's, and the process stays where it should not
    be. *)
Lemma unlocked_dance_wrong home a b :
  is_dir home = true → is_dir a = true → is_dir b = true →
  ∃ p, rtc dance_step (mkProcess home None (<[0%nat := mkDancer a false DStart]> (<[1%nat := mkDancer b false DStart]> ∅))) p ∧
    pr_cwd p = a ∧ pr_dancers p !! 0%nat = Some (mkDancer a false (DDone (Some b))) ∧
    pr_dancers p !! 1%nat = Some (mkDancer b false (DDone (Some home))).
Proof.
  intros Hh Ha Hb.
  assert (∀ d0 d1, (<[1%nat := d1]> (<[0%nat := d0]> ∅) : gmap nat dancer) = <[0%nat := d0]> (<[1%nat := d1]> ∅)) as Hc
    by (intros; by rewrite insert_insert_ne).
  eexists. split.
  - eapply rtc_l; [eapply (ds_nolock 0%nat); [apply lookup_insert_eq|done|done]|]. rewrite insert_insert_eq.
    eapply rtc_l; [eapply (ds_getwd 0%nat); [apply lookup_insert_eq|done]|]. rewrite insert_insert_eq.
    eapply rtc_l; [eapply (ds_chdir 0%nat); [apply lookup_insert_eq|done|done]|]. rewrite insert_insert_eq.
    rewrite <- Hc.
    eapply rtc_l; [eapply (ds_nolock 1%nat); [apply lookup_insert_eq|done|done]|]. rewrite insert_insert_eq.
    eapply rtc_l; [eapply (ds_getwd 1%nat); [apply lookup_insert_eq|done]|]. rewrite insert_insert_eq.
    eapply rtc_l; [eapply (ds_chdir 1%nat); [apply lookup_insert_eq|done|done]|]. rewrite insert_insert_eq, Hc.
    eapply rtc_l; [eapply (ds_relative 0%nat); [apply lookup_insert_eq|done]|]. rewrite insert_insert_eq.
    eapply rtc_l; [eapply (ds_back 0%nat); [apply lookup_insert_eq|done]|]. rewrite insert_insert_eq, Hh.
    rewrite <- Hc.
    eapply rtc_l; [eapply (ds_relative 1%nat); [apply lookup_insert_eq|done]|]. rewrite insert_insert_eq.
    eapply rtc_l; [eapply (ds_back 1%nat); [apply lookup_insert_eq|done]|]. rewrite insert_insert_eq.
    apply rtc_refl.
  - cbn [pr_cwd pr_dancers dn_dir at_pc_]. rewrite Ha. split_and!; [done|by rewrite Hc, lookup_insert_eq|by rewrite lookup_insert_eq].
Qed.
End dance.

Definition ex_dancers : process := mkProcess B"/home" None (<[0%nat := mkDancer B"/deep/s" true DStart]> ∅).

(** One dial, from its start to its return. *)
Lemma chdir_dance_witness :
  ∃ p, rtc (dance_step (λ _, true)) ex_dancers p ∧
    pr_dancers p !! 0%nat = Some (mkDancer B"/deep/s" true (DDone (Some B"/deep/s"))) ∧ pr_cwd p = B"/home".
Proof.
  assert (∃ p, rtc (dance_step (λ _, true)) ex_dancers p ∧
    p = mkProcess B"/home" None (<[0%nat := mkDancer B"/deep/s" true (DDone (Some B"/deep/s"))]> ∅)) as (p & Hr & Hp).
  { eexists. split; [|reflexivity]. unfold ex_dancers.
    eapply rtc_l; [eapply (ds_lock _ 0%nat); [apply lookup_insert_eq|done|done]|]. rewrite insert_insert_eq.
    eapply rtc_l; [eapply (ds_getwd _ 0%nat); [apply lookup_insert_eq|done]|]. rewrite insert_insert_eq.
    eapply rtc_l; [eapply (ds_chdir _ 0%nat); [apply lookup_insert_eq|done|done]|]. rewrite insert_insert_eq.
    eapply rtc_l; [eapply (ds_relative _ 0%nat); [apply lookup_insert_eq|done]|]. rewrite insert_insert_eq.
    eapply rtc_l; [eapply (ds_back _ 0%nat); [apply lookup_insert_eq|done]|]. rewrite insert_insert_eq. apply rtc_refl. }
  exists p. split; [exact Hr|]. split; [by rewrite Hp|].
  refine (proj1 (chdir_dance (λ _, true) B"/home" eq_refl ex_dancers p _ _ Hr) _).
  - split; [reflexivity|]. split; [reflexivity|]. by apply map_Forall_insert_2; [|apply map_Forall_empty].
  - by apply map_Forall_insert_2; [|apply map_Forall_empty].
  - by rewrite Hp.
Defined.
