(* ===== verification/Words.v ===== *)
(** * [splitCmd] and the POSIX shell

    [hoot serve] splits the [cmd] of [POST /sessions] with its own tokenizer.
    [splitCmd_posix] compares it with the token recognition of a POSIX shell
    ([Ssh.lex]). *)
From S2P Require Import Prelude GoBase Utf8 State Ssh Serve.
Open Scope Z_scope.

(** The text of a word: its characters, quoted or not. *)
Definition shchar_byte (c : shchar) : byte := match c with Act c | Lit c => c end.
Definition word_text (w : list shchar) : gostring := shchar_byte <$> w.

Definition is_word (t : shtoken) : bool := match t with TWord _ => true | TOp _ => false end.
Definition token_texts (ts : list shtoken) : list gostring :=
  ts ≫= λ t, match t with TWord [] => [] | TWord w => [word_text w] | TOp _ => [] end.

Definition words_only (ts : list shtoken) : Prop := Forall (λ t, is_word t = true) ts.

Definition quote_of (m : lex_mode) : option rune :=
  match m with MUnquoted => Some 0 | MSingle => Some sq | MDouble => Some 34 | _ => None end.

(** The two readers side by side. *)
Record same_split (s : splitter) (l : lexer) : Prop := mkSame {
  same_quote : quote_of (lx_mode l) = Some (spl_quote s);
  same_word : of_runes (spl_cur s) = word_text (default [] (lx_word l));
  same_words : spl_out s = token_texts (lx_tokens l)
}.

Lemma of_runes_snoc rs r : of_runes (rs ++ [r]) = of_runes rs ++ EncodeRune r.
Proof. unfold of_runes. rewrite bind_app. cbn. by rewrite app_nil_r. Qed.

Lemma of_runes_nil rs : of_runes rs = [] → rs = [].
Proof.
  destruct rs as [|r rs]; [done|]. cbn. intros [H _]%app_eq_nil. pose proof (EncodeRune_length r) as Hl. rewrite H in Hl. cbn in Hl. lia.
Qed.

Lemma word_text_app a b : word_text (a ++ b) = word_text a ++ word_text b.
Proof. apply fmap_app. Qed.

Lemma token_texts_app a b : token_texts (a ++ b) = token_texts a ++ token_texts b.
Proof. apply bind_app. Qed.

(** Ending the word under construction. *)
Lemma flush_same s l :
  same_split s l → lx_mode l = MUnquoted →
  spl_cur (spl_flush s) = [] ∧ spl_quote (spl_flush s) = spl_quote s ∧ spl_out (spl_flush s) = token_texts (end_word l).
Proof.
  intros [Hq Hw Ho] Hm. unfold spl_flush, end_word. rewrite token_texts_app, <- Ho.
  destruct (spl_cur s) as [|r cur] eqn:E.
  - split; [done|]. split; [done|]. cbn in Hw. destruct (lx_word l) as [[|c w]|]; cbn; [by rewrite app_nil_r|done|by rewrite app_nil_r].
  - split; [done|]. split; [done|]. cbn [spl_out]. rewrite Hw. destruct (lx_word l) as [[|c w]|]; cbn in Hw |- *; [|done|];
      by apply (of_runes_nil (r :: cur)) in Hw.
Qed.

(** Bytes above ASCII have no meaning to the shell. *)
Lemma high_neq b c : 128 <= b → c < 128 → (b =? c) = false.
Proof. intros. apply Z.eqb_neq. lia. Qed.

Lemma lex_high1 l b :
  lx_mode l ∈ [MUnquoted; MSingle; MDouble] → 128 <= b →
  ∃ c, shchar_byte c = b ∧ lex1 l b = Some (mkLexer (lx_mode l) (grow [c] l) (lx_tokens l)).
Proof.
  intros Hm Hb. unfold lex1, is_blank, is_operator. cbn [existsb].
  rewrite !elem_of_cons in Hm. destruct Hm as [Hm|[Hm|[Hm|Hm%elem_of_nil]]]; [..|done]; rewrite Hm;
    rewrite !high_neq by (done || (vm_compute; done)); cbn [orb andb]; [by exists (Act b)|by exists (Lit b)..].
Qed.

Lemma grow_grow cs c l m ts :
  grow cs (mkLexer m (grow [c] l) ts) = grow (c :: cs) l.
Proof. unfold grow. cbn. by rewrite <- app_assoc. Qed.

Lemma lex_high l bs :
  bs ≠ [] → lx_mode l ∈ [MUnquoted; MSingle; MDouble] → Forall (λ b, 128 <= b) bs →
  ∃ cs, word_text cs = bs ∧ lex_run l bs = Some (mkLexer (lx_mode l) (grow cs l) (lx_tokens l)).
Proof.
  intros Hn Hm H. revert l Hn Hm. induction H as [|b bs Hb H IH]; intros l Hn Hm; [done|].
  destruct (lex_high1 l b Hm Hb) as (c & <- & E1). cbn [lex_run]. rewrite E1.
  destruct bs as [|b' bs]; [by exists [c]|].
  destruct (IH (mkLexer (lx_mode l) (grow [c] l) (lx_tokens l)) ltac:(done) Hm) as (cs & Ecs & E2).
  exists (c :: cs). split; [by rewrite <- Ecs|]. rewrite E2. cbn [lx_mode lx_tokens]. by rewrite grow_grow.
Qed.

Lemma lex_run_tokens bs l l' : lex_run l bs = Some l' → lx_tokens l `prefix_of` lx_tokens l'.
Proof.
  revert l. induction bs as [|c bs IH]; intros l; cbn [lex_run]; [by intros [= ->]|].
  destruct (lex1 l c) as [l1|] eqn:E; [|done]. intros H%IH. etrans; [|exact H]. clear H IH.
  unfold lex1 in E. repeat case_match; simplify_eq/=; unfold end_word; by repeat (done || apply prefix_app_r).
Qed.

Lemma words_only_app a b : words_only (a ++ b) ↔ words_only a ∧ words_only b.
Proof. apply Forall_app. Qed.

(** One ASCII byte. *)
Lemma split_low_same s l r l' :
  0 <= r < 128 → r ≠ 92 → same_split s l → lex1 l r = Some l' → words_only (lx_tokens l') →
  same_split (split_rune s r) l'.
Proof.
  intros Hr H92 Hs E Hw. pose proof Hs as [Hq Ht Ho]. unfold lex1 in E.
  assert (∀ c, shchar_byte c = r → of_runes (spl_cur s ++ [r]) = word_text (default [] (grow [c] l))) as Hg.
  { intros c Eb. rewrite of_runes_snoc, Ht, EncodeRune_ascii by done. unfold grow. cbn [default from_option id].
    by rewrite word_text_app, <- Eb. }
  assert (of_runes (spl_cur s) = word_text (default [] (grow [] l))) as Hg0.
  { unfold grow. cbn [default from_option id]. by rewrite app_nil_r. }
  unfold split_rune. destruct (lx_mode l) eqn:Hm; cbn in Hq; [|done| | |done]; injection Hq as Hq; rewrite <- Hq.
  - change (negb (0 =? 0)) with false. cbn iota. destruct (flush_same s l Hs Hm) as (Hf1 & Hf2 & Hf3).
    unfold is_blank in E.
    destruct ((r =? 32) || (r =? 9)) eqn:Eb.
    { injection E as <-. assert (same_split (spl_flush s) (mkLexer MUnquoted None (end_word l))) as Hf
        by (constructor; [by rewrite Hf2, <- Hq|by rewrite Hf1|by rewrite Hf3]).
      apply orb_prop in Eb as [->%Z.eqb_eq| ->%Z.eqb_eq]; exact Hf. }
    destruct (is_operator r) eqn:Eo.
    { injection E as <-. cbn in Hw. apply words_only_app in Hw as [_ Hw]. by inversion Hw. }
    assert ((r =? 10) = false) as H10.
    { apply orb_false_elim in Eo as [? _]. done. }
    rewrite H10, orb_false_r, (orb_comm (r =? 34)). destruct (r =? sq) eqn:E1; [|destruct (r =? 34) eqn:E2]; cbn [orb].
    + injection E as <-. apply Z.eqb_eq in E1 as ->. by constructor.
    + injection E as <-. apply Z.eqb_eq in E2 as ->. by constructor.
    + rewrite (proj2 (Z.eqb_neq r 92)) in E by done. destruct (_ && _); [done|]. injection E as <-. constructor; [done|by apply Hg|done].
  - change (negb (sq =? 0)) with true. cbn iota. destruct (r =? sq); injection E as <-; constructor; try done; by apply Hg.
  - change (negb (34 =? 0)) with true. cbn iota. destruct (r =? 34); [injection E as <-; by constructor|].
    rewrite (proj2 (Z.eqb_neq r 92)) in E by done.
    destruct (_ || _); injection E as <-; constructor; try done; by apply Hg.
Qed.

(** One rune. *)
Lemma split_rune_same s l r l' :
  scalar r = true → r ≠ 92 → same_split s l → lex_run l (EncodeRune r) = Some l' → words_only (lx_tokens l') →
  same_split (split_rune s r) l'.
Proof.
  intros Hr H92 Hs E Hw. pose proof Hs as [Hq Ht Ho].
  assert (0 <= r) as H0. { unfold scalar, in_range in Hr. lia. }
  destruct (Z.ltb_spec r 128) as [Hlow|Hhigh].
  { rewrite EncodeRune_ascii in E by done. cbn [lex_run] in E. destruct (lex1 l r) as [l1|] eqn:E1; [|done].
    injection E as ->. by eapply split_low_same. }
  assert (lx_mode l ∈ [MUnquoted; MSingle; MDouble]) as Hm.
  { destruct (lx_mode l); cbn in Hq; [set_solver|done|set_solver|set_solver|done]. }
  destruct (lex_high l (EncodeRune r)) as (cs & Ecs & E2).
  { pose proof (EncodeRune_length r) as Hl. intros H. rewrite H in Hl. cbn in Hl. lia. }
  { done. }
  { apply Forall_forall. intros b Hb. apply (EncodeRune_high r); [by left|done]. }
  rewrite E in E2. injection E2 as ->.
  assert (of_runes (spl_cur s ++ [r]) = word_text (default [] (grow cs l))) as Hg.
  { rewrite of_runes_snoc, Ht. unfold grow. cbn [default from_option id]. by rewrite word_text_app, Ecs. }
  assert ((r =? spl_quote s) = false) as Eq.
  { apply Z.eqb_neq. destruct (lx_mode l); cbn in Hq; try done; injection Hq as <-; unfold sq; lia. }
  unfold split_rune. rewrite Eq, !(high_neq r) by (done || (vm_compute; done)). cbn [orb].
  by destruct (negb (spl_quote s =? 0)); constructor.
Qed.

Lemma split_runes_same rs s l l' :
  Forall (λ r, scalar r = true) rs → 92 ∉ rs → same_split s l →
  lex_run l (of_runes rs) = Some l' → words_only (lx_tokens l') → same_split (foldl split_rune s rs) l'.
Proof.
  intros Hr. revert s l. induction Hr as [|r rs Hr _ IH]; intros s l H92 Hs E Hw; [by injection E as <-|].
  change (of_runes (r :: rs)) with (EncodeRune r ++ of_runes rs) in E. rewrite lex_run_app in E.
  destruct (lex_run l (EncodeRune r)) as [l1|] eqn:E1; [|done]. apply not_elem_of_cons in H92 as [H92 Hrs].
  cbn [foldl]. apply (IH _ l1); [done| |done|done]. eapply split_rune_same; [done|done|done|exact E1|].
  destruct (lex_run_tokens _ _ _ E) as [k Hk]. rewrite Hk in Hw. by apply words_only_app in Hw as [? _].
Qed.

(** C40: [splitCmd] is the shell's tokenizer, less what it documents.  For any
    command of valid UTF-8 without a backslash that a POSIX shell reads as plain
    words (no operators, newlines or comments), [splitCmd] returns the texts of
    exactly those words, in order, quotes removed, except that a word quoted to
    be empty is lost; and it refuses a command the shell finds unterminated. *)
Theorem splitCmd_posix rs :
  Forall (λ r, scalar r = true) rs → 92 ∉ rs →
  (∀ words, lex (of_runes rs) = Some (TWord <$> words) →
     splitCmd (of_runes rs) = Ok (filter (λ w, w ≠ []) (word_text <$> words))) ∧
  (∀ l, lex_run new_lexer (of_runes rs) = Some l → words_only (lx_tokens l) → lx_mode l ≠ MUnquoted →
     ∃ q, splitCmd (of_runes rs) = Err q).
Proof.
  intros Hr H92. assert (same_split (mkSplit [] [] 0) new_lexer) as H0 by by constructor.
  unfold splitCmd. rewrite runes_of_runes by done. split.
  - intros words E. unfold lex in E. destruct (lex_run new_lexer (of_runes rs)) as [l|] eqn:El; [|done].
    destruct (lx_mode l) eqn:Em; simplify_eq.
    assert (words_only (end_word l)) as Hw. { rewrite E. apply Forall_forall. by intros t (w & -> & _)%list_elem_of_fmap. }
    assert (same_split (foldl split_rune (mkSplit [] [] 0) rs) l) as Hs.
    { eapply split_runes_same; [done|done|exact H0|done|]. unfold end_word in Hw. by apply words_only_app in Hw as [? _]. }
    destruct (flush_same _ _ Hs Em) as (_ & _ & Hf). destruct Hs as [Hq _ _]. rewrite Em in Hq. injection Hq as <-.
    change (negb (0 =? 0)) with false. cbn iota. rewrite Hf, E. f_equal. clear.
    induction words as [|[|c w] words IH]; [done|exact IH|]. cbn. f_equal. exact IH.
  - intros l El Hw Hm. assert (same_split (foldl split_rune (mkSplit [] [] 0) rs) l) as [Hq _ _]
      by (by eapply split_runes_same).
    destruct (lx_mode l); cbn in Hq; try done; injection Hq as <-; by eexists.
Qed.

Definition ex_cmd : gostring := B"sh -c 'a|b' " ++ [34; 34] ++ B" x".

Lemma splitCmd_posix_witness : splitCmd ex_cmd = Ok [B"sh"; B"-c"; B"a|b"; B"x"].
Proof.
  assert (of_runes ex_cmd = ex_cmd) as E by reflexivity.
  destruct (splitCmd_posix ex_cmd) as [H _]; [..|rewrite E in H].
  - apply (bool_decide_unpack _). vm_compute. exact I.
  - apply (bool_decide_unpack _). vm_compute. exact I.
  - rewrite (H [Act <$> B"sh"; Act <$> B"-c"; Lit <$> B"a|b"; []; Act <$> B"x"]); vm_compute; reflexivity.
Defined.
