(* ===== verification/Bridge.v ===== *)
(** * [cmd/hoot/serve_bridge.go]: the browser's WebSocket

    [handleAttach] joins a WebSocket to a session's attach connection with two
    pumps: frames of the session become binary messages ([pumpUpstreamToWS]),
    messages of the browser become frames ([pumpWSToUpstream]).  The WebSocket
    library is outside the repository: a socket is the messages written to it and
    how many more it takes, and what its reader delivers.  JSON is a parameter. *)
From S2P Require Import Prelude GoBase Wire State Paths.
Open Scope Z_scope.

(** ** The socket *)

(** [ws_room] is the number of messages it still takes; [None] is no limit. *)
Record websocket := mkWS { ws_sent : list (list byte); ws_room : option nat }.

Definition ws_write (m : list byte) (ws : websocket) : bool * websocket :=
  match ws_room ws with
  | Some O => (false, ws)
  | Some (S n) => (true, mkWS (ws_sent ws ++ [m]) (Some n))
  | None => (true, mkWS (ws_sent ws ++ [m]) None)
  end.

Inductive ws_message := MessageBinary (data : list byte) | MessageText (data : list byte).

Inductive bridge_error :=
| BrRead (e : wire_error) | BrWSWrite | BrWSRead | BrWrite (e : wire_error) | BrUnexpected (typ : Z) | BrUnknown (typ : Z).

(** ** [pumpUpstreamToWS] *)

(** One frame; [None] is the next iteration. *)
Definition up_frame (f : wframe) (ws : websocket) : option bridge_error * websocket :=
  let typ := fst f in
  if (typ =? MsgOutput) || (typ =? MsgSnapshotScrollback) || (typ =? MsgSnapshotScreen) then
    let '(ok, ws) := ws_write (snd f) ws in (if (ok : bool) then None else Some BrWSWrite, ws)
  else if typ =? MsgSize then (None, ws)
  else if (typ =? MsgPing) || (typ =? MsgPong) then (None, ws)
  else if (typ =? MsgHello) || (typ =? MsgInput) then (Some (BrUnexpected typ), ws)
  else (Some (BrUnknown typ), ws).

(** The loop; the fuel is a bound on the frames. *)
Fixpoint up_loop (fuel : nat) (r : reader) (ws : websocket) : option bridge_error * websocket :=
  match fuel with
  | O => (None, ws)
  | S fuel' =>
      match ReadFrame r with
      | (Err e, _) => (Some (BrRead e), ws)
      | (Ok f, r) =>
          match up_frame f ws with
          | (Some e, ws) => (Some e, ws)
          | (None, ws) => up_loop fuel' r ws
          end
      end
  end.

Definition pumpUpstreamToWS (r : reader) (ws : websocket) : option bridge_error * websocket :=
  up_loop (S (length (rd_data r))) r ws.

(** ** [pumpWSToUpstream] *)

Section bridge.
(** [json.Unmarshal] of an [attachMessage]: its type, columns and rows; and
    [json.Marshal] of a [Size]. *)
Context (unmarshal_message : list byte → option (gostring * Z * Z)).
Context (marshal_size : Z → Z → list byte) (marshal_hello : Hello → list byte).

(** The frame a message becomes, if any. *)
Definition message_frame (m : ws_message) : option wframe :=
  match m with
  | MessageBinary [] => None
  | MessageBinary data => Some (MsgInput, data)
  | MessageText data =>
      match unmarshal_message data with
      | None => None
      | Some (typ, cols, rows) =>
          if bool_decide (typ = B"resize") then
            if (cols =? 0) || (rows =? 0) then None else Some (MsgSize, marshal_size cols rows)
          else None
      end
  end.

(** The messages until the reader fails. *)
Fixpoint pumpWSToUpstream (msgs : list ws_message) (w : writer) : bridge_error * writer :=
  match msgs with
  | [] => (BrWSRead, w)
  | m :: msgs' =>
      match message_frame m with
      | None => pumpWSToUpstream msgs' w
      | Some f =>
          match WriteFrame (fst f) (snd f) w with
          | (Err e, w) => (BrWrite e, w)
          | (Ok _, w) => pumpWSToUpstream msgs' w
          end
      end
  end.

(** ** [handleAttach] *)

Inductive ws_code := StatusNormalClosure | StatusInternalError.
Inductive bridge_event :=
| BadRequest | Accept | DialUpstream (sock : gostring) | SendHello | Pumps | CloseUpstream | CloseWS (c : ws_code).

(** The first size the session hears of. *)
Definition bridge_hello : Hello := mkHello (mkSize 80 24) (mkOrigin [] [] [] [] []).

(** [accept] and [dial] are the answers of the two ends, [w] the upstream
    connection.  What happens, in order, deferred calls included. *)
Definition handleAttach (stateDir key : gostring) (accept dial : bool) (w : writer) : list bridge_event * writer :=
  match key with
  | [] => ([BadRequest], w)
  | _ =>
      let sockPath := path_Join [stateDir; key; B"rpc.sock"] in
      if negb accept then ([Accept], w)
      else if negb dial then
        ([Accept; DialUpstream sockPath; CloseWS StatusInternalError; CloseWS StatusNormalClosure], w)
      else
        match WriteFrame MsgHello (marshal_hello bridge_hello) w with
        | (Err _, w) =>
            ([Accept; DialUpstream sockPath; SendHello; CloseWS StatusInternalError;
              CloseUpstream; CloseWS StatusNormalClosure], w)
        | (Ok _, w) =>
            ([Accept; DialUpstream sockPath; SendHello; Pumps; CloseUpstream; CloseWS StatusNormalClosure], w)
        end
  end.
End bridge.

(** ** Down: what the browser sees *)

(** The frames with terminal output. *)
Definition vt_frame (f : wframe) : Prop :=
  fst f = MsgOutput ∨ fst f = MsgSnapshotScrollback ∨ fst f = MsgSnapshotScreen.
#[export] Instance vt_frame_dec f : Decision (vt_frame f).
Proof. apply _. Defined.

(** The frames a session sends. *)
Definition down_frame (f : wframe) : Prop :=
  vt_frame f ∨ fst f = MsgSize ∨ fst f = MsgPing ∨ fst f = MsgPong.

Definition vt_messages (fs : list wframe) : list (list byte) := snd <$> filter vt_frame fs.

Lemma up_frame_spec f sent :
  down_frame f → up_frame f (mkWS sent None) = (None, mkWS (sent ++ vt_messages [f]) None).
Proof.
  intros Hd. unfold up_frame, vt_messages. destruct (decide (vt_frame f)) as [Hv|Hv].
  - rewrite filter_cons_True by done. assert ((fst f =? MsgOutput) || (fst f =? MsgSnapshotScrollback) || (fst f =? MsgSnapshotScreen) = true) as ->.
    { destruct Hv as [->|[->| ->]]; done. }
    done.
  - rewrite filter_cons_False by done. cbn. rewrite app_nil_r. destruct Hd as [?|Hd]; [done|].
    destruct Hd as [->|[->| ->]]; done.
Qed.

Lemma vt_messages_app fs gs : vt_messages (fs ++ gs) = vt_messages fs ++ vt_messages gs.
Proof. unfold vt_messages. by rewrite filter_app, fmap_app. Qed.

Lemma up_loop_frames fs tail fin sent fuel :
  Forall frame_ok fs → Forall down_frame fs → frame_cut tail → (length fs < fuel)%nat →
  up_loop fuel (Reader (enc_frames fs ++ tail) fin) (mkWS sent None) =
    (Some (BrRead (WireIO (cut_error tail fin))), mkWS (sent ++ vt_messages fs) None).
Proof.
  intros Ho. revert sent fuel. induction Ho as [|f fs Hf Ho IH]; intros sent fuel Hd Ht Hl;
    (destruct fuel as [|fuel]; [cbn in Hl; lia|]); cbn [up_loop].
  - change (enc_frames [] ++ tail) with tail. pose proof (ReadFrame_cut tail fin Ht) as E.
    destruct (ReadFrame _) as [x r']. cbn in E. subst x. cbn. by rewrite app_nil_r.
  - apply Forall_cons in Hd as [Hd1 Hd2].
    change (enc_frames (f :: fs)) with (enc_frame f ++ enc_frames fs). rewrite <- app_assoc, ReadFrame_enc by done.
    rewrite up_frame_spec by done. rewrite IH; [|done|done|cbn in Hl; lia]. do 2 f_equal.
    change (f :: fs) with ([f] ++ fs). by rewrite vt_messages_app, app_assoc.
Qed.

Lemma enc_frames_length fs : (length fs <= length (enc_frames fs))%nat.
Proof.
  induction fs as [|f fs IH]; [done|]. change (enc_frames (f :: fs)) with (enc_frame f ++ enc_frames fs).
  rewrite length_app, enc_frame_length. cbn [length]. lia.
Qed.

(** A connection cut anywhere: the messages of the frames that arrived whole. *)
Lemma pump_cut fs k fin sent :
  Forall frame_ok fs → Forall down_frame fs →
  ∃ got cause, got `prefix_of` fs ∧ ((length (enc_frames fs) <= k)%nat → got = fs) ∧
    pumpUpstreamToWS (Reader (take k (enc_frames fs)) fin) (mkWS sent None) =
      (Some (BrRead (WireIO cause)), mkWS (sent ++ vt_messages got) None).
Proof.
  intros Ho Hd. destruct (enc_frames_cut k fs Ho) as (got & tail & E & Hp & Ht & Hfull).
  exists got, (cut_error tail fin). split; [done|]. split; [done|]. unfold pumpUpstreamToWS. cbn [rd_data]. rewrite E.
  destruct Hp as [rest ->]. apply Forall_app in Ho as [Ho _]. apply Forall_app in Hd as [Hd _].
  apply up_loop_frames; [done..|]. rewrite length_app. pose proof (enc_frames_length got). lia.
Qed.

(** ** Up: what the session reads *)

Section up.
Context (unmarshal_message : list byte → option (gostring * Z * Z)).
Context (marshal_size : Z → Z → list byte).

Abbreviation frame_of := (message_frame unmarshal_message marshal_size).

(** The keys among the frames. *)
Definition input_bytes (fs : list wframe) : list byte := concat (snd <$> filter (λ f, fst f = MsgInput) fs).
Definition typed (msgs : list ws_message) : list byte :=
  concat (omap (λ m, match m with MessageBinary data => Some data | MessageText _ => None end) msgs).

Lemma pump_up_sink msgs out :
  Forall frame_ok (omap frame_of msgs) →
  pumpWSToUpstream unmarshal_message marshal_size msgs (sink out) =
    (BrWSRead, sink (out ++ enc_frames (omap frame_of msgs))).
Proof.
  revert out. induction msgs as [|m msgs IH]; intros out; cbn [omap list_omap pumpWSToUpstream]; [by rewrite app_nil_r|].
  destruct (frame_of m) as [[t pl]|] eqn:E; [|apply IH]. intros [Hf H]%Forall_cons. cbn [fst snd].
  rewrite (WriteFrame_sink (t, pl)) by done. rewrite IH by done. rewrite <- app_assoc. done.
Qed.

Lemma input_typed msgs : input_bytes (omap frame_of msgs) = typed msgs.
Proof.
  induction msgs as [|m msgs IH]; [done|]. unfold typed, input_bytes in *. cbn [omap list_omap].
  destruct m as [[|b data]|data]; cbn [message_frame]; [done| |].
  - rewrite filter_cons_True by done. cbn. by rewrite <- IH.
  - destruct (unmarshal_message data) as [[[typ cols] rows]|]; [|done].
    case_bool_decide; [|done]. destruct (_ || _); [done|]. by rewrite filter_cons_False.
Qed.

(** The bridge loses no key.  Whatever the browser sends, until its socket
    closes, in messages that fit a frame: the bytes written upstream decode, as
    the session reads them, to one input frame per non-empty binary message and
    one size frame per valid resize, in order, and the keys the session gets are
    the browser's, each once. *)
Theorem bridge_up msgs out fin :
  Forall frame_ok (omap frame_of msgs) →
  ∃ bs, pumpWSToUpstream unmarshal_message marshal_size msgs (sink out) = (BrWSRead, sink (out ++ bs)) ∧
    read_frames (Reader bs fin) = (omap frame_of msgs, WireIO fin) ∧
    input_bytes (omap frame_of msgs) = typed msgs.
Proof.
  intros H. exists (enc_frames (omap frame_of msgs)). split; [by apply pump_up_sink|]. split; [|apply input_typed].
  pose proof (read_frames_stream (omap frame_of msgs) [] fin H) as E. rewrite app_nil_r in E.
  rewrite E by by left. f_equal. f_equal. by destruct fin.
Qed.
End up.

Lemma bridge_up_witness :
  read_frames (Reader (w_out (pumpWSToUpstream (λ _, None) (λ _ _, []) [MessageBinary [108; 115]; MessageText []; MessageBinary [13]] (sink [])).2) EOF)
    = ([(MsgInput, [108; 115]); (MsgInput, [13])], WireIO EOF).
Proof.
  destruct (bridge_up (λ _, None) (λ _ _, []) [MessageBinary [108; 115]; MessageText []; MessageBinary [13]] [] EOF)
    as (bs & E & H & _).
  - repeat (apply Forall_cons_2; [unfold frame_ok; cbn [snd length]; rewrite MaxPayload_eq; lia|]). constructor.
  - rewrite E. exact H.
Defined.
