(* ===== verification/WebView.v ===== *)
(** * From the PTY of a session to a browser

    The bridge of [hoot serve] ([Bridge], over the attach handler and the wire)
    in place of the terminal client of [EndToEnd]: what a browser tab receives. *)
From S2P Require Import Prelude GoBase StreamFilter QueryStripper Recorder Recording Terminal Channel Wire State ShortId Pty PtySafety Delivery AttachSet Registry AttachHandler Hud Restorer AttachClient EndToEnd Bridge.
Open Scope Z_scope.

(** ** What a message list carries *)

Lemma server_down fs : Forall server_frame fs → Forall down_frame fs.
Proof.
  intros H. eapply Forall_impl; [exact H|]. intros f. unfold server_frame, down_frame, vt_frame. naive_solver.
Qed.

Definition web_bytes (fs : list wframe) : list byte := concat (vt_messages fs).

Lemma web_bytes_app fs gs : web_bytes (fs ++ gs) = web_bytes fs ++ web_bytes gs.
Proof. unfold web_bytes. by rewrite vt_messages_app, concat_app. Qed.

Lemma control_vt f : control f → ¬ vt_frame f.
Proof. unfold control, vt_frame. by intros [->| ->] [|[]]. Qed.

Lemma web_bytes_content fs : web_bytes (content fs) = web_bytes fs.
Proof.
  induction fs as [|f fs IH]; [done|]. change (f :: fs) with ([f] ++ fs).
  rewrite (web_bytes_app [f] fs). unfold content. rewrite filter_app. fold (content fs).
  rewrite web_bytes_app, IH. f_equal. destruct (decide (control f)) as [Hc|Hc].
  - rewrite filter_cons_False by (intros H; by apply H). unfold web_bytes, vt_messages.
    by rewrite filter_cons_False by by apply control_vt.
  - by rewrite filter_cons_True by done.
Qed.

Lemma web_bytes_one f : vt_frame f → web_bytes [f] = f.2.
Proof. intros Hf. unfold web_bytes, vt_messages. rewrite filter_cons_True by done. cbn. apply app_nil_r. Qed.

Lemma web_bytes_outputs chunks : web_bytes ((MsgOutput,.) <$> chunks) = concat chunks.
Proof.
  induction chunks as [|ck chunks IH]; [done|]. rewrite fmap_cons.
  change ((MsgOutput, ck) :: ((MsgOutput,.) <$> chunks)) with ([(MsgOutput, ck)] ++ ((MsgOutput,.) <$> chunks)).
  rewrite web_bytes_app, IH, web_bytes_one by by left. done.
Qed.

Lemma web_bytes_transcript p chunks : web_bytes (transcript p chunks) = p.1 ++ p.2 ++ concat chunks.
Proof.
  unfold transcript.
  change (web_bytes ([(MsgSnapshotScrollback, p.1)] ++ [(MsgSnapshotScreen, p.2)] ++ ((MsgOutput,.) <$> chunks)) =
    p.1 ++ p.2 ++ concat chunks).
  by rewrite !web_bytes_app, web_bytes_outputs, !web_bytes_one by (unfold vt_frame; auto).
Qed.

Lemma web_bytes_prefix fs gs : content fs `prefix_of` gs → web_bytes fs `prefix_of` web_bytes gs.
Proof. intros [l ->]. rewrite <- web_bytes_content, web_bytes_app. by eexists. Qed.

(** ** The whole path *)

Section web.
Context {T : Type} {TO : TermOps T} {R : Type} {IG : IdGen R}.
Context (marshal : StateFile → option (list byte)).
Context (unmarshal_hello : list byte → option Hello) (unmarshal_size : list byte → option PTYSize).
Context (noHistory : bool) (self : conn) (liveCh : chan_id).

#[local] Abbreviation run := (AttachHandler.run marshal unmarshal_hello unmarshal_size noHistory self liveCh).
#[local] Abbreviation attached := (EndToEnd.attached liveCh).

Definition web_view (parts : list byte * list byte) (live : list byte) : list byte := parts.1 ++ parts.2 ++ live.

Lemma attached_web fed parts (s : sys (T := T) (R := R)) ws :
  attached fed parts s → ws `prefix_of` on_wire s.1 →
  web_bytes ws `prefix_of` web_view parts (Filter fed newStripper).1.
Proof.
  intros (Ho & Hp & _ & c & _ & Hd & _) Hw.
  etrans; [apply web_bytes_prefix|].
  { etrans; [by apply content_prefix|by apply (wire_prefix _ parts)]. }
  rewrite web_bytes_transcript. unfold web_view. do 2 apply prefix_app.
  etrans; [|exact Hd]. by eexists.
Qed.

Lemma caught_up_web fed parts (s : sys (T := T) (R := R)) :
  attached fed parts s → caught_up liveCh s →
  web_bytes (at_wire s.1) = web_view parts (Filter fed newStripper).1.
Proof.
  intros Ha Hc. rewrite <- web_bytes_content.
  destruct (caught_up_transcript liveCh fed parts s Ha Hc) as [-> <-]. by rewrite web_bytes_transcript.
Qed.

(** C14: From the session to a browser.  An attachment of the bridge is at its
    snapshot on a live PTY; from there on, whatever the schedule, the other
    clients and the PTY, and wherever the upstream connection is cut: the binary
    messages the browser gets, in one piece, are the scrollback, the screen and
    the query-stripped output since the snapshot, in order, nothing twice and
    nothing skipped up to the point reached, so long as the subscription is never
    found full ([keeps_up]: the PTY drops a subscriber with 256 chunks unread); and
    besides only the notice of [hoot detach], if that was called, and behind
    everything the message of [ServeHTTP], if [serveOne] has failed ([noticed]).
    Once the server has nothing queued and the stream is whole, the browser has all
    of it.  The pump ends with the error of the connection, never with a frame it
    does not know. *)
Theorem browser_end_to_end text evs1 an evs2 sv s1 s fs sb sc k fin sent :
  run evs1 (new_attach, sv) = Stepped s1 → at_pc s1.1 = PcSubscribe → ready liveCh (sv_pty s1.2) →
  snapshotPartsLocked (sv_pty s1.2) = Ok (sb, sc) →
  run (EvMain an :: evs2) s1 = Stepped s → keeps_up marshal unmarshal_hello unmarshal_size noHistory self liveCh (EvMain an :: evs2) s1 →
  received text s.1 fs →
  let view := web_view (if noHistory then [] else sb, sc) (Filter (output evs2) newStripper).1 in
  ∃ cause msgs shown,
    pumpUpstreamToWS (Reader (take k (enc_frames fs)) fin) (mkWS sent None) =
      (Some (BrRead (WireIO cause)), mkWS (sent ++ msgs) None) ∧
    noticed text s.1 shown (concat msgs) ∧ shown `prefix_of` view ∧
    (caught_up liveCh s → (length (enc_frames fs) <= k)%nat → shown = view).
Proof.
  intros Hrun1 Hpc Hr Hsn Hrun Hk Hrc view.
  destruct (session_attached marshal unmarshal_hello unmarshal_size noHistory self liveCh
    evs1 an evs2 sv s1 s sb sc Hrun1 Hpc Hr Hsn Hrun Hk) as [Ha Hw].
  pose proof Ha as (Ho & Hp & _). destruct (received_ok text s.1 _ fs Ho Hw Hp Hrc) as [Hok Hsv].
  destruct (pump_cut fs k fin sent Hok (server_down _ Hsv)) as (got & cause & Hg & Hfull & E).
  destruct (received_cut text s.1 _ fs got Hp Hrc Hg) as (x & d & y & ws & e & Eg & Exy & Hws & Hd & He & Hall).
  exists cause, (vt_messages got), (web_bytes ws). split; [exact E|]. split; [|split; [by eapply attached_web|]].
  - exists (web_bytes x), (web_bytes d), (web_bytes y), (web_bytes e). fold (web_bytes got).
    split; [by rewrite Eg, !web_bytes_app|]. split; [by rewrite <- !web_bytes_app, Exy|].
    apply notices_seen; [done| |done|done]. intros bs. apply web_bytes_one. by left.
  - intros Hcu Hlen. rewrite Hall; [by apply caught_up_web| |by eapply caught_up_torn]. by apply Hfull.
Qed.
End web.

(** The run of [EndToEnd], seen from a browser whose bridge loses the session. *)
Lemma browser_end_to_end_witness :
  ∃ s1 s, ex_run ex_start (new_attach, ex_server) = Stepped s1 ∧
    ex_run (EvMain ex_answers :: ex_live) s1 = Stepped s ∧
    let '(_, ws) := pumpUpstreamToWS (Reader (take 43 (enc_frames (at_wire s.1))) EOF) (mkWS [] None) in
    concat (ws_sent ws) `prefix_of` web_view ([], [65]) (Filter [66; 27; 91; 99; 67] newStripper).1.
Proof.
  destruct ex_session as (s1 & s & H1 & H2 & Epc & Hr & Esn & Hk & Hn & Hf & Hl).
  exists s1, s. split; [exact H1|]. split; [exact H2|].
  destruct (browser_end_to_end (IG := counter_gen) (λ _, None) ex_hello ex_size false 1 7
    ex_text ex_start ex_answers ex_live ex_server s1 s (at_wire s.1) [] [65] 43 EOF [] H1 Epc Hr Esn H2 Hk (received_wire _ _))
    as (cause & msgs & shown & -> & Hno & Hp & _).
  cbn [app ws_sent]. rewrite (noticed_plain ex_text s.1 shown (concat msgs)); [exact Hp|exact Hf|intros r; rewrite Hl; discriminate|exact Hno].
Defined.
