(* ===== verification/Usage.v ===== *)
(** * The usage texts

    What [hoot] and its subcommands print when asked for help, and what it says of
    the flags: against the flag sets the subcommands parse ([Verbs], [Launch],
    [Serve]). *)
From S2P Require Import Prelude GoBase QueryStripper State GoStrings Main Flags Verbs Launch Serve.
Open Scope Z_scope.

(** A text, from its lines. *)
Definition unlines (ls : list gostring) : gostring := ls ≫= λ l, l ++ [10].

(** [usage] of [main.go] *)
Definition usage : gostring := unlines [
  B"hoot — reference CLI for the session library";
  [];
  B"Quick shell:";
  B"  hoot                            # spawn local default shell, attach";
  B"  hoot @<host>                    # spawn shell on remote (ssh://<host>), attach";
  B"  hoot <host>                     # same as @<host> (subcommand fallthrough)";
  [];
  B"Usage:";
  B"  hoot run     [--remote <url>] [--state-dir <d>] [--key <k>] [--attach]";
  B"                    [--no-reconnect] [--prefix-key <key>]";
  B"                    [--cwd <path>] [--env NAME[=VALUE]] [--env-file <path>]";
  B"                    -- <cmd> [args...]";
  B"  hoot list    [--remote <url>] [--state-dir <d>]";
  B"  hoot log     [--state-dir <d>] [--strict] [--output <file>]";
  B"                    [--format vt|plain|asciinema] [<id-or-prefix>]";
  B"  hoot resolve [--remote <url>] [--state-dir <d>] <id-or-prefix>";
  B"  hoot clone   [--remote <url>] [--state-dir <d>] [--key <new-key>]";
  B"                    [--env NAME[=VALUE]] [--env-file <path>]";
  B"                    [--attach|--detach] [--strict] [<id-or-pattern>]";
  B"  hoot attach  [--remote <url>] [--state-dir <d>] [--no-reconnect]";
  B"                    [--prefix-key <key>] [--strict] [<id-or-pattern>]";
  B"  hoot kill    [--remote <url>] [--state-dir <d>] [-s SIG] [--strict] [<id-or-pattern>]";
  B"  hoot detach  [--remote <url>] [--state-dir <d>] [--strict]";
  B"                    [<session-prefix>[/<attachment-prefix>]]";
  B"  hoot write   [--remote <url>] [--state-dir <d>] [--paste] [--input-file FILE]";
  B"                    <id-or-prefix> [DATA...]";
  B"  hoot serve   [--state-dir <d>] --bind <host:port|unix:/path.sock> [--prefix /api]";
  B"  hoot install-remote [--version vX.Y.Z] [--upload | --from-file <tarball>]";
  B"                      [--install-dir <dir>] <host>";
  B"  hoot version";
  [];
  B"The session state directory is <state-dir>/<key>/. The session";
  B"serves rpc.sock and writes pty.hootty.log inside it. --state-dir";
  B"defaults to ~/.hoot. If --key is omitted, a random short id (3-8";
  B"chars from 0-9a-z minus l/o) is generated.";
  [];
  B"`hoot log` views a recording: the default format is `vt` on a";
  B"tty (replays the recording into a fresh libghostty terminal and";
  B"emits its visible state) and `plain` on a pipe (greppable text).";
  B"The `asciinema` format emits asciicast v2 JSONL — pipe to";
  B"`asciinema play -` to replay at recorded timing. Use";
  B"`hoot log --output FILE` to write a recording to a file instead";
  B"of stdout; this is required when viewing the current session from";
  B"inside itself, otherwise stdout would append the rendered log back";
  B"into the same PTY recording.";
  [];
  B"Anywhere a session key is accepted, you can pass either the full id";
  B"or any unique prefix (minimum 3 characters). Ambiguous prefixes";
  B"return an error listing the matches.";
  [];
  B"--remote accepts host, host:port, user@host, user@host:port (all";
  B"default to ssh://), or an explicit http(s)://host:port or ssh://host";
  B"URL. For ssh:// remotes, the local CLI shells out to OpenSSH and";
  B"requires hoot in the remote PATH; no persistent hoot serve is required.";
  [];
  B"In an attach (mosh-style): <prefix>. detaches; <prefix>^ sends a";
  B"literal prefix byte; <prefix>Ctrl-Z suspends hoot attach (resume";
  B"with fg); <prefix>? prints help. Default prefix is C-^ (Ctrl-^, 0x1e).";
  [];
  B"Every spawned hoot session publishes $HOOT_SESSION=<key> in the";
  B"shell's environment. Attach paths (`hoot`, `hoot @<host>`, `hoot attach`, `hoot run --attach`)";
  B"refuse to nest when $HOOT_SESSION is set, mirroring tmux. Read-only";
  B"verbs (`list`, `resolve`, `kill`, `detach`, `write`) still work.";
  B"`hoot log` also works, except it refuses to write the current";
  B"session's own log to stdout; use `hoot log --output FILE $HOOT_SESSION`";
  B"for that case.";
  B"Use `unset HOOT_SESSION` to override."].

(** [cmdAttach] *)
Definition attach_usage : gostring := unlines [
  B"usage: hoot attach [flags] [<id-or-prefix-or-pattern>]";
  [];
  B"With no positional argument, an interactive fzf picker over the";
  B"available sessions is launched. With one argument, hoot attempts an";
  B"id-prefix match first; on miss, it falls back to a pre-seeded fzf";
  B"picker (--query=<arg> --select-1 --exit-0) so a unique fuzzy match";
  B"auto-attaches. Use --strict to disable the fuzzy fallback.";
  [];
  B"  --remote <url>         remote `hoot serve` target: host, host:port,";
  B"                         user@host (defaults to ssh://), or an explicit";
  B"                         http(s)://host:port or ssh://host URL";
  B"  --state-dir <dir>      session state directory (default: ~/.hoot);";
  B"                         local sessions and ssh tunnel state";
  B"  --strict               exact id-prefix match only — never invoke fzf,";
  B"                         never open the picker";
  B"  --no-reconnect         exit on first drop instead of auto-reconnecting";
  B"                         (--remote only; ignored for local attach)";
  B"  --prefix-key <key>     command prefix byte (default: C-^). Forms: C-^, ^^,";
  B"                         0x1e, or a single ASCII control byte.";
  [];
  B"The picker line format is `[id]\t@host\tcwd\tcmd\ttag`. The";
  B"single-char field markers (`@`, `[`, `*`) double as natural fzf";
  B"query prefixes — type `@m4` to scope to host, `[a3` to scope to id, or";
  B"`*` for live attached sessions. fzf's full extended-search syntax";
  B"applies (`'exact`, `^prefix`, `suffix$`, `!negate`, `a | b`).";
  [];
  B"The fzf binary must be on PATH; use --strict to bypass it for";
  B"scripted use.";
  [];
  B"Inside an attach (mosh-style): <prefix>. detaches; <prefix>^ sends a";
  B"literal prefix byte to the remote; <prefix>Ctrl-Z suspends hoot";
  B"attach (resume with fg); <prefix>c clones the session.";
  [];
  B"On attach the terminal window title is set to a one-line summary in";
  B"the form `🦉 <id> [@host] <cwd> [<cmd...>]` (`@host` omitted for local";
  B"sessions, argv truncated at 60 runes). The previous title is saved";
  B"via the xterm title stack (CSI 22;2t) and restored (CSI 23;2t) on";
  B"detach. Inner TUIs that set their own title will override hoot's.";
  [];
  B"The same session summary is printed once as ordinary terminal output";
  B"just before the screen snapshot is rendered, then the visible viewport";
  B"is scrolled into the local terminal's scrollback ring — so a single";
  B"scroll-up after attach reveals which session you are in, without a";
  B"live overlay that fights TUI redraws.";
  [];
  B"During a remote disconnect: backoff is 1,2,4,8,16,30s capped at 30s and";
  B"retries forever. Press any key to wake the backoff and retry now.";
  B"<prefix>. still detaches cleanly."].

(** [cmdKill] *)
Definition kill_usage : gostring := unlines [
  B"usage: hoot kill [flags] [<id-or-prefix-or-pattern>]";
  [];
  B"Send a signal to the foreground process group of a hoot session's PTY";
  B"(the same target Ctrl-C reaches). Defaults to TERM.";
  [];
  B"With no positional argument (and on a tty), an interactive fzf picker";
  B"selects the target session. With one argument, an id-prefix match wins;";
  B"on miss the picker re-runs preseeded with --query=<arg> --select-1";
  B"--exit-0 so a unique fuzzy hit auto-targets. --strict disables both";
  B"fallbacks (id-prefix only).";
  [];
  B"See `hoot attach -h` for the picker line format and fzf query";
  B"vocabulary.";
  [];
  B"Flags:";
  B"  -s <signal>           signal name or number (default TERM)";
  B"  --state-dir <d>       session state directory (default ~/.hoot)";
  B"  --remote <url>        remote hoot serve URL";
  B"  --strict              exact id-prefix match only — no fzf, no picker"].

(** [cmdWrite] *)
Definition write_usage : gostring := unlines [
  B"usage: hoot write [flags] <id-or-prefix> [DATA...]";
  [];
  B"Send bytes to the supervised PTY of a hoot session.";
  [];
  B"Input source (in priority order):";
  B"  --input-file FILE   read FILE, send bytes verbatim";
  B"  DATA...             argv joined with no separator and interpreted as";
  B"                      a Go double-quoted string literal (\xHH, \uXXXX,";
  B"                      \UXXXXXXXX, \NNN, \r \n \t \a \b \f \v, \\ \" ++ [34] ++ B" \')";
  B"  (otherwise)         if stdin is a pipe, read it verbatim";
  [];
  B"Cheat sheet (most common bytes):";
  B"  Enter      \r            Tab        \t";
  B"  Backspace  \x7f          Escape     \x1b";
  B"  Ctrl-A..Z  \x01..\x1a";
  B"  Up         \x1b[A        Down       \x1b[B";
  B"  Right      \x1b[C        Left       \x1b[D";
  B"  F1..F4     \x1bOP \x1bOQ \x1bOR \x1bOS";
  [];
  B"Note: Go's grammar has no \e — write \x1b instead.";
  [];
  B"Flags:";
  B"  --paste               wrap body in bracketed-paste markers; errors";
  B"                        if the receiver has DECSET 2004 disabled";
  B"  --input-file FILE     read body from FILE (verbatim, no escape parse)";
  B"  --state-dir <d>       session state directory (default ~/.hoot)";
  B"  --remote <url>        remote hoot serve URL"].

(** [cmdDetach] *)
Definition detach_usage : gostring := unlines [
  B"usage: hoot detach [flags] [<session-prefix>[/<attachment-prefix>]]";
  [];
  B"Force-close one or all attachments on a hoot session. Without a slash,";
  B"detach every attachment on the resolved session; with a slash, detach";
  B"the single attachment whose id matches the prefix.";
  [];
  B"With no positional argument (and on a tty), an interactive fzf picker";
  B"selects the target session and detaches all of its attachments. With a";
  B"bare <session-prefix>, an id-prefix match wins; on miss the picker";
  B"re-runs preseeded so a unique fuzzy hit auto-targets. The";
  B"<attachment-prefix> half (after the slash) keeps the strict";
  B"shortid-prefix semantics — it is not fuzz-matched. --strict disables";
  B"the picker entirely (id-prefix only on the session half).";
  [];
  B"See `hoot attach -h` for the picker line format and fzf query";
  B"vocabulary.";
  [];
  B"Flags:";
  B"  --state-dir <d>       session state directory (default ~/.hoot)";
  B"  --remote <url>        remote hoot serve URL";
  B"  --strict              exact id-prefix match only — no fzf, no picker"].

(** [cmdClone] *)
Definition clone_usage : gostring := unlines [
  B"usage: hoot clone [flags] [<id-or-prefix-or-pattern>]";
  [];
  B"Spawn a fresh sibling session from a source session's recorded argv +";
  B"cwd. With no positional argument (and on a tty), an interactive fzf";
  B"picker selects the source. With one argument, an id-prefix match wins;";
  B"on miss the picker re-runs preseeded with --query=<arg> --select-1";
  B"--exit-0 so a unique fuzzy hit auto-clones. --strict disables both";
  B"fallbacks (id-prefix only).";
  [];
  B"See `hoot attach -h` for the picker line format and fzf query";
  B"vocabulary.";
  [];
  B"Flags:";
  B"  --remote <url>        remote hoot serve URL";
  B"  --state-dir <d>       session state directory (default ~/.hoot)";
  B"  --key <k>             new session key (default: random short id)";
  B"  --env NAME[=VALUE]    one-shot env override (repeatable)";
  B"  --env-file <path>     dotenv-style override file (repeatable)";
  B"  --attach              attach to the cloned session after creating it";
  B"  --detach              do not attach after clone (default)";
  B"  --strict              exact id-prefix match only — no fzf, no picker"].

(** [cmdLog] *)
Definition log_usage : gostring := unlines [
  B"Usage:";
  B"  hoot log [<id-or-prefix>] [--format vt|plain|asciinema] [--state-dir <d>] [--strict] [--all] [--output <file>]";
  [];
  B"View a recorded session's PTY log. With no positional argument and on";
  B"a tty, an interactive fzf picker resolves the session (matches `hoot attach`).";
  B"Picker and id-prefix resolution show live sessions only by default;";
  B"pass `--all` to include exited sessions (their recordings remain";
  B"readable). `--strict` is unaffected — id-prefix resolution against";
  B"the on-disk store always sees every session.";
  [];
  B"Formats:";
  B"  vt        VT byte stream of the recorded session's final visible";
  B"            state (replay through libghostty's vt formatter).";
  B"            Default when stdout is a tty — `hoot log abc` shows the";
  B"            screen the way `cat`-ing a saved snapshot would.";
  B"  plain     Plain-text content of the final visible state. Strips";
  B"            SGR/cursor escapes; emits codepoints + newlines. Default";
  B"            when stdout is a pipe (so `hoot log abc | grep error`";
  B"            works naturally on visible text).";
  B"  asciinema asciicast v2 JSONL transcoded from the binary log.";
  B"            Pipe to `asciinema play -` to replay at recorded timing.";
  [];
  B"Flags:";
  B"  --format <fmt>     vt | plain | asciinema (default: vt on tty, plain on pipe)";
  B"  --state-dir <d>    session state directory (default: ~/.hoot)";
  B"  --strict           exact id-prefix match only — no fzf, no picker";
  B"  --all              include exited (dead) sessions in id-prefix and picker resolution";
  B"  --output <file>    write to file instead of stdout; safe when viewing the";
  B"                     current session from inside itself";
  [];
  B"Common usage:";
  B"  hoot log abc                              # screen render of the recording";
  B"  hoot log abc | less                       # paged plain text";
  B"  hoot log abc | grep -i error              # greppable plain text";
  B"  hoot log abc --output abc.txt             # safe explicit file output";
  B"  hoot log abc --format asciinema | asciinema play -";
  B"  hoot log                                  # interactive picker (live only)";
  B"  hoot log --all                            # picker over live + exited sessions"].

(** [cmdInstallRemote] *)
Definition install_usage : gostring := unlines [
  B"usage: hoot install-remote [flags] <host>";
  [];
  B"Install or upgrade hoot on a remote SSH host. By default the remote downloads";
  B"the matching tarball from GitHub itself; use --upload to download locally and";
  B"scp it up, or --from-file to ship a tarball you already have on disk.";
  [];
  B"  --version vX.Y.Z   release tag to install (default: this binary's version)";
  B"  --upload           fetch tarball locally with checksum verification, then";
  B"                     scp + install (use when the remote can't reach GitHub)";
  B"  --from-file PATH   skip download; scp this local tarball and install";
  B"  --install-dir DIR  remote install dir (default: ~/.local/bin on the remote)";
  [];
  B"Host accepts: host, user@host, host:port, or user@host:port. ssh agent / key";
  B"authentication is required — interactive password prompts are disabled."].

(** ** What they say of the flags *)

Definition flag_letter (c : byte) : bool := (97 <=? c) && (c <=? 122) || (c =? 45).

Fixpoint take_while (f : byte → bool) (bs : list byte) : list byte :=
  match bs with [] => [] | c :: bs' => if f c then c :: take_while f bs' else [] end.

Fixpoint drop_dashes (bs : list byte) : list byte :=
  match bs with c :: bs' => if c =? 45 then drop_dashes bs' else bs | [] => [] end.

(** A flag, and whether a value follows it. *)
Definition mention (bs : list byte) : option (gostring * flag_kind) :=
  let name := take_while flag_letter (drop_dashes bs) in
  match name, drop (length name) (drop_dashes bs) with
  | [], _ => None
  | _, 32 :: c :: _ => Some (name, if (c =? 32) || (c =? chr "|") then FBool else FValue)
  | _, _ => Some (name, FBool)
  end.

(** The flags a line mentions, each after a blank, a bracket or a bar. *)
Fixpoint flags_in (prev : byte) (bs : list byte) : list (gostring * flag_kind) :=
  match bs with
  | [] => []
  | c :: bs' =>
      (if (c =? 45) && bool_decide (prev ∈ [32; 91; 124]) then match mention bs with Some x => [x] | None => [] end else []) ++ flags_in c bs'
  end.

(** The entry of a flag in a usage text: a line that is indented by two blanks and
    starts with it. *)
Definition line_flag (l : gostring) : option (gostring * flag_kind) :=
  match strip_prefix B"  -" l with Some l' => mention l' | None => None end.

Definition documented (text : gostring) : list (gostring * flag_kind) := omap line_flag (split_on 10 text).

(** The synopsis of a subcommand in [usage]: its line and those that continue it. *)
Fixpoint until_entry (ls : list gostring) : list gostring :=
  match ls with
  | [] => []
  | l :: ls' => match l, strip_prefix B"  hoot " l with [], _ | _, Some _ => [] | _, None => l :: until_entry ls' end
  end.

Fixpoint synopses (ls : list gostring) : list (gostring * list gostring) :=
  match ls with
  | [] => []
  | l :: ls' =>
      match strip_prefix B"  hoot " l with
      | Some l' => (take_while flag_letter l', l :: until_entry ls') :: synopses ls'
      | None => synopses ls'
      end
  end.

(** After [Usage:] *)
Fixpoint after_usage (ls : list gostring) : list gostring :=
  match ls with [] => [] | l :: ls' => if bool_decide (l = B"Usage:") then ls' else after_usage ls' end.

Definition main_synopses : list (gostring * list gostring) := synopses (after_usage (split_on 10 usage)).

(** ** Against the flag sets *)

(** The usage texts of the subcommands, their flag sets, and the flags they say
    nothing of. *)
Definition verb_usages : list (gostring * flagset * flagset) :=
  [(attach_usage, attach_flags, [(B"restorer", FValue)]);
   (kill_usage, kill_flags, []); (write_usage, write_flags, []); (detach_usage, detach_flags, []);
   (clone_usage, clone_flags, []); (log_usage, log_flags, []); (install_usage, install_flags, [])].

(** The usage text of a subcommand is true to its parser: it documents the flags the
    subcommand accepts and no others, with a value or without as they are parsed;
    but for [--restorer]. *)
Theorem usage_flags_exact :
  Forall (λ '(text, fs, hidden), ∀ x, x ∈ documented text ++ hidden ↔ x ∈ fs) verb_usages.
Proof.
  assert (Forall (λ '(text, fs, hidden), Forall (λ x, x ∈ fs) (documented text ++ hidden) ∧ Forall (λ x, x ∈ documented text ++ hidden) fs) verb_usages) as H.
  { apply (bool_decide_unpack _). vm_compute. exact I. }
  eapply Forall_impl; [exact H|]. intros [[text fs] hidden] [H1 H2] x. rewrite Forall_forall in H1, H2. by split; [apply H1|apply H2].
Qed.

(** The flag set of a subcommand of [usage], and what its synopsis leaves out. *)
Definition verb_flags : list (gostring * flagset * list gostring) :=
  [(B"run", run_flags, [B"no-history"]); (B"list", list_flags, [B"json"; B"all"]); (B"log", log_flags, [B"all"]);
   (B"resolve", [(B"state-dir", FValue); (B"remote", FValue)], []); (B"clone", clone_flags, []);
   (B"attach", attach_flags, [B"restorer"]); (B"kill", kill_flags, []); (B"detach", detach_flags, []); (B"write", write_flags, []);
   (B"serve", serve_flags, []); (B"install-remote", install_flags, []); (B"version", [], [])].

(** [usage] lists every subcommand [main] dispatches to, but for aliases, help and
    [__session]; and each synopsis shows exactly the flags of the subcommand, but
    for those left out. *)
Theorem main_usage_exact :
  main_synopses.*1 = verb_flags.*1.*1 ∧
  Forall (λ '((verb, ls), (_, fs, omitted)),
    dispatchTopLevel [verb] = (verb, [], true) ∧
    ∀ x, x ∈ ls ≫= flags_in 32 ↔ x ∈ fs ∧ x.1 ∉ omitted) (zip main_synopses verb_flags) ∧
  ∀ v, v ∈ knownSubcommands → v ∈ main_synopses.*1 ∨ v ∈ [B"ls"; B"__session"; B"-h"; B"--help"; B"help"].
Proof.
  split; [vm_compute; reflexivity|]. split.
  - assert (Forall (λ '((verb, ls), (_, fs, omitted)), dispatchTopLevel [verb] = (verb, [], true) ∧
      Forall (λ x, x ∈ fs ∧ x.1 ∉ omitted) (ls ≫= flags_in 32) ∧ Forall (λ x, x.1 ∉ omitted → x ∈ ls ≫= flags_in 32) fs) (zip main_synopses verb_flags)) as H.
    { apply (bool_decide_unpack _). vm_compute. exact I. }
    eapply Forall_impl; [exact H|]. intros [[verb ls] [[v fs] omitted]] (H0 & H1 & H2). split; [done|]. intros x. rewrite Forall_forall in H1, H2.
    split; [apply H1|]. intros [Hx Ho]. by apply H2.
  - assert (Forall (λ v, v ∈ main_synopses.*1 ∨ v ∈ [B"ls"; B"__session"; B"-h"; B"--help"; B"help"]) knownSubcommands) as H.
    { apply (bool_decide_unpack _). vm_compute. exact I. }
    by rewrite Forall_forall in H.
Qed.

(** ** The examples of [hoot log] *)

(** The command of an example line: up to a comment or a pipe. *)
Definition example_args (l : gostring) : option (list gostring) :=
  (λ l', Fields (take_while (λ c, negb ((c =? chr "#") || (c =? chr "|"))) l')) <$> strip_prefix B"  hoot log" l.

Definition log_examples : list (list gostring) := drop 1 (omap example_args (split_on 10 log_usage)).

(** At most one argument is left when its flags are parsed. *)
Definition log_args_ok (args : list gostring) : bool :=
  match Parse log_flags args with Ok p => (length p.2 <=? 1)%nat | Err _ => false end.

Lemma log_args_refused L os current abs stat open_ run args :
  log_args_ok args = false → cmdLog L os current abs stat open_ run args = (None, CmdExit 2).
Proof.
  unfold log_args_ok, cmdLog. destruct (Parse log_flags args) as [p|]; [|done]. intros H%Nat.leb_gt. by rewrite (proj2 (Nat.ltb_lt _ _) H).
Qed.

(** Two of the examples the usage text gives are refused: flags after the session
    are not parsed. *)
Theorem log_examples_refused L os current abs stat open_ run :
  [B"abc"; B"--output"; B"abc.txt"] ∈ log_examples ∧ [B"abc"; B"--format"; B"asciinema"] ∈ log_examples ∧
  cmdLog L os current abs stat open_ run [B"abc"; B"--output"; B"abc.txt"] = (None, CmdExit 2) ∧
  cmdLog L os current abs stat open_ run [B"abc"; B"--format"; B"asciinema"] = (None, CmdExit 2) ∧
  filter (λ args, log_args_ok args = false) log_examples = [[B"abc"; B"--output"; B"abc.txt"]; [B"abc"; B"--format"; B"asciinema"]].
Proof.
  split_and!; [by apply (bool_decide_unpack _); vm_compute|by apply (bool_decide_unpack _); vm_compute|by apply log_args_refused; vm_compute..|by vm_compute].
Qed.
