(* ===== verification/Snapshot.v ===== *)
(** * [internal/attachetest]: a terminal as text

    [Snapshot], [RawSnapshot] and what they are made of, and that two terminals
    with the same text look the same: what a comparison with a golden file
    shows. *)
From S2P Require Import Prelude GoBase GoStrings State Terminal.
Open Scope Z_scope.

(** ** The data, of the binding *)

Inductive TerminalScreen := KnownScreen (s : screen) | OtherScreen (n : Z).

Inductive StyleColor :=
| StyleColorNone | StyleColorPalette (p : Z) | StyleColorRGB (r g b : Z) | StyleColorOther (tag : Z).

Record Style := mkStyle {
  IsDefault : bool; Bold : bool; Faint : bool; Italic : bool; Underline : Z; Inverse : bool; Blink : bool;
  Strikethrough : bool; Overline : bool; Invisible : bool; FgColor : StyleColor; BgColor : StyleColor
}.

(** What [Snapshot] asks of the emulator besides [TermOps].  [FormatState] is
    [FormatterFormatVT] with trim and the cursor, style and modes extras. *)
Class ScreenOps (T : Type) := {
  Cols : T → res term_error Z;
  Rows : T → res term_error Z;
  CursorX : T → res term_error Z;
  CursorY : T → res term_error Z;
  CursorVisible : T → res term_error bool;
  CursorStyle : T → res term_error (option Style);
  FormatState : T → res term_error (list byte)
}.

(** ** The text *)

Definition ESC_text : gostring := B"<ESC>".

Definition VisualizeVT (vt : list byte) : gostring := vt ≫= λ b, if b =? ESC then ESC_text else [b].

Definition screenName (s : TerminalScreen) : gostring :=
  match s with
  | KnownScreen ScreenPrimary => B"primary"
  | KnownScreen ScreenAlternate => B"alternate"
  | OtherScreen n => B"unknown(" ++ Itoa n ++ B")"
  end.

Definition colorSummary (c : StyleColor) : gostring :=
  match c with
  | StyleColorNone => B"default"
  | StyleColorPalette p => B"palette(" ++ Itoa p ++ B")"
  | StyleColorRGB r g b => B"rgb(" ++ Itoa r ++ B"," ++ Itoa g ++ B"," ++ Itoa b ++ B")"
  | StyleColorOther n => B"unknown(" ++ Itoa n ++ B")"
  end.

(** The names of the attributes that are set, in order. *)
Definition flagged (fl : list (gostring * bool)) : list gostring :=
  fl ≫= λ f : gostring * bool, if f.2 then [f.1] else [].

Definition flags_before (s : Style) : list (gostring * bool) :=
  [(B"bold", Bold s); (B"faint", Faint s); (B"italic", Italic s)].
Definition flags_after (s : Style) : list (gostring * bool) :=
  [(B"inverse", Inverse s); (B"blink", Blink s); (B"strikethrough", Strikethrough s);
   (B"overline", Overline s); (B"invisible", Invisible s)].

Definition underline_part (n : Z) : list gostring := if n =? 0 then [] else [B"underline=" ++ Itoa n].

Definition style_parts (s : Style) : list gostring :=
  flagged (flags_before s) ++ underline_part (Underline s) ++ flagged (flags_after s) ++
  [B"fg=" ++ colorSummary (FgColor s); B"bg=" ++ colorSummary (BgColor s)].

Definition styleSummary (style : option Style) : gostring :=
  match style with
  | None => B"default"
  | Some s => if IsDefault s then B"default" else Join (style_parts s) B","
  end.

Definition bool_text (b : bool) : gostring := if b then B"true" else B"false".

(** The newline [Snapshot] adds when the text does not end in one; the text
    before [vt] does. *)
Definition end_line (vt : gostring) : gostring :=
  match last vt with None => [] | Some c => if c =? 10 then [] else [10] end.

(** What [Snapshot] reads, once every call has answered. *)
Record view := mkView {
  v_cols : Z; v_rows : Z; v_x : Z; v_y : Z; v_visible : bool; v_active : TerminalScreen;
  v_style : option Style; v_vt : list byte
}.

(** A cursor position is below the size, so the increments stay in range. *)
Definition view_text (v : view) : gostring :=
  (B"cols=" ++ Itoa (v_cols v) ++ B" rows=" ++ Itoa (v_rows v) ++ [10]) ++
  (B"cursor=" ++ Itoa (v_y v + 1) ++ B"," ++ Itoa (v_x v + 1) ++ B" visible=" ++ bool_text (v_visible v) ++
   B" active=" ++ screenName (v_active v) ++ B" sgr=" ++ styleSummary (v_style v) ++ [10]) ++
  (B"formatVT:" ++ [10]) ++ VisualizeVT (v_vt v) ++ end_line (VisualizeVT (v_vt v)).

Section snapshot.
Context {T : Type} {TO : TermOps T} {SO : ScreenOps T}.

Definition look (t : T) : res term_error view :=
  cols ← Cols t; rows ← Rows t; x ← CursorX t; y ← CursorY t; visible ← CursorVisible t;
  active ← ActiveScreen t; style ← CursorStyle t; vt ← FormatState t;
  mret (mkView cols rows x y visible (KnownScreen active) style vt).

Definition Snapshot (t : T) : res term_error gostring := v ← look t; mret (view_text v).
End snapshot.

(** ** Numbers, between other text *)

Definition stops (s : gostring) : Prop := match s with [] => True | c :: _ => is_digit c = false end.

Lemma digits_stop a b s t :
  Forall (λ c, 48 <= c <= 57) a → Forall (λ c, 48 <= c <= 57) b → stops s → stops t →
  a ++ s = b ++ t → a = b ∧ s = t.
Proof.
  assert (Hc : ∀ c r, 48 <= c <= 57 → stops (c :: r) → False).
  { intros c r H. cbn. unfold is_digit. destruct (Z.leb_spec 48 c), (Z.leb_spec c 57); cbn; [done|lia..]. }
  intros Ha. revert b. induction Ha as [|x a Hx _ IH]; intros b Hb Hs Ht E; destruct b as [|y b]; cbn in E.
  - done.
  - subst s. apply Forall_cons in Hb as [Hy _]. by destruct (Hc _ _ Hy Hs).
  - subst t. by destruct (Hc _ _ Hx Ht).
  - injection E as -> E. apply Forall_cons in Hb as [_ Hb]. by destruct (IH b Hb Hs Ht E) as [-> ->].
Qed.

Lemma Itoa_stop n m s t : 0 <= n → 0 <= m → stops s → stops t → Itoa n ++ s = Itoa m ++ t → n = m ∧ s = t.
Proof.
  intros Hn Hm Hs Ht E. destruct (Itoa_value n Hn) as [En Fn], (Itoa_value m Hm) as [Em Fm].
  destruct (digits_stop _ _ _ _ Fn Fm Hs Ht E) as [H ->]. split; [congruence|done].
Qed.

(** The number two equal texts begin with; what follows is no digit. *)
Ltac same_number E := apply Itoa_stop in E as [E' E]; [|lia..|done|done]; rewrite ?E' in *; clear E'.

(** ** Colours and screens delimit themselves *)

Definition color_ok (c : StyleColor) : Prop :=
  match c with
  | StyleColorNone => True
  | StyleColorPalette p => 0 <= p
  | StyleColorRGB r g b => 0 <= r ∧ 0 <= g ∧ 0 <= b
  | StyleColorOther n => 0 <= n
  end.
Definition screen_ok (s : TerminalScreen) : Prop := match s with OtherScreen n => 0 <= n | _ => True end.

Lemma colorSummary_inj c c' s t :
  color_ok c → color_ok c' → colorSummary c ++ s = colorSummary c' ++ t → c = c' ∧ s = t.
Proof.
  destruct c, c'; cbn [color_ok]; intros Hc Hc' E; try discriminate E; cbn [colorSummary] in E;
    rewrite <- ?app_assoc in E; apply app_inv_head in E; try done.
  - same_number E. by apply app_inv_head in E.
  - destruct_and!. same_number E. apply app_inv_head in E. same_number E. apply app_inv_head in E.
    same_number E. by apply app_inv_head in E.
  - same_number E. by apply app_inv_head in E.
Qed.

Lemma screenName_inj a a' s t :
  screen_ok a → screen_ok a' → screenName a ++ s = screenName a' ++ t → a = a' ∧ s = t.
Proof.
  destruct a as [[]|n], a' as [[]|n']; cbn [screen_ok]; intros Ha Ha' E; try discriminate E; cbn [screenName] in E;
    rewrite <- ?app_assoc in E; apply app_inv_head in E; try done.
  same_number E. by apply app_inv_head in E.
Qed.

Lemma bool_text_inj a b s t : bool_text a ++ s = bool_text b ++ t → a = b ∧ s = t.
Proof. by destruct a, b; intros E; try discriminate E; apply app_inv_head in E. Qed.

(** ** Attributes, each ended by a comma *)

Definition ended_parts (ps : list gostring) : gostring := ps ≫= λ p, p ++ B",".

Lemma ended_cons p ps s : ended_parts (p :: ps) ++ s = (p ++ B",") ++ ended_parts ps ++ s.
Proof. by rewrite app_assoc. Qed.

Lemma Join_ended ps a b : Join (ps ++ [a; b]) B"," = ended_parts ps ++ a ++ B"," ++ b.
Proof.
  induction ps as [|p ps IH]; [done|]. rewrite ended_cons, <- IH, <- app_assoc. cbn [app Join]. by destruct (ps ++ [a; b]) eqn:E; [destruct ps|].
Qed.

Lemma before_comma (w w' s t : gostring) : 44 ∉ w → 44 ∉ w' → w ++ B"," ++ s = w' ++ B"," ++ t → w = w'.
Proof.
  revert w'. induction w as [|c w IH]; intros [|c' w'] Hw Hw' E; [done| | |].
  - injection E as <- _. by destruct Hw'; constructor.
  - injection E as -> _. by destruct Hw; constructor.
  - injection E as <- E. apply not_elem_of_cons in Hw as [_ Hw], Hw' as [_ Hw']. f_equal. by apply (IH w').
Qed.

Definition begins (w s : gostring) : Prop := strip_prefix w s ≠ None.

Lemma begins_app w s : begins w (w ++ s).
Proof. unfold begins. by rewrite (proj2 (strip_prefix_spec w (w ++ s) s)). Qed.

(** A list of attributes begins with a word only if the word is one of them. *)
Lemma begins_flagged w fl s :
  44 ∉ w → Forall (λ w : gostring, 44 ∉ w) fl.*1 → w ∉ fl.*1 → ¬ begins (w ++ B",") s →
  ¬ begins (w ++ B",") (ended_parts (flagged fl) ++ s).
Proof.
  intros Hw. induction fl as [|[v b] fl IH]; intros Hfl Hin Hs; [done|].
  apply Forall_cons in Hfl as [Hv Hfl]. cbn in Hin. apply not_elem_of_cons in Hin as [Hne Hin].
  change (flagged ((v, b) :: fl)) with ((if b then [v] else []) ++ flagged fl). destruct b; cbn [app]; [|auto].
  rewrite ended_cons. unfold begins. destruct (strip_prefix _ _) as [r|] eqn:E; [|tauto].
  apply strip_prefix_spec in E. rewrite <- !app_assoc in E. symmetry in E. by apply before_comma in E.
Qed.

(** Attributes can be read back. *)
Lemma flagged_inj fl fl' s t :
  fl.*1 = fl'.*1 → NoDup (fl.*1) → Forall (λ w : gostring, 44 ∉ w) fl.*1 →
  Forall (λ w, ¬ begins (w ++ B",") s ∧ ¬ begins (w ++ B",") t) fl.*1 →
  ended_parts (flagged fl) ++ s = ended_parts (flagged fl') ++ t → fl = fl' ∧ s = t.
Proof.
  revert fl'. induction fl as [|[w b] fl IH]; intros [|[w' b'] fl'] Hw Hd Hc Hst E; try discriminate Hw; [done|].
  cbn in Hw. injection Hw as <- Hw. cbn in Hd. apply NoDup_cons in Hd as [Hin Hd].
  cbn in Hc, Hst. apply Forall_cons in Hc as [Hwc Hc]. apply Forall_cons in Hst as [[Hs Ht] Hst].
  change (flagged ((w, b) :: fl)) with ((if b then [w] else []) ++ flagged fl) in E.
  change (flagged ((w, b') :: fl')) with ((if b' then [w] else []) ++ flagged fl') in E.
  destruct b, b'.
  - cbn [app] in E. rewrite !ended_cons in E. apply app_inv_head in E. by destruct (IH fl' Hw Hd Hc Hst E) as [-> ->].
  - exfalso. refine (begins_flagged w fl' t Hwc _ _ Ht _); [by rewrite <- Hw..|].
    cbn [app] in E. rewrite ended_cons in E. rewrite <- E. apply begins_app.
  - exfalso. refine (begins_flagged w fl s Hwc Hc Hin Hs _).
    cbn [app] in E. rewrite ended_cons in E. rewrite E. apply begins_app.
  - cbn [app] in E. by destruct (IH fl' Hw Hd Hc Hst E) as [-> ->].
Qed.

(** ** Styles *)

Definition style_ok (s : Style) : Prop := 0 <= Underline s ∧ color_ok (FgColor s) ∧ color_ok (BgColor s).

(** What the text of a style shows. *)
Definition shown (style : option Style) : option (list bool * Z * list bool * StyleColor * StyleColor) :=
  s ← style;
  if IsDefault s then None
  else Some ((flags_before s).*2, Underline s, (flags_after s).*2, FgColor s, BgColor s).

Definition colors_text (s : Style) : gostring := B"fg=" ++ colorSummary (FgColor s) ++ B"," ++ B"bg=" ++ colorSummary (BgColor s).

Lemma style_text s t :
  Join (style_parts s) B"," ++ t =
  ended_parts (flagged (flags_before s)) ++ ended_parts (underline_part (Underline s)) ++
  ended_parts (flagged (flags_after s)) ++ colors_text s ++ t.
Proof.
  unfold style_parts, colors_text. rewrite !app_assoc, Join_ended. unfold ended_parts.
  rewrite !bind_app, <- !app_assoc. done.
Qed.

(** The attributes after the underline, and the colours, do not begin like
    anything that comes before. *)
Lemma after_underline s t :
  Forall (λ w, ¬ begins w (ended_parts (flagged (flags_after s)) ++ colors_text s ++ t))
    [B"underline="; B"bold,"; B"faint,"; B"italic,"].
Proof.
  destruct s as [d b1 b2 b3 u b4 b5 b6 b7 b8 f g]. unfold flags_after. cbn [Inverse Blink Strikethrough Overline Invisible].
  destruct b4, b5, b6, b7, b8; repeat constructor; intros H; by apply H.
Qed.

Lemma after_flags s t :
  Forall (λ w, ¬ begins (w ++ B",") (ended_parts (underline_part (Underline s)) ++ ended_parts (flagged (flags_after s)) ++ colors_text s ++ t))
    (flags_before s).*1.
Proof.
  pose proof (after_underline s t) as H. unfold underline_part. destruct (Underline s =? 0).
  { rewrite !Forall_cons in H. destruct H as (_ & ? & ? & ? & _). by repeat constructor. }
  repeat constructor; intros Hb; by apply Hb.
Qed.

Lemma underline_inj u u' s t :
  0 <= u → 0 <= u' → ¬ begins B"underline=" s → ¬ begins B"underline=" t →
  ended_parts (underline_part u) ++ s = ended_parts (underline_part u') ++ t → u = u' ∧ s = t.
Proof.
  intros Hu Hu' Hs Ht E. unfold underline_part in E.
  destruct (Z.eqb_spec u 0) as [->|], (Z.eqb_spec u' 0) as [->|]; [done| | |];
    rewrite ?ended_cons in E; cbn [ended_parts mbind list_bind app] in E; rewrite <- ?app_assoc in E.
  - destruct Hs. rewrite E. apply begins_app.
  - destruct Ht. rewrite <- E. apply begins_app.
  - apply app_inv_head in E. same_number E. by apply app_inv_head in E.
Qed.

Lemma fst_snd_eq {X Y} (l k : list (X * Y)) : l = k → l.*2 = k.*2.
Proof. by intros ->. Qed.

(** A style can be read off its text. *)
Lemma style_text_inj s s' t t' :
  style_ok s → style_ok s' → Join (style_parts s) B"," ++ t = Join (style_parts s') B"," ++ t' →
  (flags_before s).*2 = (flags_before s').*2 ∧ Underline s = Underline s' ∧
  (flags_after s).*2 = (flags_after s').*2 ∧ FgColor s = FgColor s' ∧ BgColor s = BgColor s' ∧ t = t'.
Proof.
  intros (Hu & Hf & Hg) (Hu' & Hf' & Hg') E. rewrite !style_text in E.
  apply flagged_inj in E as [E1 E];
    [|done|by apply (bool_decide_unpack _)|by apply (bool_decide_unpack _)|].
  2: { pose proof (after_flags s t) as H1. pose proof (after_flags s' t') as H2.
       change (flags_before s').*1 with (flags_before s).*1 in H2. by apply Forall_and. }
  pose proof (after_underline s t) as [H1 _]%Forall_cons. pose proof (after_underline s' t') as [H2 _]%Forall_cons.
  apply underline_inj in E as [E2 E]; [|done..].
  apply flagged_inj in E as [E3 E]; [|done|by apply (bool_decide_unpack _)|by apply (bool_decide_unpack _)|].
  2: { repeat constructor; intros H; by apply H. }
  unfold colors_text in E. rewrite <- !app_assoc in E. apply app_inv_head in E.
  apply colorSummary_inj in E as [E4 E]; [|done..]. apply app_inv_head in E. apply app_inv_head in E.
  apply colorSummary_inj in E as [E5 E]; [|done..].
  split_and!; try done; by apply fst_snd_eq.
Qed.

Lemma styleSummary_inj s s' t t' :
  (∀ x, s = Some x ∨ s' = Some x → style_ok x) → styleSummary s ++ t = styleSummary s' ++ t' → shown s = shown s' ∧ t = t'.
Proof.
  intros Hok E.
  assert (Hd : ∀ x r r', B"default" ++ r ≠ Join (style_parts x) B"," ++ r').
  { intros [d b1 b2 b3 u b4 b5 b6 b7 b8 f g] r r'. rewrite style_text. unfold flags_before, flags_after, underline_part.
    cbn [Bold Faint Italic Underline Inverse Blink Strikethrough Overline Invisible].
    destruct b1, b2, b3, (u =? 0), b4, b5, b6, b7, b8; discriminate. }
  assert (E0 : ∀ r r', B"default" ++ r = B"default" ++ r' → r = r') by (intros r r'; apply app_inv_head).
  destruct s as [s|], s' as [s'|]; unfold styleSummary, shown in *; cbn [mbind option_bind] in *;
    repeat case_match; try (by apply E0 in E); try (by destruct (Hd _ _ _ E)); try (by symmetry in E; destruct (Hd _ _ _ E)).
  apply style_text_inj in E; [|by eauto..]. destruct E as (-> & -> & -> & -> & -> & ->). done.
Qed.

(** ** Escapes *)

Lemma VisualizeVT_cons b s : VisualizeVT (b :: s) = (if b =? ESC then ESC_text else [b]) ++ VisualizeVT s.
Proof. done. Qed.

(** A text without [<] that the visible form begins with, the bytes do. *)
Lemma visualize_prefix w s :
  Forall (λ c, c ≠ 60) w → begins w (VisualizeVT s) → begins w s.
Proof.
  intros Hw. revert s. unfold begins. induction Hw as [|c w Hc _ IH]; intros s H; [done|].
  destruct s as [|b s]; [done|]. rewrite VisualizeVT_cons in H. destruct (Z.eqb_spec b ESC) as [->|].
  - unfold ESC_text in H. change (B"<ESC>") with (60 :: B"ESC>") in H. cbn [app strip_prefix] in H.
    by rewrite (proj2 (Z.eqb_neq c 60) Hc) in H.
  - cbn [app strip_prefix] in H |- *. destruct (c =? b); [by apply IH|done].
Qed.

(** Text in which no [<ESC>] is written out comes back from its visible form. *)
Fixpoint literal_free (s : list byte) : bool :=
  match s with
  | [] => true
  | _ :: s' => bool_decide (strip_prefix ESC_text s = None) && literal_free s'
  end.

Lemma visualize_inj s s' :
  literal_free s = true → literal_free s' = true → VisualizeVT s = VisualizeVT s' → s = s'.
Proof.
  assert (Hesc : ∀ b r r', literal_free (b :: r) = true → b ≠ ESC → ESC_text ++ r' ≠ b :: VisualizeVT r).
  { intros b r r' [Hl _]%andb_prop Hb E. apply bool_decide_eq_true in Hl. injection E as <- E.
    assert (Hr : begins B"ESC>" r); [|by apply Hr].
    apply visualize_prefix; [by repeat constructor|]. rewrite <- E. apply (begins_app B"ESC>"). }
  revert s'. induction s as [|b s IH]; intros [|b' s'] Hs Hs' E; [done| | |].
  - rewrite VisualizeVT_cons in E. by destruct (b' =? ESC).
  - rewrite VisualizeVT_cons in E. by destruct (b =? ESC).
  - rewrite !VisualizeVT_cons in E.
    assert (Hn : literal_free s = true) by (by apply andb_prop in Hs as [_ ?]).
    assert (Hn' : literal_free s' = true) by (by apply andb_prop in Hs' as [_ ?]).
    destruct (Z.eqb_spec b ESC) as [->|Hb], (Z.eqb_spec b' ESC) as [->|Hb'].
    + apply app_inv_head in E. by rewrite (IH s').
    + by destruct (Hesc _ _ _ Hs' Hb' E).
    + symmetry in E. by destruct (Hesc _ _ _ Hs Hb E).
    + injection E as -> E. by rewrite (IH s').
Qed.

(** An escape and its written form look the same. *)
Lemma visualize_ambiguous : VisualizeVT [ESC] = VisualizeVT ESC_text.
Proof. done. Qed.

Lemma end_line_eq v v' : v ++ end_line v = v' ++ end_line v' → v = v' ∨ v = v' ++ [10] ∨ v' = v ++ [10].
Proof.
  assert (H : ∀ w, end_line w = [] ∨ end_line w = [10]) by (intros w; unfold end_line; repeat case_match; auto).
  destruct (H v) as [->| ->], (H v') as [->| ->]; rewrite ?app_nil_r; intros E; auto.
  left. by apply app_inv_tail in E.
Qed.

(** ** What equal snapshots show *)

Definition view_ok (v : view) : Prop :=
  0 <= v_cols v ∧ 0 <= v_rows v ∧ 0 <= v_x v ∧ 0 <= v_y v ∧ screen_ok (v_active v) ∧
  (∀ s, v_style v = Some s → style_ok s).

(** Two terminals with the same snapshot have the same size, cursor, screen and
    style, and screens that print the same up to a last newline. *)
Theorem snapshot_shows v v' :
  view_ok v → view_ok v' → view_text v = view_text v' →
  v_cols v = v_cols v' ∧ v_rows v = v_rows v' ∧ v_x v = v_x v' ∧ v_y v = v_y v' ∧
  v_visible v = v_visible v' ∧ v_active v = v_active v' ∧ shown (v_style v) = shown (v_style v') ∧
  (VisualizeVT (v_vt v) = VisualizeVT (v_vt v') ∨ VisualizeVT (v_vt v) = VisualizeVT (v_vt v') ++ [10] ∨
   VisualizeVT (v_vt v') = VisualizeVT (v_vt v) ++ [10]).
Proof.
  intros (Hc & Hr & Hx & Hy & Ha & Hs) (Hc' & Hr' & Hx' & Hy' & Ha' & Hs') E. unfold view_text in E.
  rewrite <- !app_assoc in E. apply app_inv_head in E.
  apply Itoa_stop in E as [Ec E]; [|done..]. apply app_inv_head in E.
  apply Itoa_stop in E as [Er E]; [|done..]. apply app_inv_head in E. apply app_inv_head in E.
  apply Itoa_stop in E as [Ey E]; [|lia..|done|done]. apply app_inv_head in E.
  apply Itoa_stop in E as [Ex E]; [|lia..|done|done]. apply app_inv_head in E.
  apply bool_text_inj in E as [Ev E]. apply app_inv_head in E.
  apply screenName_inj in E as [Es E]; [|done..]. apply app_inv_head in E.
  apply styleSummary_inj in E as [Est E]; [|by intros s [?|?]; auto]. do 3 apply app_inv_head in E.
  apply end_line_eq in E. split_and!; (lia || done).
Qed.

(** ** An instance *)

Definition bold_red : Style :=
  mkStyle false true false false 1 false false false false false (StyleColorRGB 255 0 0) StyleColorNone.

Example bold_red_text :
  view_text (mkView 80 24 0 1 true (KnownScreen ScreenPrimary) (Some bold_red) [ESC; 91; 109]) =
  B"cols=80 rows=24" ++ [10] ++
  B"cursor=2,1 visible=true active=primary sgr=bold,underline=1,fg=rgb(255,0,0),bg=default" ++ [10] ++
  B"formatVT:" ++ [10] ++ B"<ESC>[m" ++ [10].
Proof. vm_compute. reflexivity. Qed.
