(* ===== verification/Harness.v ===== *)
(** * [internal/attachetest/harness.go]: the fixtures of the attach tests

    A local terminal that the client writes to ([LocalTerminal]), a session PTY
    behind an HTTP server ([Remote]), the waits for a text and the golden files.
    [t.Fatalf] ends a test: the [Err] of a [res]. *)
From S2P Require Import Prelude GoBase GoStrings Paths State Terminal Recorder Pty PtyRoutes AttachHandler Snapshot.
Open Scope Z_scope.

Inductive fatal :=
| FaTerm (e : term_error) | FaPtyOpen | FaPTY (e : pty_error) | FaDial | FaSlaveWrite
| FaTimeout (want last : gostring) | FaMkdir | FaWriteGolden | FaReadGolden | FaMismatch (want got : gostring)
| FaWriteUpgrade | FaFlush | FaReadUpgrade | FaStatus (code : Z) (body : gostring).

Definition or_fatal {E A} (f : E → fatal) (x : res E A) : res fatal A :=
  match x with Ok a => Ok a | Err e => Err (f e) end.

(** ** [LocalTerminal]

    Its methods hold [lt.mu], so they are atomic. *)
Section local.
Context {T : Type} {TO : TermOps T} {SO : ScreenOps T}.

Record LocalTerminal := mkLocal { lt_term : T; lt_raw : list byte }.

Definition NewLocalTerminal (cols rows : Z) : res fatal LocalTerminal :=
  term ← or_fatal FaTerm (NewTerminal cols rows 500); mret (mkLocal term []).

(** [Write]; the emulator's answers to queries have no callback here. *)
Definition lt_Write (p : list byte) : st LocalTerminal fatal Z := λ lt,
  (Ok (Z.of_nat (length p)), mkLocal (VTWrite p (lt_term lt)).1 (lt_raw lt ++ p)).

Definition lt_Resize (cols rows : Z) : st LocalTerminal fatal unit := λ lt,
  let '(x, t) := TermResize cols rows (lt_term lt) in (or_fatal FaTerm x, mkLocal t (lt_raw lt)).

Definition PlainText (lt : LocalTerminal) : res fatal gostring := or_fatal FaTerm (Format FmtPlain (lt_term lt)).

Definition lt_Snapshot (lt : LocalTerminal) : res fatal gostring := or_fatal FaTerm (Snapshot (lt_term lt)).

Definition RawSnapshot (lt : LocalTerminal) : gostring := VisualizeVT (lt_raw lt).

(** ** Waiting for a text *)

Definition timed_out (want : gostring) (last : res fatal gostring) : res fatal unit :=
  l ← last; Err (FaTimeout want l).

(** [step k] is the [k]-th look, which says whether the text is there, or fails
    the test; [last k] is the text shown when the time is over.  [clock 0] is the
    time the deadline is counted from and [clock (S k)] the time before the
    [k]-th look, in milliseconds. *)
Fixpoint want_loop (fuel : nat) (deadline : Z) (clock : nat → Z) (step : nat → res fatal bool)
    (last : nat → res fatal gostring) (want : gostring) (k : nat) : option (res fatal unit) :=
  match fuel with
  | O => None
  | S fuel' =>
      if clock (S k) <? deadline then
        match step k with
        | Err e => Some (Err e)
        | Ok true => Some (Ok tt)
        | Ok false => want_loop fuel' deadline clock step last want (S k)
        end
      else Some (timed_out want (last k))
  end.

Definition sleep_ms : Z := 10.
Definition wait_ms : Z := 2000.
Definition wait_fuel : nat := S (Z.to_nat (wait_ms / sleep_ms)).

Definition wait_for (clock : nat → Z) (step : nat → res fatal bool) (last : nat → res fatal gostring)
    (want : gostring) : option (res fatal unit) :=
  want_loop wait_fuel (clock 0%nat + wait_ms) clock step last want 0.

(** [seen k]: the terminal at the [k]-th look; the client goes on writing to it
    between two looks. *)
Definition WaitText (clock : nat → Z) (seen : nat → LocalTerminal) (want : gostring) : option (res fatal unit) :=
  wait_for clock (λ k, got ← PlainText (seen k); Ok (Contains got want)) (λ k, PlainText (seen k)) want.

Definition WaitRawText (clock : nat → Z) (seen : nat → LocalTerminal) (want : gostring) : option (res fatal unit) :=
  wait_for clock (λ k, Ok (Contains (lt_raw (seen k)) want)) (λ k, Ok (lt_raw (seen k))) want.

(** ** [Remote] *)

Inductive LibghosttyOption := WithLibghosttyScrollback (lines : Z) | WithRecorder (r : Recorder).

(** [libghosttyOptions]: the scrollback and the recorder, from the default. *)
Definition apply_options (opts : list LibghosttyOption) : Z * option Recorder :=
  foldl (λ o x, match x with WithLibghosttyScrollback n => (n, o.2) | WithRecorder r => (o.1, Some r) end)
    (10000, None) opts.

Inductive remote_event := EvOpen | EvServe | EvServerClose | EvPTYClose | EvSlaveClose | EvMasterClose.

(** The fields of a [Remote] that can be nil; the server is reached by its URL. *)
Record Remote := mkRemote { rm_PTY : option (LibghosttyPTY T); rm_slave : bool; rm_master : bool; rm_server : option gostring }.

(** [opened] is the master that [pty.Open] gives, [url] the URL of the server. *)
Definition NewRemoteWithOptions (opened : option writer) (url : gostring) (cols rows : Z)
    (opts : list LibghosttyOption) : res fatal Remote * list remote_event :=
  match opened with
  | None => (Err FaPtyOpen, [])
  | Some master =>
      let '(scrollback, rec) := apply_options (WithLibghosttyScrollback 200 :: opts) in
      match NewLibghosttyPTY (Some master) cols rows scrollback rec with
      | Err e => (Err (FaPTY e), [EvOpen; EvSlaveClose; EvMasterClose])
      | Ok p => (Ok (mkRemote (Some p) true true (Some url)), [EvOpen; EvServe])
      end
  end.

Definition NewRemote (opened : option writer) (url : gostring) (cols rows : Z) : res fatal Remote * list remote_event :=
  NewRemoteWithOptions opened url cols rows [].

(** [Remote.Close]; what [PTY.Close] does is [Pty.Close]. *)
Definition Remote_Close (r : Remote) : list remote_event :=
  (match rm_server r with Some _ => [EvServerClose] | None => [] end) ++
  (match rm_PTY r with Some _ => [EvPTYClose] | None => [] end) ++
  (if rm_slave r then [EvSlaveClose] else []) ++ (if rm_master r then [EvMasterClose] else []).

Definition AttachURL (url : gostring) : gostring := url ++ B"/attach".

Definition dial_addr (url : gostring) : gostring := TrimPrefix url B"http://".

Definition DialAttach (url : gostring) (dial : gostring → bool) : res fatal unit :=
  if dial (dial_addr url) then Ok tt else Err FaDial.

(** An error of [FormatText] is looked at again; the last one shows as no text. *)
Definition WriteAndWait (written : bool) (clock : nat → Z) (seen : nat → LibghosttyPTY T) (want : gostring) :
    option (res fatal unit) :=
  if written then
    wait_for clock
      (λ k, Ok (match FormatText (seen k) with Ok out => Contains out want | Err _ => false end))
      (λ k, Ok (match FormatText (seen k) with Ok out => out | Err _ => [] end)) want
  else Some (Err FaSlaveWrite).
End local.
Arguments LocalTerminal T : clear implicits.
Arguments Remote T : clear implicits.

(** ** Golden files *)

(** [file] is the path of the source, from [runtime.Caller]. *)
Definition GoldenPath (file name : gostring) : gostring :=
  path_Join [path_Dir file; B"testdata"; name ++ B".golden"].

(** The files by path; [mkdir] and [write] are the answers of the system. *)
Definition CompareGolden (update mkdir write : bool) (file name got : gostring) : st (gmap gostring gostring) fatal unit := λ fs,
  let path := GoldenPath file name in
  if update then
    if mkdir then if write then (Ok tt, <[path := got]> fs) else (Err FaWriteGolden, fs)
    else (Err FaMkdir, fs)
  else match fs !! path with
       | None => (Err FaReadGolden, fs)
       | Some want => if bool_decide (want = got) then (Ok tt, fs) else (Err (FaMismatch want got), fs)
       end.

(** ** [WriteUpgrade] *)

(** The method and the headers of the request. *)
Definition upgrade_request : gostring * list (gostring * gostring) :=
  (B"GET", [(B"Upgrade", B"hoot-attach/1"); (B"Connection", B"Upgrade")]).

(** [response] is the status and the body that come back. *)
Definition WriteUpgrade (write flush : bool) (response : option (Z * gostring)) : res fatal unit :=
  if write then
    if flush then
      match response with
      | None => Err FaReadUpgrade
      | Some (code, body) => if code =? 101 then Ok tt else Err (FaStatus code body)
      end
    else Err FaFlush
  else Err FaWriteUpgrade.

(** ** What the waits show *)

Lemma clock_mono (clock : nat → Z) :
  (∀ n, clock (S n) + sleep_ms <= clock (S (S n))) → ∀ a b, (a <= b)%nat → clock (S a) <= clock (S b).
Proof. intros steady a b. induction 1 as [|b ? IHb]; [done|]. pose proof (steady b). unfold sleep_ms in *. lia. Qed.

Section wait.
Context (clock : nat → Z) (step : nat → res fatal bool) (last : nat → res fatal gostring) (want : gostring).

Lemma want_loop_exact fuel deadline k o :
  want_loop fuel deadline clock step last want k = Some o → ∃ n, (k <= n)%nat ∧
  (∀ j, (k <= j < n)%nat → clock (S j) < deadline ∧ step j = Ok false) ∧
  match o with
  | Ok _ => clock (S n) < deadline ∧ step n = Ok true
  | Err e => clock (S n) < deadline ∧ step n = Err e ∨ deadline <= clock (S n) ∧ timed_out want (last n) = Err e
  end.
Proof.
  revert k. induction fuel as [|fuel IH]; intros k; cbn [want_loop]; [done|].
  destruct (Z.ltb_spec (clock (S k)) deadline) as [Hk|Hk].
  - destruct (step k) as [[]|e] eqn:Es.
    + intros [= <-]. exists k. by split_and!; [lia|intros j ?; lia|..].
    + intros (n & Hn & Hj & Ho)%IH. exists n. split_and!; [lia| |done].
      intros j ?. destruct (decide (j = k)) as [->|]; [done|]. apply Hj. lia.
    + intros [= <-]. exists k. split_and!; [lia|intros j ?; lia|]. by left.
  - intros [= <-]. exists k. split_and!; [lia|intros j ?; lia|].
    destruct (last k); cbn; right; by split.
Qed.

(** The clock goes on by the sleep from one look to the next. *)
Context (start : clock 0%nat <= clock 1%nat) (steady : ∀ n, clock (S n) + sleep_ms <= clock (S (S n))).

Lemma want_loop_ends fuel deadline k :
  (0 < fuel)%nat → deadline <= clock (S k) + sleep_ms * (Z.of_nat fuel - 1) →
  want_loop fuel deadline clock step last want k ≠ None.
Proof.
  revert k. induction fuel as [|fuel IH]; intros k H0 Hf; [lia|]. cbn [want_loop].
  destruct (Z.ltb_spec (clock (S k)) deadline) as [Hk|]; [|done]. destruct (step k) as [[]|]; [done| |done].
  pose proof (steady k). unfold sleep_ms in *. destruct fuel as [|fuel]; [lia|]. apply IH; lia.
Qed.

(** A wait ends; it succeeds exactly when one of the looks before the deadline
    finds the text and none before it fails. *)
Lemma wait_for_ends : ∃ o, wait_for clock step last want = Some o.
Proof.
  destruct (wait_for clock step last want) as [o|] eqn:E; [by exists o|].
  exfalso. revert E. apply want_loop_ends; [unfold wait_fuel; lia|]. change (Z.of_nat wait_fuel) with 201. unfold sleep_ms, wait_ms. lia.
Qed.

Theorem wait_for_ok :
  wait_for clock step last want = Some (Ok tt) ↔
  ∃ n, step n = Ok true ∧ clock (S n) < clock 0%nat + wait_ms ∧ ∀ j, (j < n)%nat → step j = Ok false.
Proof.
  split.
  - intros (n & _ & Hj & Hn & Hs)%want_loop_exact. exists n. split_and!; [done..|]. intros j ?. apply Hj. lia.
  - intros (n & Hs & Hd & Hj). destruct wait_for_ends as [o E]. rewrite E.
    apply want_loop_exact in E as (m & _ & Hm & Ho).
    destruct (Nat.lt_trichotomy m n) as [Hl|[->|Hl]].
    + exfalso. pose proof (clock_mono clock steady m n). rewrite (Hj m Hl) in Ho. destruct o as [u|e]; [by destruct Ho|].
      destruct Ho as [[_ ?]|[? _]]; [done|lia].
    + rewrite Hs in Ho. destruct o as [[]|e]; [done|]. destruct Ho as [[_ ?]|[? _]]; [done|lia].
    + destruct (Hm n) as [_ Hn]; [lia|]. congruence.
Qed.
End wait.

(** ** The local terminal under its calls *)

Section local_facts.
Context {T : Type} {TO : TermOps T} {TL : TermLaws T}.
Implicit Types (lt : LocalTerminal T) (p q : list byte).

Definition lt_writes (ps : list (list byte)) lt : LocalTerminal T := foldl (λ lt p, (lt_Write p lt).2) lt ps.

(** However the client cuts what it writes, the terminal and the raw text end the
    same: a golden file does not depend on the timing of the connection. *)
Theorem lt_writes_concat ps lt : lt_writes ps lt = (lt_Write (concat ps) lt).2.
Proof.
  revert lt. induction ps as [|p ps IH]; intros [t raw]; cbn [lt_writes foldl concat].
  - unfold lt_Write. cbn. by rewrite VTWrite_nil, app_nil_r.
  - fold (lt_writes ps (lt_Write p (mkLocal t raw)).2). rewrite IH. unfold lt_Write. cbn.
    by rewrite VTWrite_app, app_assoc.
Qed.

(** What a wait for raw text looks at only grows: once there, a text stays. *)
Lemma raw_wait_stays lt p want : Contains (lt_raw lt) want = true → Contains (lt_raw (lt_Write p lt).2) want = true.
Proof. rewrite !Contains_spec. cbn. intros (a & b & ->). exists a, (b ++ p). by rewrite <- !app_assoc. Qed.

(** A wait for a raw text that was written before its deadline succeeds. *)
Theorem WaitRawText_found clock (writes : nat → list byte) lt want n :
  clock 0%nat <= clock 1%nat → (∀ k, clock (S k) + sleep_ms <= clock (S (S k))) →
  let seen k := lt_writes (writes <$> seq 0 k) lt in
  Contains (lt_raw (seen n)) want = true → clock (S n) < clock 0%nat + wait_ms →
  WaitRawText clock seen want = Some (Ok tt).
Proof.
  intros H0 Hs seen Hn Hd. apply wait_for_ok; [done..|].
  induction n as [n IH] using lt_wf_ind.
  destruct (existsb (λ j, Contains (lt_raw (seen j)) want) (seq 0 n)) eqn:E.
  - apply existsb_exists in E as (j & Hj%in_seq & Hc). apply (IH j); [lia|done|].
    pose proof (clock_mono clock Hs j n). lia.
  - exists n. split_and!; [by rewrite Hn|done|]. intros j Hj. f_equal. destruct (Contains (lt_raw (seen j)) want) eqn:Ec; [|done].
    apply not_true_iff_false in E. destruct E. apply existsb_exists. exists j. split; [apply in_seq; lia|done].
Qed.
End local_facts.

(** ** Golden files *)

(** A golden file that was updated matches the same text, and no other. *)
Theorem golden_roundtrip file name got got' fs :
  let fs' := (CompareGolden true true true file name got fs).2 in
  (CompareGolden false true true file name got' fs').1 = Ok tt ↔ got' = got.
Proof.
  cbn. unfold CompareGolden. rewrite lookup_insert_eq. case_bool_decide as H; subst; cbn; split; congruence.
Qed.

(** Two raw outputs that match the same golden file are the same bytes, if they
    do not spell out the mark of an escape. *)
Theorem golden_raw {T} (lt lt' : LocalTerminal T) file name fs :
  (CompareGolden false true true file name (RawSnapshot lt) fs).1 = Ok tt →
  (CompareGolden false true true file name (RawSnapshot lt') fs).1 = Ok tt →
  literal_free (lt_raw lt) = true → literal_free (lt_raw lt') = true → lt_raw lt = lt_raw lt'.
Proof.
  unfold CompareGolden, RawSnapshot. cbn. destruct (fs !! _) as [w|]; [|done].
  case_bool_decide as H; [|done]. intros _. case_bool_decide as H'; [|done]. intros _ Hl Hl'.
  apply visualize_inj; congruence.
Qed.

(** A name that climbs leaves its directory: two names, one file. *)
Example golden_alias : GoldenPath B"/x/harness.go" B"a/../b" = GoldenPath B"/x/harness.go" B"b".
Proof. vm_compute. reflexivity. Qed.

(** ** The remote *)

Section remote_facts.
Context {T : Type} {TO : TermOps T}.

(** The last option of a kind wins; the harness's scrollback is only a default. *)
Lemma apply_options_snoc opts n : (apply_options (opts ++ [WithLibghosttyScrollback n])).1 = n.
Proof. unfold apply_options. by rewrite foldl_app. Qed.

(** Whatever fails, both ends of the PTY are closed, before [NewRemote] gives up
    or by [Close]. *)
Theorem remote_closes opened url cols rows opts (x : res fatal (Remote T)) evs :
  NewRemoteWithOptions opened url cols rows opts = (x, evs) →
  let evs' := evs ++ match x with Ok r => Remote_Close r | Err _ => [] end in
  EvOpen ∈ evs' → EvSlaveClose ∈ evs' ∧ EvMasterClose ∈ evs' ∧ (EvServe ∈ evs' ↔ EvServerClose ∈ evs').
Proof.
  unfold NewRemoteWithOptions. destruct opened as [m|]; [|intros [= <- <-]; cbn; set_solver].
  destruct (apply_options _) as [sb rec]. destruct (NewLibghosttyPTY _ _ _ _ _) as [p|e]; intros [= <- <-]; cbn; set_solver.
Qed.

(** A session of the harness is one [NewLibghosttyPTY] makes, with 200 lines of
    scrollback and no recorder unless the options say otherwise. *)
Lemma NewRemote_pty m url cols rows :
  (NewRemote (T := T) (Some m) url cols rows).1 =
  (p ← or_fatal FaPTY (NewLibghosttyPTY (Some m) cols rows 200 None); Ok (mkRemote (Some p) true true (Some url))).
Proof. unfold NewRemote, NewRemoteWithOptions. cbn [foldl apply_options]. by destruct (NewLibghosttyPTY _ _ _ _ _). Qed.
End remote_facts.

(** ** The upgrade *)

(** What the server's answer is to the client of the harness: nothing when the
    handler dropped the connection. *)
Definition answer_of (r : upgrade_result) : option (Z * gostring) :=
  match r with Refused status => Some (status, []) | Dropped => None | Upgraded _ => Some (101, []) end.

(** The request is the one [ServeHTTP] upgrades, so the fixture goes through
    exactly when the connection works. *)
Theorem WriteUpgrade_served hijack write flush :
  let u := mkUpgrade (bool_decide (upgrade_request.1 = B"GET"))
             (default [] (list_find (λ h, h.1 = B"Upgrade") upgrade_request.2 ≫= λ h, Some h.2.2)) true hijack write flush in
  WriteUpgrade true true (answer_of (ServeHTTP u)) = Ok tt ↔ hijack = None ∧ write = None ∧ flush = None.
Proof. destruct hijack, write, flush; cbn; split; intros H; try done; by destruct_and!. Qed.
