(* ===== verification/Stdin.v ===== *)
(** * [runStdinFSM], [readByteFromChan]: the keyboard of [hoot attach]

    A goroutine reads stdin a byte at a time into a channel of one place; the
    chord machine ([ChordFsm]) takes the bytes from it until stdin ends, the
    attachment is cancelled or a chord ends it.  What the machine reads is what
    was typed, in order, whatever the interleaving; and what the goroutine holds
    when nobody reads any more. *)
From S2P Require Import Prelude GoBase.
Open Scope Z_scope.

(** What [os.Stdin.Read] returns: a byte, an error, both or neither. *)
Record read_result := mkRead { rr_byte : option byte; rr_err : bool }.

(** [byteOrErr] *)
Inductive byteOrErr := ByteOf (b : byte) | ErrOf.

(** What the goroutine sends after one read, in order; after an error it
    returns. *)
Definition read_items (r : read_result) : list byteOrErr :=
  match rr_byte r with Some b => [ByteOf b] | None => [] end ++ (if rr_err r then [ErrOf] else []).

(** The goroutine is in [Read], has items to send (and returns afterwards or
    not), or has returned. *)
Inductive reader_pc := RReading | RSending (its : list byteOrErr) (last : bool) | REnded.

Definition after_send (its : list byteOrErr) (last : bool) : reader_pc :=
  match its with [] => if last then REnded else RReading | _ => RSending its last end.

(** [sd_script]: what [Read] will return; when it is over [Read] blocks.
    [sd_got]: the bytes the chord machine has read. *)
Record stdin := mkStdin {
  sd_script : list read_result; sd_reader : reader_pc; sd_ch : list byteOrErr; sd_cancelled : bool;
  sd_got : list byte; sd_fsm : bool      (** the machine still runs *)
}.

Definition new_stdin (script : list read_result) : stdin := mkStdin script RReading [] false [] true.

Definition ch_size : nat := 1.

(** The goroutine and the machine. *)
Inductive moves : stdin → stdin → Prop :=
| MRead r script ch c got f :
    moves (mkStdin (r :: script) RReading ch c got f) (mkStdin script (after_send (read_items r) (rr_err r)) ch c got f)
| MSend it its last script ch c got f :
    (length ch < ch_size)%nat →
    moves (mkStdin script (RSending (it :: its) last) ch c got f) (mkStdin script (after_send its last) (ch ++ [it]) c got f)
| MByte b script r ch c got :
    moves (mkStdin script r (ByteOf b :: ch) c got true) (mkStdin script r ch c (got ++ [b]) true)
| MErr script r ch c got :
    moves (mkStdin script r (ErrOf :: ch) c got true) (mkStdin script r ch c got false).

(** With the ends of the attachment; [select] takes any case that is ready. *)
Inductive sstep : stdin → stdin → Prop :=
| SMove s s' : moves s s' → sstep s s'
| SDone script r ch got : sstep (mkStdin script r ch true got true) (mkStdin script r ch true got false)
| SLeave script r ch c got :                  (** the machine ends by a chord *)
    sstep (mkStdin script r ch c got true) (mkStdin script r ch c got false)
| SCancel script r ch c got f : sstep (mkStdin script r ch c got f) (mkStdin script r ch true got f).

(** ** The items on their way *)

Definition item_bytes (its : list byteOrErr) : list byte :=
  its ≫= λ it, match it with ByteOf b => [b] | ErrOf => [] end.

(** What the goroutine sends in all. *)
Fixpoint script_items (script : list read_result) : list byteOrErr :=
  match script with
  | [] => []
  | r :: script' => read_items r ++ (if rr_err r then [] else script_items script')
  end.

(** What stdin gives before it fails. *)
Definition script_bytes (script : list read_result) : list byte := item_bytes (script_items script).

Definition pending (r : reader_pc) : list byteOrErr := match r with RSending its _ => its | _ => [] end.

Definition to_come (s : stdin) : list byteOrErr :=
  pending (sd_reader s) ++
  match sd_reader s with RReading | RSending _ false => script_items (sd_script s) | _ => [] end.

Definition consumed (s : stdin) : list byteOrErr := (ByteOf <$> sd_got s) ++ (if sd_fsm s then [] else [ErrOf]).

Lemma item_bytes_app a b : item_bytes (a ++ b) = item_bytes a ++ item_bytes b.
Proof. apply bind_app. Qed.

Lemma item_bytes_of bs : item_bytes (ByteOf <$> bs) = bs.
Proof. induction bs as [|b bs IH]; [done|]. cbn. by f_equal. Qed.

Lemma script_items_split script :
  script_items script = (ByteOf <$> script_bytes script) ++ (if existsb rr_err script then [ErrOf] else []).
Proof.
  unfold script_bytes. induction script as [|[[b|] []] script IH]; cbn; try done. by rewrite IH at 1.
Qed.

Lemma to_come_sent its last script ch c got f :
  to_come (mkStdin script (after_send its last) ch c got f) = its ++ (if last then [] else script_items script).
Proof. by destruct its, last. Qed.

(** [RSending] always has something to send. *)
Definition sending_ok (s : stdin) : Prop := ∀ last, sd_reader s ≠ RSending [] last.

Lemma sending_step s s' : sending_ok s → moves s s' → sending_ok s'.
Proof.
  assert (Ha : ∀ its l l', after_send its l ≠ RSending [] l') by (by intros [|??] [] ?).
  intros H Hm. destruct Hm; intros l; cbn; try apply Ha; apply H.
Qed.

(** What was read, what waits in the channel and what is to come are what the
    goroutine sends in all. *)
Lemma moves_flow s s' : moves s s' →
  sd_fsm s = true → consumed s ++ sd_ch s ++ to_come s = consumed s' ++ sd_ch s' ++ to_come s'.
Proof.
  destruct 1; cbn [sd_fsm]; intros Hf; subst; unfold consumed; cbn [sd_got sd_fsm sd_ch].
  - rewrite to_come_sent. done.
  - rewrite to_come_sent. unfold to_come. cbn [sd_reader pending sd_script].
    change (it :: its) with ([it] ++ its). rewrite <- !app_assoc. by destruct last0.
  - rewrite fmap_app, <- !app_assoc. done.
  - rewrite app_nil_r, <- app_assoc. done.
Qed.

(** *** In order *)

Definition flow (all : list byteOrErr) (s : stdin) : Prop :=
  if sd_fsm s then consumed s ++ sd_ch s ++ to_come s = all else sd_got s `prefix_of` item_bytes all.

Lemma flow_prefix all s : flow all s → sd_got s `prefix_of` item_bytes all.
Proof.
  unfold flow, consumed. destruct (sd_fsm s); [|done]. intros <-. rewrite !item_bytes_app, item_bytes_of, <- !app_assoc.
  by apply prefix_app_r.
Qed.

Lemma flow_step all s s' : flow all s → sstep s s' → flow all s'.
Proof.
  intros H Hs. pose proof (flow_prefix _ _ H) as Hp. destruct Hs as [s s' Hm| | |]; try done.
  unfold flow. destruct (sd_fsm s') eqn:E'.
  - assert (E : sd_fsm s = true) by (by destruct Hm). unfold flow in H. rewrite E in H. by rewrite <- (moves_flow _ _ Hm E).
  - destruct Hm; cbn in *; done.
Qed.

(** Whatever the interleaving, and whenever the attachment is cancelled, the
    chord machine reads what was typed, in order. *)
Theorem stdin_in_order script s : rtc sstep (new_stdin script) s → sd_got s `prefix_of` script_bytes script.
Proof.
  intros H. apply (flow_prefix (script_items script)).
  assert (H0 : flow (script_items script) (new_stdin script)) by done.
  revert H0. induction H; eauto using flow_step.
Qed.

(** *** To the end *)

(** What is left to do: a read sends at most two items, and each is sent and
    received. *)
Definition work (s : stdin) : nat :=
  5 * length (sd_script s) + 2 * length (pending (sd_reader s)) + length (sd_ch s).

Lemma moves_work s s' : moves s s' → (work s' < work s)%nat.
Proof.
  assert (Ha : ∀ its l, pending (after_send its l) = its) by (by intros [|??] []).
  destruct 1; unfold work; cbn [sd_script sd_reader sd_ch pending]; rewrite ?Ha; cbn [length]; rewrite ?length_app; cbn [length]; try lia.
  destruct r as [[b|] []]; cbn; lia.
Qed.

(** No run goes on for ever. *)
Lemma moves_end : well_founded (flip moves).
Proof. apply (wf_projected lt work); [|apply lt_wf]. intros s2 s1. apply moves_work. Qed.

Lemma rest_drained s : sending_ok s → (∀ s', ¬ moves s s') → sd_fsm s = true → sd_ch s = [] ∧ to_come s = [].
Proof.
  destruct s as [script r ch c got f]. cbn. intros Hok Hrest ->.
  destruct ch as [|[b|] ch]; [|by destruct (Hrest _ (MByte b script r ch c got))|by destruct (Hrest _ (MErr script r ch c got))].
  split; [done|]. destruct r as [|[|it its] l|].
  - destruct script as [|r script]; [done|]. by destruct (Hrest _ (MRead r script [] c got true)).
  - by destruct (Hok l).
  - destruct (Hrest _ (MSend it its l script [] c got true ltac:(unfold ch_size; cbn; lia))).
  - done.
Qed.

(** Once the machine has seen the error, there was nothing else. *)
Definition over (all : list byteOrErr) (s : stdin) : Prop :=
  if sd_fsm s then consumed s ++ sd_ch s ++ to_come s = all else consumed s = all.

Lemma err_last (bs got : list byte) (e : bool) l :
  (ByteOf <$> bs) ++ (if e then [ErrOf] else []) = (ByteOf <$> got) ++ ErrOf :: l → l = [].
Proof.
  revert got. induction bs as [|b bs IH]; intros [|g got] E; cbn in E.
  - destruct e; by simplify_eq.
  - by destruct e.
  - done.
  - injection E as _ E. by apply (IH got).
Qed.

Lemma over_step script s s' : over (script_items script) s → moves s s' → over (script_items script) s'.
Proof.
  unfold over. intros H Hm. destruct (sd_fsm s) eqn:E.
  - pose proof (moves_flow _ _ Hm E) as Hf. rewrite H in Hf. destruct (sd_fsm s') eqn:E'; [done|].
    unfold consumed in *. rewrite E' in *. rewrite script_items_split, <- app_assoc in Hf.
    rewrite script_items_split. cbn [app] in Hf. by rewrite (err_last _ _ _ _ Hf) in Hf.
  - assert (E' : sd_fsm s' = false) by (by destruct Hm). rewrite E'. rewrite <- H. unfold consumed. rewrite E, E'. by destruct Hm.
Qed.

(** While nothing else ends the attachment, a run comes to its end
    ([moves_end]), and then the machine has read all that was typed; it has ended
    exactly if stdin did. *)
Theorem stdin_all_read script s :
  rtc moves (new_stdin script) s → (∀ s', ¬ moves s s') →
  sd_got s = script_bytes script ∧ (sd_fsm s = negb (existsb rr_err script)).
Proof.
  intros Hr Hrest. assert (H : over (script_items script) s ∧ sending_ok s).
  { assert (H0 : over (script_items script) (new_stdin script) ∧ sending_ok (new_stdin script)) by done.
    revert H0. clear Hrest. induction Hr as [|x y z Hxy _ IH]; [done|]. intros [? ?].
    apply IH. split; [by eapply over_step|by eapply sending_step]. }
  destruct H as [H Hok]. unfold over, consumed in H. rewrite script_items_split in H. destruct (sd_fsm s) eqn:E.
  - destruct (rest_drained s Hok Hrest E) as [E1 E2]. rewrite E1, E2, !app_nil_r in H.
    destruct (existsb rr_err script).
    + apply (f_equal last) in H. rewrite last_snoc, fmap_last in H. by destruct (last (sd_got s)).
    + rewrite app_nil_r in H. apply (f_equal item_bytes) in H. by rewrite !item_bytes_of in H.
  - destruct (existsb rr_err script).
    + split; [|done]. apply app_inj_2 in H as [H _]; [|done]. by apply (f_equal item_bytes) in H; rewrite !item_bytes_of in H.
    + rewrite app_nil_r in H. apply (f_equal last) in H. rewrite last_snoc, fmap_last in H. by destruct (last (script_bytes script)).
Qed.



(** *** What is lost *)

Definition taken_ok (script : list read_result) (s : stdin) : Prop :=
  (length (sd_ch s) <= ch_size)%nat ∧ (length (item_bytes (pending (sd_reader s))) <= 1)%nat ∧
  ∃ taken, script = taken ++ sd_script s ∧
    (taken ≫= λ r, item_bytes (read_items r)) = sd_got s ++ item_bytes (sd_ch s ++ pending (sd_reader s)).

Lemma pending_sent its last : pending (after_send its last) = its.
Proof. by destruct its, last. Qed.

Lemma taken_step script s s' : taken_ok script s → sstep s s' → taken_ok script s'.
Proof.
  intros (Hc & Hp & taken & -> & E) Hs. destruct Hs as [s s' Hm| | |]; try by split_and!; [..|exists taken].
  destruct Hm as [r sc ch c got f|it its l sc ch c got f Hr|b sc r ch c got|sc r ch c got];
    unfold taken_ok; cbn [sd_ch sd_reader sd_script sd_got] in *; rewrite ?pending_sent.
  - split_and!; [done|by destruct r as [[b|] []]; cbn; lia|]. exists (taken ++ [r]). split; [by rewrite <- app_assoc|].
    rewrite bind_app, E. cbn. rewrite !app_nil_r, item_bytes_app. by rewrite <- app_assoc.
  - change (pending (RSending (it :: its) l)) with ([it] ++ its) in *. rewrite item_bytes_app, length_app in Hp.
    split_and!; [rewrite length_app; cbn; lia|lia|]. exists taken. by rewrite E, <- !app_assoc.
  - split_and!; [cbn in Hc; lia|done|]. exists taken. split; [done|]. by rewrite E, <- app_assoc.
  - split_and!; [cbn in Hc; lia|done|]. by exists taken.
Qed.

(** The bytes taken from stdin are those the machine got and at most two more: one
    in the channel, one in the hands of the goroutine.  Those are lost when the
    machine ends, and no longer there for who reads the terminal next. *)
Theorem keys_held script s :
  rtc sstep (new_stdin script) s →
  ∃ taken held, script = taken ++ sd_script s ∧
    (taken ≫= λ r, item_bytes (read_items r)) = sd_got s ++ held ∧ (length held <= 2)%nat.
Proof.
  intros Hr. assert (H : taken_ok script s).
  { assert (H0 : taken_ok script (new_stdin script)) by (split_and!; [cbn; lia..|by exists []]).
    revert H0. induction Hr; eauto using taken_step. }
  destruct H as (Hc & Hp & taken & -> & E). eexists taken, _. split_and!; [done|exact E|].
  rewrite item_bytes_app, length_app. unfold ch_size in Hc. destruct (sd_ch s) as [|[b|] [|??]]; cbn in *; lia.
Qed.

(** Once the machine has ended, a goroutine that holds a byte while another waits
    in the channel stays: nothing receives. *)
Lemma reader_stays s s' :
  sd_fsm s = false → sd_ch s ≠ [] → pending (sd_reader s) ≠ [] → rtc sstep s s' → sd_reader s' = sd_reader s.
Proof.
  intros Hf Hc Hp Hr. enough (sd_fsm s' = false ∧ sd_ch s' = sd_ch s ∧ sd_reader s' = sd_reader s) by tauto.
  induction Hr as [s|s t s' Hst _ IH]; [done|].
  assert (sd_fsm t = false ∧ sd_ch t = sd_ch s ∧ sd_reader t = sd_reader s) as (Hf' & Ec & Er).
  { destruct Hst as [s t Hm| | |]; cbn in *; try done. destruct Hm as [|it its l sc ch c got f Hr| |]; cbn in *; try done.
    destruct ch; [done|]. unfold ch_size in *. cbn in *. lia. }
  rewrite Ec, Er in IH. auto.
Qed.

(** Two keys typed after the chord that detached. *)
Example keys_lost : ∃ s,
  rtc sstep (new_stdin [mkRead (Some 97) false; mkRead (Some 98) false]) s ∧
  sd_got s = [] ∧ sd_script s = [] ∧ sd_reader s = RSending [ByteOf 98] false.
Proof.
  eexists. split.
  - eapply rtc_l; [apply SLeave|]. eapply rtc_l; [apply SMove, MRead|]. eapply rtc_l; [apply SMove, MSend; cbn; unfold ch_size; lia|].
    eapply rtc_l; [apply SMove, MRead|]. apply rtc_refl.
  - done.
Qed.
