(* ===== verification/StateViews.v ===== *)
(** * The readers of a session's state

    [state.json] through [Store.Load] and [LoadStateFile] ([recorder.go], for the
    header of [hoot log]), and the memory of the writer through [GET /state]
    ([Runner.handleState]): when they agree, and when not. *)
From S2P Require Import Prelude GoBase Wire State Store Replay Channel Events.
Open Scope Z_scope.

Section readers.
Context (marshal : StateFile → option (list byte)) (unmarshal : list byte → option StateFile).
Context (encode : StateFile → option (list byte)).  (** [json.Encoder.Encode] *)

(** [fail] is an error of [os.ReadFile] other than a missing file. *)
Definition LoadStateFile (fail : option io_error) (p : path) (f : fs) : res store_error (option StateFile) :=
  match fail with
  | Some e => Err ErrReadState
  | None =>
      match f !! p with
      | None => Ok None
      | Some data => match unmarshal data with None => Err ErrUnmarshal | Some st => Ok (Some st) end
      end
  end.

(** [handleState]: the body; an error is logged, with status 200 all the same. *)
Definition handleState (wr : Writer) : list byte := default [] (encode (Writer_Snapshot wr)).

(** What [hoot log --format asciinema] puts into its header. *)
Definition log_header (fail : option io_error) (dir : path) (f : fs) : AsciicastHeader :=
  AsciicastHeaderFromState (match LoadStateFile fail (state_json dir) f with Ok st => st | Err _ => None end).

(** ** While the session writes *)

(** A recording can be exported while its session runs: at whatever moment of an
    update [state.json] is read, and whether the update succeeds or fails, the
    header is the one before it or the one of the whole new document. *)
Theorem log_header_atomic dir data plan f g :
  plan_ok (state_json dir) plan f → g ∈ (AtomicWriteJSON marshal (state_json dir) data plan f).1 →
  log_header None dir g = log_header None dir f ∨
  ∃ b, marshal data = Some b ∧ log_header None dir g = AsciicastHeaderFromState (unmarshal (b ++ [10])).
Proof.
  intros Hp Hg. destruct (atomic_write_safe marshal _ data plan f Hp) as [Hall _].
  rewrite Forall_forall in Hall. destruct (Hall g Hg) as [[E|(b & Hb & E)] _]; unfold log_header, LoadStateFile; rewrite E.
  - by left.
  - right. exists b. split; [done|]. by destruct (unmarshal _).
Qed.

(** A missing or broken state leaves the header without metadata: the export goes
    on. *)
Lemma log_header_missing fail dir f :
  f !! state_json dir = None → log_header fail dir f = AsciicastHeaderFromState None.
Proof. intros H. unfold log_header, LoadStateFile. destruct fail; [done|]. by rewrite H. Qed.

(** ** The file and the memory *)

Lemma Update_files plan fn wr w x wr' w' :
  plan_ok (state_json (wr_dir wr)) plan (w_files w) → Update marshal plan fn wr w = (x, wr', w') →
  wr' = mkWriter (wr_dir wr) (fn (wr_state wr)) ∧
  match x with
  | Ok _ => ∃ b, marshal (fn (wr_state wr)) = Some b ∧ w_files w' = <[state_json (wr_dir wr) := b ++ [10]]> (w_files w)
  | Err _ => ∀ q, q ≠ wp_tmp plan → w_files w' !! q = w_files w !! q
  end.
Proof.
  intros Hp. unfold Update, flush. cbn [wr_dir wr_state].
  pose proof (AtomicWriteJSON_ok marshal _ (fn (wr_state wr)) plan _ Hp) as H.
  destruct (AtomicWriteJSON _ _ _ _ _) as [gs [u|e]]; cbn [fst snd] in *; intros [= <- <- <-]; by split.
Qed.

(** After an update that succeeds the three readers see the same state: the two of
    the file decode the document it was encoded to. *)
Theorem readers_agree base key plan fn wr w wr' w' :
  wr_dir wr = base ++ [key] → plan_ok (state_json (wr_dir wr)) plan (w_files w) →
  Update marshal plan fn wr w = (Ok tt, wr', w') →
  let st := fn (wr_state wr) in
  (∃ b, marshal st = Some b ∧ Load unmarshal base key w' = read_back unmarshal b ∧
     LoadStateFile None (state_json (wr_dir wr)) (w_files w') =
       match unmarshal (b ++ [10]) with None => Err ErrUnmarshal | Some st' => Ok (Some st') end) ∧
  handleState wr' = default [] (encode st).
Proof.
  intros Hd Hp Hu. destruct (Update_files _ _ _ _ _ _ _ Hp Hu) as (-> & b & Hb & Hf). split; [|done]. exists b. split; [done|].
  unfold Load, LoadStateFile. by rewrite <- Hd, Hf, lookup_insert_eq.
Qed.

(** After one that fails they do not: the files show the state before it, and
    [GET /state] the state that was refused, which [UpdateState] reported as not
    written and did not publish. *)
Theorem failed_update_seen base key plan data wr w r' e :
  wr_dir wr = base ++ [key] → plan_ok (state_json (wr_dir wr)) plan (w_files w) → ∀ b,
  Runner_UpdateState marshal plan (Some data) (mkRunner (Some wr) b w) = (Err (BusStore e), r') →
  rn_bus r' = b ∧ Load unmarshal base key (rn_world r') = Load unmarshal base key w ∧
  ∃ wr', rn_writer r' = Some wr' ∧ handleState wr' = default [] (encode (mkStateFile (sf_Session (wr_state wr)) data)).
Proof.
  intros Hd Hp b. unfold Runner_UpdateState. cbn [rn_writer rn_world rn_bus]. unfold UpdateState.
  destruct (Update _ _ _ _ _) as [[x wr'] w'] eqn:Hu. destruct (Update_files _ _ _ _ _ _ _ Hp Hu) as [-> Hx].
  destruct x as [u|e0]; [destruct (Publish _ _) as [y b'] eqn:Ep; intros [= -> <-]|].
  - exfalso. unfold Publish in Ep. revert Ep. generalize (elements (bus_subs b)). intros ids.
    revert b. induction ids as [|id ids IH]; intros b Ep; [done|]. cbn [for_subs] in Ep. unfold mbind, st_bind in Ep.
    unfold publish_to in Ep at 1. repeat case_match; simplify_eq; eauto.
  - intros [= -> <-]. unfold Load. cbn [rn_world rn_bus rn_writer]. rewrite <- Hd, Hx by (destruct Hp; congruence). split_and!; [done..|]. by eexists.
Qed.

(** A value that JSON cannot express: [UpdateState] answers that it is written,
    while the state and the subscribers keep the old one. *)
Theorem unmarshalable_update plan wr w b x r' :
  Runner_UpdateState marshal plan None (mkRunner (Some wr) b w) = (x, r') →
  (∃ wr', rn_writer r' = Some wr' ∧ Writer_Snapshot wr' = Writer_Snapshot wr) ∧ rn_bus r' = b ∧
  (x = Ok tt ↔ (flush marshal plan wr w).1 = Ok tt).
Proof.
  unfold Runner_UpdateState, UpdateState, Update. cbn [rn_writer rn_world rn_bus]. destruct wr as [d st]. cbn [wr_dir wr_state].
  destruct (flush _ _ _ _) as [[[]|e] w']; intros [= <- <-]; (split_and!; [by eexists|done|done]).
Qed.
End readers.

(** A disk that is full: the update is refused and served. *)
Example full_disk :
  let wr := mkWriter [B"s"; B"k"] doc1 in
  let w := mkWorld {[ state_json [B"s"; B"k"] := [49; 10] ]} ∅ ∅ in
  let plan := mkPlan [B"tmp"] None (Some (1%nat, ErrIO 28)) None None None in
  let x := Runner_UpdateState two_marshal plan (Some [123; 125]) (mkRunner (Some wr) newEventBus w) in
  x.1 = Err (BusStore (ErrWriteTmp (ErrIO 28))) ∧
  w_files (rn_world x.2) !! state_json [B"s"; B"k"] = Some [49; 10] ∧
  (handleState two_marshal <$> rn_writer x.2) = Some (default [] (two_marshal doc2)) ∧ two_marshal doc2 ≠ two_marshal doc1.
Proof. vm_compute. split_and!; done. Qed.
